(** * Domino: a cascading-failure simulator over a service dependency graph

    Shallow embedding of [src/domino.py] and verification of its
    specification.

    Conventions of the embedding.
    - Python floats are idealised as exact rationals ([Q]); every arithmetic
      operation of the engine ([+], [-], [*], [max], [min], [abs], comparisons)
      is closed over [Q].  A sum of rationals does not depend on the order of
      its terms, a sum of doubles does: nothing below is proved from the order
      in which [propagate_health] adds the terms of a degradation.
    - A Python [dict] is an association list in insertion order.  Service
      objects are shared mutable objects: every list of services the source
      builds ([services_to_heal], [failed_services], ...) is a list of
      references, modelled as a list of names read through the current store.
    - A Python [set] of strings is modelled by its insertion history; the
      order in which a set is iterated is not fixed by the language (it
      depends on the per-process string hash seed), so it is a parameter
      [set_iter] of the model.
    - The generator of module [random] is a parameter too: an abstract state
      with the two draws the engine performs.
    - [find_cycle_util] is the only recursive function of the program.
      [simulate] gives it room for one nested call per service, which always
      suffices; [simulate_within] gives it the room an interpreter has left
      and raises RecursionError past it.
    - Wall-clock time stamps and the file system are not modelled; the log is
      a list of structured lines. *)

From Stdlib Require Import List String ZArith QArith Qabs Lia Lqa Bool Permutation.
From Stdlib Require Import Sorted.
Import ListNotations.
Local Open Scope string_scope.
Local Open Scope list_scope.
Local Open Scope Q_scope.

(** ** Exceptions and the error monad *)

Inductive PyError : Type :=
| ValueError_min_empty            (* min() arg is an empty sequence *)
| KeyError (key : string)
| RecursionError                  (* maximum recursion depth exceeded *)
| OutOfFuel.                      (* artefact of the embedding: a while loop ran out of fuel *)

Inductive result (A : Type) : Type :=
| Ok (a : A)
| Raise (e : PyError).
Arguments Ok {A} a.
Arguments Raise {A} e.

Definition bind {A B : Type} (m : result A) (k : A -> result B) : result B :=
  match m with
  | Ok a => k a
  | Raise e => Raise e
  end.

Notation "x <- m ;; k" := (bind m (fun x => k))
  (at level 61, m at next level, right associativity).
Notation "' p <- m ;; k" := (bind m (fun x => match x with p => k end))
  (at level 61, p pattern, m at next level, right associativity).

(** ** Numbers *)

Definition Qleb (a b : Q) : bool := Qle_bool a b.
Definition Qltb (a b : Q) : bool := negb (Qle_bool b a).

(** [max(a, b)] and [min(a, b)] of Python: the first argument wins a tie. *)
Definition py_max (a b : Q) : Q := if Qltb a b then b else a.
Definition py_min (a b : Q) : Q := if Qltb b a then b else a.

(** ** Python sets of strings, as insertion histories *)

Abbreviation PySet := (list string) (only parsing).

Definition set_mem (x : string) (s : PySet) : bool :=
  existsb (String.eqb x) s.

Definition set_add (x : string) (s : PySet) : PySet :=
  if set_mem x s then s else s ++ [x].

Definition set_of_list (l : list string) : PySet :=
  fold_left (fun s x => set_add x s) l [].

(** ** Data model *)

Record Service : Type := mkService {
  name : string;
  depends_on : PySet;
  health : Q;
  initial_health : Q;
  is_failed : bool;
  failed_at_tick : Z;
  recovery_timer : Z
}.

(** One descriptor of the topology input: [{name, depends_on, health}]. *)
Record ServiceData : Type := mkServiceData {
  sd_name : string;
  sd_depends_on : list string;
  sd_health : Q
}.

(** [Service.__init__] *)
Definition Service_init (nm : string) (deps : list string) (h : Q) : Service :=
  {| name := nm;
     depends_on := set_of_list deps;
     health := h;
     initial_health := h;
     is_failed := false;
     failed_at_tick := (-1)%Z;
     recovery_timer := (-1)%Z |}.

Definition set_health (h : Q) (s : Service) : Service :=
  {| name := name s; depends_on := depends_on s; health := h;
     initial_health := initial_health s; is_failed := is_failed s;
     failed_at_tick := failed_at_tick s; recovery_timer := recovery_timer s |}.

Definition set_initial_health (h : Q) (s : Service) : Service :=
  {| name := name s; depends_on := depends_on s; health := health s;
     initial_health := h; is_failed := is_failed s;
     failed_at_tick := failed_at_tick s; recovery_timer := recovery_timer s |}.

Definition set_is_failed (b : bool) (s : Service) : Service :=
  {| name := name s; depends_on := depends_on s; health := health s;
     initial_health := initial_health s; is_failed := b;
     failed_at_tick := failed_at_tick s; recovery_timer := recovery_timer s |}.

Definition set_failed_at_tick (t : Z) (s : Service) : Service :=
  {| name := name s; depends_on := depends_on s; health := health s;
     initial_health := initial_health s; is_failed := is_failed s;
     failed_at_tick := t; recovery_timer := recovery_timer s |}.

Definition set_recovery_timer (t : Z) (s : Service) : Service :=
  {| name := name s; depends_on := depends_on s; health := health s;
     initial_health := initial_health s; is_failed := is_failed s;
     failed_at_tick := failed_at_tick s; recovery_timer := t |}.

(** The dict [graph.services]: name -> Service, in insertion order. *)
Definition Services : Type := list Service.

Definition services_get (n : string) (svcs : Services) : option Service :=
  find (fun s => String.eqb (name s) n) svcs.

Definition services_mem (n : string) (svcs : Services) : bool :=
  match services_get n svcs with Some _ => true | None => false end.

(** Mutation of the object stored under [n]. *)
Definition services_update (n : string) (f : Service -> Service)
    (svcs : Services) : Services :=
  map (fun s => if String.eqb (name s) n then f s else s) svcs.

(** [d[k] = v] on a dict: an existing key keeps its position. *)
Fixpoint services_setitem (v : Service) (svcs : Services) : Services :=
  match svcs with
  | [] => [v]
  | s :: rest =>
      if String.eqb (name s) (name v) then v :: rest
      else s :: services_setitem v rest
  end.

Definition names (svcs : Services) : list string := map name svcs.

(** The configuration object. [cooldown] and [heal_to] are optional keys. *)
Record Config : Type := mkConfig {
  ticks : Z;
  threshold : Q;
  alpha : Q;
  seed : Z;
  cooldown : option Z;
  heal_to : option Q
}.

(** [config['heal_to']] *)
Definition config_heal_to (cfg : Config) : result Q :=
  match heal_to cfg with
  | Some h => Ok h
  | None => Raise (KeyError "heal_to")
  end.

Inductive Event : Type :=
| Glitch (tick : Z) (service : string) (old_health new_health : Q)
| Failure (tick : Z) (service : string) (h : Q).

Record Incident : Type := mkIncident {
  inc_tick : Z;
  inc_roots : list string;
  inc_impacted : list (string * list string);
  inc_priority : string
}.

Record Sample : Type := mkSample {
  smp_tick : Z;
  smp_health : Q;
  smp_is_failed : bool
}.

Inductive LogLine : Type :=
| LogHeader (n : Z) (thr : Q) (sd : Z)
| LogWarnCycle (cycle : list string)
| LogBoot (count : nat)
| LogTick (t : Z)
| LogGlitch (svc : string) (old new : Q)
| LogHeal (svc : string) (h : Q) (t : Z)
| LogRecoveryHeader (svc : string)
| LogRecoveryItem (svc : string) (old new : Q)
| LogInfoHealthy (minh : Q) (svc : string)
| LogAlert (svc : string) (h thr : Q)
| LogInfoNoRoot
| LogBlast (root : string) (impacted : list string)
| LogPriority (roots order : list string)
| LogSuggestion (svc : string)
| LogEnd.

(** ** Generic helpers *)

Fixpoint foldM {A S : Type} (f : S -> A -> result S) (l : list A) (s : S)
    : result S :=
  match l with
  | [] => Ok s
  | x :: rest => s' <- f s x ;; foldM f rest s'
  end.

(** A dict from names to values, in insertion order. *)
Definition dict_get {V : Type} (k : string) (d : list (string * V)) : option V :=
  match find (fun kv => String.eqb (fst kv) k) d with
  | Some kv => Some (snd kv)
  | None => None
  end.

Fixpoint dict_set {V : Type} (k : string) (v : V) (d : list (string * V))
    : list (string * V) :=
  match d with
  | [] => [(k, v)]
  | (k', v') :: rest =>
      if String.eqb k' k then (k, v) :: rest else (k', v') :: dict_set k v rest
  end.

(** [sorted(l)] on strings, by insertion. *)
Fixpoint insert_string (x : string) (l : list string) : list string :=
  match l with
  | [] => [x]
  | y :: rest => if String.leb x y then x :: l else y :: insert_string x rest
  end.

Definition sorted_strings (l : list string) : list string :=
  fold_right insert_string [] l.

Fixpoint list_string_eqb (a b : list string) : bool :=
  match a, b with
  | [], [] => true
  | x :: a', y :: b' => String.eqb x y && list_string_eqb a' b'
  | _, _ => false
  end.

(** [l.index(x)]-based slice [l[l.index(x):]]; [l] itself is never empty here. *)
Fixpoint slice_from (x : string) (l : list string) : list string :=
  match l with
  | [] => []
  | y :: rest => if String.eqb y x then l else slice_from x rest
  end.

(** ** The service graph *)

Record ServiceGraph : Type := mkServiceGraph {
  services : Services;
  rev_adj : list (string * PySet);
  cycles : list (list string);
  sorted_services : option (list string)
}.

Section Engine.

(** Iteration order of a set, as a function of its insertion history. *)
Variable set_iter : PySet -> list string.

(** The generator of module [random]. *)
Variable Rng : Type.
Variable rng_seed : Z -> Rng.
(** [random.choice(seq)] on a sequence of length [n]: the index drawn. *)
Variable rng_choice : Rng -> nat -> nat * Rng.
(** [random.uniform(a, b)] *)
Variable rng_uniform : Rng -> Q -> Q -> Q * Rng.

(** [ServiceGraph.__init__], the dict comprehension. *)
Definition load_services (services_data : list ServiceData) : Services :=
  fold_left
    (fun svcs d =>
       services_setitem (Service_init (sd_name d) (sd_depends_on d) (sd_health d)) svcs)
    services_data [].

(** [rev_adj[dep].add(name)] on a [defaultdict(set)]. *)
Definition rev_adj_add (dep nm : string) (ra : list (string * PySet))
    : list (string * PySet) :=
  match dict_get dep ra with
  | Some s => dict_set dep (set_add nm s) ra
  | None => dict_set dep (set_add nm []) ra
  end.

(** [ServiceGraph.build_reverse_adjacency] *)
Definition build_reverse_adjacency (svcs : Services) : list (string * PySet) :=
  fold_left
    (fun ra service =>
       fold_left
         (fun ra dep =>
            if services_mem dep svcs then rev_adj_add dep (name service) ra
            else ra)
         (set_iter (depends_on service)) ra)
    svcs [].

(** [rev_adj.get(k, [])] *)
Definition rev_adj_get (k : string) (ra : list (string * PySet)) : list string :=
  match dict_get k ra with
  | Some s => set_iter s
  | None => []
  end.

(** [ServiceGraph.find_cycle_util]; the state is
    (visited, recursion_stack, self.cycles).  The recursion depth is bounded
    by the number of services, since each call marks a fresh node visited. *)
Definition CycleState : Type := (PySet * list string * list (list string))%type.

Definition record_cycle (neighbor : string) (st : CycleState) : CycleState :=
  let '(visited, stack, cyc) := st in
  let cycle := slice_from neighbor stack ++ [neighbor] in
  if existsb (list_string_eqb (sorted_strings cycle)) (map sorted_strings cyc)
  then st
  else (visited, stack, cyc ++ [cycle]).

Fixpoint find_cycle_util (fuel : nat) (svcs : Services) (node : string)
    (st : CycleState) : result CycleState :=
  match fuel with
  | O => Raise OutOfFuel
  | S fuel' =>
      let '(visited, stack, cyc) := st in
      let st1 : CycleState := (set_add node visited, stack ++ [node], cyc) in
      let adj_node :=
        match services_get node svcs with
        | Some s => set_iter (depends_on s)
        | None => []
        end in
      st2 <- foldM
        (fun (st : CycleState) neighbor =>
           let '(visited, stack, _) := st in
           if negb (services_mem neighbor svcs) then Ok st
           else if existsb (String.eqb neighbor) stack
                then Ok (record_cycle neighbor st)
           else if negb (set_mem neighbor visited)
                then find_cycle_util fuel' svcs neighbor st
           else Ok st)
        adj_node st1 ;;
      let '(visited2, stack2, cyc2) := st2 in
      Ok (visited2, removelast stack2, cyc2)
  end.

(** The queue loop of Kahn's algorithm in [topological_sort]. *)
Definition in_degree_add (k : string) (delta : Z) (deg : list (string * Z))
    : list (string * Z) :=
  match dict_get k deg with
  | Some v => dict_set k (v + delta)%Z deg
  | None => deg
  end.

Fixpoint kahn_loop (fuel : nat) (ra : list (string * PySet))
    (deg : list (string * Z)) (queue sorted_order : list string)
    : result (list string) :=
  match queue with
  | [] => Ok sorted_order
  | u :: rest =>
      match fuel with
      | O => Raise OutOfFuel
      | S fuel' =>
          let '(deg', queue') :=
            fold_left
              (fun (acc : list (string * Z) * list string) v_name =>
                 let '(deg, queue) := acc in
                 let deg1 := in_degree_add v_name (-1)%Z deg in
                 match dict_get v_name deg1 with
                 | Some 0%Z => (deg1, queue ++ [v_name])
                 | _ => (deg1, queue)
                 end)
              (rev_adj_get u ra) (deg, rest) in
          kahn_loop fuel' ra deg' queue' (sorted_order ++ [u])
      end
  end.

(** [ServiceGraph.topological_sort]: the order (as names), or [None] together
    with the cycles found. *)
Definition topological_sort (svcs : Services) (ra : list (string * PySet))
    : result (option (list string) * list (list string)) :=
  let in_degree0 : list (string * Z) := map (fun s => (name s, 0%Z)) svcs in
  let in_degree :=
    fold_left
      (fun deg service =>
         fold_left
           (fun deg dep =>
              match dict_get dep deg with
              | Some _ => in_degree_add (name service) 1%Z deg
              | None => deg
              end)
           (set_iter (depends_on service)) deg)
      svcs in_degree0 in
  let queue :=
    map fst (filter (fun kv => Z.eqb (snd kv) 0) in_degree) in
  sorted_order <- kahn_loop (S (List.length svcs)) ra in_degree queue [] ;;
  if negb (Nat.eqb (List.length sorted_order) (List.length svcs)) then
    st <- foldM
      (fun (st : CycleState) node =>
         let '(visited, _, _) := st in
         if negb (set_mem node visited)
         then find_cycle_util (S (List.length svcs)) svcs node st
         else Ok st)
      (names svcs) (([] , [], []) : CycleState) ;;
    let '(_, _, cyc) := st in
    Ok (None, cyc)
  else Ok (Some sorted_order, []).

(** [ServiceGraph.__init__] *)
Definition ServiceGraph_init (services_data : list ServiceData)
    : result ServiceGraph :=
  let svcs := load_services services_data in
  let ra := build_reverse_adjacency svcs in
  '(order, cyc) <- topological_sort svcs ra ;;
  Ok {| services := svcs; rev_adj := ra; cycles := cyc; sorted_services := order |}.

(** ** The simulator *)

Record Simulator : Type := mkSimulator {
  graph : ServiceGraph;
  config : Config;
  tick : Z;
  events : list Event;
  incident_log : list Incident;
  service_degradation_history : list (string * list Sample);
  log : list LogLine;
  rng : Rng
}.

(** [Simulator.__init__] *)
Definition Simulator_init (g : ServiceGraph) (cfg : Config) : Simulator :=
  {| graph := g; config := cfg; tick := 0%Z; events := []; incident_log := [];
     service_degradation_history := []; log := []; rng := rng_seed (seed cfg) |}.

(** *** Glitch *)

(** [Simulator.apply_glitch]: the victim (if any), the store and the
    generator after the draws. *)
Definition apply_glitch (cfg : Config) (g : Rng) (svcs : Services)
    : option string * Services * Rng :=
  let eligible := filter (fun s => Qleb (threshold cfg) (health s)) svcs in
  match eligible with
  | [] => (None, svcs, g)
  | first :: _ =>
      let '(i, g1) := rng_choice g (List.length eligible) in
      let victim := nth i eligible first in
      let '(glitch_delta, g2) := rng_uniform g1 (2#10) (5#10) in
      (Some (name victim),
       services_update (name victim)
         (fun s => set_health (py_max 0 (health s - glitch_delta)) s) svcs,
       g2)
  end.

(** *** Degradation propagation *)

(** The inner loop of [propagate_health] over [service.depends_on]. *)
Definition total_degradation (cfg : Config) (svcs : Services) (service : Service)
    : Q :=
  fold_left
    (fun total dep_name =>
       match services_get dep_name svcs with
       | Some dep =>
           if Qltb (health dep) (threshold cfg)
           then total + alpha cfg * (threshold cfg - health dep)
           else total
       | None => total
       end)
    (set_iter (depends_on service)) 0.

(** One iteration of the loop over [services.values()]: the store and the
    [changed] flag. *)
Definition propagate_service (cfg : Config) (acc : Services * bool) (nm : string)
    : Services * bool :=
  let '(svcs, changed) := acc in
  match services_get nm svcs with
  | None => acc
  | Some service =>
      match depends_on service with
      | [] => acc
      | _ :: _ =>
          let total := total_degradation cfg svcs service in
          if Qltb 0 total then
            let new_health := py_max 0 (initial_health service - total) in
            if Qltb (1#1000) (Qabs (new_health - health service))
            then (services_update nm (set_health new_health) svcs, true)
            else acc
          else acc
      end
  end.

(** One sweep: the body of the [for _ in range(...)] loop. *)
Definition sweep (cfg : Config) (svcs : Services) : Services * bool :=
  fold_left (propagate_service cfg) (names svcs) (svcs, false).

(** The bounded loop of [propagate_health]: [n] is what is left of
    [range(len(services))]; the result carries the number of sweeps done. *)
Fixpoint propagate_loop (cfg : Config) (n : nat) (svcs : Services)
    : Services * nat :=
  match n with
  | O => (svcs, O)
  | S n' =>
      let '(svcs', changed) := sweep cfg svcs in
      if changed then
        let '(svcs'', k) := propagate_loop cfg n' svcs' in (svcs'', S k)
      else (svcs', 1%nat)
  end.

(** [Simulator.propagate_health] *)
Definition propagate_health (cfg : Config) (svcs : Services) : Services :=
  fst (propagate_loop cfg (List.length svcs) svcs).

Definition propagate_health_sweeps (cfg : Config) (svcs : Services) : nat :=
  snd (propagate_loop cfg (List.length svcs) svcs).

(** *** Recovery *)

(** State of the walk of [propagate_recovery]: the store, [visited], [queue]
    and [recovered]. *)
Record RecState : Type := mkRecState {
  rs_services : Services;
  rs_visited : PySet;
  rs_queue : list string;
  rs_recovered : list (string * Q * Q)
}.

(** [all(services[dep].health >= threshold for dep in depends_on if dep in services)] *)
Definition all_deps_healthy (cfg : Config) (svcs : Services) (dependent : Service)
    : bool :=
  forallb
    (fun dep =>
       match services_get dep svcs with
       | Some d => Qleb (threshold cfg) (health d)
       | None => true
       end)
    (set_iter (depends_on dependent)).

(** Body of the [for dependent_name in rev_adj.get(current, [])] loop. *)
Definition recovery_visit (cfg : Config) (st : RecState) (dependent_name : string)
    : result RecState :=
  if set_mem dependent_name (rs_visited st) then Ok st
  else
    match services_get dependent_name (rs_services st) with
    | None => Raise (KeyError dependent_name)
    | Some dependent =>
        if all_deps_healthy cfg (rs_services st) dependent then
          h <- config_heal_to cfg ;;
          if Qltb (health dependent) h then
            let old_health := health dependent in
            let improvement := (h - old_health) * (5#10) in
            let new_health := py_min 1 (old_health + improvement) in
            let svcs1 :=
              services_update dependent_name (set_health new_health)
                (rs_services st) in
            let svcs2 :=
              if Qleb (threshold cfg) new_health
              then services_update dependent_name
                     (fun s => set_recovery_timer (-1)%Z (set_is_failed false s))
                     svcs1
              else svcs1 in
            Ok {| rs_services := svcs2;
                  rs_visited := set_add dependent_name (rs_visited st);
                  rs_queue := rs_queue st ++ [dependent_name];
                  rs_recovered :=
                    rs_recovered st ++ [(dependent_name, old_health, new_health)] |}
          else Ok st
        else Ok st
    end.

(** The [while queue] loop of [propagate_recovery]. *)
Fixpoint recovery_loop (fuel : nat) (cfg : Config) (ra : list (string * PySet))
    (st : RecState) : result RecState :=
  match rs_queue st with
  | [] => Ok st
  | current :: rest =>
      match fuel with
      | O => Raise OutOfFuel
      | S fuel' =>
          st' <- foldM (recovery_visit cfg) (rev_adj_get current ra)
                   {| rs_services := rs_services st; rs_visited := rs_visited st;
                      rs_queue := rest; rs_recovered := rs_recovered st |} ;;
          recovery_loop fuel' cfg ra st'
      end
  end.

(** The walk of [propagate_recovery], up to the final logging. Every pass of
    the while loop dequeues a node that was marked visited exactly once, and
    visited nodes are the healed one and services, so [S (length svcs)] passes
    are enough (lemma [recovery_walk_returns]). *)
Definition recovery_walk (cfg : Config) (ra : list (string * PySet))
    (healed_service_name : string) (svcs : Services) : result RecState :=
  recovery_loop (S (List.length svcs)) cfg ra
    {| rs_services := svcs; rs_visited := [healed_service_name];
       rs_queue := [healed_service_name]; rs_recovered := [] |}.

Definition recovery_log (healed_service_name : string)
    (recovered : list (string * Q * Q)) : list LogLine :=
  match recovered with
  | [] => []
  | _ :: _ =>
      LogRecoveryHeader healed_service_name
      :: map (fun r => let '(dep_name, old_h, new_h) := r in
                       LogRecoveryItem dep_name old_h new_h) recovered
  end.

(** [Simulator.propagate_recovery]: the store and the lines logged. *)
Definition propagate_recovery (cfg : Config) (ra : list (string * PySet))
    (healed_service_name : string) (svcs : Services)
    : result (Services * list LogLine) :=
  st <- recovery_walk cfg ra healed_service_name svcs ;;
  Ok (rs_services st, recovery_log healed_service_name (rs_recovered st)).

(** First loop of [handle_recovery]: each iteration reads and writes its own
    service only. *)
Definition tick_timer (service : Service) : Service :=
  if is_failed service && (0 <? recovery_timer service)%Z
  then set_recovery_timer (recovery_timer service - 1)%Z service
  else service.

Definition services_to_heal (svcs : Services) : list string :=
  names (filter (fun s => (recovery_timer s =? 0)%Z) svcs).

(** Body of the second loop of [handle_recovery]. *)
Definition heal_service (cfg : Config) (ra : list (string * PySet)) (t : Z)
    (acc : Services * list LogLine) (nm : string)
    : result (Services * list LogLine) :=
  let '(svcs, lg) := acc in
  h <- config_heal_to cfg ;;
  let svcs1 :=
    services_update nm
      (fun s => set_recovery_timer (-1)%Z (set_is_failed false (set_health h s)))
      svcs in
  '(svcs2, lg2) <- propagate_recovery cfg ra nm svcs1 ;;
  Ok (svcs2, lg ++ [LogHeal nm h t] ++ lg2).

(** [Simulator.handle_recovery] *)
Definition handle_recovery (cfg : Config) (ra : list (string * PySet)) (t : Z)
    (svcs : Services) : result (Services * list LogLine) :=
  match cooldown cfg with
  | None => Ok (svcs, [])
  | Some _ =>
      let svcs1 := map tick_timer svcs in
      foldM (heal_service cfg ra t) (services_to_heal svcs1) (svcs1, [])
  end.

(** *** Root-cause analysis *)

(** Body of the [for neighbor in rev_adj.get(curr, [])] loop of
    [get_blast_radius]; the state is (q, visited, impacted). *)
Definition blast_visit (st : list string * PySet * PySet) (neighbor : string)
    : list string * PySet * PySet :=
  let '(q, visited, impacted) := st in
  if negb (set_mem neighbor visited)
  then (q ++ [neighbor], set_add neighbor visited, set_add neighbor impacted)
  else st.

Fixpoint blast_loop (fuel : nat) (ra : list (string * PySet))
    (st : list string * PySet * PySet) : result PySet :=
  let '(q, visited, impacted) := st in
  match q with
  | [] => Ok impacted
  | curr :: rest =>
      match fuel with
      | O => Raise OutOfFuel
      | S fuel' =>
          blast_loop fuel' ra
            (fold_left blast_visit (rev_adj_get curr ra) (rest, visited, impacted))
      end
  end.

(** [Simulator.get_blast_radius]. Each pass of the while loop dequeues a node
    that was marked visited exactly once; visited nodes are the start node and
    dependents, which are services. *)
Definition get_blast_radius (g : ServiceGraph) (start_node : string)
    : result PySet :=
  blast_loop (S (List.length (services g))) (rev_adj g)
    ([start_node], [start_node], []).

(** The test of the first loop of [perform_rca]. *)
Definition is_root (svcs : Services) (service : Service) : bool :=
  negb (existsb
          (fun dep_name =>
             match services_get dep_name svcs with
             | Some d => is_failed d
             | None => false
             end)
          (set_iter (depends_on service))).

(** [min(l, key=lambda s: s.health)]: the first service of minimal health. *)
Fixpoint min_by_health (best : Service) (l : list Service) : Service :=
  match l with
  | [] => best
  | s :: rest =>
      min_by_health (if Qltb (health s) (health best) then s else best) rest
  end.

Definition py_min_health (l : list Service) : result Service :=
  match l with
  | [] => Raise ValueError_min_empty
  | s :: rest => Ok (min_by_health s rest)
  end.

(** [sorted(l, key=key, reverse=True)]: stable, equal keys keep their order. *)
Fixpoint insert_desc {A : Type} (key : A -> nat) (x : A) (l : list A) : list A :=
  match l with
  | [] => [x]
  | y :: rest =>
      if (key y <=? key x)%nat then x :: l else y :: insert_desc key x rest
  end.

Definition sorted_desc {A : Type} (key : A -> nat) (l : list A) : list A :=
  fold_right (insert_desc key) [] l.

(** The store read through the references of a list of services. *)
Fixpoint deref (svcs : Services) (refs : list string) : list Service :=
  match refs with
  | [] => []
  | n :: rest =>
      match services_get n svcs with
      | Some s => s :: deref svcs rest
      | None => deref svcs rest
      end
  end.

(** What [perform_rca] computes: the roots in discovery order, the dict
    [blast_radii], and the roots sorted for remediation. *)
Record RcaResult : Type := mkRcaResult {
  rca_fallback : bool;
  rca_root_causes : list string;
  rca_blast_radii : list (string * PySet);
  rca_sorted_roots : list string
}.

Definition blast_key (blast_radii : list (string * PySet)) (root : string) : nat :=
  match dict_get root blast_radii with
  | Some radius => List.length radius
  | None => O
  end.

Definition rca_analyse (g : ServiceGraph) (failed_services : list string)
    : result RcaResult :=
  let svcs := services g in
  let failed := deref svcs failed_services in
  let root_causes0 := filter (is_root svcs) failed in
  '(fallback, root_causes) <-
    match root_causes0, failed with
    | [], _ :: _ => m <- py_min_health failed ;; Ok (true, [m])
    | _, _ => Ok (false, root_causes0)
    end ;;
  blast_radii <-
    foldM (fun d root =>
             radius <- get_blast_radius g (name root) ;;
             Ok (dict_set (name root) radius d))
          root_causes [] ;;
  Ok {| rca_fallback := fallback;
        rca_root_causes := names root_causes;
        rca_blast_radii := blast_radii;
        rca_sorted_roots := sorted_desc (blast_key blast_radii) (names root_causes) |}.

(** The lines logged and the incident appended by [perform_rca]. *)
Definition rca_log (r : RcaResult) : list LogLine :=
  (if rca_fallback r then [LogInfoNoRoot] else [])
  ++ flat_map (fun kv => match snd kv with
                         | [] => []
                         | _ :: _ => [LogBlast (fst kv) (set_iter (snd kv))]
                         end) (rca_blast_radii r)
  ++ [LogPriority (rca_root_causes r) (rca_sorted_roots r)]
  ++ match rca_sorted_roots r with
     | [] => []
     | top :: _ => [LogSuggestion top]
     end.

Definition rca_impacted (r : RcaResult) : list (string * list string) :=
  fold_left
    (fun d root =>
       match dict_get root (rca_blast_radii r) with
       | Some radius => dict_set root (set_iter radius) d
       | None => d
       end)
    (rca_root_causes r) [].

Definition rca_incident (t : Z) (r : RcaResult) : list Incident :=
  match rca_sorted_roots r with
  | [] => []
  | top :: _ =>
      [ {| inc_tick := t; inc_roots := rca_root_causes r;
           inc_impacted := rca_impacted r; inc_priority := top |} ]
  end.

(** [Simulator.perform_rca] *)
Definition perform_rca (g : ServiceGraph) (t : Z) (failed_services : list string)
    : result (list LogLine * list Incident) :=
  r <- rca_analyse g failed_services ;;
  Ok (rca_log r, rca_incident t r).

(** *** The tick pipeline *)

Definition with_services (g : ServiceGraph) (svcs : Services) : ServiceGraph :=
  {| services := svcs; rev_adj := rev_adj g; cycles := cycles g;
     sorted_services := sorted_services g |}.

(** [history[name].append(sample)] on a [defaultdict(list)]. *)
Definition history_append (nm : string) (x : Sample)
    (h : list (string * list Sample)) : list (string * list Sample) :=
  match dict_get nm h with
  | Some l => dict_set nm (l ++ [x]) h
  | None => dict_set nm [x] h
  end.

(** First loop of [run_tick]: the per-tick baseline and the history sample. *)
Definition snapshot (svcs : Services) : Services :=
  map (fun s => set_initial_health (health s) s) svcs.

Definition record_history (t : Z) (svcs : Services)
    (h : list (string * list Sample)) : list (string * list Sample) :=
  fold_left
    (fun h s =>
       history_append (name s)
         {| smp_tick := t; smp_health := health s; smp_is_failed := is_failed s |} h)
    svcs h.

(** The glitch line and event of [run_tick]; the victim is read after the
    glitch, so [initial_health] is its health before. *)
Definition glitch_report (t : Z) (victim : option string) (svcs : Services)
    : list LogLine * list Event :=
  match victim with
  | None => ([], [])
  | Some nm =>
      match services_get nm svcs with
      | Some v =>
          ([LogGlitch nm (initial_health v) (health v)],
           [Glitch t nm (initial_health v) (health v)])
      | None => ([], [])
      end
  end.

(** Steps 1 and 2 of the tick: snapshot with history sample, then glitch. *)
Definition tick_glitch (sim : Simulator) : Simulator :=
  let g := graph sim in
  let t := tick sim in
  let svcs1 := snapshot (services g) in
  let hist := record_history t (services g) (service_degradation_history sim) in
  let '(victim, svcs2, rng') := apply_glitch (config sim) (rng sim) svcs1 in
  let '(glitch_log, glitch_events) := glitch_report t victim svcs2 in
  {| graph := with_services g svcs2; config := config sim; tick := t;
     events := events sim ++ glitch_events;
     incident_log := incident_log sim;
     service_degradation_history := hist;
     log := log sim ++ glitch_log;
     rng := rng' |}.

(** Step 3 of the tick: [self.handle_recovery()]. *)
Definition tick_recovery (sim : Simulator) : result Simulator :=
  let g := graph sim in
  '(svcs3, recovery_lines) <-
    handle_recovery (config sim) (rev_adj g) (tick sim) (services g) ;;
  Ok {| graph := with_services g svcs3; config := config sim; tick := tick sim;
        events := events sim; incident_log := incident_log sim;
        service_degradation_history := service_degradation_history sim;
        log := log sim ++ recovery_lines;
        rng := rng sim |}.

(** Step 4 of the tick: [self.propagate_health()]. *)
Definition tick_propagate (sim : Simulator) : Simulator :=
  let g := graph sim in
  {| graph := with_services g (propagate_health (config sim) (services g));
     config := config sim; tick := tick sim;
     events := events sim; incident_log := incident_log sim;
     service_degradation_history := service_degradation_history sim;
     log := log sim; rng := rng sim |}.

(** The loop over [newly_failed] of [run_tick]. *)
Definition mark_failed (cfg : Config) (t : Z) (s : Service) : Service :=
  set_recovery_timer (match cooldown cfg with Some c => c | None => (-1)%Z end)
    (set_failed_at_tick t (set_is_failed true s)).

Definition mark_newly_failed (cfg : Config) (t : Z) (newly_failed : list string)
    (svcs : Services) : Services :=
  fold_left (fun svcs nm => services_update nm (mark_failed cfg t) svcs)
    newly_failed svcs.

(** Steps 5 to 7 of the tick. *)
Definition tick_classify (sim : Simulator) : result Simulator :=
  let cfg := config sim in
  let g := graph sim in
  let t := tick sim in
  let svcs := services g in
  let failed := filter (fun s => Qltb (health s) (threshold cfg)) svcs in
  match failed with
  | [] =>
      m <- py_min_health svcs ;;
      Ok {| graph := g; config := cfg; tick := t; events := events sim;
            incident_log := incident_log sim;
            service_degradation_history := service_degradation_history sim;
            log := log sim ++ [LogInfoHealthy (health m) (name m)];
            rng := rng sim |}
  | _ :: _ =>
      let failed_services := names failed in
      let newly_failed := filter (fun s => negb (is_failed s)) failed in
      let svcs' := mark_newly_failed cfg t (names newly_failed) svcs in
      let g' := with_services g svcs' in
      let alerts :=
        map (fun s => LogAlert (name s) (health s) (threshold cfg)) newly_failed in
      let failures := map (fun s => Failure t (name s) (health s)) newly_failed in
      '(rca_lines, incidents) <-
        match newly_failed with
        | [] => Ok ([], [])
        | _ :: _ => perform_rca g' t failed_services
        end ;;
      Ok {| graph := g'; config := cfg; tick := t;
            events := events sim ++ failures;
            incident_log := incident_log sim ++ incidents;
            service_degradation_history := service_degradation_history sim;
            log := log sim ++ alerts ++ rca_lines;
            rng := rng sim |}
  end.

(** [Simulator.run_tick] *)
Definition run_tick (sim : Simulator) : result Simulator :=
  sim3 <- tick_recovery (tick_glitch sim) ;;
  tick_classify (tick_propagate sim3).

Definition set_tick (t : Z) (sim : Simulator) : Simulator :=
  {| graph := graph sim; config := config sim; tick := t; events := events sim;
     incident_log := incident_log sim;
     service_degradation_history := service_degradation_history sim;
     log := log sim; rng := rng sim |}.

Definition add_log (lines : list LogLine) (sim : Simulator) : Simulator :=
  {| graph := graph sim; config := config sim; tick := tick sim;
     events := events sim; incident_log := incident_log sim;
     service_degradation_history := service_degradation_history sim;
     log := log sim ++ lines; rng := rng sim |}.

(** The loop [for self.tick in range(1, ticks + 1)], [n] ticks from [t]. *)
Fixpoint run_ticks (n : nat) (t : Z) (sim : Simulator) : result Simulator :=
  match n with
  | O => Ok sim
  | S n' =>
      sim' <- run_tick (add_log [LogTick t] (set_tick t sim)) ;;
      run_ticks n' (t + 1)%Z sim'
  end.

(** [Simulator.run] *)
Definition run (sim : Simulator) : result Simulator :=
  let cfg := config sim in
  let g := graph sim in
  let header := [LogHeader (ticks cfg) (threshold cfg) (seed cfg)] in
  let '(warns, g') :=
    match sorted_services g with
    | Some (_ :: _) => ([], g)
    | _ =>
        (map LogWarnCycle (cycles g),
         {| services := services g; rev_adj := rev_adj g; cycles := cycles g;
            sorted_services := Some (names (services g)) |})
    end in
  let sim0 :=
    {| graph := g'; config := cfg; tick := tick sim; events := events sim;
       incident_log := incident_log sim;
       service_degradation_history := service_degradation_history sim;
       log := log sim ++ header ++ warns
              ++ [LogBoot (List.length (services g))];
       rng := rng sim |} in
  sim' <- run_ticks (Z.to_nat (ticks cfg)) 1%Z sim0 ;;
  Ok (add_log [LogEnd] sim').

(** [main], up to the queries: build the graph, the simulator, and run. *)
Definition simulate (services_data : list ServiceData) (cfg : Config)
    : result Simulator :=
  g <- ServiceGraph_init services_data ;;
  run (Simulator_init g cfg).

(** ** Queries *)

Inductive WhyFailing : Type :=
| WhyNotFound (svc : string)
| WhyHealthy (svc : string) (h : Q)
| WhyIndependent (svc : string) (h : Q) (failed_at : option Z)
    (glitch : option Event) (blast : list string)
| WhyCascade (svc : string) (h : Q) (failed_at : option Z)
    (failed_deps : list (string * Q * Z)) (blast : list string).

(** [services[d]] *)
Definition services_getitem (n : string) (svcs : Services) : result Service :=
  match services_get n svcs with
  | Some s => Ok s
  | None => Raise (KeyError n)
  end.

Definition is_glitch_of (nm : string) (e : Event) : bool :=
  match e with
  | Glitch _ svc _ _ => String.eqb svc nm
  | Failure _ _ _ => false
  end.

(** [QueryHandler.query_why_failing] *)
Definition query_why_failing (sim : Simulator) (service_name : string)
    : result WhyFailing :=
  let svcs := services (graph sim) in
  let thr := threshold (config sim) in
  match services_get service_name svcs with
  | None => Ok (WhyNotFound service_name)
  | Some service =>
      if Qleb thr (health service) then Ok (WhyHealthy service_name (health service))
      else
        let failed_at :=
          if (0 <? failed_at_tick service)%Z then Some (failed_at_tick service)
          else None in
        failed_deps <-
          foldM (fun acc d =>
                   dep <- services_getitem d svcs ;;
                   if Qltb (health dep) thr then Ok (acc ++ [d]) else Ok acc)
                (set_iter (depends_on service)) [] ;;
        let blast := sorted_strings (rev_adj_get service_name (rev_adj (graph sim))) in
        match failed_deps with
        | [] =>
            Ok (WhyIndependent service_name (health service) failed_at
                  (last (map Some (filter (is_glitch_of service_name) (events sim))) None)
                  blast)
        | _ :: _ =>
            deps <- foldM (fun acc dep =>
                             d <- services_getitem dep svcs ;;
                             Ok (acc ++ [(dep, health d, failed_at_tick d)]))
                          failed_deps [] ;;
            Ok (WhyCascade service_name (health service) failed_at deps blast)
        end
  end.

End Engine.

Arguments Simulator_init {Rng} rng_seed g cfg.
Arguments graph {Rng} s.
Arguments config {Rng} s.
Arguments tick {Rng} s.
Arguments events {Rng} s.
Arguments incident_log {Rng} s.
Arguments service_degradation_history {Rng} s.
Arguments log {Rng} s.
Arguments rng {Rng} s.
Arguments apply_glitch {Rng} rng_choice rng_uniform cfg g svcs.
Arguments tick_glitch {Rng} rng_choice rng_uniform sim.
Arguments tick_recovery set_iter {Rng} sim.
Arguments tick_propagate set_iter {Rng} sim.
Arguments tick_classify set_iter {Rng} sim.
Arguments run_tick set_iter {Rng} rng_choice rng_uniform sim.
Arguments run_ticks set_iter {Rng} rng_choice rng_uniform n t sim.
Arguments run set_iter {Rng} rng_choice rng_uniform sim.
Arguments simulate set_iter {Rng} rng_seed rng_choice rng_uniform services_data cfg.
Arguments query_why_failing set_iter {Rng} sim service_name.
Arguments set_tick {Rng} t sim.
Arguments add_log {Rng} lines sim.

(** ** Concrete environments, used to run the model *)

(** Two iteration orders for sets: insertion order and its reverse. *)
Definition iter_insertion (s : PySet) : list string := s.
Definition iter_reversed (s : PySet) : list string := rev s.

(** A scripted generator: the draws still to come, as pairs of a choice index
    and a glitch delta; draws are forced into the range of the call. *)
Definition ScriptRng : Type := list (nat * Q).

Definition script_seed (script : ScriptRng) (_ : Z) : ScriptRng := script.

Definition script_choice (g : ScriptRng) (n : nat) : nat * ScriptRng :=
  match g with
  | [] => (O, [])
  | (i, _) :: _ => (if (i <? n)%nat then i else O, g)
  end.

Definition script_uniform (g : ScriptRng) (a b : Q) : Q * ScriptRng :=
  match g with
  | [] => (a, [])
  | (_, q) :: rest => (if Qltb q a then a else if Qltb b q then b else q, rest)
  end.

(** Topology of the dangling-dependency scenario: one service below the
    threshold whose only dependency is not a service. *)
Definition dangling_data : list ServiceData :=
  [ {| sd_name := "A"; sd_depends_on := ["ghost"]; sd_health := 5#10 |} ].

Definition one_tick_config : Config :=
  {| ticks := 1; threshold := 7#10; alpha := 1; seed := 0;
     cooldown := None; heal_to := None |}.

(** The store after [k] sweeps of the propagator. *)
Fixpoint iter_sweeps (set_iter : PySet -> list string) (cfg : Config) (k : nat)
    (svcs : Services) : Services :=
  match k with
  | O => svcs
  | S k' => iter_sweeps set_iter cfg k' (fst (sweep set_iter cfg svcs))
  end.

(** The two mutations of the recovery phase, as functions on a service: the
    heal of [handle_recovery] and the bump of [propagate_recovery]. *)
Definition heal (h : Q) (s : Service) : Service :=
  set_recovery_timer (-1)%Z (set_is_failed false (set_health h s)).

Definition bump_health (h old_health : Q) : Q :=
  py_min 1 (old_health + (h - old_health) * (5#10)).

Definition bump_to (thr new_health : Q) (s : Service) : Service :=
  if Qleb thr new_health
  then set_recovery_timer (-1)%Z (set_is_failed false (set_health new_health s))
  else set_health new_health s.

(** Configuration of the cooldown scenarios: heal after two ticks, to 0.9. *)
Definition cooldown_config : Config :=
  {| ticks := 3; threshold := 7#10; alpha := 1; seed := 0;
     cooldown := Some 2%Z; heal_to := Some (9#10) |}.

(** A service that failed at tick 1 under [cooldown_config], as tick 1 leaves
    it (timer 2), and the same service one tick before its heal (timer 1). *)
Definition waiting_service : Service :=
  {| name := "X"; depends_on := []; health := 4#10; initial_health := 4#10;
     is_failed := true; failed_at_tick := 1; recovery_timer := 2 |}.

Definition due_service : Service :=
  {| name := "X"; depends_on := []; health := 4#10; initial_health := 4#10;
     is_failed := true; failed_at_tick := 1; recovery_timer := 1 |}.

(** No timer is running and none is due. *)
Definition quiet (svcs : Services) : Prop :=
  forall s, In s svcs ->
    (is_failed s = true -> (recovery_timer s <= 0)%Z)
    /\ recovery_timer s <> 0%Z.

(** Reverse adjacency only mentions services: what [build_reverse_adjacency]
    guarantees (lemma [build_reverse_adjacency_wf]). *)
Definition rev_adj_wf (set_iter : PySet -> list string)
    (ra : list (string * PySet)) (nms : list string) : Prop :=
  forall k d, In d (rev_adj_get set_iter k ra) -> In d nms.

(** The names of the [recovered] list of [propagate_recovery]. *)
Definition recovered_names (recovered : list (string * Q * Q)) : list string :=
  map (fun r => fst (fst r)) recovered.

(** Invariant of the walk of [propagate_recovery] from [healed] over a store
    with service names [nms]. *)
Definition walk_wf (healed : string) (nms : list string) (st : RecState) : Prop :=
  names (rs_services st) = nms
  /\ NoDup (rs_visited st)
  /\ incl (rs_visited st) (healed :: nms)
  /\ rs_visited st = healed :: recovered_names (rs_recovered st)
  /\ incl (rs_queue st) (rs_visited st).

(** Invariant of the walk of [get_blast_radius] from [start]. *)
Definition blast_wf (start : string) (nms : list string)
    (st : list string * PySet * PySet) : Prop :=
  let '(q, visited, impacted) := st in
  visited = start :: impacted /\ NoDup visited /\ incl visited (start :: nms).

(** The zero-cooldown scenario: one service at 0.9, a first glitch of 0.5. *)
Definition cooldown0_config : Config :=
  {| ticks := 2; threshold := 7#10; alpha := 1; seed := 0;
     cooldown := Some 0%Z; heal_to := Some (9#10) |}.

Definition single_graph : ServiceGraph :=
  {| services := [Service_init "X" [] (9#10)]; rev_adj := []; cycles := [];
     sorted_services := Some ["X"] |}.

Definition cooldown0_sim : Simulator ScriptRng :=
  set_tick 1 (Simulator_init (script_seed [(O, 5#10)]) single_graph cooldown0_config).

(** Health, and the baseline the propagator starts from, within range. *)
Definition health_in_range (s : Service) : Prop :=
  0 <= health s <= 1 /\ initial_health s <= 1.

(** The observable points of a run on topology [data] under configuration
    [cfg]: the simulator as built, and the simulator after each phase of each
    tick (bookkeeping that leaves the store and the configuration alone,
    such as advancing the tick counter or logging, is [obs_frame]). *)
Inductive observable (set_iter : PySet -> list string) {Rng : Type}
    (rng_seed : Z -> Rng) (rng_choice : Rng -> nat -> nat * Rng)
    (rng_uniform : Rng -> Q -> Q -> Q * Rng)
    (data : list ServiceData) (cfg : Config) : Simulator Rng -> Prop :=
| obs_init (g : ServiceGraph) :
    ServiceGraph_init set_iter data = Ok g ->
    observable set_iter rng_seed rng_choice rng_uniform data cfg
      (Simulator_init rng_seed g cfg)
| obs_frame (sim sim' : Simulator Rng) :
    observable set_iter rng_seed rng_choice rng_uniform data cfg sim ->
    services (graph sim') = services (graph sim) ->
    config sim' = config sim ->
    observable set_iter rng_seed rng_choice rng_uniform data cfg sim'
| obs_glitch (sim : Simulator Rng) :
    observable set_iter rng_seed rng_choice rng_uniform data cfg sim ->
    observable set_iter rng_seed rng_choice rng_uniform data cfg
      (tick_glitch rng_choice rng_uniform sim)
| obs_recovery (sim sim' : Simulator Rng) :
    observable set_iter rng_seed rng_choice rng_uniform data cfg sim ->
    tick_recovery set_iter sim = Ok sim' ->
    observable set_iter rng_seed rng_choice rng_uniform data cfg sim'
| obs_propagate (sim : Simulator Rng) :
    observable set_iter rng_seed rng_choice rng_uniform data cfg sim ->
    observable set_iter rng_seed rng_choice rng_uniform data cfg
      (tick_propagate set_iter sim)
| obs_classify (sim sim' : Simulator Rng) :
    observable set_iter rng_seed rng_choice rng_uniform data cfg sim ->
    tick_classify set_iter sim = Ok sim' ->
    observable set_iter rng_seed rng_choice rng_uniform data cfg sim'.

(** A topology with an input health above 1. *)
Definition overhealthy_data : list ServiceData :=
  [ {| sd_name := "A"; sd_depends_on := []; sd_health := 15#10 |} ].

(** The two-service chain of the minimal cascade: B depends on A. *)
Definition chain_data : list ServiceData :=
  [ {| sd_name := "A"; sd_depends_on := []; sd_health := 1 |};
    {| sd_name := "B"; sd_depends_on := ["A"]; sd_health := 1 |} ].

(** A service is at or above what the propagation rule can assign to it:
    either none of its dependencies is a service of the graph (the rule never
    applies to it), or its health is non-negative and either at least its
    baseline, or at least its baseline minus its current, positive,
    degradation. *)
Definition above_rule (set_iter : PySet -> list string) (cfg : Config)
    (svcs : Services) (s : Service) : Prop :=
  (forall d, In d (set_iter (depends_on s)) -> services_get d svcs = None)
  \/ (0 <= health s
      /\ (initial_health s <= health s
          \/ (0 < total_degradation set_iter cfg svcs s
              /\ initial_health s - total_degradation set_iter cfg svcs s
                 <= health s))).

(** A store ready for propagation: names are unique (it is a dict) and
    every service is at or above what the rule can assign. *)
Definition ready (set_iter : PySet -> list string) (cfg : Config)
    (svcs : Services) : Prop :=
  NoDup (names svcs) /\ Forall (above_rule set_iter cfg svcs) svcs.

(** Same service, same baseline, health not higher. *)
Definition not_higher (s s' : Service) : Prop :=
  name s' = name s /\ depends_on s' = depends_on s
  /\ initial_health s' = initial_health s /\ health s' <= health s.

(** The store of a run on the chain A <- B, in tick 2, when propagation
    starts: A failed at 0.65 in tick 1 (B was set to 0.95), and the glitch of
    tick 2 took B from its baseline 0.95 down to 0.65. *)
Definition glitched_config : Config :=
  {| ticks := 1; threshold := 7#10; alpha := 1; seed := 0;
     cooldown := None; heal_to := None |}.

Definition glitched_data : list ServiceData :=
  [ {| sd_name := "A"; sd_depends_on := []; sd_health := 9#10 |};
    {| sd_name := "B"; sd_depends_on := ["A"]; sd_health := 1 |} ].

Definition glitched_script : ScriptRng := [(O, 25#100); (O, 3#10)].

(** The store of the minimal cascade in tick 1, when propagation starts: the
    glitch took A (no dependency) from 1 to 0.5; B depends on A. *)
Definition cascade_store : Services :=
  [ {| name := "A"; depends_on := []; health := 5#10; initial_health := 1;
       is_failed := false; failed_at_tick := (-1)%Z; recovery_timer := (-1)%Z |};
    {| name := "B"; depends_on := ["A"]; health := 1; initial_health := 1;
       is_failed := false; failed_at_tick := (-1)%Z; recovery_timer := (-1)%Z |} ].

(** A graph for the root-cause scenarios: A, B (depends on A) and C are
    failed; D and E depend on C and are healthy. *)
Definition rca_service (nm : string) (deps : list string) (h : Q) (failed : bool)
    : Service :=
  {| name := nm; depends_on := deps; health := h; initial_health := h;
     is_failed := failed; failed_at_tick := (if failed then 1 else -1)%Z;
     recovery_timer := (-1)%Z |}.

Definition rca_graph : ServiceGraph :=
  {| services :=
       [ rca_service "A" [] (4#10) true; rca_service "B" ["A"] (3#10) true;
         rca_service "C" [] (2#10) true; rca_service "D" ["C"] (9#10) false;
         rca_service "E" ["C"] (9#10) false ];
     rev_adj := [("A", ["B"]); ("C", ["D"; "E"])];
     cycles := [];
     sorted_services := Some ["A"; "C"; "B"; "D"; "E"] |}.

(** What the walk of [propagate_recovery] has done so far to the store
    [svcs0] it started from: every bumped service was reached as a dependent
    of a visited node, services that were not bumped are untouched, and a
    bumped service received exactly one bump. *)
Definition walk_effect (set_iter : PySet -> list string) (cfg : Config)
    (ra : list (string * PySet)) (h : Q) (svcs0 : Services) (st : RecState)
    : Prop :=
  (forall d, In d (recovered_names (rs_recovered st)) ->
     exists parent,
       In parent (rs_visited st) /\ In d (rev_adj_get set_iter parent ra))
  /\ (forall n, ~ In n (recovered_names (rs_recovered st)) ->
        services_get n (rs_services st) = services_get n svcs0)
  /\ (forall n, In n (recovered_names (rs_recovered st)) ->
        exists s,
          services_get n svcs0 = Some s /\ health s < h
          /\ In (n, health s, bump_health h (health s)) (rs_recovered st)
          /\ services_get n (rs_services st)
             = Some (bump_to (threshold cfg) (bump_health h (health s)) s)).

(** The ripple walk as the specification words it: a dependent met for the
    first time is marked visited and enqueued whether or not it was bumped. *)
Definition recovery_visit_as_specified (set_iter : PySet -> list string)
    (cfg : Config) (st : RecState) (dependent_name : string) : result RecState :=
  if set_mem dependent_name (rs_visited st) then Ok st
  else
    match services_get dependent_name (rs_services st) with
    | None => Raise (KeyError dependent_name)
    | Some dependent =>
        '(svcs', recovered') <-
          (if all_deps_healthy set_iter cfg (rs_services st) dependent then
             h <- config_heal_to cfg ;;
             if Qltb (health dependent) h then
               let new_health := bump_health h (health dependent) in
               Ok (services_update dependent_name
                     (bump_to (threshold cfg) new_health) (rs_services st),
                   rs_recovered st
                   ++ [(dependent_name, health dependent, new_health)])
             else Ok (rs_services st, rs_recovered st)
           else Ok (rs_services st, rs_recovered st)) ;;
        Ok {| rs_services := svcs';
              rs_visited := set_add dependent_name (rs_visited st);
              rs_queue := rs_queue st ++ [dependent_name];
              rs_recovered := recovered' |}
    end.

Fixpoint recovery_loop_as_specified (set_iter : PySet -> list string)
    (fuel : nat) (cfg : Config) (ra : list (string * PySet)) (st : RecState)
    : result RecState :=
  match rs_queue st with
  | [] => Ok st
  | current :: rest =>
      match fuel with
      | O => Raise OutOfFuel
      | S fuel' =>
          st' <- foldM (recovery_visit_as_specified set_iter cfg)
                   (rev_adj_get set_iter current ra)
                   {| rs_services := rs_services st; rs_visited := rs_visited st;
                      rs_queue := rest; rs_recovered := rs_recovered st |} ;;
          recovery_loop_as_specified set_iter fuel' cfg ra st'
      end
  end.

Definition recovery_walk_as_specified (set_iter : PySet -> list string)
    (cfg : Config) (ra : list (string * PySet)) (healed_service_name : string)
    (svcs : Services) : result RecState :=
  recovery_loop_as_specified set_iter (S (List.length svcs)) cfg ra
    {| rs_services := svcs; rs_visited := [healed_service_name];
       rs_queue := [healed_service_name]; rs_recovered := [] |}.

(** The chain A <- B <- C (C depends on B, B on A), A just healed to 0.9. *)
Definition chain3_rev_adj : list (string * PySet) := [("A", ["B"]); ("B", ["C"])].

(** B and C both at 0.5: the ripple of the specification's scenario 4. *)
Definition ripple_store : Services :=
  [ rca_service "A" [] (9#10) false; rca_service "B" ["A"] (5#10) true;
    rca_service "C" ["B"] (5#10) true ].

(** B above [heal_to] (0.95), so not bumped; C at 0.5 behind it. *)
Definition stalled_store : Services :=
  [ rca_service "A" [] (9#10) false; rca_service "B" ["A"] (95#100) false;
    rca_service "C" ["B"] (5#10) true ].

(** The names that [build_reverse_adjacency] inserts under key [k], in
    insertion order: the services that list [k] among their dependencies. *)
Definition dependents_history (k : string) (svcs : Services) : PySet :=
  fold_left
    (fun acc s => if set_mem k (depends_on s) then set_add (name s) acc else acc)
    svcs [].

(** What a [defaultdict(set)] holds under a key once its history is known:
    keys are created on first insertion only. *)
Definition nonempty_set (s : PySet) : option PySet :=
  match s with
  | [] => None
  | _ :: _ => Some s
  end.

(** A dependent qualifies for a ripple bump in store [x]. *)
Definition eligible (set_iter : PySet -> list string) (cfg : Config) (h : Q)
    (x : Services) (d : string) : Prop :=
  exists dep,
    services_get d x = Some dep
    /\ all_deps_healthy set_iter cfg x dep = true
    /\ health dep < h.

(** The reverse adjacency lists, under each service, exactly its dependents. *)
Definition ra_correct (set_iter : PySet -> list string)
    (ra : list (string * PySet)) (svcs : Services) : Prop :=
  forall k d,
    In d (rev_adj_get set_iter k ra) <->
    (In k (names svcs)
     /\ exists s, In s svcs /\ name s = d /\ In k (depends_on s)).

(** The part of the store that never changes: names and dependencies. *)
Definition skeleton (svcs : Services) : list (string * PySet) :=
  map (fun s => (name s, depends_on s)) svcs.

(** Invariant of the walk of [propagate_recovery]: a dependent of a visited
    node that is not visited and qualifies for a bump still has a parent in
    the queue, or is one of the neighbours [l] still to be looked at. *)
Definition pending (set_iter : PySet -> list string) (cfg : Config)
    (ra : list (string * PySet)) (h : Q) (l : list string) (st : RecState)
    : Prop :=
  forall d,
    ~ In d (rs_visited st) ->
    eligible set_iter cfg h (rs_services st) d ->
    (exists c, In c (rs_visited st) /\ In d (rev_adj_get set_iter c ra)) ->
    (exists z, In z (rs_queue st) /\ In d (rev_adj_get set_iter z ra))
    \/ In d l.

(** The chain A <- B <- C, all at 1.0 but A at 0.9: a glitch of 0.5 on A
    fails it, with B and C in its blast radius. *)
Definition chain3_data : list ServiceData :=
  [ {| sd_name := "A"; sd_depends_on := []; sd_health := 9#10 |};
    {| sd_name := "B"; sd_depends_on := ["A"]; sd_health := 1 |};
    {| sd_name := "C"; sd_depends_on := ["B"]; sd_health := 1 |} ].

(** The draws of the three-service chain scenario: the glitch picks the first
    eligible service and takes 0.5 off its health. *)
Definition chain3_script : ScriptRng := [(O, 5#10)].

(** [e['tick']] and the tests on [e['type']]. *)
Definition event_tick (e : Event) : Z :=
  match e with
  | Glitch t _ _ _ => t
  | Failure t _ _ => t
  end.

Definition is_glitch (e : Event) : bool :=
  match e with
  | Glitch _ _ _ _ => true
  | Failure _ _ _ => false
  end.

Definition is_failure (e : Event) : bool := negb (is_glitch e).

Definition event_service (e : Event) : string :=
  match e with
  | Glitch _ n _ _ => n
  | Failure _ n _ => n
  end.

(** What a run on topology [data] under [cfg] never changes: the
    configuration, the names and dependencies of the services, and the
    reverse adjacency built at construction. *)
Definition run_state (set_iter : PySet -> list string) {Rng : Type}
    (data : list ServiceData) (cfg : Config) (sim : Simulator Rng) : Prop :=
  config sim = cfg
  /\ skeleton (services (graph sim)) = skeleton (load_services data)
  /\ rev_adj (graph sim) = build_reverse_adjacency set_iter (load_services data).

(** What the engine guarantees of an event of the ledger, for a graph with
    service names [nms]: a glitch took a service that was at or above the
    threshold down by a delta of the range drawn from; a failure records a
    health below the threshold. *)
Definition event_sound (cfg : Config) (nms : list string) (e : Event) : Prop :=
  In (event_service e) nms
  /\ match e with
     | Glitch _ _ old_health new_health =>
         threshold cfg <= old_health
         /\ exists delta,
              2#10 <= delta <= 5#10
              /\ new_health = py_max 0 (old_health - delta)
     | Failure _ _ h => h < threshold cfg
     end.

(** The glitch events of tick [t]. *)
Definition glitches_at (t : Z) (evs : list Event) : list Event :=
  filter (fun e => is_glitch e && (event_tick e =? t)%Z) evs.

(** The invariant of the event ledger once [k] ticks are done. *)
Definition ledger_ok (cfg : Config) (nms : list string) (k : nat)
    (evs : list Event) : Prop :=
  Forall (fun e => (1 <= event_tick e <= Z.of_nat k)%Z) evs
  /\ StronglySorted Z.le (map event_tick evs)
  /\ Forall (event_sound cfg nms) evs
  /\ forall t, (List.length (glitches_at t evs) <= 1)%nat.

(** The services of the failure events of a ledger, in ledger order. *)
Definition failure_names (evs : list Event) : list string :=
  map event_service (filter is_failure evs).

(** Within a tick: a failed service and its baseline are below the
    threshold. *)
Definition failed_low (thr : Q) (z : Services) : Prop :=
  forall n s, services_get n z = Some s -> is_failed s = true ->
    health s < thr /\ initial_health s < thr.

(** Store [z] has the failure bookkeeping of store [x]. *)
Definition flags_kept (x z : Services) : Prop :=
  forall n s, services_get n x = Some s ->
    exists s', services_get n z = Some s'
               /\ is_failed s' = is_failed s
               /\ failed_at_tick s' = failed_at_tick s
               /\ recovery_timer s' = recovery_timer s.

(** The failure events of the ledger and the failed services of the store
    are the same services: one failure event per failed service, at the
    tick the service records, and a failed service is below the threshold. *)
Definition failures_recorded (thr : Q) (svcs : Services) (evs : list Event)
    : Prop :=
  NoDup (failure_names evs)
  /\ (forall t n h, In (Failure t n h) evs ->
        exists s, services_get n svcs = Some s /\ is_failed s = true
                  /\ failed_at_tick s = t /\ health s < thr)
  /\ (forall n s, services_get n svcs = Some s -> is_failed s = true ->
        In n (failure_names evs)).

(** A service is due for a heal in the coming recovery phase: its timer is
    0, or it is failed with its timer at 1. *)
Definition due (s : Service) : bool :=
  (recovery_timer s =? 0)%Z || (is_failed s && (recovery_timer s =? 1)%Z).

(** A configuration with a cooldown and no [heal_to]. *)
Definition no_heal_to_config : Config :=
  {| ticks := 3; threshold := 7#10; alpha := 1; seed := 0;
     cooldown := Some 2%Z; heal_to := None |}.

(** [impacted_by svcs start d]: service [d] depends on [start], directly or
    through a chain of services. *)
Inductive impacted_by (svcs : Services) (start : string) : string -> Prop :=
| impacted_direct (s : Service) :
    In start (names svcs) -> In s svcs -> In start (depends_on s) ->
    impacted_by svcs start (name s)
| impacted_step (c : string) (s : Service) :
    impacted_by svcs start c -> In s svcs -> In c (depends_on s) ->
    impacted_by svcs start (name s).

(** The graph of the chain A <- B <- C, with its reverse adjacency built in
    insertion order. *)
Definition chain3_graph : ServiceGraph :=
  {| services := load_services chain3_data;
     rev_adj := build_reverse_adjacency iter_insertion (load_services chain3_data);
     cycles := [];
     sorted_services := Some ["A"; "B"; "C"] |}.

(** The sample [run_tick] appends to the history of a service. *)
Definition sample_of (t : Z) (s : Service) : Sample :=
  {| smp_tick := t; smp_health := health s; smp_is_failed := is_failed s |}.

(** The degradation history once [k] ticks are done: empty before the first
    tick; afterwards one entry per service, in the order of the services,
    holding one sample per tick, the first one with the input health. *)
Definition history_ok (data : list ServiceData) (k : nat)
    (hist : list (string * list Sample)) : Prop :=
  match k with
  | O => hist = []
  | S _ =>
      map fst hist = names (load_services data)
      /\ forall n s0, services_get n (load_services data) = Some s0 ->
           exists l,
             dict_get n hist = Some l
             /\ map smp_tick l = map Z.of_nat (seq 1 k)
             /\ hd_error l = Some (sample_of 1 s0)
  end.

(** The ticks of the failure events of a ledger. *)
Definition failure_ticks (evs : list Event) : list Z :=
  map event_tick (filter is_failure evs).

(** The invariant of the incident ledger once [k] ticks are done. *)
Definition incidents_ok (k : nat) (evs : list Event) (incs : list Incident)
    : Prop :=
  Forall (fun e => (event_tick e <= Z.of_nat k)%Z) evs
  /\ Forall (fun i => (inc_tick i <= Z.of_nat k)%Z) incs
  /\ StronglySorted Z.lt (map inc_tick incs)
  /\ (forall t, In t (map inc_tick incs) <-> In t (failure_ticks evs))
  /\ Forall (fun i => In (inc_priority i) (inc_roots i)) incs.

(** Number of entries of an in-degree table that are still positive. *)
Definition positive_degrees (deg : list (string * Z)) : nat :=
  List.length (filter (fun kv => (0 <? snd kv)%Z) deg).

(** Number of services that a cycle search has not visited yet. *)
Definition unvisited (svcs : Services) (visited : PySet) : nat :=
  List.length (filter (fun n => negb (set_mem n visited)) (names svcs)).

(** [self.adj.get(node, [])], as iterated: the dependencies of a service. *)
Definition deps_of (set_iter : PySet -> list string) (svcs : Services)
    (n : string) : list string :=
  match services_get n svcs with
  | Some s => set_iter (depends_on s)
  | None => []
  end.

(** The number of dependencies of [n] that are services and are not yet in
    the order [sorted_order]. *)
Definition remaining (set_iter : PySet -> list string) (svcs : Services)
    (sorted_order : list string) (n : string) : Z :=
  Z.of_nat
    (List.length
       (filter (fun d => services_mem d svcs && negb (set_mem d sorted_order))
          (deps_of set_iter svcs n))).

(** In [l], every dependency of a listed service that is itself a service
    comes before it. *)
Definition dependencies_first (svcs : Services) (l : list string) : Prop :=
  forall l1 x l2 s d,
    l = l1 ++ x :: l2 -> services_get x svcs = Some s ->
    In d (depends_on s) -> In d (names svcs) -> In d l1.

(** The dependency graph restricted to the services has no cycle: the
    services can be ranked so that a service ranks above its dependencies. *)
Definition acyclic (svcs : Services) : Prop :=
  exists rank : string -> nat,
    forall s d, In s svcs -> In d (depends_on s) -> In d (names svcs) ->
                (rank d < rank (name s))%nat.

(** Invariant of the queue loop of [topological_sort]. *)
Definition kahn_inv (set_iter : PySet -> list string) (svcs : Services)
    (deg : list (string * Z)) (queue sorted_order : list string) : Prop :=
  map fst deg = names svcs
  /\ NoDup (sorted_order ++ queue)
  /\ incl (sorted_order ++ queue) (names svcs)
  /\ (forall n, In n (names svcs) ->
        dict_get n deg = Some (remaining set_iter svcs sorted_order n))
  /\ (forall n, In n (names svcs) ->
        (In n (sorted_order ++ queue)
         <-> remaining set_iter svcs sorted_order n = 0%Z))
  /\ dependencies_first svcs sorted_order.

(** Position of the first occurrence of [x] in [l]. *)
Fixpoint index_of (x : string) (l : list string) : nat :=
  match l with
  | [] => O
  | y :: rest => if String.eqb y x then O else S (index_of x rest)
  end.

(** [a] depends on [b], and [b] is a service. *)
Definition dep_edge (svcs : Services) (a b : string) : Prop :=
  exists s, services_get a svcs = Some s /\ In b (depends_on s)
            /\ In b (names svcs).

(** Every element of [l] depends on the next one. *)
Fixpoint dep_path (svcs : Services) (l : list string) : Prop :=
  match l with
  | [] => True
  | a :: rest =>
      match rest with
      | [] => True
      | b :: _ => dep_edge svcs a b
      end /\ dep_path svcs rest
  end.

(** A dependency cycle, written with its first node repeated at the end. *)
Definition dep_cycle (svcs : Services) (c : list string) : Prop :=
  dep_path svcs c /\ exists x mid, c = x :: mid ++ [x].

(** Two services that depend on each other. *)
Definition cycle_data : list ServiceData :=
  [ {| sd_name := "A"; sd_depends_on := ["B"]; sd_health := 1 |};
    {| sd_name := "B"; sd_depends_on := ["A"]; sd_health := 1 |} ].

(** Invariant of the cycle search: the visited nodes are the nodes on the
    stack and the nodes [F] whose call has returned, in the order in which
    the calls returned; as long as no cycle has been recorded, every
    dependency of a returned node returned before it. *)
Definition dfs_inv (svcs : Services) (visited : PySet) (stack F : list string)
    (cyc : list (list string)) : Prop :=
  (forall x, In x visited <-> In x F \/ In x stack)
  /\ NoDup F /\ incl F (names svcs)
  /\ (cyc = [] -> dependencies_first svcs F).

(** [s'] is [s] up to its health. *)
Definition only_health_differs (s s' : Service) : Prop :=
  name s' = name s /\ depends_on s' = depends_on s
  /\ initial_health s' = initial_health s /\ is_failed s' = is_failed s
  /\ failed_at_tick s' = failed_at_tick s
  /\ recovery_timer s' = recovery_timer s.

(** ** The summary queries *)

(** The lines of [query_last_n_ticks], below its header. *)
Inductive SummaryLine : Type :=
| SumTick (t : Z)
| SumGlitch (svc : string) (old_health new_health : Q)
| SumFailure (svc : string) (h : Q)
| SumRootCause (roots : list string).

(** What [query_last_n_ticks] reports: the header values, the lines of the
    tick sections, and the two totals of the statistics block. *)
Record LastTicks : Type := mkLastTicks {
  lt_n : Z;
  lt_start : Z;
  lt_current : Z;
  lt_lines : list SummaryLine;
  lt_glitches : nat;
  lt_failures : nat
}.

(** [range(a, b)] *)
Definition py_range (a b : Z) : list Z :=
  map (fun i => (a + Z.of_nat i)%Z) (seq 0 (Z.to_nat (b - a))).

(** The line printed for an event of the section of its tick. *)
Definition summary_line (e : Event) : SummaryLine :=
  match e with
  | Glitch _ svc old_health new_health => SumGlitch svc old_health new_health
  | Failure _ svc h => SumFailure svc h
  end.

(** The body of the loop over [range(start_tick, current_tick + 1)]. *)
Definition tick_section (recent_events : list Event)
    (recent_incidents : list Incident) (t : Z) : list SummaryLine :=
  let tick_events := filter (fun e => (event_tick e =? t)%Z) recent_events in
  let tick_incidents :=
    filter (fun i => (inc_tick i =? t)%Z) recent_incidents in
  match tick_events, tick_incidents with
  | [], [] => []
  | _, _ =>
      SumTick t
      :: map summary_line (filter is_glitch tick_events)
      ++ map summary_line (filter is_failure tick_events)
      ++ map (fun inc => SumRootCause (inc_roots inc)) tick_incidents
  end.

(** [QueryHandler.query_last_n_ticks] *)
Definition query_last_n_ticks {Rng : Type} (sim : Simulator Rng) (n : Z)
    : LastTicks :=
  let current_tick := tick sim in
  let start_tick := Z.max 1 (current_tick - n + 1) in
  let recent_events :=
    filter (fun e => (start_tick <=? event_tick e)%Z) (events sim) in
  let recent_incidents :=
    filter (fun i => (start_tick <=? inc_tick i)%Z) (incident_log sim) in
  {| lt_n := n;
     lt_start := start_tick;
     lt_current := current_tick;
     lt_lines :=
       flat_map (tick_section recent_events recent_incidents)
         (py_range start_tick (current_tick + 1));
     lt_glitches := List.length (filter is_glitch recent_events);
     lt_failures := List.length (filter is_failure recent_events) |}.

Definition is_glitch_line (l : SummaryLine) : bool :=
  match l with
  | SumGlitch _ _ _ => true
  | _ => false
  end.

Definition is_failure_line (l : SummaryLine) : bool :=
  match l with
  | SumFailure _ _ => true
  | _ => false
  end.

(** ** The table of the most impacted services *)

Record Score : Type := mkScore {
  sc_degradation : Q;
  sc_failures : nat;
  sc_avg : Q;
  sc_current : Q
}.

(** [sum(h['health'] for h in history)] *)
Definition health_sum (history : list Sample) : Q :=
  fold_left (fun acc h => acc + smp_health h) history 0.

(** The entry of [scores] computed from a history and the current health. *)
Definition score_of (history : list Sample) (current : Q) : Score :=
  let initial :=
    match history with
    | h :: _ => smp_health h
    | [] => 1
    end in
  let failures := List.length (filter smp_is_failed history) in
  let avg :=
    match history with
    | [] => 1
    | _ :: _ => health_sum history / inject_Z (Z.of_nat (List.length history))
    end in
  {| sc_degradation := initial - current;
     sc_failures := failures;
     sc_avg := avg;
     sc_current := current |}.

(** [(a.failures, a.degradation) < (b.failures, b.degradation)], as tuples
    compare: the first components that differ decide. *)
Definition score_key_lt (a b : Score) : bool :=
  if (sc_failures a =? sc_failures b)%nat
  then Qltb (sc_degradation a) (sc_degradation b)
  else (sc_failures a <? sc_failures b)%nat.

(** [sorted(scores.items(), key=..., reverse=True)]: stable, entries with
    equal keys keep the order of the dict. *)
Fixpoint insert_score (x : string * Score) (l : list (string * Score))
    : list (string * Score) :=
  match l with
  | [] => [x]
  | y :: rest =>
      if score_key_lt (snd x) (snd y) then y :: insert_score x rest
      else x :: l
  end.

Definition sorted_scores (l : list (string * Score)) : list (string * Score) :=
  fold_right insert_score [] l.

(** [QueryHandler.query_top_impacted]: the rows of the table, each with its
    rank, counted from 1. *)
Definition query_top_impacted {Rng : Type} (sim : Simulator Rng)
    : result (list (nat * (string * Score))) :=
  scores <-
    foldM (fun scores nh =>
             svc <- services_getitem (fst nh) (services (graph sim)) ;;
             Ok (dict_set (fst nh)
                   (score_of (snd nh) (health svc)) scores))
          (service_degradation_history sim) [] ;;
  let sorted_svc := sorted_scores scores in
  let top := firstn 10 sorted_svc in
  Ok (combine (seq 1 (List.length top)) top).

(** The name and the score of a row. *)
Definition row_name (r : nat * (string * Score)) : string := fst (snd r).
Definition row_score (r : nat * (string * Score)) : Score := snd (snd r).

(** The dict [scores] when every lookup of the loop succeeds. *)
Definition scores_of (svcs : Services) (hist : list (string * list Sample))
    : list (string * Score) :=
  map (fun nh =>
         (fst nh,
          score_of (snd nh)
            match services_get (fst nh) svcs with
            | Some s => health s
            | None => 0
            end)) hist.

(** ** Failure marks *)

(** The store [z] has no failure mark that [x] lacks: a service of [z] is a
    service of [x] with the same failure tick, failed only if it was in [x]. *)
Definition no_new_marks (x z : Services) : Prop :=
  forall n s', services_get n z = Some s' ->
    exists s, services_get n x = Some s
              /\ failed_at_tick s' = failed_at_tick s
              /\ (is_failed s' = true -> is_failed s = true).

(** The failure marks of a store agree with a ledger once [k] ticks are
    done: a service either never failed, or carries the tick of one of its
    failure events. *)
Definition marks_ok (k : nat) (svcs : Services) (evs : list Event) : Prop :=
  forall n s, services_get n svcs = Some s ->
    (is_failed s = false /\ failed_at_tick s = (-1)%Z)
    \/ ((1 <= failed_at_tick s <= Z.of_nat k)%Z
        /\ exists h, In (Failure (failed_at_tick s) n h) evs).

(** ** Answers of the why-failing query *)

(** Every dependency of every service is itself a service. *)
Definition no_dangling (svcs : Services) : bool :=
  forallb (fun s => forallb (fun d => services_mem d svcs) (depends_on s)) svcs.

(** The tick shown as "Failed at Tick" is that of a failure event of the
    service, within the ticks of the run. *)
Definition failure_reported (n_ticks : Z) (evs : list Event) (nm : string)
    (failed_at : option Z) : Prop :=
  exists t, failed_at = Some t /\ (1 <= t <= n_ticks)%Z
            /\ exists h, In (Failure t nm h) evs.

(** ** Service names in queries *)

Section Normalize.

(** [str.lower], [s.rstrip('?.!,;:')] and [str.strip] are left open: what is
    proved about the lookup holds whatever they return. *)
Variable str_lower : string -> string.
Variable str_rstrip_punct : string -> string.
Variable str_strip : string -> string.

(** [{name.lower(): name for name in self.services.keys()}], the index built
    by [ServiceGraph.__init__]; the names of the services never change. *)
Definition name_index_lower (svcs : Services) : list (string * string) :=
  fold_left (fun d nm => dict_set (str_lower nm) nm d) (names svcs) [].

(** [_normalize_service_name] *)
Definition _normalize_service_name (svcs : Services) (token : string)
    : option string :=
  if String.eqb token "" then None
  else if services_mem token svcs then Some token
  else
    let cleaned := str_strip (str_rstrip_punct token) in
    if services_mem cleaned svcs then Some cleaned
    else dict_get (str_lower cleaned) (name_index_lower svcs).

End Normalize.

(** ** The recursion limit *)

(** [find_cycle_util] is the only recursive function of the program, and its
    [fuel] is the number of nested calls there is room for.  The definitions
    below run the program under an interpreter that, when the cycle search
    starts, has room for [limit] nested calls of [find_cycle_util]: a search
    that nests deeper raises RecursionError, which nothing catches. *)
Definition recursion_limited {A : Type} (r : result A) : result A :=
  match r with
  | Raise OutOfFuel => Raise RecursionError
  | _ => r
  end.

(** [ServiceGraph.topological_sort] with room for [limit] nested calls. *)
Definition topological_sort_within (set_iter : PySet -> list string)
    (limit : nat) (svcs : Services) (ra : list (string * PySet))
    : result (option (list string) * list (list string)) :=
  let in_degree0 : list (string * Z) := map (fun s => (name s, 0%Z)) svcs in
  let in_degree :=
    fold_left
      (fun deg service =>
         fold_left
           (fun deg dep =>
              match dict_get dep deg with
              | Some _ => in_degree_add (name service) 1%Z deg
              | None => deg
              end)
           (set_iter (depends_on service)) deg)
      svcs in_degree0 in
  let queue :=
    map fst (filter (fun kv => Z.eqb (snd kv) 0) in_degree) in
  sorted_order <-
    kahn_loop set_iter (S (List.length svcs)) ra in_degree queue [] ;;
  if negb (Nat.eqb (List.length sorted_order) (List.length svcs)) then
    st <- foldM
      (fun (st : CycleState) node =>
         let '(visited, _, _) := st in
         if negb (set_mem node visited)
         then recursion_limited (find_cycle_util set_iter limit svcs node st)
         else Ok st)
      (names svcs) (([] , [], []) : CycleState) ;;
    let '(_, _, cyc) := st in
    Ok (None, cyc)
  else Ok (Some sorted_order, []).

(** [ServiceGraph.__init__] with room for [limit] nested calls. *)
Definition ServiceGraph_init_within (set_iter : PySet -> list string)
    (limit : nat) (services_data : list ServiceData) : result ServiceGraph :=
  let svcs := load_services services_data in
  let ra := build_reverse_adjacency set_iter svcs in
  '(order, cyc) <- topological_sort_within set_iter limit svcs ra ;;
  Ok {| services := svcs; rev_adj := ra; cycles := cyc;
        sorted_services := order |}.

(** Building the graph and running the simulation, with room for [limit]
    nested calls when the graph is built. *)
Definition simulate_within (set_iter : PySet -> list string) {Rng : Type}
    (rng_seed : Z -> Rng) (rng_choice : Rng -> nat -> nat * Rng)
    (rng_uniform : Rng -> Q -> Q -> Q * Rng) (limit : nat)
    (services_data : list ServiceData) (cfg : Config)
    : result (Simulator Rng) :=
  g <- ServiceGraph_init_within set_iter limit services_data ;;
  run set_iter rng_choice rng_uniform (Simulator_init rng_seed g cfg).

(** A chain A <- B <- C in which every service starts below the threshold
    0.7: no service is a candidate for a glitch, so that a run does not
    depend on the random generator. *)
Definition low_chain_data : list ServiceData :=
  [ {| sd_name := "A"; sd_depends_on := []; sd_health := 5#10 |};
    {| sd_name := "B"; sd_depends_on := ["A"]; sd_health := 6#10 |};
    {| sd_name := "C"; sd_depends_on := ["B"]; sd_health := 6#10 |} ].

(** * Properties *)

(** ** Comparisons and clamps *)

Lemma Qleb_true (a b : Q) : Qleb a b = true <-> a <= b.
Proof. unfold Qleb. apply Qle_bool_iff. Qed.

Lemma Qleb_false (a b : Q) : Qleb a b = false <-> b < a.
Proof.
  unfold Qleb. split; intro H.
  - apply Qnot_le_lt. intro Hle. apply Qle_bool_iff in Hle. congruence.
  - apply not_true_is_false. intro Hle. apply Qle_bool_iff in Hle.
    apply (Qlt_not_le _ _ H Hle).
Qed.

Lemma Qltb_true (a b : Q) : Qltb a b = true <-> a < b.
Proof.
  unfold Qltb. rewrite negb_true_iff. apply Qleb_false.
Qed.

Lemma Qltb_false (a b : Q) : Qltb a b = false <-> b <= a.
Proof.
  unfold Qltb. rewrite negb_false_iff. apply Qleb_true.
Qed.

Lemma py_max_lower (x : Q) : 0 <= py_max 0 x.
Proof.
  unfold py_max. destruct (Qltb 0 x) eqn:E.
  - apply Qltb_true in E. lra.
  - lra.
Qed.

Lemma py_max_upper (x b : Q) : 0 <= b -> x <= b -> py_max 0 x <= b.
Proof.
  intros Hb Hx. unfold py_max. destruct (Qltb 0 x); lra.
Qed.

Lemma py_max_ge (x : Q) : x <= py_max 0 x.
Proof.
  unfold py_max. destruct (Qltb 0 x) eqn:E.
  - lra.
  - apply Qltb_false in E. exact E.
Qed.

Lemma py_min_upper (x : Q) : py_min 1 x <= 1.
Proof.
  unfold py_min. destruct (Qltb x 1) eqn:E.
  - apply Qltb_true in E. lra.
  - lra.
Qed.

Lemma py_min_lower (x b : Q) : b <= 1 -> b <= x -> b <= py_min 1 x.
Proof.
  intros Hb Hx. unfold py_min. destruct (Qltb x 1); lra.
Qed.

(** ** The store *)

Lemma services_get_name (n : string) (svcs : Services) (s : Service) :
  services_get n svcs = Some s -> name s = n.
Proof.
  unfold services_get. intro H. apply find_some in H.
  destruct H as [_ H]. apply String.eqb_eq. exact H.
Qed.

Lemma services_get_In (n : string) (svcs : Services) (s : Service) :
  services_get n svcs = Some s -> In s svcs.
Proof.
  unfold services_get. intro H. apply find_some in H. tauto.
Qed.

Lemma services_get_None (n : string) (svcs : Services) :
  services_get n svcs = None <-> ~ In n (names svcs).
Proof.
  unfold services_get, names. induction svcs as [|s rest IH]; simpl.
  - tauto.
  - destruct (String.eqb (name s) n) eqn:E.
    + apply String.eqb_eq in E. split; [discriminate | tauto].
    + apply String.eqb_neq in E. rewrite IH. tauto.
Qed.

Lemma services_get_Some_iff (n : string) (svcs : Services) :
  (exists s, services_get n svcs = Some s) <-> In n (names svcs).
Proof.
  destruct (services_get n svcs) eqn:E.
  - split; [intros _ | intros _; eauto].
    destruct (in_dec string_dec n (names svcs)) as [H|H]; [exact H|].
    apply services_get_None in H. congruence.
  - split; [intros [s Hs]; discriminate | intro H].
    apply services_get_None in E. contradiction.
Qed.

Lemma names_update (n : string) (f : Service -> Service) (svcs : Services) :
  (forall s, name (f s) = name s) ->
  names (services_update n f svcs) = names svcs.
Proof.
  intro Hf. unfold names, services_update. rewrite map_map.
  apply map_ext. intro s. destruct (String.eqb (name s) n); auto.
Qed.

Lemma length_update (n : string) (f : Service -> Service) (svcs : Services) :
  List.length (services_update n f svcs) = List.length svcs.
Proof. unfold services_update. apply length_map. Qed.

Lemma services_get_update (n m : string) (f : Service -> Service)
    (svcs : Services) :
  (forall s, name (f s) = name s) ->
  services_get n (services_update m f svcs) =
  if String.eqb n m then option_map f (services_get n svcs)
  else services_get n svcs.
Proof.
  intro Hf. unfold services_get, services_update.
  induction svcs as [|s rest IH]; simpl.
  - destruct (String.eqb n m); reflexivity.
  - destruct (String.eqb (name s) m) eqn:Em.
    + rewrite Hf. destruct (String.eqb (name s) n) eqn:En.
      * apply String.eqb_eq in Em, En. subst.
        rewrite String.eqb_refl. reflexivity.
      * exact IH.
    + destruct (String.eqb (name s) n) eqn:En.
      * apply String.eqb_eq in En. subst n. rewrite Em. reflexivity.
      * exact IH.
Qed.

Lemma Forall_update (P : Service -> Prop) (n : string) (f : Service -> Service)
    (svcs : Services) :
  Forall P svcs -> (forall s, In s svcs -> name s = n -> P s -> P (f s)) ->
  Forall P (services_update n f svcs).
Proof.
  intros HP Hf. unfold services_update. rewrite Forall_forall in *.
  intros x Hx. apply in_map_iff in Hx. destruct Hx as [s [Hs Hin]]. subst x.
  destruct (String.eqb (name s) n) eqn:E.
  - apply String.eqb_eq in E. auto.
  - auto.
Qed.

(** ** The empty graph *)

Section EmptyGraph.

Variable set_iter : PySet -> list string.
Variable Rng : Type.
Variable rng_seed : Z -> Rng.
Variable rng_choice : Rng -> nat -> nat * Rng.
Variable rng_uniform : Rng -> Q -> Q -> Q * Rng.

Lemma ServiceGraph_init_empty :
  ServiceGraph_init set_iter [] =
  Ok {| services := []; rev_adj := []; cycles := []; sorted_services := Some [] |}.
Proof. reflexivity. Qed.

(** Steps 1 to 4 of a tick go through on an empty store. *)
Lemma tick_recovery_empty (sim : Simulator Rng) :
  services (graph sim) = [] ->
  exists sim', tick_recovery set_iter (tick_glitch rng_choice rng_uniform sim)
               = Ok sim'
               /\ services (graph sim') = [].
Proof.
  intro He. unfold tick_recovery, tick_glitch. rewrite He. simpl.
  unfold handle_recovery. destruct (cooldown (config sim)); simpl;
    eexists; split; reflexivity.
Qed.

(** Step 5 does not: no service is below the threshold, and the minimum of
    an empty sequence is taken. *)
Lemma run_tick_empty (sim : Simulator Rng) :
  services (graph sim) = [] ->
  run_tick set_iter rng_choice rng_uniform sim = Raise ValueError_min_empty.
Proof.
  intro He. unfold run_tick.
  destruct (tick_recovery_empty sim He) as [sim' [Hp He']].
  rewrite Hp. simpl. unfold tick_classify, tick_propagate. simpl.
  rewrite He'. reflexivity.
Qed.

(** C2 (the code departs from the claim): on an empty topology the engine
    does not run its ticks to completion. As soon as one tick is configured,
    the first tick raises [ValueError] when the "all healthy" line asks for
    the service of minimal health, and the run stops there. *)
Theorem empty_graph_run_raises (cfg : Config) :
  (1 <= ticks cfg)%Z ->
  simulate set_iter rng_seed rng_choice rng_uniform [] cfg
  = Raise ValueError_min_empty.
Proof.
  intro Ht. unfold simulate. rewrite ServiceGraph_init_empty. simpl.
  unfold run. simpl.
  destruct (Z.to_nat (ticks cfg)) as [|n] eqn:En; [lia|].
  simpl. rewrite run_tick_empty; reflexivity.
Qed.

End EmptyGraph.

Lemma empty_graph_run_raises_witness :
  (1 <= ticks one_tick_config)%Z /\
  simulate iter_insertion (script_seed []) script_choice script_uniform []
    one_tick_config
  = Raise ValueError_min_empty.
Proof.
  split.
  - simpl. lia.
  - apply (empty_graph_run_raises iter_insertion ScriptRng (script_seed [])
             script_choice script_uniform one_tick_config).
    simpl. lia.
Defined.

(** ** Dangling dependencies *)

Section Dangling.

Variable set_iter : PySet -> list string.
Variable Rng : Type.

(** The list comprehension of [query_why_failing] over [depends_on] stops at
    the first name that is not a service. *)
Lemma failed_deps_dangling (svcs : Services) (thr : Q) (l : list string) :
  forall acc : list string,
  (exists d, In d l /\ services_get d svcs = None) ->
  exists d, In d l /\ services_get d svcs = None /\
    foldM (fun acc d =>
             dep <- services_getitem d svcs ;;
             if Qltb (health dep) thr then Ok (acc ++ [d]) else Ok acc)
          l acc = Raise (KeyError d).
Proof.
  induction l as [|x rest IH]; intros acc [d [Hin Hd]].
  - destruct Hin.
  - simpl. unfold services_getitem at 1.
    destruct (services_get x svcs) as [sx|] eqn:Ex.
    + simpl. destruct Hin as [Heq|Hin]; [subst x; congruence|].
      destruct (Qltb (health sx) thr).
      * destruct (IH (acc ++ [x]) (ex_intro _ d (conj Hin Hd)))
          as [d' [Hin' [Hd' Hf]]].
        exists d'. simpl. auto.
      * destruct (IH acc (ex_intro _ d (conj Hin Hd))) as [d' [Hin' [Hd' Hf]]].
        exists d'. simpl. auto.
    + exists x. simpl. auto.
Qed.

(** C8 (the code departs from the claim): the why-failing query does not
    ignore dangling dependency names. For a service below the threshold one
    of whose dependencies is not a service of the graph, the query raises
    [KeyError] on a dangling name instead of answering. *)
Theorem query_why_failing_dangling_raises (sim : Simulator Rng)
    (service_name d : string) (service : Service) :
  services_get service_name (services (graph sim)) = Some service ->
  health service < threshold (config sim) ->
  In d (set_iter (depends_on service)) ->
  services_get d (services (graph sim)) = None ->
  exists d', In d' (set_iter (depends_on service))
             /\ services_get d' (services (graph sim)) = None
             /\ query_why_failing set_iter sim service_name = Raise (KeyError d').
Proof.
  intros Hs Hh Hin Hd. unfold query_why_failing. rewrite Hs.
  assert (Hlt : Qleb (threshold (config sim)) (health service) = false)
    by (apply Qleb_false; exact Hh).
  rewrite Hlt.
  destruct (failed_deps_dangling (services (graph sim)) (threshold (config sim))
              (set_iter (depends_on service)) []
              (ex_intro _ d (conj Hin Hd))) as [d' [Hin' [Hd' Hf]]].
  exists d'. rewrite Hf. simpl. auto.
Qed.

End Dangling.

(** The simulator after one tick on [dangling_data]. *)
Lemma dangling_run :
  exists sim,
    simulate iter_insertion (script_seed []) script_choice script_uniform
      dangling_data one_tick_config = Ok sim
    /\ exists service,
         services_get "A" (services (graph sim)) = Some service
         /\ health service < threshold (config sim)
         /\ In "ghost" (iter_insertion (depends_on service))
         /\ services_get "ghost" (services (graph sim)) = None.
Proof.
  eexists. split; [vm_compute; reflexivity|].
  eexists. split; [vm_compute; reflexivity|].
  split; [vm_compute; reflexivity|].
  split; [simpl; auto | reflexivity].
Qed.

Lemma query_why_failing_dangling_raises_witness :
  exists sim,
    simulate iter_insertion (script_seed []) script_choice script_uniform
      dangling_data one_tick_config = Ok sim
    /\ query_why_failing iter_insertion sim "A" = Raise (KeyError "ghost").
Proof.
  destruct dangling_run as [sim [Hrun [service [Hs [Hh [Hin Hd]]]]]].
  exists sim. split; [exact Hrun|].
  destruct (query_why_failing_dangling_raises iter_insertion ScriptRng sim
              "A" "ghost" service Hs Hh Hin Hd) as [d' [Hin' [Hd' Hq]]].
  rewrite Hq. f_equal. f_equal.
  assert (Hdeps : depends_on service = ["ghost"]).
  { vm_compute in Hrun. injection Hrun as <-. vm_compute in Hs.
    injection Hs as <-. reflexivity. }
  rewrite Hdeps in Hin'. simpl in Hin'. destruct Hin' as [H|[]]. auto.
Defined.

(** ** Termination of the propagator *)

Section PropagatorBound.

Variable set_iter : PySet -> list string.
Variable cfg : Config.

Lemma propagate_service_flag (svcs : Services) (b : bool) (nm : string) :
  snd (propagate_service set_iter cfg (svcs, b) nm) = false ->
  b = false /\ fst (propagate_service set_iter cfg (svcs, b) nm) = svcs.
Proof.
  unfold propagate_service.
  destruct (services_get nm svcs) as [service|]; [|simpl; auto].
  destruct (depends_on service); [simpl; auto|].
  destruct (Qltb 0 (total_degradation set_iter cfg svcs service)); [|simpl; auto].
  destruct (Qltb (1 # 1000) _); simpl; [discriminate | auto].
Qed.

Lemma sweep_fold_flag (l : list string) :
  forall (svcs : Services) (b : bool),
  snd (fold_left (propagate_service set_iter cfg) l (svcs, b)) = false ->
  b = false /\ fst (fold_left (propagate_service set_iter cfg) l (svcs, b)) = svcs.
Proof.
  induction l as [|nm rest IH]; intros svcs b H; cbn [fold_left] in *.
  - auto.
  - destruct (propagate_service set_iter cfg (svcs, b) nm) as [svcs1 b1] eqn:E.
    destruct (IH svcs1 b1 H) as [Hb1 Hs1].
    pose proof (propagate_service_flag svcs b nm) as Hp.
    rewrite E in Hp. simpl in Hp. destruct (Hp Hb1) as [Hb Hs].
    split; [exact Hb | congruence].
Qed.

(** A sweep that does not raise [changed] has modified no service. *)
Lemma sweep_unchanged (svcs : Services) :
  snd (sweep set_iter cfg svcs) = false -> fst (sweep set_iter cfg svcs) = svcs.
Proof.
  intro H. unfold sweep in *. apply (sweep_fold_flag _ _ _ H).
Qed.

Lemma propagate_loop_spec (n : nat) :
  forall svcs : Services,
  let k := snd (propagate_loop set_iter cfg n svcs) in
  (k <= n)%nat
  /\ fst (propagate_loop set_iter cfg n svcs) = iter_sweeps set_iter cfg k svcs
  /\ (forall j, (S j < k)%nat ->
        snd (sweep set_iter cfg (iter_sweeps set_iter cfg j svcs)) = true)
  /\ ((k < n)%nat ->
        exists j, k = S j
          /\ snd (sweep set_iter cfg (iter_sweeps set_iter cfg j svcs)) = false).
Proof.
  induction n as [|n IH]; intro svcs; simpl.
  - repeat split; auto; intros; lia.
  - destruct (sweep set_iter cfg svcs) as [svcs' changed] eqn:Es.
    destruct changed.
    + specialize (IH svcs').
      destruct (propagate_loop set_iter cfg n svcs') as [r k'] eqn:El.
      simpl in *. destruct IH as [Hle [Hr [Hall Hlast]]].
      rewrite Es. simpl.
      split; [lia|]. split; [exact Hr|]. split.
      * intros j Hj. destruct j as [|j]; simpl.
        -- rewrite Es. reflexivity.
        -- rewrite Es. simpl. apply Hall. lia.
      * intro Hk. destruct Hlast as [j [Hj Hf]]; [lia|].
        exists (S j). split; [lia|]. simpl. rewrite Es. exact Hf.
    + simpl. rewrite Es. simpl.
      split; [lia|]. split; [reflexivity|]. split.
      * intros j Hj. lia.
      * intros _. exists O. split; [reflexivity|]. simpl. rewrite Es. reflexivity.
Qed.

(** C9: the propagator performs at most [|nodes|] sweeps, whatever the graph
    (cycles included): with [k] the number of sweeps performed, [k <= |nodes|],
    the result is the store after [k] sweeps, every sweep but the last raised
    [changed], and when [k < |nodes|] the loop stopped because the last sweep
    changed no health by more than 1e-3 (it left the store as it was). *)
Theorem propagate_health_sweep_bound (svcs : Services) :
  let k := propagate_health_sweeps set_iter cfg svcs in
  (k <= List.length svcs)%nat
  /\ propagate_health set_iter cfg svcs = iter_sweeps set_iter cfg k svcs
  /\ (forall j, (S j < k)%nat ->
        snd (sweep set_iter cfg (iter_sweeps set_iter cfg j svcs)) = true)
  /\ ((k < List.length svcs)%nat ->
        exists j, k = S j
          /\ snd (sweep set_iter cfg (iter_sweeps set_iter cfg j svcs)) = false
          /\ fst (sweep set_iter cfg (iter_sweeps set_iter cfg j svcs))
             = iter_sweeps set_iter cfg j svcs).
Proof.
  unfold propagate_health_sweeps, propagate_health.
  destruct (propagate_loop_spec (List.length svcs) svcs) as [Hle [Hr [Hall Hlast]]].
  split; [exact Hle|]. split; [exact Hr|]. split; [exact Hall|].
  intro Hk. destruct (Hlast Hk) as [j [Hj Hf]].
  exists j. split; [exact Hj|]. split; [exact Hf|].
  apply sweep_unchanged. exact Hf.
Qed.

End PropagatorBound.

(** ** The recovery phase: an induction principle *)

Lemma services_update_twice (n : string) (f g : Service -> Service)
    (svcs : Services) :
  (forall s, name (f s) = name s) ->
  services_update n g (services_update n f svcs)
  = services_update n (fun s => g (f s)) svcs.
Proof.
  intro Hf. unfold services_update. rewrite map_map. apply map_ext.
  intro s. destruct (String.eqb (name s) n) eqn:E.
  - rewrite Hf, E. reflexivity.
  - rewrite E. reflexivity.
Qed.

Lemma services_update_ext (n : string) (f g : Service -> Service)
    (svcs : Services) :
  (forall s, f s = g s) -> services_update n f svcs = services_update n g svcs.
Proof.
  intro H. unfold services_update. apply map_ext. intro s.
  destruct (String.eqb (name s) n); auto.
Qed.

Lemma bump_to_name (thr new_health : Q) (s : Service) :
  name (bump_to thr new_health s) = name s.
Proof. unfold bump_to. destruct (Qleb thr new_health); reflexivity. Qed.

Lemma heal_name (h : Q) (s : Service) : name (heal h s) = name s.
Proof. reflexivity. Qed.

Lemma foldM_app {A S : Type} (f : S -> A -> result S) (l1 l2 : list A) (s : S) :
  foldM f (l1 ++ l2) s = (s' <- foldM f l1 s ;; foldM f l2 s').
Proof.
  revert s. induction l1 as [|x rest IH]; intro s; simpl.
  - reflexivity.
  - destruct (f s x); simpl; auto.
Qed.

Section RecoveryWalk.

Variable set_iter : PySet -> list string.
Variable cfg : Config.

(** What one visit of the walk does: nothing, or one bump of a service that
    was not visited, all of whose dependencies are healthy, and whose health
    is below [heal_to]. *)
Lemma recovery_visit_inv (st st' : RecState) (d : string) :
  recovery_visit set_iter cfg st d = Ok st' ->
  st' = st \/
  exists dep h,
    set_mem d (rs_visited st) = false
    /\ services_get d (rs_services st) = Some dep
    /\ all_deps_healthy set_iter cfg (rs_services st) dep = true
    /\ heal_to cfg = Some h
    /\ health dep < h
    /\ st' = {| rs_services :=
                  services_update d
                    (bump_to (threshold cfg) (bump_health h (health dep)))
                    (rs_services st);
                rs_visited := set_add d (rs_visited st);
                rs_queue := rs_queue st ++ [d];
                rs_recovered :=
                  rs_recovered st
                  ++ [(d, health dep, bump_health h (health dep))] |}.
Proof.
  unfold recovery_visit. intro H.
  destruct (set_mem d (rs_visited st)) eqn:Ev; [left; congruence|].
  destruct (services_get d (rs_services st)) as [dep|] eqn:Eg; [|discriminate].
  destruct (all_deps_healthy set_iter cfg (rs_services st) dep) eqn:Ea;
    [|left; congruence].
  unfold config_heal_to in H. destruct (heal_to cfg) as [h|] eqn:Eh;
    [|discriminate].
  simpl in H. destruct (Qltb (health dep) h) eqn:El; [|left; congruence].
  right. exists dep, h. apply Qltb_true in El.
  repeat (split; [auto|]). injection H as <-. f_equal.
  unfold bump_to, bump_health.
  destruct (Qleb (threshold cfg) _).
  - rewrite services_update_twice by reflexivity. reflexivity.
  - reflexivity.
Qed.

(** Invariants of the store through a walk: a property kept by every bump
    holds after the walk. *)
Section WalkInvariant.

Variable I : Services -> Prop.
Hypothesis I_bump :
  forall svcs d dep h,
    I svcs -> services_get d svcs = Some dep ->
    all_deps_healthy set_iter cfg svcs dep = true ->
    heal_to cfg = Some h -> health dep < h ->
    I (services_update d (bump_to (threshold cfg) (bump_health h (health dep)))
         svcs).

Lemma recovery_visit_invariant (st st' : RecState) (d : string) :
  I (rs_services st) -> recovery_visit set_iter cfg st d = Ok st' ->
  I (rs_services st').
Proof.
  intros HI H. destruct (recovery_visit_inv _ _ _ H)
    as [->|[dep [h [_ [Hg [Ha [Hh [Hlt ->]]]]]]]]; [exact HI|].
  simpl. eapply I_bump; eauto.
Qed.

Lemma recovery_visits_invariant (l : list string) :
  forall st st',
  I (rs_services st) -> foldM (recovery_visit set_iter cfg) l st = Ok st' ->
  I (rs_services st').
Proof.
  induction l as [|d rest IH]; intros st st' HI H; simpl in H.
  - injection H as <-. exact HI.
  - destruct (recovery_visit set_iter cfg st d) as [st1|] eqn:E; [|discriminate].
    simpl in H. eapply IH; [|exact H].
    eapply recovery_visit_invariant; eauto.
Qed.

Lemma recovery_loop_invariant (ra : list (string * PySet)) (fuel : nat) :
  forall st st',
  I (rs_services st) -> recovery_loop set_iter fuel cfg ra st = Ok st' ->
  I (rs_services st').
Proof.
  induction fuel as [|fuel IH]; intros st st' HI H; simpl in H.
  - destruct (rs_queue st); [injection H as <-; exact HI | discriminate].
  - destruct (rs_queue st) as [|current rest]; [injection H as <-; exact HI|].
    destruct (foldM _ _ _) as [st1|] eqn:E; [|discriminate].
    simpl in H. eapply IH; [|exact H].
    eapply recovery_visits_invariant; [|exact E]. exact HI.
Qed.

Lemma propagate_recovery_invariant (ra : list (string * PySet))
    (healed : string) (svcs svcs' : Services) (lg : list LogLine) :
  I svcs -> propagate_recovery set_iter cfg ra healed svcs = Ok (svcs', lg) ->
  I svcs'.
Proof.
  intros HI H. unfold propagate_recovery, recovery_walk in H.
  destruct (recovery_loop _ _ _ _ _) as [st|] eqn:E; [|discriminate].
  simpl in H. injection H as <- _.
  eapply recovery_loop_invariant; [|exact E]. exact HI.
Qed.

End WalkInvariant.

(** Invariants through the heal loop of [handle_recovery]; the invariant may
    mention the services healed so far. *)
Section HealInvariant.

Variable ra : list (string * PySet).
Variable t : Z.
Variable J : list string -> Services -> Prop.
Hypothesis J_bump :
  forall healed svcs d dep h,
    J healed svcs -> services_get d svcs = Some dep ->
    all_deps_healthy set_iter cfg svcs dep = true ->
    heal_to cfg = Some h -> health dep < h ->
    J healed
      (services_update d (bump_to (threshold cfg) (bump_health h (health dep)))
         svcs).
Hypothesis J_heal :
  forall healed svcs nm h,
    J healed svcs -> heal_to cfg = Some h ->
    J (healed ++ [nm]) (services_update nm (heal h) svcs).

Lemma heal_service_invariant (healed : list string) (svcs svcs' : Services)
    (lg lg' : list LogLine) (nm : string) :
  J healed svcs ->
  heal_service set_iter cfg ra t (svcs, lg) nm = Ok (svcs', lg') ->
  J (healed ++ [nm]) svcs'.
Proof.
  intros HJ H. unfold heal_service in H. unfold config_heal_to in H.
  destruct (heal_to cfg) as [h|] eqn:Eh; [|discriminate]. simpl in H.
  destruct (propagate_recovery _ _ _ _ _) as [[svcs2 lg2]|] eqn:E; [|discriminate].
  simpl in H. injection H as <- _.
  eapply (propagate_recovery_invariant (J (healed ++ [nm]))); [| |exact E].
  - intros. eapply J_bump; eauto; congruence.
  - eapply J_heal; [exact HJ | first [exact Eh | reflexivity]].
Qed.

Lemma heal_loop_invariant (l : list string) :
  forall healed svcs lg svcs' lg',
  J healed svcs ->
  foldM (heal_service set_iter cfg ra t) l (svcs, lg) = Ok (svcs', lg') ->
  J (healed ++ l) svcs'.
Proof.
  induction l as [|nm rest IH]; intros healed svcs lg svcs' lg' HJ H;
    cbn [foldM] in H.
  - injection H as <- _. rewrite app_nil_r. exact HJ.
  - destruct (heal_service set_iter cfg ra t (svcs, lg) nm) as [[svcs1 lg1]|] eqn:E;
      [|discriminate].
    simpl in H. replace (healed ++ nm :: rest) with ((healed ++ [nm]) ++ rest)
      by (rewrite <- app_assoc; reflexivity).
    eapply IH; [|exact H]. eapply heal_service_invariant; eauto.
Qed.

(** With a cooldown configured, an invariant that holds once the timers have
    ticked holds after the recovery phase, for all the services to heal. *)
Lemma handle_recovery_invariant (c : Z) (svcs svcs' : Services)
    (lg : list LogLine) :
  cooldown cfg = Some c ->
  J [] (map tick_timer svcs) ->
  handle_recovery set_iter cfg ra t svcs = Ok (svcs', lg) ->
  J (services_to_heal (map tick_timer svcs)) svcs'.
Proof.
  intros Hc HJ H. unfold handle_recovery in H. rewrite Hc in H.
  apply (heal_loop_invariant _ [] _ _ _ _ HJ H).
Qed.

End HealInvariant.

End RecoveryWalk.

(** ** Running the recovery phase twice *)

Lemma In_services_update (n : string) (f : Service -> Service)
    (svcs : Services) (s' : Service) :
  In s' (services_update n f svcs) ->
  (In s' svcs /\ name s' <> n) \/ (exists s, In s svcs /\ name s = n /\ s' = f s).
Proof.
  unfold services_update. intro H. apply in_map_iff in H.
  destruct H as [s [Hs Hin]]. destruct (String.eqb (name s) n) eqn:E.
  - apply String.eqb_eq in E. right. exists s. auto.
  - apply String.eqb_neq in E. left. subst s'. auto.
Qed.

Section RecoveryTwice.

Variable set_iter : PySet -> list string.
Variable cfg : Config.
Variable ra : list (string * PySet).

Lemma tick_timer_quiet (svcs : Services) :
  quiet svcs -> map tick_timer svcs = svcs.
Proof.
  intro Hq. rewrite <- (map_id svcs) at 2. apply map_ext_in.
  intros s Hs. destruct (Hq s Hs) as [Hf _]. unfold tick_timer.
  destruct (is_failed s); simpl; [|reflexivity].
  destruct (0 <? recovery_timer s)%Z eqn:E; [|reflexivity].
  apply Z.ltb_lt in E. specialize (Hf eq_refl). lia.
Qed.

Lemma services_to_heal_quiet (svcs : Services) :
  quiet svcs -> services_to_heal svcs = [].
Proof.
  intro Hq. unfold services_to_heal.
  replace (filter (fun s => (recovery_timer s =? 0)%Z) svcs) with (@nil Service);
    [reflexivity|].
  symmetry. induction svcs as [|s rest IH]; simpl; [reflexivity|].
  destruct (Hq s (or_introl eq_refl)) as [_ Hn].
  destruct (recovery_timer s =? 0)%Z eqn:E.
  - apply Z.eqb_eq in E. contradiction.
  - apply IH. intros x Hx. apply Hq. right. exact Hx.
Qed.

(** On a quiet store the recovery phase does nothing. *)
Lemma handle_recovery_quiet (t : Z) (svcs : Services) :
  quiet svcs -> handle_recovery set_iter cfg ra t svcs = Ok (svcs, []).
Proof.
  intro Hq. unfold handle_recovery. destruct (cooldown cfg); [|reflexivity].
  rewrite (tick_timer_quiet svcs Hq), (services_to_heal_quiet svcs Hq).
  reflexivity.
Qed.

(** The timers of a store in which no failed service has more than one tick
    to wait are all settled by one recovery phase. *)
Lemma handle_recovery_settles (t : Z) (svcs svcs1 : Services)
    (lg1 : list LogLine) (c : Z) :
  cooldown cfg = Some c ->
  (forall s, In s svcs -> is_failed s = true -> (recovery_timer s <= 1)%Z) ->
  handle_recovery set_iter cfg ra t svcs = Ok (svcs1, lg1) ->
  quiet svcs1.
Proof.
  intros Hc Hdue Hrun.
  set (due := services_to_heal (map tick_timer svcs)).
  set (J := fun (healed : list string) (x : Services) =>
              forall s, In s x ->
                (is_failed s = true -> (recovery_timer s <= 0)%Z)
                /\ (recovery_timer s = 0%Z ->
                    In (name s) due /\ ~ In (name s) healed)).
  assert (HJ : J due svcs1).
  { apply (handle_recovery_invariant set_iter cfg ra t J) with (c := c) (lg := lg1);
      [| |exact Hc| |exact Hrun].
    - (* bump *)
      intros healed x d dep h HJx _ _ _ _ s' Hs'.
      apply In_services_update in Hs'.
      destruct Hs' as [[Hin _]|[s [Hin [_ ->]]]]; [apply HJx; exact Hin|].
      destruct (HJx s Hin) as [Hf Hz]. unfold bump_to.
      destruct (Qleb (threshold cfg) _); simpl.
      + split; [discriminate | intro; lia].
      + split; assumption.
    - (* heal *)
      intros healed x nm h HJx _ s' Hs'.
      apply In_services_update in Hs'.
      destruct Hs' as [[Hin Hne]|[s [Hin [_ ->]]]].
      + destruct (HJx s' Hin) as [Hf Hz]. split; [exact Hf|].
        intro H0. destruct (Hz H0) as [Hd Hnh]. split; [exact Hd|].
        intro Hin'. apply in_app_or in Hin'. destruct Hin' as [Hin'|[Hin'|[]]].
        * contradiction.
        * congruence.
      + simpl. split; [discriminate | intro; lia].
    - (* after the timers have ticked *)
      intros s' Hs'. apply in_map_iff in Hs'. destruct Hs' as [s [<- Hin]].
      split.
      + specialize (Hdue s Hin). unfold tick_timer.
        destruct (is_failed s) eqn:Ef; simpl.
        * destruct (0 <? recovery_timer s)%Z eqn:E; simpl; rewrite Ef; intros _.
          -- specialize (Hdue eq_refl). lia.
          -- apply Z.ltb_ge in E. exact E.
        * rewrite Ef. discriminate.
      + intro H0. split; [|intros []].
        unfold due, services_to_heal, names. apply in_map.
        apply filter_In. split.
        * apply in_map. exact Hin.
        * apply Z.eqb_eq. exact H0. }
  intros s Hs. destruct (HJ s Hs) as [Hf Hz]. split; [exact Hf|].
  intro H0. destruct (Hz H0) as [Hd Hnd]. contradiction.
Qed.

(** C5, amended: when no failed service has more than one tick left to wait
    (its [recovery_timer] is at most 1), running the recovery phase a second
    time right after the first leaves the store exactly as it was and logs
    nothing. *)
Theorem handle_recovery_idempotent_when_due (t : Z) (svcs svcs1 : Services)
    (lg1 : list LogLine) :
  (forall s, In s svcs -> is_failed s = true -> (recovery_timer s <= 1)%Z) ->
  handle_recovery set_iter cfg ra t svcs = Ok (svcs1, lg1) ->
  handle_recovery set_iter cfg ra t svcs1 = Ok (svcs1, []).
Proof.
  intros Hdue Hrun. destruct (cooldown cfg) as [c|] eqn:Hc.
  - apply handle_recovery_quiet.
    apply (handle_recovery_settles t svcs svcs1 lg1 c Hc Hdue Hrun).
  - unfold handle_recovery in *. rewrite Hc in *.
    injection Hrun as <- _. reflexivity.
Qed.

End RecoveryTwice.

Lemma handle_recovery_idempotent_when_due_witness :
  exists svcs1 lg1,
    handle_recovery iter_insertion cooldown_config [] 3 [due_service]
    = Ok (svcs1, lg1)
    /\ map health svcs1 = [9#10]
    /\ handle_recovery iter_insertion cooldown_config [] 3 svcs1 = Ok (svcs1, []).
Proof.
  eexists. eexists. split; [vm_compute; reflexivity|].
  split; [reflexivity|].
  eapply (handle_recovery_idempotent_when_due iter_insertion cooldown_config []
            3 [due_service]).
  - intros s [<-|[]] _. simpl. lia.
  - vm_compute. reflexivity.
Defined.

(** C5 as stated fails: a service that has two ticks to wait is untouched but
    for its timer by a first recovery phase (timer 2 -> 1), and healed by a
    second one run right after (timer 1 -> 0, health set to [heal_to]). *)
Lemma handle_recovery_not_idempotent :
  exists svcs1 lg1 svcs2 lg2,
    handle_recovery iter_insertion cooldown_config [] 2 [waiting_service]
    = Ok (svcs1, lg1)
    /\ handle_recovery iter_insertion cooldown_config [] 2 svcs1 = Ok (svcs2, lg2)
    /\ map recovery_timer svcs1 = [1%Z] /\ map is_failed svcs1 = [true]
    /\ map health svcs1 = [4#10]
    /\ map recovery_timer svcs2 = [(-1)%Z] /\ map is_failed svcs2 = [false]
    /\ map health svcs2 = [9#10]
    /\ svcs2 <> svcs1.
Proof.
  do 4 eexists.
  split; [vm_compute; reflexivity|].
  split; [vm_compute; reflexivity|].
  repeat (split; [reflexivity|]). discriminate.
Qed.

(** ** The recovery walk returns *)

Lemma set_mem_true (x : string) (s : PySet) : set_mem x s = true <-> In x s.
Proof.
  unfold set_mem. rewrite existsb_exists. split.
  - intros [y [Hin Heq]]. apply String.eqb_eq in Heq. subst. exact Hin.
  - intro Hin. exists x. split; [exact Hin | apply String.eqb_refl].
Qed.

Lemma set_mem_false (x : string) (s : PySet) : set_mem x s = false <-> ~ In x s.
Proof.
  rewrite <- set_mem_true. destruct (set_mem x s); split; congruence.
Qed.

Lemma set_add_new (x : string) (s : PySet) :
  set_mem x s = false -> set_add x s = s ++ [x].
Proof. unfold set_add. intros ->. reflexivity. Qed.

Lemma NoDup_snoc (x : string) (s : list string) :
  NoDup s -> ~ In x s -> NoDup (s ++ [x]).
Proof.
  intros Hs Hx. apply NoDup_app; [exact Hs | repeat constructor; intros []|].
  intros y Hy [<-|[]]. contradiction.
Qed.

Section WalkReturns.

Variable set_iter : PySet -> list string.
Variable cfg : Config.
Variable ra : list (string * PySet).
Variable healed : string.
Variable nms : list string.
Variable h : Q.
Hypothesis heal_to_present : heal_to cfg = Some h.

Lemma recovery_visit_returns (st : RecState) (d : string) :
  walk_wf healed nms st -> In d nms ->
  exists st',
    recovery_visit set_iter cfg st d = Ok st'
    /\ walk_wf healed nms st'
    /\ (List.length (rs_queue st') + List.length (rs_visited st)
        = List.length (rs_queue st) + List.length (rs_visited st'))%nat.
Proof.
  intros Hwf Hd.
  assert (Hex : exists st', recovery_visit set_iter cfg st d = Ok st').
  { unfold recovery_visit. destruct (set_mem d (rs_visited st)); [eauto|].
    destruct Hwf as [Hn _]. rewrite <- Hn in Hd.
    apply services_get_Some_iff in Hd. destruct Hd as [dep ->].
    destruct (all_deps_healthy set_iter cfg (rs_services st) dep); [|eauto].
    unfold config_heal_to. rewrite heal_to_present. simpl.
    destruct (Qltb (health dep) h); eauto. }
  destruct Hex as [st' Hv]. exists st'. split; [exact Hv|].
  destruct (recovery_visit_inv _ _ _ _ _ Hv)
    as [->|[dep [h' [Hm [Hg [_ [_ [_ ->]]]]]]]]; [auto|].
  destruct Hwf as [Hn [Hnd [Hincl [Hvis Hq]]]]. simpl.
  rewrite (set_add_new _ _ Hm). apply set_mem_false in Hm.
  split; [|rewrite !length_app; simpl; lia].
  unfold walk_wf; simpl. split.
  { rewrite names_update; [exact Hn | intro; apply bump_to_name]. }
  split; [apply NoDup_snoc; assumption|].
  split.
  { intros x Hx. apply in_app_or in Hx. destruct Hx as [Hx|[<-|[]]].
    - apply Hincl. exact Hx.
    - right. exact Hd. }
  split.
  { unfold recovered_names in *. rewrite map_app. simpl. rewrite Hvis.
    reflexivity. }
  intros x Hx. apply in_app_or in Hx. apply in_or_app.
  destruct Hx as [Hx|Hx]; [left; apply Hq; exact Hx | right; exact Hx].
Qed.

Lemma recovery_visits_return (l : list string) :
  forall st,
  walk_wf healed nms st -> incl l nms ->
  exists st',
    foldM (recovery_visit set_iter cfg) l st = Ok st'
    /\ walk_wf healed nms st'
    /\ (List.length (rs_queue st') + List.length (rs_visited st)
        = List.length (rs_queue st) + List.length (rs_visited st'))%nat.
Proof.
  induction l as [|d rest IH]; intros st Hwf Hl; cbn [foldM].
  - exists st. auto.
  - destruct (recovery_visit_returns st d Hwf (Hl d (or_introl eq_refl)))
      as [st1 [Hv [Hwf1 Hlen1]]].
    rewrite Hv. simpl.
    destruct (IH st1 Hwf1 (fun x Hx => Hl x (or_intror Hx)))
      as [st' [Hf [Hwf' Hlen']]].
    exists st'. split; [exact Hf|]. split; [exact Hwf'|]. lia.
Qed.

Hypothesis ra_wf : rev_adj_wf set_iter ra nms.

Lemma walk_visited_bound (st : RecState) :
  walk_wf healed nms st -> (List.length (rs_visited st) <= S (List.length nms))%nat.
Proof.
  intros [_ [Hnd [Hincl _]]].
  apply (NoDup_incl_length Hnd) in Hincl. simpl in Hincl. exact Hincl.
Qed.

Lemma recovery_loop_returns (fuel : nat) :
  forall st,
  walk_wf healed nms st ->
  (List.length (rs_queue st) + S (List.length nms)
   <= fuel + List.length (rs_visited st))%nat ->
  exists st',
    recovery_loop set_iter fuel cfg ra st = Ok st'
    /\ walk_wf healed nms st' /\ rs_queue st' = [].
Proof.
  induction fuel as [|fuel IH]; intros st Hwf Hfuel.
  - pose proof (walk_visited_bound st Hwf) as Hb.
    destruct (rs_queue st) as [|c rest] eqn:Eq; simpl in Hfuel; [|lia].
    exists st. simpl. rewrite Eq. auto.
  - simpl. destruct (rs_queue st) as [|current rest] eqn:Eq.
    + exists st. auto.
    + set (st0 := {| rs_services := rs_services st; rs_visited := rs_visited st;
                     rs_queue := rest; rs_recovered := rs_recovered st |}).
      assert (Hwf0 : walk_wf healed nms st0).
      { destruct Hwf as [Hn [Hnd [Hincl [Hvis Hq]]]]. unfold walk_wf, st0; simpl.
        repeat (split; [assumption|]). rewrite Eq in Hq.
        intros x Hx. apply Hq. right. exact Hx. }
      destruct (recovery_visits_return (rev_adj_get set_iter current ra) st0 Hwf0)
        as [st1 [Hf [Hwf1 Hlen]]].
      { intros x Hx. apply (ra_wf current x Hx). }
      rewrite Hf. simpl. apply IH; [exact Hwf1|].
      simpl in Hlen, Hfuel. lia.
Qed.

End WalkReturns.

Section WalkTheorems.

Variable set_iter : PySet -> list string.
Variable cfg : Config.
Variable ra : list (string * PySet).

(** The walk returns, with every visited node either the healed one or a
    bumped one. *)
Lemma recovery_walk_returns (healed : string) (svcs : Services) (h : Q) :
  heal_to cfg = Some h ->
  rev_adj_wf set_iter ra (names svcs) ->
  exists st,
    recovery_walk set_iter cfg ra healed svcs = Ok st
    /\ walk_wf healed (names svcs) st /\ rs_queue st = [].
Proof.
  intros Hh Hra. unfold recovery_walk.
  apply (recovery_loop_returns set_iter cfg ra healed (names svcs) h Hh Hra).
  - unfold walk_wf; simpl. split; [reflexivity|].
    split; [repeat constructor; intros []|].
    split; [intros x [<-|[]]; left; reflexivity|].
    split; [reflexivity|]. intros x Hx. exact Hx.
  - simpl. unfold names. rewrite length_map. lia.
Qed.

Lemma propagate_recovery_returns (healed : string) (svcs : Services) (h : Q) :
  heal_to cfg = Some h ->
  rev_adj_wf set_iter ra (names svcs) ->
  exists svcs' lg,
    propagate_recovery set_iter cfg ra healed svcs = Ok (svcs', lg)
    /\ names svcs' = names svcs.
Proof.
  intros Hh Hra.
  destruct (recovery_walk_returns healed svcs h Hh Hra) as [st [Hw [Hwf _]]].
  unfold propagate_recovery. rewrite Hw. simpl.
  do 2 eexists. split; [reflexivity|]. apply Hwf.
Qed.

Lemma heal_loop_returns (t : Z) (h : Q) (l : list string) :
  heal_to cfg = Some h ->
  forall svcs lg,
  rev_adj_wf set_iter ra (names svcs) ->
  exists svcs' lg',
    foldM (heal_service set_iter cfg ra t) l (svcs, lg) = Ok (svcs', lg')
    /\ names svcs' = names svcs.
Proof.
  intro Hh. induction l as [|nm rest IH]; intros svcs lg Hra; cbn [foldM].
  - eauto.
  - unfold heal_service at 1. unfold config_heal_to. rewrite Hh. simpl.
    set (svcs1 := services_update nm _ svcs).
    assert (Hn1 : names svcs1 = names svcs)
      by (apply names_update; reflexivity).
    destruct (propagate_recovery_returns nm svcs1 h Hh) as [svcs2 [lg2 [Hp Hn2]]].
    { rewrite Hn1. exact Hra. }
    rewrite Hp. simpl.
    destruct (IH svcs2 (lg ++ LogHeal nm h t :: lg2)) as [svcs' [lg' [Hf Hn']]].
    { rewrite Hn2, Hn1. exact Hra. }
    exists svcs', lg'. split; [exact Hf | congruence].
Qed.

Lemma names_tick_timer (svcs : Services) : names (map tick_timer svcs) = names svcs.
Proof.
  unfold names. rewrite map_map. apply map_ext. intro s. unfold tick_timer.
  destruct (is_failed s && (0 <? recovery_timer s)%Z); reflexivity.
Qed.

(** The recovery phase returns as soon as [heal_to] is configured together
    with [cooldown]. *)
Lemma handle_recovery_returns (t : Z) (svcs : Services) :
  (cooldown cfg <> None -> heal_to cfg <> None) ->
  rev_adj_wf set_iter ra (names svcs) ->
  exists svcs' lg,
    handle_recovery set_iter cfg ra t svcs = Ok (svcs', lg)
    /\ names svcs' = names svcs.
Proof.
  intros Hcfg Hra. unfold handle_recovery.
  destruct (cooldown cfg) as [c|]; [|eauto].
  destruct (heal_to cfg) as [h|] eqn:Hh; [|exfalso; apply Hcfg; congruence].
  destruct (heal_loop_returns t h (services_to_heal (map tick_timer svcs)) Hh
              (map tick_timer svcs) []) as [svcs' [lg' [Hf Hn]]].
  { rewrite names_tick_timer. exact Hra. }
  exists svcs', lg'. split; [exact Hf|]. rewrite Hn. apply names_tick_timer.
Qed.

End WalkTheorems.

(** ** Reverse adjacency mentions services only *)

Lemma dict_get_In {V : Type} (k : string) (d : list (string * V)) (v : V) :
  dict_get k d = Some v -> exists k', In (k', v) d.
Proof.
  unfold dict_get. destruct (find _ d) as [[k' v']|] eqn:E; [|discriminate].
  intro H. injection H as <-. apply find_some in E. exists k'. tauto.
Qed.

Lemma Forall_dict_set {V : Type} (P : string * V -> Prop) (k : string) (v : V)
    (d : list (string * V)) :
  Forall P d -> P (k, v) -> Forall P (dict_set k v d).
Proof.
  intros Hd Hv. induction d as [|[k' v'] rest IH]; simpl.
  - constructor; [exact Hv | constructor].
  - inversion Hd; subst. destruct (String.eqb k' k).
    + constructor; assumption.
    + constructor; [assumption | apply IH; assumption].
Qed.

Lemma set_add_incl (x : string) (s : PySet) (nms : list string) :
  incl s nms -> In x nms -> incl (set_add x s) nms.
Proof.
  intros Hs Hx. unfold set_add. destruct (set_mem x s); [exact Hs|].
  intros y Hy. apply in_app_or in Hy. destruct Hy as [Hy|[<-|[]]]; auto.
Qed.

Section ReverseAdjacency.

Variable set_iter : PySet -> list string.
Hypothesis set_iter_In : forall (s : PySet) (x : string), In x (set_iter s) -> In x s.

Lemma rev_adj_add_values (nms : list string) (dep nm : string)
    (ra : list (string * PySet)) :
  Forall (fun kv => incl (snd kv) nms) ra -> In nm nms ->
  Forall (fun kv => incl (snd kv) nms) (rev_adj_add dep nm ra).
Proof.
  intros Hra Hnm. unfold rev_adj_add.
  destruct (dict_get dep ra) as [s|] eqn:E.
  - apply Forall_dict_set; [exact Hra|]. simpl.
    apply set_add_incl; [|exact Hnm].
    destruct (dict_get_In _ _ _ E) as [k' Hin].
    rewrite Forall_forall in Hra. apply (Hra _ Hin).
  - apply Forall_dict_set; [exact Hra|]. simpl.
    apply set_add_incl; [intros x []|exact Hnm].
Qed.

Lemma build_reverse_adjacency_values (svcs : Services) :
  Forall (fun kv => incl (snd kv) (names svcs))
    (build_reverse_adjacency set_iter svcs).
Proof.
  unfold build_reverse_adjacency.
  assert (Hgen : forall (l : Services) ra,
            incl (names l) (names svcs) ->
            Forall (fun kv => incl (snd kv) (names svcs)) ra ->
            Forall (fun kv => incl (snd kv) (names svcs))
              (fold_left
                 (fun ra service =>
                    fold_left
                      (fun ra dep =>
                         if services_mem dep svcs
                         then rev_adj_add dep (name service) ra else ra)
                      (set_iter (depends_on service)) ra) l ra)).
  { induction l as [|service rest IH]; intros ra Hl Hra; simpl.
    - exact Hra.
    - apply IH; [intros x Hx; apply Hl; right; exact Hx|].
      assert (Hnm : In (name service) (names svcs))
        by (apply Hl; left; reflexivity).
      clear IH Hl. revert ra Hra.
      induction (set_iter (depends_on service)) as [|dep deps IHd];
        intros ra Hra; simpl.
      + exact Hra.
      + apply IHd. destruct (services_mem dep svcs); [|exact Hra].
        apply rev_adj_add_values; assumption. }
  apply Hgen; [intros x Hx; exact Hx | constructor].
Qed.

(** [build_reverse_adjacency] produces a well-formed reverse adjacency. *)
Lemma build_reverse_adjacency_wf (svcs : Services) :
  rev_adj_wf set_iter (build_reverse_adjacency set_iter svcs) (names svcs).
Proof.
  intros k d Hd. unfold rev_adj_get in Hd.
  destruct (dict_get k _) as [s|] eqn:E; [|destruct Hd].
  destruct (dict_get_In _ _ _ E) as [k' Hin].
  pose proof (build_reverse_adjacency_values svcs) as HF.
  rewrite Forall_forall in HF. apply (HF _ Hin). simpl.
  apply set_iter_In. exact Hd.
Qed.

End ReverseAdjacency.

(** ** The blast-radius walk returns *)

Section BlastReturns.

Variable set_iter : PySet -> list string.
Variable ra : list (string * PySet).
Variable start : string.
Variable nms : list string.
Hypothesis ra_wf : rev_adj_wf set_iter ra nms.

Lemma blast_visit_wf (st : list string * PySet * PySet) (neighbor : string) :
  blast_wf start nms st -> In neighbor nms ->
  blast_wf start nms (blast_visit st neighbor)
  /\ (List.length (fst (fst (blast_visit st neighbor))) + List.length (snd (fst st))
      = List.length (fst (fst st))
        + List.length (snd (fst (blast_visit st neighbor))))%nat.
Proof.
  destruct st as [[q visited] impacted]. intros [Hv [Hnd Hincl]] Hn.
  unfold blast_visit. destruct (set_mem neighbor visited) eqn:Em; simpl.
  - split; [split; auto | lia].
  - rewrite (set_add_new _ _ Em).
    assert (Emi : set_mem neighbor impacted = false).
    { apply set_mem_false. apply set_mem_false in Em. intro Hin. apply Em.
      rewrite Hv. right. exact Hin. }
    rewrite (set_add_new _ _ Emi). apply set_mem_false in Em.
    split; [|rewrite !length_app; simpl; lia].
    split; [rewrite Hv; reflexivity|].
    split; [apply NoDup_snoc; assumption|].
    intros x Hx. apply in_app_or in Hx. destruct Hx as [Hx|[<-|[]]].
    + apply Hincl. exact Hx.
    + right. exact Hn.
Qed.

Lemma blast_visits_wf (l : list string) :
  forall st,
  blast_wf start nms st -> incl l nms ->
  blast_wf start nms (fold_left blast_visit l st)
  /\ (List.length (fst (fst (fold_left blast_visit l st))) + List.length (snd (fst st))
      = List.length (fst (fst st))
        + List.length (snd (fst (fold_left blast_visit l st))))%nat.
Proof.
  induction l as [|n rest IH]; intros st Hwf Hl; cbn [fold_left].
  - split; [exact Hwf | lia].
  - destruct (blast_visit_wf st n Hwf (Hl n (or_introl eq_refl))) as [Hwf1 Hlen1].
    destruct (IH (blast_visit st n) Hwf1 (fun x Hx => Hl x (or_intror Hx)))
      as [Hwf' Hlen'].
    split; [exact Hwf' | lia].
Qed.

Lemma blast_loop_returns (fuel : nat) :
  forall st,
  blast_wf start nms st ->
  (List.length (fst (fst st)) + S (List.length nms)
   <= fuel + List.length (snd (fst st)))%nat ->
  exists impacted,
    blast_loop set_iter fuel ra st = Ok impacted
    /\ NoDup impacted /\ incl impacted nms /\ ~ In start impacted.
Proof.
  induction fuel as [|fuel IH]; intros [[q visited] impacted] Hwf Hfuel;
    simpl in Hfuel.
  - assert (Hb : (List.length visited <= S (List.length nms))%nat).
    { destruct Hwf as [_ [Hnd Hincl]].
      apply (NoDup_incl_length Hnd) in Hincl. exact Hincl. }
    destruct q as [|c rest]; simpl in Hfuel; [|lia].
    exists impacted. simpl. destruct Hwf as [Hv [Hnd Hincl]]. subst visited.
    inversion Hnd; subst. split; [reflexivity|]. split; [assumption|].
    split; [|assumption].
    intros x Hx. destruct (Hincl x (or_intror Hx)) as [<-|H]; [contradiction|exact H].
  - cbn [blast_loop]. destruct q as [|curr rest].
    + exists impacted. destruct Hwf as [Hv [Hnd Hincl]]. subst visited.
      inversion Hnd; subst. split; [reflexivity|]. split; [assumption|].
      split; [|assumption].
      intros x Hx. destruct (Hincl x (or_intror Hx)) as [<-|H];
        [contradiction|exact H].
    + destruct (blast_visits_wf (rev_adj_get set_iter curr ra)
                  (rest, visited, impacted)) as [Hwf1 Hlen].
      { exact Hwf. }
      { intros x Hx. apply (ra_wf curr x Hx). }
      apply IH; [exact Hwf1|]. simpl in Hlen, Hfuel. lia.
Qed.

End BlastReturns.

Section RcaReturns.

Variable set_iter : PySet -> list string.

(** [get_blast_radius] returns a duplicate-free set of services that does not
    contain the start node. *)
Lemma get_blast_radius_returns (g : ServiceGraph) (start : string) :
  rev_adj_wf set_iter (rev_adj g) (names (services g)) ->
  exists impacted,
    get_blast_radius set_iter g start = Ok impacted
    /\ NoDup impacted /\ incl impacted (names (services g))
    /\ ~ In start impacted.
Proof.
  intro Hra. unfold get_blast_radius.
  apply (blast_loop_returns set_iter (rev_adj g) start (names (services g)) Hra).
  - simpl. split; [reflexivity|].
    split; [repeat constructor; intros []|]. intros x [<-|[]]. left. reflexivity.
  - simpl. unfold names. rewrite length_map. lia.
Qed.

Lemma blast_radii_returns (g : ServiceGraph) (roots : list Service) :
  rev_adj_wf set_iter (rev_adj g) (names (services g)) ->
  forall d,
  exists d',
    foldM (fun d root =>
             radius <- get_blast_radius set_iter g (name root) ;;
             Ok (dict_set (name root) radius d))
          roots d = Ok d'.
Proof.
  intro Hra. induction roots as [|r rest IH]; intro d; cbn [foldM].
  - eauto.
  - destruct (get_blast_radius_returns g (name r) Hra) as [imp [Hb _]].
    rewrite Hb. simpl. apply IH.
Qed.

Lemma rca_analyse_returns (g : ServiceGraph) (failed_services : list string) :
  rev_adj_wf set_iter (rev_adj g) (names (services g)) ->
  exists r, rca_analyse set_iter g failed_services = Ok r.
Proof.
  intro Hra. unfold rca_analyse.
  set (failed := deref (services g) failed_services).
  destruct (filter (is_root set_iter (services g)) failed) as [|r0 roots0] eqn:Er.
  - destruct failed as [|f0 frest] eqn:Ef.
    + simpl. eauto.
    + cbn [bind py_min_health].
      destruct (blast_radii_returns g [min_by_health f0 frest] Hra []) as [d' Hd].
      rewrite Hd. cbn [bind]. eauto.
  - cbn [bind]. destruct (blast_radii_returns g (r0 :: roots0) Hra []) as [d' Hd].
    rewrite Hd. cbn [bind]. eauto.
Qed.

Lemma perform_rca_returns (g : ServiceGraph) (t : Z)
    (failed_services : list string) :
  rev_adj_wf set_iter (rev_adj g) (names (services g)) ->
  exists lines incidents,
    perform_rca set_iter g t failed_services = Ok (lines, incidents).
Proof.
  intro Hra. unfold perform_rca.
  destruct (rca_analyse_returns g failed_services Hra) as [r ->]. simpl. eauto.
Qed.

End RcaReturns.

(** ** The phases of a tick *)

Lemma nth_default_In {A : Type} (l : list A) (d : A) (i : nat) :
  In d l -> In (nth i l d) l.
Proof.
  intro Hd. destruct (Nat.lt_ge_cases i (List.length l)) as [Hlt|Hge].
  - apply nth_In. exact Hlt.
  - rewrite nth_overflow by exact Hge. exact Hd.
Qed.

Section Phases.

Variable set_iter : PySet -> list string.
Variable Rng : Type.
Variable rng_choice : Rng -> nat -> nat * Rng.
Variable rng_uniform : Rng -> Q -> Q -> Q * Rng.

(** What a glitch does: nothing, or it lowers the health of one service that
    was at or above the threshold by the delta drawn. *)
Lemma apply_glitch_inv (cfg : Config) (g g' : Rng) (svcs svcs' : Services)
    (v : option string) :
  apply_glitch rng_choice rng_uniform cfg g svcs = (v, svcs', g') ->
  (v = None /\ svcs' = svcs) \/
  exists victim g1,
    v = Some (name victim) /\ In victim svcs
    /\ threshold cfg <= health victim
    /\ svcs' = services_update (name victim)
                 (fun s => set_health
                             (py_max 0 (health s
                                        - fst (rng_uniform g1 (2#10) (5#10)))) s)
                 svcs.
Proof.
  unfold apply_glitch.
  destruct (filter (fun s => Qleb (threshold cfg) (health s)) svcs)
    as [|first rest] eqn:Ef.
  - intro H. injection H as <- <- <-. left. auto.
  - destruct (rng_choice g (List.length (first :: rest))) as [i g1] eqn:Ec.
    destruct (rng_uniform g1 (2 # 10) (5 # 10)) as [delta g2] eqn:Eu.
    set (victim := nth i (first :: rest) first).
    assert (Hin : In victim (first :: rest))
      by (apply nth_default_In; left; reflexivity).
    clearbody victim.
    intro H. injection H as <- <- <-. right.
    rewrite <- Ef in Hin. apply filter_In in Hin. destruct Hin as [Hin Hh].
    apply Qleb_true in Hh. exists victim, g1. rewrite Eu. simpl.
    repeat split; auto.
Qed.

Lemma names_snapshot (svcs : Services) : names (snapshot svcs) = names svcs.
Proof.
  unfold names, snapshot. rewrite map_map. reflexivity.
Qed.

Lemma names_apply_glitch (cfg : Config) (g : Rng) (svcs : Services) :
  names (snd (fst (apply_glitch rng_choice rng_uniform cfg g svcs))) = names svcs.
Proof.
  destruct (apply_glitch rng_choice rng_uniform cfg g svcs) as [[v svcs'] g'] eqn:E.
  simpl. destruct (apply_glitch_inv _ _ _ _ _ _ E)
    as [[_ ->]|[victim [g1 [_ [_ [_ ->]]]]]]; [reflexivity|].
  apply names_update. reflexivity.
Qed.

(** The store after steps 1 and 2. *)
Lemma tick_glitch_services (sim : Simulator Rng) :
  services (graph (tick_glitch rng_choice rng_uniform sim))
  = snd (fst (apply_glitch rng_choice rng_uniform (config sim) (rng sim)
                (snapshot (services (graph sim))))).
Proof.
  unfold tick_glitch.
  destruct (apply_glitch _ _ _ _ _) as [[v svcs2] g']. simpl.
  destruct (glitch_report _ _ _). reflexivity.
Qed.

Lemma tick_glitch_frame (sim : Simulator Rng) :
  let sim' := tick_glitch rng_choice rng_uniform sim in
  config sim' = config sim /\ tick sim' = tick sim
  /\ rev_adj (graph sim') = rev_adj (graph sim)
  /\ names (services (graph sim')) = names (services (graph sim))
  /\ incident_log sim' = incident_log sim.
Proof.
  simpl. split; [|split; [|split; [|split]]].
  1,2,3,5: unfold tick_glitch;
    destruct (apply_glitch _ _ _ _ _) as [[v svcs2] g'];
    destruct (glitch_report _ _ _); reflexivity.
  rewrite tick_glitch_services, names_apply_glitch. apply names_snapshot.
Qed.

Lemma tick_recovery_inv (sim sim' : Simulator Rng) :
  tick_recovery set_iter sim = Ok sim' ->
  exists lg,
    handle_recovery set_iter (config sim) (rev_adj (graph sim)) (tick sim)
      (services (graph sim)) = Ok (services (graph sim'), lg)
    /\ config sim' = config sim /\ tick sim' = tick sim
    /\ rev_adj (graph sim') = rev_adj (graph sim)
    /\ events sim' = events sim /\ incident_log sim' = incident_log sim
    /\ rng sim' = rng sim.
Proof.
  unfold tick_recovery. intro H.
  destruct (handle_recovery _ _ _ _ _) as [[svcs3 lg]|]; [|discriminate].
  simpl in H. injection H as <-. exists lg. simpl. repeat split; reflexivity.
Qed.

End Phases.

Section Classify.

Variable set_iter : PySet -> list string.
Variable Rng : Type.

Lemma mark_failed_twice (cfg : Config) (t : Z) (s : Service) :
  mark_failed cfg t (mark_failed cfg t s) = mark_failed cfg t s.
Proof. reflexivity. Qed.

Lemma names_mark_newly_failed (cfg : Config) (t : Z) (l : list string) :
  forall svcs, names (mark_newly_failed cfg t l svcs) = names svcs.
Proof.
  unfold mark_newly_failed. induction l as [|x rest IH]; intro svcs; simpl.
  - reflexivity.
  - rewrite IH. apply names_update. reflexivity.
Qed.

Lemma services_get_mark_newly_failed (cfg : Config) (t : Z) (n : string)
    (l : list string) :
  forall svcs,
  services_get n (mark_newly_failed cfg t l svcs)
  = option_map (fun s => if existsb (String.eqb n) l
                         then mark_failed cfg t s else s)
      (services_get n svcs).
Proof.
  unfold mark_newly_failed. induction l as [|x rest IH]; intro svcs; simpl.
  - destruct (services_get n svcs); reflexivity.
  - rewrite IH. rewrite services_get_update by reflexivity.
    destruct (String.eqb n x); simpl.
    + destruct (services_get n svcs) as [s|]; simpl; [|reflexivity].
      destruct (existsb (String.eqb n) rest); reflexivity.
    + reflexivity.
Qed.

(** The store after steps 5 to 7: the newly failed services are marked. *)
Lemma tick_classify_inv (sim sim' : Simulator Rng) :
  tick_classify set_iter sim = Ok sim' ->
  let failed :=
    filter (fun s => Qltb (health s) (threshold (config sim)))
      (services (graph sim)) in
  services (graph sim')
  = mark_newly_failed (config sim) (tick sim)
      (names (filter (fun s => negb (is_failed s)) failed))
      (services (graph sim))
  /\ config sim' = config sim /\ tick sim' = tick sim
  /\ rev_adj (graph sim') = rev_adj (graph sim) /\ rng sim' = rng sim.
Proof.
  unfold tick_classify. intro H.
  destruct (filter (fun s => Qltb (health s) (threshold (config sim)))
              (services (graph sim))) as [|f0 frest] eqn:Ef.
  - destruct (py_min_health (services (graph sim))) as [m|]; [|discriminate].
    simpl in H. injection H as <-. simpl. repeat split; reflexivity.
  - destruct (match filter (fun s => negb (is_failed s)) (f0 :: frest) with
              | [] => Ok ([], [])
              | _ :: _ => perform_rca set_iter _ _ _
              end) as [[lines incs]|]; [|discriminate].
    cbn [bind] in H. injection H as <-. simpl. repeat split; reflexivity.
Qed.

Lemma tick_classify_returns (sim : Simulator Rng) :
  rev_adj_wf set_iter (rev_adj (graph sim)) (names (services (graph sim))) ->
  services (graph sim) <> [] ->
  exists sim', tick_classify set_iter sim = Ok sim'.
Proof.
  intros Hra Hne. unfold tick_classify.
  destruct (filter (fun s => Qltb (health s) (threshold (config sim)))
              (services (graph sim))) as [|f0 frest] eqn:Ef.
  - destruct (services (graph sim)) as [|s0 rest]; [contradiction|].
    simpl. eauto.
  - destruct (filter (fun s => negb (is_failed s)) (f0 :: frest)) as [|n0 nrest].
    + cbn [bind]. eauto.
    + match goal with
      | |- context [perform_rca set_iter ?g ?t ?f] =>
          destruct (perform_rca_returns set_iter g t f) as [lines [incs Hp]]
      end.
      { unfold with_services. cbn [rev_adj services].
        rewrite names_mark_newly_failed. exact Hra. }
      rewrite Hp. cbn [bind]. eauto.
Qed.

End Classify.

(** ** A due service is healed by the recovery phase *)

Lemma services_get_map (n : string) (f : Service -> Service) (svcs : Services) :
  (forall s, name (f s) = name s) ->
  services_get n (map f svcs) = option_map f (services_get n svcs).
Proof.
  intro Hf. unfold services_get. induction svcs as [|s rest IH]; simpl.
  - reflexivity.
  - rewrite Hf. destruct (String.eqb (name s) n); [reflexivity | exact IH].
Qed.

Lemma tick_timer_name (s : Service) : name (tick_timer s) = name s.
Proof.
  unfold tick_timer.
  destruct (is_failed s && (0 <? recovery_timer s)%Z); reflexivity.
Qed.

Lemma In_names_get (n : string) (svcs : Services) :
  In n (names svcs) ->
  exists s, services_get n svcs = Some s /\ In s svcs /\ name s = n.
Proof.
  intro H. apply services_get_Some_iff in H. destruct H as [s Hs].
  exists s. split; [exact Hs|]. split.
  - apply (services_get_In _ _ _ Hs).
  - apply (services_get_name _ _ _ Hs).
Qed.

Section HealDue.

Variable set_iter : PySet -> list string.
Variable cfg : Config.
Variable ra : list (string * PySet).

(** Whatever ripples run before and after, a service whose timer is 0 once
    the timers have ticked comes out of the recovery phase healed. *)
Lemma handle_recovery_heals_due (t : Z) (svcs svcs' : Services)
    (lg : list LogLine) (n : string) (s : Service) (hq : Q) (cd : Z) :
  cooldown cfg = Some cd -> heal_to cfg = Some hq ->
  handle_recovery set_iter cfg ra t svcs = Ok (svcs', lg) ->
  services_get n svcs = Some s -> recovery_timer (tick_timer s) = 0%Z ->
  exists s',
    services_get n svcs' = Some s'
    /\ health s' = hq /\ is_failed s' = false /\ recovery_timer s' = (-1)%Z.
Proof.
  intros Hc Hh Hrun Hs Ht.
  set (J := fun (healed : list string) (x : Services) =>
              names x = names svcs
              /\ (In n healed ->
                  forall s', In s' x -> name s' = n ->
                    health s' = hq /\ is_failed s' = false
                    /\ recovery_timer s' = (-1)%Z)).
  assert (HJ : J (services_to_heal (map tick_timer svcs)) svcs').
  { apply (handle_recovery_invariant set_iter cfg ra t J) with (c := cd) (lg := lg);
      [| |exact Hc| |exact Hrun].
    - intros healed x d dep h' [Hn HJx] Hg _ Hh' Hlt. split.
      + rewrite names_update; [exact Hn | intro; apply bump_to_name].
      + intros Hin s' Hs' Hname. apply In_services_update in Hs'.
        destruct Hs' as [[Hs' _]|[s0 [Hs0 [Hd ->]]]]; [apply (HJx Hin); auto|].
        exfalso. rewrite bump_to_name in Hname.
        assert (Hdep : health dep = hq).
        { apply (HJx Hin); [apply (services_get_In _ _ _ Hg)|].
          rewrite (services_get_name _ _ _ Hg). congruence. }
        assert (h' = hq) by congruence. subst h'. rewrite Hdep in Hlt.
        apply (Qlt_irrefl hq Hlt).
    - intros healed x nm h' [Hn HJx] Hh'. split.
      + rewrite names_update; [exact Hn | reflexivity].
      + intros Hin s' Hs' Hname. apply In_services_update in Hs'.
        destruct Hs' as [[Hs' Hne]|[s0 [Hs0 [Hd ->]]]].
        * apply in_app_or in Hin. destruct Hin as [Hin|[Hin|[]]].
          -- apply (HJx Hin); auto.
          -- congruence.
        * simpl. assert (h' = hq) by congruence. subst h'. auto.
    - split; [apply names_tick_timer | intros []]. }
  destruct HJ as [Hn HJ].
  assert (Hin : In n (names svcs')).
  { rewrite Hn. apply services_get_Some_iff. eauto. }
  destruct (In_names_get _ _ Hin) as [s' [Hg' [Hs' Hname']]].
  exists s'. split; [exact Hg'|]. apply HJ; [|exact Hs'|exact Hname'].
  unfold services_to_heal, names. apply in_map_iff.
  exists (tick_timer s). split.
  - rewrite tick_timer_name. apply (services_get_name _ _ _ Hs).
  - apply filter_In. split.
    + apply in_map. apply (services_get_In _ _ _ Hs).
    + apply Z.eqb_eq. exact Ht.
Qed.

End HealDue.

(** ** Names are stable through propagation *)

Section PropagateNames.

Variable set_iter : PySet -> list string.
Variable cfg : Config.

Lemma names_propagate_service (svcs : Services) (b : bool) (nm : string) :
  names (fst (propagate_service set_iter cfg (svcs, b) nm)) = names svcs.
Proof.
  unfold propagate_service.
  destruct (services_get nm svcs) as [service|]; [|reflexivity].
  destruct (depends_on service); [reflexivity|].
  destruct (Qltb 0 _); [|reflexivity].
  destruct (Qltb (1 # 1000) _); [|reflexivity].
  simpl. apply names_update. reflexivity.
Qed.

Lemma names_sweep_fold (l : list string) :
  forall svcs b,
  names (fst (fold_left (propagate_service set_iter cfg) l (svcs, b))) = names svcs.
Proof.
  induction l as [|nm rest IH]; intros svcs b; cbn [fold_left].
  - reflexivity.
  - destruct (propagate_service set_iter cfg (svcs, b) nm) as [svcs1 b1] eqn:E.
    rewrite IH. pose proof (names_propagate_service svcs b nm) as H.
    rewrite E in H. exact H.
Qed.

Lemma names_sweep (svcs : Services) :
  names (fst (sweep set_iter cfg svcs)) = names svcs.
Proof. unfold sweep. apply names_sweep_fold. Qed.

Lemma names_propagate_loop (n : nat) :
  forall svcs, names (fst (propagate_loop set_iter cfg n svcs)) = names svcs.
Proof.
  induction n as [|n IH]; intro svcs; simpl.
  - reflexivity.
  - pose proof (names_sweep svcs) as Hs.
    destruct (sweep set_iter cfg svcs) as [svcs' changed]. simpl in Hs.
    destruct changed.
    + specialize (IH svcs').
      destruct (propagate_loop set_iter cfg n svcs') as [r k]. simpl in *.
      congruence.
    + exact Hs.
Qed.

Lemma names_propagate_health (svcs : Services) :
  names (propagate_health set_iter cfg svcs) = names svcs.
Proof. unfold propagate_health. apply names_propagate_loop. Qed.

End PropagateNames.

(** ** Zero cooldown *)

Section CooldownZero.

Variable set_iter : PySet -> list string.
Variable Rng : Type.
Variable rng_choice : Rng -> nat -> nat * Rng.
Variable rng_uniform : Rng -> Q -> Q -> Q * Rng.

Lemma tick_propagate_frame (sim : Simulator Rng) :
  let sim' := tick_propagate set_iter sim in
  config sim' = config sim /\ tick sim' = tick sim
  /\ rev_adj (graph sim') = rev_adj (graph sim)
  /\ names (services (graph sim')) = names (services (graph sim))
  /\ rng sim' = rng sim.
Proof.
  simpl. repeat split. apply names_propagate_health.
Qed.

Lemma mark_failed_timer (cfg : Config) (t : Z) (s : Service) :
  recovery_timer (mark_failed cfg t s)
  = match cooldown cfg with Some c => c | None => (-1)%Z end.
Proof. reflexivity. Qed.

(** The glitch of the next tick leaves timers and failure flags alone. *)
Lemma tick_glitch_keeps_timer (sim : Simulator Rng) (n : string) (s : Service) :
  services_get n (services (graph sim)) = Some s ->
  exists s',
    services_get n (services (graph (tick_glitch rng_choice rng_uniform sim)))
    = Some s'
    /\ recovery_timer s' = recovery_timer s /\ is_failed s' = is_failed s.
Proof.
  intro Hs. rewrite tick_glitch_services.
  destruct (apply_glitch rng_choice rng_uniform (config sim) (rng sim)
              (snapshot (services (graph sim)))) as [[v svcs'] g'] eqn:E.
  simpl.
  assert (Hsnap : services_get n (snapshot (services (graph sim)))
                  = Some (set_initial_health (health s) s)).
  { unfold snapshot. rewrite services_get_map by reflexivity. rewrite Hs.
    reflexivity. }
  destruct (apply_glitch_inv _ _ _ _ _ _ _ _ _ E)
    as [[_ ->]|[victim [g1 [_ [_ [_ ->]]]]]].
  - eexists. split; [exact Hsnap|]. split; reflexivity.
  - rewrite services_get_update by reflexivity. rewrite Hsnap.
    destruct (String.eqb n (name victim)); simpl; eexists;
      (split; [reflexivity|]); split; reflexivity.
Qed.

(** C10: with [cooldown] configured as 0, a service that newly fails at tick
    T (it is below the threshold after the propagation of tick T and was not
    marked failed) ends tick T failed with [recovery_timer] 0; it reaches the
    recovery phase of tick T+1 with that timer, which the timer loop leaves
    as it is (no decrement), and comes out of that phase healed: health
    [heal_to], [is_failed] cleared, timer -1. *)
Theorem cooldown_zero_heals_next_tick (sim sim_r : Simulator Rng) (n : string)
    (s : Service) (h : Q) :
  rev_adj_wf set_iter (rev_adj (graph sim)) (names (services (graph sim))) ->
  cooldown (config sim) = Some 0%Z ->
  heal_to (config sim) = Some h ->
  tick_recovery set_iter (tick_glitch rng_choice rng_uniform sim) = Ok sim_r ->
  services_get n (services (graph (tick_propagate set_iter sim_r))) = Some s ->
  health s < threshold (config sim) ->
  is_failed s = false ->
  exists sim',
    run_tick set_iter rng_choice rng_uniform sim = Ok sim'
    /\ (exists s1,
          services_get n (services (graph sim')) = Some s1
          /\ recovery_timer s1 = 0%Z /\ is_failed s1 = true
          /\ failed_at_tick s1 = tick sim)
    /\ let sim_g :=
         tick_glitch rng_choice rng_uniform
           (add_log [LogTick (tick sim + 1)] (set_tick (tick sim + 1) sim')) in
       (exists s2,
          services_get n (services (graph sim_g)) = Some s2
          /\ recovery_timer s2 = 0%Z /\ is_failed s2 = true
          /\ tick_timer s2 = s2)
       /\ exists sim_h,
            tick_recovery set_iter sim_g = Ok sim_h
            /\ exists s3,
                 services_get n (services (graph sim_h)) = Some s3
                 /\ health s3 = h /\ is_failed s3 = false
                 /\ recovery_timer s3 = (-1)%Z.
Proof.
  intros Hra Hc Hh Hrec Hs Hlt Hnf.
  (* the state after steps 1 to 4 of tick T *)
  destruct (tick_glitch_frame Rng rng_choice rng_uniform sim)
    as [Hcfg0 [Htick0 [Hra0 [Hn0 _]]]].
  destruct (tick_recovery_inv _ _ _ _ Hrec)
    as [lg [Hhr [Hcfg1 [Htick1 [Hra1 _]]]]].
  assert (Hn1 : names (services (graph sim_r)) = names (services (graph sim))).
  { destruct (handle_recovery_returns set_iter
                (config (tick_glitch rng_choice rng_uniform sim))
                (rev_adj (graph (tick_glitch rng_choice rng_uniform sim)))
                (tick (tick_glitch rng_choice rng_uniform sim))
                (services (graph (tick_glitch rng_choice rng_uniform sim))))
      as [svcs' [lg' [Hhr' Hn']]].
    - rewrite Hcfg0, Hh. discriminate.
    - rewrite Hra0, Hn0. exact Hra.
    - rewrite Hhr in Hhr'. injection Hhr' as <- _. congruence. }
  set (sim_p := tick_propagate set_iter sim_r) in *.
  destruct (tick_propagate_frame sim_r) as [Hcfg2 [Htick2 [Hra2 [Hn2 _]]]].
  fold sim_p in Hcfg2, Htick2, Hra2, Hn2.
  assert (Hcfgp : config sim_p = config sim) by congruence.
  assert (Htickp : tick sim_p = tick sim) by congruence.
  (* steps 5 to 7 *)
  destruct (tick_classify_returns set_iter Rng sim_p) as [sim' Hcl].
  { rewrite Hra2, Hra1, Hra0, Hn2, Hn1. exact Hra. }
  { intro He. rewrite He in Hs. discriminate. }
  destruct (tick_classify_inv _ _ _ _ Hcl) as [Hsv [Hcfg3 [Htick3 [Hra3 _]]]].
  assert (Hmarked : services_get n (services (graph sim'))
                    = Some (mark_failed (config sim_p) (tick sim_p) s)).
  { rewrite Hsv, services_get_mark_newly_failed, Hs. simpl.
    replace (existsb _ _) with true; [reflexivity|].
    symmetry. apply existsb_exists. exists n. split; [|apply String.eqb_refl].
    unfold names. apply in_map_iff. exists s.
    split; [apply (services_get_name _ _ _ Hs)|].
    apply filter_In. split; [|rewrite Hnf; reflexivity].
    apply filter_In. split; [apply (services_get_In _ _ _ Hs)|].
    apply Qltb_true. change (health s < threshold (config sim_p)).
    rewrite Hcfgp. exact Hlt. }
  exists sim'. split.
  { unfold run_tick. rewrite Hrec. exact Hcl. }
  split.
  { eexists. split; [exact Hmarked|].
    rewrite mark_failed_timer, Hcfgp, Hc. repeat split. exact Htickp. }
  (* tick T+1 *)
  set (sim_n := add_log [LogTick (tick sim + 1)] (set_tick (tick sim + 1) sim')).
  assert (Hsn : services_get n (services (graph sim_n))
                = Some (mark_failed (config sim_p) (tick sim_p) s))
    by exact Hmarked.
  destruct (tick_glitch_keeps_timer sim_n n _ Hsn) as [s2 [Hs2 [Ht2 Hf2]]].
  rewrite mark_failed_timer, Hcfgp, Hc in Ht2.
  change (is_failed s2 = true) in Hf2.
  assert (Htt : tick_timer s2 = s2).
  { unfold tick_timer. rewrite Ht2, Hf2. reflexivity. }
  split.
  { exists s2. auto. }
  destruct (tick_glitch_frame Rng rng_choice rng_uniform sim_n)
    as [Hcfg4 [Htick4 [Hra4 [Hn4 _]]]].
  assert (Hcfgn : config sim_n = config sim) by (simpl; congruence).
  assert (Hran : rev_adj (graph sim_n) = rev_adj (graph sim))
    by (simpl; congruence).
  assert (Hnn : names (services (graph sim_n)) = names (services (graph sim))).
  { change (names (services (graph sim')) = names (services (graph sim))).
    rewrite Hsv, names_mark_newly_failed. congruence. }
  set (sim_g := tick_glitch rng_choice rng_uniform sim_n) in *.
  destruct (handle_recovery_returns set_iter (config sim_g) (rev_adj (graph sim_g))
              (tick sim_g) (services (graph sim_g)))
    as [svcs_h [lg_h [Hhr_h Hn_h]]].
  { rewrite Hcfg4, Hcfgn, Hh. discriminate. }
  { rewrite Hra4, Hran, Hn4, Hnn. exact Hra. }
  eexists. split.
  { unfold tick_recovery. rewrite Hhr_h. cbn [bind]. reflexivity. }
  simpl.
  apply (handle_recovery_heals_due set_iter (config sim_g) (rev_adj (graph sim_g))
           (tick sim_g) (services (graph sim_g)) svcs_h lg_h n s2 h 0%Z).
  - rewrite Hcfg4, Hcfgn. exact Hc.
  - rewrite Hcfg4, Hcfgn. exact Hh.
  - exact Hhr_h.
  - exact Hs2.
  - rewrite Htt. exact Ht2.
Qed.

End CooldownZero.

Lemma cooldown_zero_heals_next_tick_witness :
  exists sim',
    run_tick iter_insertion script_choice script_uniform cooldown0_sim = Ok sim'
    /\ map recovery_timer (services (graph sim')) = [0%Z]
    /\ map is_failed (services (graph sim')) = [true]
    /\ exists sim_h,
         tick_recovery iter_insertion
           (tick_glitch script_choice script_uniform
              (add_log [LogTick 2] (set_tick 2 sim'))) = Ok sim_h
         /\ exists s3,
              services_get "X" (services (graph sim_h)) = Some s3
              /\ health s3 = 9#10 /\ is_failed s3 = false
              /\ recovery_timer s3 = (-1)%Z.
Proof.
  destruct (cooldown_zero_heals_next_tick iter_insertion ScriptRng script_choice
              script_uniform cooldown0_sim
              (tick_glitch script_choice script_uniform cooldown0_sim)
              "X"
              {| name := "X"; depends_on := []; health := 40 # 100;
                 initial_health := 9 # 10; is_failed := false;
                 failed_at_tick := (-1)%Z; recovery_timer := (-1)%Z |}
              (9#10))
    as [sim' [Hrun [_ [_ Hheal]]]].
  - intros k d Hd. destruct Hd.
  - reflexivity.
  - reflexivity.
  - vm_compute. reflexivity.
  - vm_compute. reflexivity.
  - vm_compute. reflexivity.
  - reflexivity.
  - exists sim'. split; [exact Hrun|].
    assert (Hv : run_tick iter_insertion script_choice script_uniform cooldown0_sim
                 = Ok sim') by exact Hrun.
    vm_compute in Hv. injection Hv as <-.
    split; [reflexivity|]. split; [reflexivity|]. exact Hheal.
Defined.

(** ** The propagator: an induction principle *)

Section PropagateInvariant.

Variable set_iter : PySet -> list string.
Variable cfg : Config.

(** What the visit of one service does: nothing, or it sets the health of a
    service with dependencies to its baseline minus a positive degradation,
    when that moves it by more than 1e-3. *)
Lemma propagate_service_inv (svcs svcs' : Services) (b b' : bool) (nm : string) :
  propagate_service set_iter cfg (svcs, b) nm = (svcs', b') ->
  (svcs' = svcs /\ b' = b) \/
  exists service,
    services_get nm svcs = Some service
    /\ depends_on service <> []
    /\ 0 < total_degradation set_iter cfg svcs service
    /\ 1#1000 < Qabs (py_max 0 (initial_health service
                                - total_degradation set_iter cfg svcs service)
                      - health service)
    /\ svcs' = services_update nm
                 (set_health
                    (py_max 0 (initial_health service
                               - total_degradation set_iter cfg svcs service)))
                 svcs
    /\ b' = true.
Proof.
  unfold propagate_service.
  destruct (services_get nm svcs) as [service|] eqn:Eg;
    [|intro H; injection H as <- <-; auto].
  destruct (depends_on service) as [|d0 deps] eqn:Ed;
    [intro H; injection H as <- <-; auto|].
  destruct (Qltb 0 (total_degradation set_iter cfg svcs service)) eqn:Et;
    [|intro H; injection H as <- <-; auto].
  destruct (Qltb (1 # 1000) _) eqn:Ea; [|intro H; injection H as <- <-; auto].
  intro H. injection H as <- <-. right. exists service.
  apply Qltb_true in Et, Ea. repeat split; auto. rewrite Ed. discriminate.
Qed.

Variable I : Services -> Prop.
Hypothesis I_step :
  forall svcs nm service,
    I svcs -> services_get nm svcs = Some service ->
    depends_on service <> [] ->
    0 < total_degradation set_iter cfg svcs service ->
    1#1000 < Qabs (py_max 0 (initial_health service
                              - total_degradation set_iter cfg svcs service)
                    - health service) ->
    I (services_update nm
         (set_health
            (py_max 0 (initial_health service
                       - total_degradation set_iter cfg svcs service)))
         svcs).

Lemma sweep_fold_invariant (l : list string) :
  forall svcs b,
  I svcs -> I (fst (fold_left (propagate_service set_iter cfg) l (svcs, b))).
Proof.
  induction l as [|nm rest IH]; intros svcs b HI; cbn [fold_left].
  - exact HI.
  - destruct (propagate_service set_iter cfg (svcs, b) nm) as [svcs1 b1] eqn:E.
    apply IH.
    destruct (propagate_service_inv _ _ _ _ _ E)
      as [[-> _]|[service [Hg [Hd [Ht [Ha [-> _]]]]]]]; [exact HI|].
    apply I_step; assumption.
Qed.

Lemma sweep_invariant (svcs : Services) :
  I svcs -> I (fst (sweep set_iter cfg svcs)).
Proof. unfold sweep. apply sweep_fold_invariant. Qed.

Lemma iter_sweeps_invariant (k : nat) :
  forall svcs, I svcs -> I (iter_sweeps set_iter cfg k svcs).
Proof.
  induction k as [|k IH]; intros svcs HI; simpl.
  - exact HI.
  - apply IH. apply sweep_invariant. exact HI.
Qed.

Lemma propagate_health_invariant (svcs : Services) :
  I svcs -> I (propagate_health set_iter cfg svcs).
Proof.
  intro HI.
  unfold propagate_health.
  destruct (propagate_loop_spec set_iter cfg (List.length svcs) svcs)
    as [_ [-> _]].
  apply iter_sweeps_invariant. exact HI.
Qed.

End PropagateInvariant.

(** ** Health stays within [0, 1] *)

Lemma Forall_setitem (P : Service -> Prop) (v : Service) (svcs : Services) :
  Forall P svcs -> P v -> Forall P (services_setitem v svcs).
Proof.
  intros Hs Hv. induction svcs as [|s rest IH]; simpl.
  - constructor; [exact Hv | constructor].
  - inversion Hs; subst. destruct (String.eqb (name s) (name v)).
    + constructor; assumption.
    + constructor; [assumption | apply IH; assumption].
Qed.

Lemma Forall_load_services (P : Service -> Prop) (data : list ServiceData) :
  (forall d, In d data ->
     P (Service_init (sd_name d) (sd_depends_on d) (sd_health d))) ->
  Forall P (load_services data).
Proof.
  unfold load_services. intro H.
  assert (Hgen : forall l acc, incl l data -> Forall P acc ->
            Forall P (fold_left
                        (fun svcs d =>
                           services_setitem
                             (Service_init (sd_name d) (sd_depends_on d)
                                (sd_health d)) svcs) l acc)).
  { induction l as [|d rest IH]; intros acc Hl Hacc; simpl.
    - exact Hacc.
    - apply IH; [intros x Hx; apply Hl; right; exact Hx|].
      apply Forall_setitem; [exact Hacc|]. apply H. apply Hl. left. reflexivity. }
  apply Hgen; [intros x Hx; exact Hx | constructor].
Qed.

Lemma Forall_mark_newly_failed (P : Service -> Prop) (cfg : Config) (t : Z)
    (l : list string) :
  (forall s, P s -> P (mark_failed cfg t s)) ->
  forall svcs, Forall P svcs -> Forall P (mark_newly_failed cfg t l svcs).
Proof.
  intro HP. unfold mark_newly_failed.
  induction l as [|x rest IH]; intros svcs Hs; simpl.
  - exact Hs.
  - apply IH. apply Forall_update; [exact Hs|]. intros s _ _. apply HP.
Qed.

Lemma py_max_in_range (x : Q) : x <= 1 -> 0 <= py_max 0 x <= 1.
Proof.
  intro Hx. split; [apply py_max_lower | apply py_max_upper; lra].
Qed.

Lemma bump_health_in_range (h old : Q) :
  0 <= old -> old < h -> h <= 1 -> 0 <= bump_health h old <= 1.
Proof.
  intros H0 Hlt H1. unfold bump_health. split.
  - apply py_min_lower; lra.
  - apply py_min_upper.
Qed.

Section HealthRange.

Variable set_iter : PySet -> list string.
Variable Rng : Type.
Variable rng_seed : Z -> Rng.
Variable rng_choice : Rng -> nat -> nat * Rng.
Variable rng_uniform : Rng -> Q -> Q -> Q * Rng.

(** [random.uniform(a, b)] lies between [a] and [b]. *)
Hypothesis rng_uniform_range :
  forall g a b, a <= b -> a <= fst (rng_uniform g a b) <= b.

Lemma ServiceGraph_init_services (data : list ServiceData) (g : ServiceGraph) :
  ServiceGraph_init set_iter data = Ok g ->
  services g = load_services data
  /\ rev_adj g = build_reverse_adjacency set_iter (load_services data).
Proof.
  unfold ServiceGraph_init. intro H.
  destruct (topological_sort _ _ _) as [[order cyc]|]; [|discriminate].
  cbn [bind] in H. injection H as <-. split; reflexivity.
Qed.

Lemma apply_glitch_range (cfg : Config) (g : Rng) (svcs : Services) :
  Forall health_in_range svcs ->
  Forall health_in_range
    (snd (fst (apply_glitch rng_choice rng_uniform cfg g svcs))).
Proof.
  intro Hs.
  destruct (apply_glitch rng_choice rng_uniform cfg g svcs) as [[v svcs'] g'] eqn:E.
  simpl. destruct (apply_glitch_inv _ _ _ _ _ _ _ _ _ E)
    as [[_ ->]|[victim [g1 [_ [_ [_ ->]]]]]]; [exact Hs|].
  apply Forall_update; [exact Hs|]. intros s _ _ [[H0 H1] Hi].
  unfold health_in_range; simpl. split; [|exact Hi].
  destruct (rng_uniform_range g1 (2#10) (5#10)) as [Hlo _]; [lra|].
  apply py_max_in_range. lra.
Qed.

Lemma handle_recovery_range (cfg : Config) (ra : list (string * PySet)) (t : Z)
    (svcs svcs' : Services) (lg : list LogLine) :
  (forall h, heal_to cfg = Some h -> 0 <= h <= 1) ->
  Forall health_in_range svcs ->
  handle_recovery set_iter cfg ra t svcs = Ok (svcs', lg) ->
  Forall health_in_range svcs'.
Proof.
  intros Hh Hs Hrun. destruct (cooldown cfg) as [c|] eqn:Hc.
  - apply (handle_recovery_invariant set_iter cfg ra t
             (fun _ x => Forall health_in_range x) ) with (c := c) (lg := lg)
             (svcs := svcs); [| |exact Hc| |exact Hrun].
    + intros _ x d dep h HJ Hg _ Hheal Hlt.
      assert (Hdep : health_in_range dep).
      { rewrite Forall_forall in HJ. apply HJ. apply (services_get_In _ _ _ Hg). }
      destruct Hdep as [[Hd0 _] _]. destruct (Hh h Hheal) as [_ Hh1].
      pose proof (bump_health_in_range h (health dep) Hd0 Hlt Hh1) as Hb.
      apply Forall_update; [exact HJ|]. intros s _ _ [_ Hi].
      unfold health_in_range, bump_to.
      destruct (Qleb (threshold cfg) _); simpl; auto.
    + intros _ x nm h HJ Hheal. apply Forall_update; [exact HJ|].
      intros s _ _ [_ Hi]. unfold health_in_range; simpl. auto.
    + rewrite Forall_forall in *. intros s' Hs'. apply in_map_iff in Hs'.
      destruct Hs' as [s [<- Hin]]. specialize (Hs s Hin).
      unfold tick_timer. destruct (is_failed s && _); exact Hs.
  - unfold handle_recovery in Hrun. rewrite Hc in Hrun. injection Hrun as <- _.
    exact Hs.
Qed.

Lemma propagate_health_range (cfg : Config) (svcs : Services) :
  Forall health_in_range svcs ->
  Forall health_in_range (propagate_health set_iter cfg svcs).
Proof.
  apply (propagate_health_invariant set_iter cfg (Forall health_in_range)).
  intros x nm service HI Hg _ Ht _.
  assert (Hsvc : health_in_range service).
  { rewrite Forall_forall in HI. apply HI. apply (services_get_In _ _ _ Hg). }
  destruct Hsvc as [_ Hi0].
  apply Forall_update; [exact HI|]. intros s _ _ [_ Hi].
  unfold health_in_range; simpl. split; [|exact Hi].
  apply py_max_in_range. lra.
Qed.

Lemma observable_range (data : list ServiceData) (cfg : Config)
    (sim : Simulator Rng) :
  (forall d, In d data -> 0 <= sd_health d <= 1) ->
  (forall h, heal_to cfg = Some h -> 0 <= h <= 1) ->
  observable set_iter rng_seed rng_choice rng_uniform data cfg sim ->
  config sim = cfg /\ Forall health_in_range (services (graph sim)).
Proof.
  intros Hdata Hheal Hobs. induction Hobs as
    [g Hg | sim sim' _ [IHc IHs] Hsv Hcfg | sim _ [IHc IHs]
    | sim sim' _ [IHc IHs] Hrec | sim _ [IHc IHs] | sim sim' _ [IHc IHs] Hcl].
  - split; [reflexivity|]. simpl.
    destruct (ServiceGraph_init_services data g Hg) as [-> _].
    apply Forall_load_services. intros d Hd. specialize (Hdata d Hd).
    unfold health_in_range; simpl. lra.
  - split; [congruence|]. rewrite Hsv. exact IHs.
  - destruct (tick_glitch_frame Rng rng_choice rng_uniform sim) as [Hc _].
    split; [congruence|]. rewrite tick_glitch_services.
    apply apply_glitch_range. unfold snapshot.
    rewrite Forall_forall in *. intros s' Hs'. apply in_map_iff in Hs'.
    destruct Hs' as [s [<- Hin]]. destruct (IHs s Hin) as [[H0 H1] _].
    unfold health_in_range; simpl. auto.
  - destruct (tick_recovery_inv _ _ _ _ Hrec) as [lg [Hhr [Hc _]]].
    split; [congruence|].
    eapply handle_recovery_range; [| exact IHs | exact Hhr].
    rewrite IHc. exact Hheal.
  - split; [exact IHc|]. simpl. apply propagate_health_range. exact IHs.
  - destruct (tick_classify_inv _ _ _ _ Hcl) as [Hsv [Hc _]].
    split; [congruence|]. rewrite Hsv.
    apply Forall_mark_newly_failed; [|exact IHs]. intros s Hs. exact Hs.
Qed.

(** C1, amended: input health values are stored as given (nothing is clamped
    at construction); when every input health lies in [0, 1] and [heal_to],
    if configured, lies in [0, 1], then at every observable point of a run
    (after construction and after each phase of each tick: glitch, recovery
    with its heals and ripple bumps, propagation, classification) every
    service has [0 <= health <= 1]. *)
Theorem health_stays_in_unit_interval (data : list ServiceData) (cfg : Config)
    (sim : Simulator Rng) :
  (forall d, In d data -> 0 <= sd_health d <= 1) ->
  (forall h, heal_to cfg = Some h -> 0 <= h <= 1) ->
  observable set_iter rng_seed rng_choice rng_uniform data cfg sim ->
  forall s, In s (services (graph sim)) -> 0 <= health s <= 1.
Proof.
  intros Hdata Hheal Hobs s Hs.
  destruct (observable_range data cfg sim Hdata Hheal Hobs) as [_ HF].
  rewrite Forall_forall in HF. apply (HF s Hs).
Qed.

End HealthRange.

(** The states a run goes through are observable points. *)
Section RunObservable.

Variable set_iter : PySet -> list string.
Variable Rng : Type.
Variable rng_seed : Z -> Rng.
Variable rng_choice : Rng -> nat -> nat * Rng.
Variable rng_uniform : Rng -> Q -> Q -> Q * Rng.
Variable data : list ServiceData.
Variable cfg : Config.

Lemma run_tick_observable (sim sim' : Simulator Rng) :
  observable set_iter rng_seed rng_choice rng_uniform data cfg sim ->
  run_tick set_iter rng_choice rng_uniform sim = Ok sim' ->
  observable set_iter rng_seed rng_choice rng_uniform data cfg sim'.
Proof.
  intros Hobs Hrun. unfold run_tick in Hrun.
  destruct (tick_recovery set_iter (tick_glitch rng_choice rng_uniform sim))
    as [sim3|] eqn:Hrec; [|discriminate].
  cbn [bind] in Hrun.
  eapply obs_classify; [|exact Hrun]. apply obs_propagate.
  eapply obs_recovery; [|exact Hrec]. apply obs_glitch. exact Hobs.
Qed.

Lemma run_ticks_observable (n : nat) :
  forall (t : Z) (sim sim' : Simulator Rng),
  observable set_iter rng_seed rng_choice rng_uniform data cfg sim ->
  run_ticks set_iter rng_choice rng_uniform n t sim = Ok sim' ->
  observable set_iter rng_seed rng_choice rng_uniform data cfg sim'.
Proof.
  induction n as [|n IH]; intros t sim sim' Hobs Hrun; cbn [run_ticks] in Hrun.
  - injection Hrun as <-. exact Hobs.
  - destruct (run_tick set_iter rng_choice rng_uniform
                (add_log [LogTick t] (set_tick t sim))) as [sim1|] eqn:Ht;
      [|discriminate].
    cbn [bind] in Hrun. eapply IH; [|exact Hrun].
    eapply run_tick_observable; [|exact Ht].
    eapply obs_frame; [exact Hobs | reflexivity | reflexivity].
Qed.

Lemma simulate_observable (sim' : Simulator Rng) :
  simulate set_iter rng_seed rng_choice rng_uniform data cfg = Ok sim' ->
  observable set_iter rng_seed rng_choice rng_uniform data cfg sim'.
Proof.
  unfold simulate. intro H.
  destruct (ServiceGraph_init set_iter data) as [g|] eqn:Hg; [|discriminate].
  cbn [bind] in H. unfold run in H.
  set (sim0 := Simulator_init rng_seed g cfg) in *.
  destruct (match sorted_services (graph sim0) with
            | Some (_ :: _) => ([], graph sim0)
            | _ => (map LogWarnCycle (cycles (graph sim0)),
                    {| services := services (graph sim0);
                       rev_adj := rev_adj (graph sim0);
                       cycles := cycles (graph sim0);
                       sorted_services := Some (names (services (graph sim0))) |})
            end) as [warns g'] eqn:Eb.
  assert (Hg' : services g' = services g).
  { destruct (sorted_services (graph sim0)) as [[|x l]|];
      injection Eb as _ <-; reflexivity. }
  match type of H with
  | bind (run_ticks _ _ _ ?n ?t ?s0) _ = _ =>
      destruct (run_ticks set_iter rng_choice rng_uniform n t s0) as [sim1|] eqn:Hr;
        [|discriminate];
      assert (Hobs0 : observable set_iter rng_seed rng_choice rng_uniform data cfg s0)
  end.
  { eapply obs_frame; [apply (obs_init _ _ _ _ _ _ g Hg) | exact Hg' | reflexivity]. }
  cbn [bind] in H. injection H as <-.
  apply (obs_frame _ _ _ _ _ _ sim1); [|reflexivity|reflexivity].
  eapply run_ticks_observable; [exact Hobs0 | exact Hr].
Qed.

End RunObservable.

Lemma script_uniform_range (g : ScriptRng) (a b : Q) :
  a <= b -> a <= fst (script_uniform g a b) <= b.
Proof.
  intro Hab. unfold script_uniform. destruct g as [|[i q] rest]; simpl; [lra|].
  destruct (Qltb q a) eqn:E1; [lra|].
  destruct (Qltb b q) eqn:E2; [lra|].
  apply Qltb_false in E1, E2. lra.
Qed.

Lemma health_stays_in_unit_interval_witness :
  exists sim,
    simulate iter_insertion (script_seed [(O, 5#10); (O, 3#10)]) script_choice
      script_uniform chain_data cooldown_config = Ok sim
    /\ forall s, In s (services (graph sim)) -> 0 <= health s <= 1.
Proof.
  eexists. split; [vm_compute; reflexivity|].
  apply (health_stays_in_unit_interval iter_insertion ScriptRng
           (script_seed [(O, 5#10); (O, 3#10)]) script_choice script_uniform
           script_uniform_range chain_data cooldown_config).
  - intros d [<-|[<-|[]]]; simpl; lra.
  - intros h Hh. injection Hh as <-. lra.
  - apply simulate_observable. vm_compute. reflexivity.
Defined.

(** C1 as stated fails: an input health of 1.5 is stored as 1.5 by the
    constructor, and is still above 1 (1.3) after a tick with a glitch. *)
Lemma input_health_not_clamped :
  (exists s, services_get "A" (load_services overhealthy_data) = Some s
             /\ health s = 15#10 /\ ~ (0 <= health s <= 1))
  /\ exists sim s,
       simulate iter_insertion (script_seed []) script_choice script_uniform
         overhealthy_data one_tick_config = Ok sim
       /\ services_get "A" (services (graph sim)) = Some s
       /\ ~ (0 <= health s <= 1).
Proof.
  split.
  - eexists. split; [reflexivity|]. split; [reflexivity|]. simpl. lra.
  - do 2 eexists. split; [vm_compute; reflexivity|].
    split; [reflexivity|]. simpl. lra.
Qed.

(** ** Monotonicity of the propagation sweeps *)

Lemma not_higher_refl (s : Service) : not_higher s s.
Proof. unfold not_higher. repeat split; auto. lra. Qed.

Lemma not_higher_trans (a b c : Service) :
  not_higher a b -> not_higher b c -> not_higher a c.
Proof.
  unfold not_higher. intros [Hn1 [Hd1 [Hi1 Hh1]]] [Hn2 [Hd2 [Hi2 Hh2]]].
  repeat split; try congruence. lra.
Qed.

Lemma Forall2_refl {A : Type} (R : A -> A -> Prop) (l : list A) :
  (forall x, R x x) -> Forall2 R l l.
Proof. intro H. induction l; constructor; auto. Qed.

Lemma Forall2_trans {A : Type} (R : A -> A -> Prop) :
  (forall a b c, R a b -> R b c -> R a c) ->
  forall l1 l2 l3, Forall2 R l1 l2 -> Forall2 R l2 l3 -> Forall2 R l1 l3.
Proof.
  intros HR l1 l2 l3 H12. revert l3.
  induction H12 as [|a b l1 l2 Hab _ IH]; intros l3 H23;
    inversion H23; subst; constructor; eauto.
Qed.

Lemma Forall2_map_self {A : Type} (R : A -> A -> Prop) (g : A -> A) (l : list A) :
  (forall x, In x l -> R x (g x)) -> Forall2 R l (map g l).
Proof.
  induction l as [|a l IH]; intro H; simpl; constructor.
  - apply H. left. reflexivity.
  - apply IH. intros x Hx. apply H. right. exact Hx.
Qed.

Lemma Forall2_not_higher_names (x y : Services) :
  Forall2 not_higher x y -> names y = names x.
Proof.
  induction 1 as [|a b x y [Hn _] _ IH]; simpl; [reflexivity|]. congruence.
Qed.

Lemma Forall2_not_higher_get (x y : Services) (n : string) :
  Forall2 not_higher x y ->
  match services_get n x, services_get n y with
  | Some a, Some b => not_higher a b
  | None, None => True
  | _, _ => False
  end.
Proof.
  unfold services_get. induction 1 as [|a b x y Hab _ IH]; simpl; [exact I|].
  destruct Hab as [Hn Hrest]. rewrite Hn.
  destruct (String.eqb (name a) n); [|exact IH].
  unfold not_higher. tauto.
Qed.

Lemma NoDup_names_get (svcs : Services) (s : Service) :
  NoDup (names svcs) -> In s svcs -> services_get (name s) svcs = Some s.
Proof.
  unfold services_get, names. induction svcs as [|a rest IH]; intros Hnd Hin.
  - destruct Hin.
  - simpl in *. inversion Hnd as [|? ? Hna Hnd']; subst.
    destruct Hin as [->|Hin].
    + rewrite String.eqb_refl. reflexivity.
    + destruct (String.eqb (name a) (name s)) eqn:E; [|apply IH; assumption].
      apply String.eqb_eq in E. exfalso. apply Hna. rewrite E.
      apply in_map. exact Hin.
Qed.

Section SweepMonotone.

Variable set_iter : PySet -> list string.
Variable cfg : Config.
Hypothesis alpha_nonneg : 0 <= alpha cfg.

(** Lower healths give at least as much degradation. *)
Lemma total_degradation_fold_mono (x y : Services) (l : list string) :
  Forall2 not_higher x y ->
  forall a b, a <= b ->
  fold_left
    (fun total dep_name =>
       match services_get dep_name x with
       | Some dep =>
           if Qltb (health dep) (threshold cfg)
           then total + alpha cfg * (threshold cfg - health dep) else total
       | None => total
       end) l a
  <= fold_left
    (fun total dep_name =>
       match services_get dep_name y with
       | Some dep =>
           if Qltb (health dep) (threshold cfg)
           then total + alpha cfg * (threshold cfg - health dep) else total
       | None => total
       end) l b.
Proof.
  intro Hxy. induction l as [|d rest IH]; intros a b Hab; simpl.
  - exact Hab.
  - apply IH. pose proof (Forall2_not_higher_get x y d Hxy) as Hd.
    destruct (services_get d x) as [dx|], (services_get d y) as [dy|];
      try contradiction; [|exact Hab].
    destruct Hd as [_ [_ [_ Hh]]].
    destruct (Qltb (health dx) (threshold cfg)) eqn:Ex,
             (Qltb (health dy) (threshold cfg)) eqn:Ey.
    + apply Qltb_true in Ex, Ey.
      assert (alpha cfg * (threshold cfg - health dx)
              <= alpha cfg * (threshold cfg - health dy)) by nra.
      lra.
    + apply Qltb_true in Ex. apply Qltb_false in Ey. lra.
    + apply Qltb_true in Ey.
      assert (0 <= alpha cfg * (threshold cfg - health dy)) by nra.
      lra.
    + exact Hab.
Qed.

Lemma total_degradation_mono (x y : Services) (s s' : Service) :
  Forall2 not_higher x y -> depends_on s' = depends_on s ->
  total_degradation set_iter cfg x s <= total_degradation set_iter cfg y s'.
Proof.
  intros Hxy Hd. unfold total_degradation. rewrite Hd.
  apply total_degradation_fold_mono; [exact Hxy | lra].
Qed.

Lemma total_degradation_no_deps (x : Services) (s : Service) :
  (forall d, In d (set_iter (depends_on s)) -> services_get d x = None) ->
  total_degradation set_iter cfg x s = 0.
Proof.
  unfold total_degradation. generalize 0.
  induction (set_iter (depends_on s)) as [|d rest IH]; intros a H; simpl.
  - reflexivity.
  - rewrite (H d (or_introl eq_refl)). apply IH.
    intros d' Hd'. apply H. right. exact Hd'.
Qed.

Lemma above_rule_weaken (x y : Services) (s s' : Service) :
  Forall2 not_higher x y ->
  depends_on s' = depends_on s -> initial_health s' = initial_health s ->
  health s' = health s ->
  above_rule set_iter cfg x s -> above_rule set_iter cfg y s'.
Proof.
  intros Hxy Hd Hi Hh [Hnone|[H0 Hr]].
  - left. rewrite Hd. intros d Hin. specialize (Hnone d Hin).
    pose proof (Forall2_not_higher_get x y d Hxy) as Hg. rewrite Hnone in Hg.
    destruct (services_get d y); [contradiction | reflexivity].
  - right.
    pose proof (total_degradation_mono x y s s' Hxy Hd) as Hm.
    rewrite Hi, Hh. split; [exact H0|].
    destruct Hr as [Hr|[Ht Hr]]; [left; exact Hr | right]. split; lra.
Qed.

Lemma propagate_service_monotone (x : Services) (b : bool) (nm : string) :
  ready set_iter cfg x ->
  ready set_iter cfg (fst (propagate_service set_iter cfg (x, b) nm))
  /\ Forall2 not_higher x (fst (propagate_service set_iter cfg (x, b) nm)).
Proof.
  intros [Hnd Hall].
  destruct (propagate_service set_iter cfg (x, b) nm) as [y b'] eqn:E. simpl.
  destruct (propagate_service_inv _ _ _ _ _ _ _ E)
    as [[-> _]|[service [Hg [_ [Ht [_ [-> _]]]]]]].
  { split; [split; assumption | apply Forall2_refl, not_higher_refl]. }
  set (v := py_max 0 (initial_health service
                      - total_degradation set_iter cfg x service)) in *.
  assert (Hsvc : above_rule set_iter cfg x service).
  { rewrite Forall_forall in Hall. apply Hall. apply (services_get_In _ _ _ Hg). }
  assert (Hv : 0 <= v /\ v <= health service
               /\ initial_health service
                  - total_degradation set_iter cfg x service <= v).
  { destruct Hsvc as [Hnone|[H0 Hr]].
    { rewrite (total_degradation_no_deps x service Hnone) in Ht. lra. }
    split; [apply py_max_lower|]. split; [|apply py_max_ge].
    apply py_max_upper; [exact H0|]. destruct Hr as [Hr|[_ Hr]]; lra. }
  assert (Huniq : forall s, In s x -> name s = nm -> s = service).
  { intros s Hin Hn. pose proof (NoDup_names_get x s Hnd Hin) as Hs.
    rewrite Hn in Hs. congruence. }
  assert (Hxy : Forall2 not_higher x (services_update nm (set_health v) x)).
  { unfold services_update. apply Forall2_map_self. intros s Hin.
    destruct (String.eqb (name s) nm) eqn:En; [|apply not_higher_refl].
    apply String.eqb_eq in En. rewrite (Huniq s Hin En).
    unfold not_higher; simpl. repeat split; auto. apply Hv. }
  split; [|exact Hxy]. split.
  - rewrite names_update; [exact Hnd | reflexivity].
  - rewrite Forall_forall in *. intros s' Hs'.
    apply In_services_update in Hs'.
    destruct Hs' as [[Hin _]|[s0 [Hin [Hn ->]]]].
    + apply (above_rule_weaken x _ s' s' Hxy); auto.
    + rewrite (Huniq s0 Hin Hn).
      pose proof (total_degradation_mono x _ service (set_health v service)
                    Hxy eq_refl) as Hm.
      unfold above_rule; simpl. right. split; [apply Hv|]. right.
      destruct Hv as [_ [_ Hv]]. split; lra.
Qed.

Lemma sweep_fold_monotone (l : list string) :
  forall x b,
  ready set_iter cfg x ->
  ready set_iter cfg (fst (fold_left (propagate_service set_iter cfg) l (x, b)))
  /\ Forall2 not_higher x
       (fst (fold_left (propagate_service set_iter cfg) l (x, b))).
Proof.
  induction l as [|nm rest IH]; intros x b Hr; cbn [fold_left].
  - split; [exact Hr | apply Forall2_refl, not_higher_refl].
  - destruct (propagate_service_monotone x b nm Hr) as [Hr1 H1].
    destruct (propagate_service set_iter cfg (x, b) nm) as [x1 b1]. simpl in *.
    destruct (IH x1 b1 Hr1) as [Hr2 H2].
    split; [exact Hr2|]. apply (Forall2_trans _ not_higher_trans _ _ _ H1 H2).
Qed.

Lemma sweep_monotone (x : Services) :
  ready set_iter cfg x ->
  ready set_iter cfg (fst (sweep set_iter cfg x))
  /\ Forall2 not_higher x (fst (sweep set_iter cfg x)).
Proof. unfold sweep. apply sweep_fold_monotone. Qed.

Lemma iter_sweeps_ready (k : nat) :
  forall x, ready set_iter cfg x -> ready set_iter cfg (iter_sweeps set_iter cfg k x).
Proof.
  induction k as [|k IH]; intros x Hr; simpl; [exact Hr|].
  apply IH. apply sweep_monotone. exact Hr.
Qed.

(** C3, amended: with the per-tick baseline held fixed and [alpha >= 0], when
    propagation starts from a store in which every service is at or above
    what the rule can assign to it (health non-negative and either at least
    the baseline, or at least the baseline minus its current positive
    degradation), no sweep ever increases any service's health: for every
    [k], the sweep that follows the first [k] sweeps leaves each service with
    the same baseline and a health that is lower or equal. *)
Theorem sweeps_never_increase_health (svcs : Services) (k : nat) (n : string)
    (s s' : Service) :
  NoDup (names svcs) ->
  Forall (above_rule set_iter cfg svcs) svcs ->
  services_get n (iter_sweeps set_iter cfg k svcs) = Some s ->
  services_get n (fst (sweep set_iter cfg (iter_sweeps set_iter cfg k svcs)))
  = Some s' ->
  health s' <= health s /\ initial_health s' = initial_health s.
Proof.
  intros Hnd Hall Hs Hs'.
  assert (Hr : ready set_iter cfg (iter_sweeps set_iter cfg k svcs))
    by (apply iter_sweeps_ready; split; assumption).
  destruct (sweep_monotone _ Hr) as [_ H2].
  pose proof (Forall2_not_higher_get _ _ n H2) as Hg.
  rewrite Hs, Hs' in Hg. destruct Hg as [_ [_ [Hi Hh]]]. auto.
Qed.

End SweepMonotone.

Lemma sweeps_never_increase_health_witness :
  exists s s',
    services_get "B" cascade_store = Some s
    /\ services_get "B" (fst (sweep iter_insertion glitched_config cascade_store))
       = Some s'
    /\ health s' == 8#10
    /\ health s' <= health s /\ initial_health s' = initial_health s.
Proof.
  do 2 eexists. split; [reflexivity|]. split; [vm_compute; reflexivity|].
  split; [reflexivity|].
  apply (sweeps_never_increase_health iter_insertion glitched_config)
    with (svcs := cascade_store) (k := O) (n := "B").
  - simpl. lra.
  - repeat constructor; simpl; intuition discriminate.
  - constructor; [left; intros d []|].
    constructor; [|constructor]. right. simpl. split; [lra | left; lra].
  - reflexivity.
  - vm_compute. reflexivity.
Defined.

(** C3 as stated fails: in tick 2 of a run on the chain A <- B, the glitch
    takes B from its baseline 0.95 down to 0.65 while its dependency A is
    failed at 0.65; the first sweep of the propagator then sets B to
    baseline minus degradation, 0.95 - 0.05 = 0.90, which is higher. *)
Lemma sweep_can_increase_health :
  exists g sim1 sim2 s s',
    ServiceGraph_init iter_insertion glitched_data = Ok g
    /\ run_ticks iter_insertion script_choice script_uniform 1 1
         (Simulator_init (script_seed glitched_script) g glitched_config)
       = Ok sim1
    /\ tick_recovery iter_insertion
         (tick_glitch script_choice script_uniform
            (add_log [LogTick 2] (set_tick 2 sim1))) = Ok sim2
    /\ services_get "B" (services (graph sim2)) = Some s
    /\ services_get "B"
         (fst (sweep iter_insertion glitched_config (services (graph sim2))))
       = Some s'
    /\ initial_health s' = initial_health s
    /\ health s == 65#100 /\ health s' == 90#100
    /\ health s < health s'.
Proof.
  do 5 eexists.
  split; [vm_compute; reflexivity|].
  split; [vm_compute; reflexivity|].
  split; [vm_compute; reflexivity|].
  split; [vm_compute; reflexivity|].
  split; [vm_compute; reflexivity|].
  split; [reflexivity|].
  split; [reflexivity|]. split; [reflexivity|]. reflexivity.
Qed.

(** ** Root-cause analysis *)

Lemma dict_get_set_same {V : Type} (k : string) (v : V) (d : list (string * V)) :
  dict_get k (dict_set k v d) = Some v.
Proof.
  unfold dict_get. induction d as [|[k' v'] rest IH]; simpl.
  - rewrite String.eqb_refl. reflexivity.
  - destruct (String.eqb k' k) eqn:E; simpl.
    + rewrite String.eqb_refl. reflexivity.
    + rewrite E. exact IH.
Qed.

Lemma dict_get_set_other {V : Type} (k k' : string) (v : V)
    (d : list (string * V)) :
  k' <> k -> dict_get k' (dict_set k v d) = dict_get k' d.
Proof.
  intro Hne. unfold dict_get. induction d as [|[k0 v0] rest IH]; simpl.
  - destruct (String.eqb k k') eqn:E; [|reflexivity].
    apply String.eqb_eq in E. congruence.
  - destruct (String.eqb k0 k) eqn:E; simpl.
    + apply String.eqb_eq in E. subst k0.
      destruct (String.eqb k k') eqn:E'; [|reflexivity].
      apply String.eqb_eq in E'. congruence.
    + destruct (String.eqb k0 k'); [reflexivity | exact IH].
Qed.

(** The head of a list sorted by descending key, equal keys in their
    original order: the first element of maximal key. *)
Lemma sorted_desc_head {A : Type} (key : A -> nat) (l : list A) :
  l <> [] ->
  exists top rest l1 l2,
    sorted_desc key l = top :: rest
    /\ l = l1 ++ top :: l2
    /\ (forall x, In x l1 -> (key x < key top)%nat)
    /\ (forall x, In x l2 -> (key x <= key top)%nat).
Proof.
  induction l as [|a l IH]; intro Hne; [contradiction|].
  destruct l as [|b l'].
  - exists a, [], [], []. simpl. repeat split; auto; intros x [].
  - destruct IH as [top [rest [l1 [l2 [Hs [Hl [H1 H2]]]]]]]; [discriminate|].
    change (sorted_desc key (a :: b :: l'))
      with (insert_desc key a (sorted_desc key (b :: l'))).
    rewrite Hs. cbn [insert_desc].
    destruct (key top <=? key a)%nat eqn:E.
    + apply Nat.leb_le in E. exists a, (top :: rest), [], (b :: l').
      split; [reflexivity|]. split; [reflexivity|]. split; [intros x []|].
      intros x Hx. rewrite Hl in Hx. apply in_app_or in Hx.
      destruct Hx as [Hx|[<-|Hx]].
      * specialize (H1 x Hx). lia.
      * exact E.
      * specialize (H2 x Hx). lia.
    + apply Nat.leb_gt in E. exists top, (insert_desc key a rest), (a :: l1), l2.
      split; [reflexivity|]. split; [rewrite Hl; reflexivity|]. split.
      * intros x [<-|Hx]; [exact E | apply H1; exact Hx].
      * exact H2.
Qed.

(** [min(l, key=health)]: an element of the list of minimal health. *)
Lemma min_by_health_spec (l : list Service) :
  forall best,
  In (min_by_health best l) (best :: l)
  /\ forall s, In s (best :: l) -> health (min_by_health best l) <= health s.
Proof.
  induction l as [|a l IH]; intro best; simpl.
  - split; [left; reflexivity|]. intros s [<-|[]]. lra.
  - destruct (Qltb (health a) (health best)) eqn:E.
    + apply Qltb_true in E. destruct (IH a) as [Hin Hmin]. split.
      * destruct Hin as [Hin|Hin]; [right; left; exact Hin | right; right; exact Hin].
      * intros s [<-|[<-|Hs]].
        -- specialize (Hmin a (or_introl eq_refl)). lra.
        -- apply Hmin. left. reflexivity.
        -- apply Hmin. right. exact Hs.
    + apply Qltb_false in E. destruct (IH best) as [Hin Hmin]. split.
      * destruct Hin as [Hin|Hin]; [left; exact Hin | right; right; exact Hin].
      * intros s [<-|[<-|Hs]].
        -- apply Hmin. left. reflexivity.
        -- specialize (Hmin best (or_introl eq_refl)). lra.
        -- apply Hmin. right. exact Hs.
Qed.

Section RootCause.

Variable set_iter : PySet -> list string.
Hypothesis set_iter_In : forall (s : PySet) (x : string), In x (set_iter s) <-> In x s.

(** The root test: no dependency that is a service of the graph is failed. *)
Lemma is_root_spec (svcs : Services) (s : Service) :
  is_root set_iter svcs s = true <->
  forall d dep, In d (depends_on s) -> services_get d svcs = Some dep ->
                is_failed dep = false.
Proof.
  unfold is_root. rewrite negb_true_iff. split.
  - intros H d dep Hd Hg. apply (proj2 (set_iter_In _ _)) in Hd.
    destruct (is_failed dep) eqn:Ef; [|reflexivity].
    assert (Hex : existsb
              (fun dep_name => match services_get dep_name svcs with
                               | Some d0 => is_failed d0 | None => false end)
              (set_iter (depends_on s)) = true).
    { apply existsb_exists. exists d. split; [exact Hd|]. rewrite Hg. exact Ef. }
    congruence.
  - intro H. apply not_true_is_false. intro Hex.
    apply existsb_exists in Hex. destruct Hex as [d [Hd Hf]].
    apply (proj1 (set_iter_In _ _)) in Hd.
    destruct (services_get d svcs) as [dep|] eqn:Eg; [|discriminate].
    rewrite (H d dep Hd Eg) in Hf. discriminate.
Qed.

(** The dict [blast_radii] holds, for each root, what [get_blast_radius]
    returns for it. *)
Lemma blast_radii_lookup (g : ServiceGraph) (roots : list Service) :
  forall d d',
  foldM (fun d root =>
           radius <- get_blast_radius set_iter g (name root) ;;
           Ok (dict_set (name root) radius d))
        roots d = Ok d' ->
  forall x radius,
    get_blast_radius set_iter g x = Ok radius ->
    In x (names roots) \/ dict_get x d = Some radius ->
    dict_get x d' = Some radius.
Proof.
  induction roots as [|r rest IH]; intros d d' H x radius Hx Hin;
    cbn [foldM] in H.
  - injection H as <-. destruct Hin as [[]|Hin]. exact Hin.
  - destruct (get_blast_radius set_iter g (name r)) as [rad|] eqn:Er;
      [|discriminate].
    cbn [bind] in H. apply (IH _ _ H x radius Hx).
    destruct (string_dec x (name r)) as [->|Hne].
    + right. rewrite dict_get_set_same. congruence.
    + destruct Hin as [[Heq|Hin]|Hin].
      * congruence.
      * left. exact Hin.
      * right. rewrite dict_get_set_other by exact Hne. exact Hin.
Qed.

End RootCause.

Section RootCauseTheorem.

Variable set_iter : PySet -> list string.
Hypothesis set_iter_In : forall (s : PySet) (x : string), In x (set_iter s) <-> In x s.

Lemma rca_analyse_inv (g : ServiceGraph) (failed_services : list string)
    (r : RcaResult) :
  rca_analyse set_iter g failed_services = Ok r ->
  let F := deref (services g) failed_services in
  let R0 := filter (is_root set_iter (services g)) F in
  exists roots,
    ((R0 = [] /\ rca_fallback r = true
      /\ exists f0 frest, F = f0 :: frest /\ roots = [min_by_health f0 frest])
     \/ ((R0 <> [] \/ F = []) /\ rca_fallback r = false /\ roots = R0))
    /\ rca_root_causes r = names roots
    /\ foldM (fun d root =>
                radius <- get_blast_radius set_iter g (name root) ;;
                Ok (dict_set (name root) radius d))
             roots [] = Ok (rca_blast_radii r)
    /\ rca_sorted_roots r
       = sorted_desc (blast_key (rca_blast_radii r)) (names roots).
Proof.
  unfold rca_analyse. intro H. cbv zeta.
  set (F := deref (services g) failed_services) in *.
  destruct (filter (is_root set_iter (services g)) F) as [|r0 roots0] eqn:Er.
  - destruct F as [|f0 frest] eqn:EF.
    + cbn [bind] in H.
      destruct (foldM _ _ _) as [d|] eqn:Ed; [|discriminate].
      cbn [bind] in H. injection H as <-. exists []. simpl.
      split; [right; auto|]. split; [reflexivity|]. split; [|reflexivity].
      cbn [foldM] in Ed. exact Ed.
    + cbn [bind py_min_health] in H.
      destruct (foldM _ [min_by_health f0 frest] _) as [d|] eqn:Ed; [|discriminate].
      cbn [bind] in H. injection H as <-. exists [min_by_health f0 frest].
      split; [left; split; [reflexivity|]; split; [reflexivity|]; eauto|].
      split; [reflexivity|]. split; [exact Ed | reflexivity].
  - cbn [bind] in H.
    destruct (foldM _ (r0 :: roots0) _) as [d|] eqn:Ed; [|discriminate].
    cbn [bind] in H. injection H as <-. exists (r0 :: roots0).
    split; [right; split; [left; discriminate|]; split; reflexivity|].
    split; [reflexivity|]. split; [exact Ed | reflexivity].
Qed.

(** C7: whenever RCA runs on a non-empty failure set F, it returns; the roots
    are, in discovery order, the services of F none of whose in-graph
    dependencies is failed; if there is none, the single root is a service of
    F of minimal health; and the priority, which is both the [SUGGESTION]
    line and the [priority] of the incident, is the first root, in discovery
    order, whose blast radius ([get_blast_radius]) has maximal size. *)
Theorem rca_roots_and_priority (g : ServiceGraph) (t : Z)
    (failed_services : list string) :
  rev_adj_wf set_iter (rev_adj g) (names (services g)) ->
  deref (services g) failed_services <> [] ->
  let F := deref (services g) failed_services in
  let R0 := filter (is_root set_iter (services g)) F in
  exists r top rest lines,
    rca_analyse set_iter g failed_services = Ok r
    /\ (forall s, In s R0 <->
          In s F /\ forall d dep, In d (depends_on s) ->
                      services_get d (services g) = Some dep ->
                      is_failed dep = false)
    /\ (R0 <> [] -> rca_root_causes r = names R0 /\ rca_fallback r = false)
    /\ (R0 = [] ->
        exists m, rca_root_causes r = [name m] /\ rca_fallback r = true
                  /\ In m F /\ forall s, In s F -> health m <= health s)
    /\ rca_sorted_roots r = top :: rest
    /\ perform_rca set_iter g t failed_services
       = Ok (lines, [ {| inc_tick := t; inc_roots := rca_root_causes r;
                         inc_impacted := rca_impacted set_iter r;
                         inc_priority := top |} ])
    /\ In (LogSuggestion top) lines
    /\ (forall x, In x (rca_root_causes r) ->
          exists radius,
            get_blast_radius set_iter g x = Ok radius
            /\ blast_key (rca_blast_radii r) x = List.length radius)
    /\ exists l1 l2,
         rca_root_causes r = l1 ++ top :: l2
         /\ (forall x, In x l1 ->
               (blast_key (rca_blast_radii r) x
                < blast_key (rca_blast_radii r) top)%nat)
         /\ (forall x, In x l2 ->
               (blast_key (rca_blast_radii r) x
                <= blast_key (rca_blast_radii r) top)%nat).
Proof.
  intros Hra HF F R0.
  destruct (rca_analyse_returns set_iter g failed_services Hra) as [r Hr].
  destruct (rca_analyse_inv g failed_services r Hr)
    as [roots [Hcase [Hroots [Hradii Hsorted]]]].
  fold F in Hcase. fold R0 in Hcase.
  assert (Hne : names roots <> []).
  { destruct Hcase as [[_ [_ [f0 [frest [_ ->]]]]]|[[Hn|He] [_ ->]]].
    - discriminate.
    - intro H. apply Hn. destruct R0; [reflexivity | discriminate].
    - contradiction. }
  destruct (sorted_desc_head (blast_key (rca_blast_radii r)) (names roots) Hne)
    as [top [rest [l1 [l2 [Hs [Hl [H1 H2]]]]]]].
  exists r, top, rest, (rca_log set_iter r).
  split; [exact Hr|]. split.
  { intro s. unfold R0. rewrite filter_In, (is_root_spec set_iter set_iter_In).
    reflexivity. }
  split.
  { intro Hn. destruct Hcase as [[He _]|[_ [Hf ->]]]; [contradiction|].
    split; assumption. }
  split.
  { intro He. destruct Hcase as [[_ [Hf [f0 [frest [HFeq ->]]]]]|[[Hn|HFe] _]];
      [|contradiction|contradiction].
    exists (min_by_health f0 frest). split; [exact Hroots|]. split; [exact Hf|].
    destruct (min_by_health_spec frest f0) as [Hin Hmin].
    rewrite HFeq. split; assumption. }
  split; [rewrite Hsorted; exact Hs|]. split.
  { unfold perform_rca. rewrite Hr. cbn [bind]. unfold rca_incident.
    rewrite Hsorted, Hs. reflexivity. }
  split.
  { unfold rca_log. rewrite Hsorted, Hs. apply in_or_app. right.
    apply in_or_app. right. apply in_or_app. right. left. reflexivity. }
  split.
  { intros x Hx. rewrite Hroots in Hx.
    destruct (get_blast_radius_returns set_iter g x Hra) as [radius [Hb _]].
    exists radius. split; [exact Hb|]. unfold blast_key.
    rewrite (blast_radii_lookup set_iter g roots _ _ Hradii x radius Hb
               (or_introl Hx)).
    reflexivity. }
  exists l1, l2. rewrite Hroots. auto.
Qed.

End RootCauseTheorem.

Lemma rev_adj_wf_Forall (set_iter : PySet -> list string)
    (ra : list (string * PySet)) (nms : list string) :
  Forall (fun kv => incl (set_iter (snd kv)) nms) ra -> rev_adj_wf set_iter ra nms.
Proof.
  intros HF k d Hd. unfold rev_adj_get in Hd.
  destruct (dict_get k ra) as [s|] eqn:E; [|destruct Hd].
  destruct (dict_get_In _ _ _ E) as [k' Hin].
  rewrite Forall_forall in HF. apply (HF _ Hin). exact Hd.
Qed.

Lemma rca_graph_wf :
  rev_adj_wf iter_insertion (rev_adj rca_graph) (names (services rca_graph)).
Proof.
  apply rev_adj_wf_Forall. constructor; [|constructor; [|constructor]].
  - intros x [<-|[]]. simpl. auto.
  - intros x [<-|[<-|[]]]; simpl; auto 6.
Qed.

Lemma rca_roots_and_priority_witness :
  exists r lines,
    rca_analyse iter_insertion rca_graph ["A"; "B"; "C"] = Ok r
    /\ rca_root_causes r = ["A"; "C"]
    /\ rca_sorted_roots r = ["C"; "A"]
    /\ perform_rca iter_insertion rca_graph 1 ["A"; "B"; "C"]
       = Ok (lines, [ {| inc_tick := 1; inc_roots := ["A"; "C"];
                         inc_impacted := [("A", ["B"]); ("C", ["D"; "E"])];
                         inc_priority := "C" |} ]).
Proof.
  destruct (rca_roots_and_priority iter_insertion (fun s x => iff_refl _)
              rca_graph 1 ["A"; "B"; "C"] rca_graph_wf)
    as [r [top [rest [lines [Hr [_ [_ [_ [Hs [Hp _]]]]]]]]]].
  - simpl. discriminate.
  - exists r, lines. split; [exact Hr|].
    vm_compute in Hr. injection Hr as <-.
    vm_compute in Hs. injection Hs as <- <-.
    split; [reflexivity|]. split; [reflexivity|]. exact Hp.
Defined.

(** ** What the recovery walk visits *)

Section WalkEffect.

Variable set_iter : PySet -> list string.
Variable cfg : Config.
Variable ra : list (string * PySet).
Variable healed : string.
Variable svcs0 : Services.
Variable h : Q.
Hypothesis heal_to_present : heal_to cfg = Some h.
Hypothesis ra_wf : rev_adj_wf set_iter ra (names svcs0).

Lemma recovery_visit_effect (st st' : RecState) (current d : string) :
  walk_wf healed (names svcs0) st ->
  walk_effect set_iter cfg ra h svcs0 st ->
  In current (rs_visited st) ->
  In d (rev_adj_get set_iter current ra) ->
  recovery_visit set_iter cfg st d = Ok st' ->
  walk_wf healed (names svcs0) st'
  /\ walk_effect set_iter cfg ra h svcs0 st'
  /\ In current (rs_visited st').
Proof.
  intros Hwf Heff Hcur Hd Hv.
  destruct (recovery_visit_returns set_iter cfg healed (names svcs0) h
              heal_to_present st d Hwf (ra_wf current d Hd))
    as [st1 [Hv1 [Hwf1 _]]].
  assert (st1 = st') by congruence. subst st1.
  split; [exact Hwf1|].
  destruct (recovery_visit_inv _ _ _ _ _ Hv)
    as [->|[dep [h' [Hm [Hg [_ [Hh' [Hlt ->]]]]]]]]; [auto|].
  assert (h' = h) by congruence. subst h'.
  destruct Hwf as [_ [_ [_ [Hvis _]]]].
  destruct Heff as [Hpar [Hsame Hbump]].
  rewrite (set_add_new _ _ Hm). apply set_mem_false in Hm.
  assert (Hnot : ~ In d (recovered_names (rs_recovered st))).
  { intro Hin. apply Hm. rewrite Hvis. right. exact Hin. }
  split; [|simpl; apply in_or_app; left; exact Hcur].
  unfold walk_effect, recovered_names; simpl. rewrite map_app. simpl.
  split; [|split].
  - intros x Hx. apply in_app_or in Hx. destruct Hx as [Hx|[<-|[]]].
    + destruct (Hpar x Hx) as [p [Hp Hxp]]. exists p.
      split; [apply in_or_app; left; exact Hp | exact Hxp].
    + exists current. split; [apply in_or_app; left; exact Hcur | exact Hd].
  - intros n Hn.
    assert (Hnd : n <> d).
    { intro Heq. apply Hn. apply in_or_app. right. left. auto. }
    rewrite services_get_update by (intro; apply bump_to_name).
    apply String.eqb_neq in Hnd. rewrite Hnd. apply Hsame.
    intro Hin. apply Hn. apply in_or_app. left. exact Hin.
  - intros n Hn. apply in_app_or in Hn. destruct Hn as [Hn|[<-|[]]].
    + destruct (Hbump n Hn) as [s [Hs0 [Hlts [Hrec Hget]]]].
      exists s. split; [exact Hs0|]. split; [exact Hlts|].
      split; [apply in_or_app; left; exact Hrec|].
      rewrite services_get_update by (intro; apply bump_to_name).
      assert (Hnd : n <> d) by (intro Heq; subst n; contradiction).
      apply String.eqb_neq in Hnd. rewrite Hnd. exact Hget.
    + exists dep. rewrite <- (Hsame d Hnot). split; [exact Hg|].
      split; [exact Hlt|].
      split; [apply in_or_app; right; left; reflexivity|].
      rewrite services_get_update by (intro; apply bump_to_name).
      rewrite String.eqb_refl, Hg. reflexivity.
Qed.

Lemma recovery_visits_effect (current : string) (l : list string) :
  forall st st',
  walk_wf healed (names svcs0) st ->
  walk_effect set_iter cfg ra h svcs0 st ->
  In current (rs_visited st) ->
  incl l (rev_adj_get set_iter current ra) ->
  foldM (recovery_visit set_iter cfg) l st = Ok st' ->
  walk_wf healed (names svcs0) st' /\ walk_effect set_iter cfg ra h svcs0 st'.
Proof.
  induction l as [|d rest IH]; intros st st' Hwf Heff Hcur Hl H; cbn [foldM] in H.
  - injection H as <-. auto.
  - destruct (recovery_visit set_iter cfg st d) as [st1|] eqn:Hv; [|discriminate].
    cbn [bind] in H.
    destruct (recovery_visit_effect st st1 current d Hwf Heff Hcur
                (Hl d (or_introl eq_refl)) Hv) as [Hwf1 [Heff1 Hcur1]].
    apply (IH st1 st' Hwf1 Heff1 Hcur1); [|exact H].
    intros x Hx. apply Hl. right. exact Hx.
Qed.

Lemma recovery_loop_effect (fuel : nat) :
  forall st st',
  walk_wf healed (names svcs0) st ->
  walk_effect set_iter cfg ra h svcs0 st ->
  recovery_loop set_iter fuel cfg ra st = Ok st' ->
  walk_effect set_iter cfg ra h svcs0 st'.
Proof.
  induction fuel as [|fuel IH]; intros st st' Hwf Heff H; simpl in H.
  - destruct (rs_queue st); [injection H as <-; exact Heff | discriminate].
  - destruct (rs_queue st) as [|current rest] eqn:Eq;
      [injection H as <-; exact Heff|].
    destruct (foldM _ _ _) as [st1|] eqn:Hf; [|discriminate].
    cbn [bind] in H.
    assert (Hcur : In current (rs_visited st)).
    { destruct Hwf as [_ [_ [_ [_ Hq]]]]. apply Hq. rewrite Eq. left. reflexivity. }
    set (st0 := {| rs_services := rs_services st; rs_visited := rs_visited st;
                   rs_queue := rest; rs_recovered := rs_recovered st |}) in *.
    assert (Hwf0 : walk_wf healed (names svcs0) st0).
    { destruct Hwf as [Hn [Hnd [Hincl [Hvis Hq]]]]. unfold walk_wf, st0; simpl.
      repeat (split; [assumption|]). rewrite Eq in Hq.
      intros x Hx. apply Hq. right. exact Hx. }
    destruct (recovery_visits_effect current (rev_adj_get set_iter current ra)
                st0 st1 Hwf0 Heff Hcur (fun x Hx => Hx) Hf) as [Hwf1 Heff1].
    apply (IH st1 st' Hwf1 Heff1 H).
Qed.

End WalkEffect.

(** ** Sets and their iteration order *)

Lemma existsb_Permutation {A : Type} (f : A -> bool) (l l' : list A) :
  Permutation l l' -> existsb f l = existsb f l'.
Proof.
  intro Hp. induction Hp as [|x l l' _ IH|x y l|l l' l'' _ IH1 _ IH2]; simpl.
  - reflexivity.
  - rewrite IH. reflexivity.
  - destruct (f x), (f y); reflexivity.
  - congruence.
Qed.

(** *** The reverse adjacency lists the dependents *)

Lemma set_mem_app (x : string) (s t : PySet) :
  set_mem x (s ++ t) = set_mem x s || set_mem x t.
Proof. unfold set_mem. apply existsb_app. Qed.

Lemma set_add_idem (x : string) (s : PySet) :
  set_add x (set_add x s) = set_add x s.
Proof.
  unfold set_add. destruct (set_mem x s) eqn:E.
  - rewrite E. reflexivity.
  - rewrite set_mem_app, E. simpl. rewrite String.eqb_refl. reflexivity.
Qed.

Lemma nonempty_set_add (x : string) (s : PySet) :
  nonempty_set (set_add x s) = Some (set_add x s).
Proof.
  unfold set_add. destruct (set_mem x s) eqn:E.
  - destruct s; [discriminate | reflexivity].
  - destruct s; reflexivity.
Qed.

Lemma set_mem_Permutation (x : string) (s t : list string) :
  Permutation s t -> set_mem x s = set_mem x t.
Proof. unfold set_mem. apply existsb_Permutation. Qed.

Section ReverseAdjacencyOrder.

Variable it : PySet -> list string.
Hypothesis it_perm : forall s, Permutation (it s) s.
Variable svcs : Services.

(** The inner loop of [build_reverse_adjacency], for service [nm], seen from
    key [k] whose history so far is [hist]. *)
Lemma rev_adj_inner_get (nm k : string) (hist : PySet) (deps : list string) :
  forall (ra : list (string * PySet)) (seen : bool),
  dict_get k ra
  = (if services_mem k svcs
     then nonempty_set (if seen then set_add nm hist else hist) else None) ->
  dict_get k
    (fold_left
       (fun ra dep =>
          if services_mem dep svcs then rev_adj_add dep nm ra else ra)
       deps ra)
  = (if services_mem k svcs
     then nonempty_set (if seen || set_mem k deps then set_add nm hist else hist)
     else None).
Proof.
  induction deps as [|dep rest IH]; intros ra seen Hra; cbn [fold_left].
  - rewrite orb_false_r. exact Hra.
  - replace (seen || set_mem k (dep :: rest))
      with ((seen || String.eqb k dep) || set_mem k rest)
      by (simpl; rewrite orb_assoc; reflexivity).
    apply IH. destruct (String.eqb k dep) eqn:Ek.
    + apply String.eqb_eq in Ek. subst dep. rewrite orb_true_r.
      destruct (services_mem k svcs) eqn:Em; [|exact Hra].
      rewrite nonempty_set_add. unfold rev_adj_add. rewrite Hra.
      destruct seen.
      * rewrite nonempty_set_add. cbv iota.
        rewrite dict_get_set_same, set_add_idem. reflexivity.
      * destruct hist as [|x hist']; cbn [nonempty_set]; cbv iota;
          rewrite dict_get_set_same; reflexivity.
    + rewrite orb_false_r. apply String.eqb_neq in Ek.
      destruct (services_mem dep svcs); [|exact Hra].
      unfold rev_adj_add. destruct (dict_get dep ra);
        rewrite dict_get_set_other by exact Ek; exact Hra.
Qed.

Lemma rev_adj_outer_get (k : string) (l : Services) :
  forall (ra : list (string * PySet)) (hist : PySet),
  dict_get k ra = (if services_mem k svcs then nonempty_set hist else None) ->
  dict_get k
    (fold_left
       (fun ra service =>
          fold_left
            (fun ra dep =>
               if services_mem dep svcs then rev_adj_add dep (name service) ra
               else ra)
            (it (depends_on service)) ra)
       l ra)
  = (if services_mem k svcs
     then nonempty_set
            (fold_left
               (fun acc s =>
                  if set_mem k (depends_on s) then set_add (name s) acc else acc)
               l hist)
     else None).
Proof.
  induction l as [|s rest IH]; intros ra hist Hra; cbn [fold_left].
  - exact Hra.
  - apply IH.
    rewrite (rev_adj_inner_get (name s) k hist (it (depends_on s)) ra false Hra).
    rewrite (set_mem_Permutation k _ _ (it_perm (depends_on s))). reflexivity.
Qed.

(** What [build_reverse_adjacency] holds under each key. *)
Lemma build_reverse_adjacency_get (k : string) :
  dict_get k (build_reverse_adjacency it svcs)
  = if services_mem k svcs then nonempty_set (dependents_history k svcs)
    else None.
Proof.
  unfold build_reverse_adjacency, dependents_history.
  apply rev_adj_outer_get. simpl. destruct (services_mem k svcs); reflexivity.
Qed.

End ReverseAdjacencyOrder.

Lemma set_add_In (x d : string) (s : PySet) :
  In d (set_add x s) <-> d = x \/ In d s.
Proof.
  unfold set_add. destruct (set_mem x s) eqn:E.
  - apply set_mem_true in E. split; [auto|]. intros [->|H]; assumption.
  - rewrite in_app_iff. simpl. intuition.
Qed.

Lemma dependents_history_In (k d : string) (svcs : Services) :
  In d (dependents_history k svcs) <->
  exists s, In s svcs /\ name s = d /\ In k (depends_on s).
Proof.
  unfold dependents_history.
  assert (Hgen : forall l acc,
            In d (fold_left
                    (fun acc s => if set_mem k (depends_on s)
                                  then set_add (name s) acc else acc) l acc)
            <-> In d acc
                \/ exists s, In s l /\ name s = d /\ In k (depends_on s)).
  { induction l as [|a l IH]; intro acc; simpl.
    - split; [auto|]. intros [H|[s [[] _]]]. exact H.
    - rewrite IH. destruct (set_mem k (depends_on a)) eqn:E.
      + apply set_mem_true in E. rewrite set_add_In. split.
        * intros [[->|H]|[s [Hs Hr]]]; [right; exists a; auto | auto |].
          right. exists s. tauto.
        * intros [H|[s [[->|Hs] [Hn Hk]]]]; [auto | auto |].
          right. exists s. auto.
      + apply set_mem_false in E. split.
        * intros [H|[s [Hs Hr]]]; [auto|]. right. exists s. tauto.
        * intros [H|[s [[->|Hs] [Hn Hk]]]]; [auto | contradiction |].
          right. exists s. auto. }
  rewrite Hgen. simpl. split; [intros [[]|H]; exact H | auto].
Qed.

Lemma services_mem_true (k : string) (svcs : Services) :
  services_mem k svcs = true <-> In k (names svcs).
Proof.
  unfold services_mem. rewrite <- services_get_Some_iff.
  destruct (services_get k svcs); split; eauto; try discriminate.
  intros [s Hs]. discriminate.
Qed.

Lemma skeleton_names (svcs : Services) : map fst (skeleton svcs) = names svcs.
Proof. unfold skeleton, names. rewrite map_map. reflexivity. Qed.

Lemma skeleton_In (svcs : Services) (d : string) (deps : PySet) :
  In (d, deps) (skeleton svcs) <->
  exists s, In s svcs /\ name s = d /\ depends_on s = deps.
Proof.
  unfold skeleton. rewrite in_map_iff. split.
  - intros [s [Heq Hin]]. injection Heq as <- <-. eauto.
  - intros [s [Hin [<- <-]]]. eauto.
Qed.

Lemma skeleton_update (n : string) (f : Service -> Service) (svcs : Services) :
  (forall s, name (f s) = name s) -> (forall s, depends_on (f s) = depends_on s) ->
  skeleton (services_update n f svcs) = skeleton svcs.
Proof.
  intros Hn Hd. unfold skeleton, services_update. rewrite map_map.
  apply map_ext. intro s. destruct (String.eqb (name s) n); [|reflexivity].
  rewrite Hn, Hd. reflexivity.
Qed.

Lemma ra_correct_wf (it : PySet -> list string) (ra : list (string * PySet))
    (svcs : Services) :
  ra_correct it ra svcs -> rev_adj_wf it ra (names svcs).
Proof.
  intros Hc k d Hd. apply Hc in Hd. destruct Hd as [_ [s [Hin [<- _]]]].
  unfold names. apply in_map. exact Hin.
Qed.

Section ReverseAdjacencyCorrect.

Variables it1 it2 : PySet -> list string.
Hypothesis it1_perm : forall s, Permutation (it1 s) s.
Hypothesis it2_perm : forall s, Permutation (it2 s) s.
Variable svcs : Services.

Lemma build_reverse_adjacency_correct :
  ra_correct it1 (build_reverse_adjacency it1 svcs) svcs.
Proof.
  intros k d. unfold rev_adj_get.
  rewrite (build_reverse_adjacency_get it1 it1_perm svcs k).
  rewrite <- services_mem_true, <- dependents_history_In.
  destruct (services_mem k svcs).
  - destruct (dependents_history k svcs) as [|x l] eqn:E; simpl.
    + split; [intros [] | intros [_ []]].
    + split.
      * intro H. split; [reflexivity|].
        apply (Permutation_in _ (it1_perm (x :: l)) H).
      * intros [_ H].
        apply (Permutation_in _ (Permutation_sym (it1_perm (x :: l))) H).
  - split; [intros [] | intros [H _]; discriminate].
Qed.

End ReverseAdjacencyCorrect.

(** *** The recovery walk: an induction principle over its two loops *)

Section WalkInduction.

Variable set_iter : PySet -> list string.
Variable cfg : Config.
Variable ra : list (string * PySet).
Variable healed : string.
Variable svcs0 : Services.
Variable h : Q.
Hypothesis heal_to_present : heal_to cfg = Some h.
Hypothesis ra_wf : rev_adj_wf set_iter ra (names svcs0).

(** A visit bumps exactly the dependents that are not visited and qualify. *)
Lemma recovery_visit_cases (st st' : RecState) (d : string) :
  recovery_visit set_iter cfg st d = Ok st' ->
  (st' = st
   /\ (In d (rs_visited st) \/ ~ eligible set_iter cfg h (rs_services st) d))
  \/ (~ In d (rs_visited st)
      /\ eligible set_iter cfg h (rs_services st) d
      /\ exists dep,
           services_get d (rs_services st) = Some dep
           /\ st' = {| rs_services :=
                         services_update d
                           (bump_to (threshold cfg) (bump_health h (health dep)))
                           (rs_services st);
                       rs_visited := rs_visited st ++ [d];
                       rs_queue := rs_queue st ++ [d];
                       rs_recovered :=
                         rs_recovered st
                         ++ [(d, health dep, bump_health h (health dep))] |}).
Proof.
  intro Hv.
  destruct (recovery_visit_inv _ _ _ _ _ Hv)
    as [->|[dep [h' [Hm [Hg [Ha [Hh' [Hlt ->]]]]]]]].
  - left. split; [reflexivity|].
    unfold recovery_visit in Hv.
    destruct (set_mem d (rs_visited st)) eqn:Em;
      [left; apply set_mem_true; exact Em|].
    right. intros [dep [Hg [Ha Hlt]]]. rewrite Hg, Ha in Hv.
    unfold config_heal_to in Hv. rewrite heal_to_present in Hv.
    cbn [bind] in Hv. apply Qltb_true in Hlt. rewrite Hlt in Hv.
    injection Hv as Hv. apply (f_equal rs_visited) in Hv. simpl in Hv.
    rewrite (set_add_new _ _ Em) in Hv.
    apply (f_equal (@List.length string)) in Hv. rewrite length_app in Hv.
    simpl in Hv. lia.
  - assert (h' = h) by congruence. subst h'. right.
    split; [apply set_mem_false; exact Hm|].
    split; [exists dep; auto|].
    exists dep. split; [exact Hg|]. rewrite (set_add_new _ _ Hm). reflexivity.
Qed.

Variable K : string -> list string -> RecState -> Prop.
Variable Kout : RecState -> Prop.

Hypothesis K_enter :
  forall st current rest,
    walk_wf healed (names svcs0) st ->
    walk_effect set_iter cfg ra h svcs0 st ->
    Kout st -> rs_queue st = current :: rest ->
    K current (rev_adj_get set_iter current ra)
      {| rs_services := rs_services st; rs_visited := rs_visited st;
         rs_queue := rest; rs_recovered := rs_recovered st |}.
Hypothesis K_step :
  forall st st' current d l,
    walk_wf healed (names svcs0) st ->
    walk_effect set_iter cfg ra h svcs0 st ->
    In current (rs_visited st) ->
    In d (rev_adj_get set_iter current ra) ->
    K current (d :: l) st ->
    recovery_visit set_iter cfg st d = Ok st' ->
    K current l st'.
Hypothesis K_exit :
  forall st current,
    walk_wf healed (names svcs0) st ->
    walk_effect set_iter cfg ra h svcs0 st ->
    K current [] st -> Kout st.

Lemma recovery_visits_induction (current : string) (l : list string) :
  forall st st',
  walk_wf healed (names svcs0) st ->
  walk_effect set_iter cfg ra h svcs0 st ->
  In current (rs_visited st) ->
  incl l (rev_adj_get set_iter current ra) ->
  K current l st ->
  foldM (recovery_visit set_iter cfg) l st = Ok st' ->
  walk_wf healed (names svcs0) st'
  /\ walk_effect set_iter cfg ra h svcs0 st'
  /\ K current [] st'.
Proof.
  induction l as [|d rest IH]; intros st st' Hwf Heff Hcur Hl HK H;
    cbn [foldM] in H.
  - injection H as <-. auto.
  - destruct (recovery_visit set_iter cfg st d) as [st1|] eqn:Hv; [|discriminate].
    cbn [bind] in H.
    destruct (recovery_visit_effect set_iter cfg ra healed svcs0 h
                heal_to_present ra_wf st st1 current d Hwf Heff Hcur
                (Hl d (or_introl eq_refl)) Hv) as [Hwf1 [Heff1 Hcur1]].
    apply (IH st1 st' Hwf1 Heff1 Hcur1); [| |exact H].
    + intros x Hx. apply Hl. right. exact Hx.
    + apply (K_step st st1 current d rest Hwf Heff Hcur
               (Hl d (or_introl eq_refl)) HK Hv).
Qed.

Lemma recovery_loop_induction (fuel : nat) :
  forall st st',
  walk_wf healed (names svcs0) st ->
  walk_effect set_iter cfg ra h svcs0 st ->
  Kout st ->
  recovery_loop set_iter fuel cfg ra st = Ok st' ->
  walk_wf healed (names svcs0) st'
  /\ walk_effect set_iter cfg ra h svcs0 st'
  /\ Kout st'.
Proof.
  induction fuel as [|fuel IH]; intros st st' Hwf Heff HK H; simpl in H.
  - destruct (rs_queue st); [injection H as <-; auto | discriminate].
  - destruct (rs_queue st) as [|current rest] eqn:Eq; [injection H as <-; auto|].
    destruct (foldM _ _ _) as [st1|] eqn:Hf; [|discriminate].
    cbn [bind] in H.
    assert (Hcur : In current (rs_visited st)).
    { destruct Hwf as [_ [_ [_ [_ Hq]]]]. apply Hq. rewrite Eq. left. reflexivity. }
    pose proof (K_enter st current rest Hwf Heff HK Eq) as HK0.
    set (st0 := {| rs_services := rs_services st; rs_visited := rs_visited st;
                   rs_queue := rest; rs_recovered := rs_recovered st |}) in *.
    assert (Hwf0 : walk_wf healed (names svcs0) st0).
    { destruct Hwf as [Hn [Hnd [Hincl [Hvis Hq]]]]. unfold walk_wf, st0; simpl.
      repeat (split; [assumption|]). rewrite Eq in Hq.
      intros x Hx. apply Hq. right. exact Hx. }
    destruct (recovery_visits_induction current (rev_adj_get set_iter current ra)
                st0 st1 Hwf0 Heff Hcur (fun x Hx => Hx) HK0 Hf)
      as [Hwf1 [Heff1 HK1]].
    apply (IH st1 st' Hwf1 Heff1); [|exact H].
    apply (K_exit st1 current Hwf1 Heff1 HK1).
Qed.

Lemma recovery_walk_induction (st' : RecState) :
  Kout {| rs_services := svcs0; rs_visited := [healed]; rs_queue := [healed];
          rs_recovered := [] |} ->
  recovery_walk set_iter cfg ra healed svcs0 = Ok st' ->
  walk_wf healed (names svcs0) st'
  /\ walk_effect set_iter cfg ra h svcs0 st'
  /\ Kout st'.
Proof.
  intros HK Hw. unfold recovery_walk in Hw.
  apply (recovery_loop_induction _ _ st') in Hw; [exact Hw| | |exact HK].
  - unfold walk_wf; simpl. split; [reflexivity|].
    split; [repeat constructor; intros []|].
    split; [intros x [<-|[]]; left; reflexivity|].
    split; [reflexivity|]. intros x Hx. exact Hx.
  - unfold walk_effect; simpl. split; [intros d []|].
    split; [reflexivity | intros n []].
Qed.

End WalkInduction.

(** *** The walk ends on a closed set of visited nodes *)

Section WalkClosure.

Variable set_iter : PySet -> list string.
Hypothesis set_iter_perm : forall s, Permutation (set_iter s) s.
Variable cfg : Config.
Variable ra : list (string * PySet).
Variable healed : string.
Variable svcs0 : Services.
Variable h : Q.
Hypothesis heal_to_present : heal_to cfg = Some h.
Hypothesis ra_ok : ra_correct set_iter ra svcs0.

(** A bump of [d0] does not change whether [d] qualifies, unless [d] is a
    dependent of [d0]. *)
Lemma eligible_before_bump (st : RecState) (d0 d : string) (v : Q) :
  walk_wf healed (names svcs0) st ->
  walk_effect set_iter cfg ra h svcs0 st ->
  In d0 (names svcs0) ->
  ~ In d (rs_visited st) -> d <> d0 ->
  ~ In d (rev_adj_get set_iter d0 ra) ->
  eligible set_iter cfg h
    (services_update d0 (bump_to (threshold cfg) v) (rs_services st)) d ->
  eligible set_iter cfg h (rs_services st) d.
Proof.
  intros Hwf Heff Hd0 Hnv Hne Hnadj [dep [Hg [Ha Hlt]]].
  rewrite services_get_update in Hg by (intro; apply bump_to_name).
  apply String.eqb_neq in Hne. rewrite Hne in Hg.
  exists dep. split; [exact Hg|]. split; [|exact Hlt].
  unfold all_deps_healthy in *. rewrite forallb_forall in *.
  intros z Hz. specialize (Ha z Hz).
  rewrite services_get_update in Ha by (intro; apply bump_to_name).
  destruct (String.eqb z d0) eqn:Ez; [|exact Ha].
  apply String.eqb_eq in Ez. subst z. exfalso. apply Hnadj.
  apply (proj2 (ra_ok d0 d)). split; [exact Hd0|].
  destruct Hwf as [_ [_ [_ [Hvis _]]]]. destruct Heff as [_ [Hsame _]].
  assert (Hnr : ~ In d (recovered_names (rs_recovered st))).
  { intro Hin. apply Hnv. rewrite Hvis. right. exact Hin. }
  rewrite (Hsame d Hnr) in Hg.
  exists dep. split; [apply (services_get_In _ _ _ Hg)|].
  split; [apply (services_get_name _ _ _ Hg)|].
  apply (Permutation_in _ (set_iter_perm (depends_on dep)) Hz).
Qed.

Lemma pending_step (st st' : RecState) (current d0 : string) (l : list string) :
  walk_wf healed (names svcs0) st ->
  walk_effect set_iter cfg ra h svcs0 st ->
  In current (rs_visited st) ->
  In d0 (rev_adj_get set_iter current ra) ->
  pending set_iter cfg ra h (d0 :: l) st ->
  recovery_visit set_iter cfg st d0 = Ok st' ->
  pending set_iter cfg ra h l st'.
Proof.
  intros Hwf Heff Hcur Hd0 HP Hv.
  destruct (recovery_visit_cases set_iter cfg h heal_to_present st st' d0 Hv)
    as [[-> Hwhy]|[Hnv0 [Hel0 [dep0 [Hg0 ->]]]]].
  - intros d Hnv Hel Hadj. destruct (HP d Hnv Hel Hadj) as [H|[<-|H]]; auto.
    exfalso. destruct Hwhy as [Hin|Hne]; auto.
  - intros d Hnv Hel Hadj. simpl in *.
    assert (Hnvd : ~ In d (rs_visited st))
      by (intro; apply Hnv; apply in_or_app; left; assumption).
    assert (Hne : d <> d0)
      by (intro; subst d; apply Hnv; apply in_or_app; right; left; reflexivity).
    destruct (in_dec string_dec d (rev_adj_get set_iter d0 ra)) as [Hin|Hnin].
    { left. exists d0. split; [apply in_or_app; right; left; reflexivity|exact Hin]. }
    assert (Hd0n : In d0 (names svcs0))
      by (apply (ra_correct_wf _ _ _ ra_ok current d0 Hd0)).
    pose proof (eligible_before_bump st d0 d _ Hwf Heff Hd0n Hnvd Hne Hnin Hel)
      as Hel'.
    assert (Hadj' : exists c, In c (rs_visited st)
                              /\ In d (rev_adj_get set_iter c ra)).
    { destruct Hadj as [c [Hc Hdc]]. apply in_app_or in Hc.
      destruct Hc as [Hc|[<-|[]]]; [eauto | contradiction]. }
    destruct (HP d Hnvd Hel' Hadj') as [[z [Hz Hdz]]|[<-|H]].
    + left. exists z. split; [apply in_or_app; left; exact Hz | exact Hdz].
    + contradiction.
    + right. exact H.
Qed.

(** At the end of the walk, no dependent of a visited node is left that is
    not visited and qualifies for a bump. *)
Lemma recovery_walk_closed (st : RecState) :
  recovery_walk set_iter cfg ra healed svcs0 = Ok st ->
  walk_wf healed (names svcs0) st
  /\ walk_effect set_iter cfg ra h svcs0 st
  /\ forall d,
       ~ In d (rs_visited st) ->
       eligible set_iter cfg h (rs_services st) d ->
       (exists c, In c (rs_visited st) /\ In d (rev_adj_get set_iter c ra)) ->
       False.
Proof.
  intro Hw.
  pose proof (ra_correct_wf _ _ _ ra_ok) as Hra.
  destruct (recovery_walk_returns set_iter cfg ra healed svcs0 h
              heal_to_present Hra) as [st1 [Hw1 [_ Hq]]].
  assert (st1 = st) by congruence. subst st1.
  destruct (recovery_walk_induction set_iter cfg ra healed svcs0 h
              heal_to_present Hra
              (fun _ l st => pending set_iter cfg ra h l st)
              (fun st => pending set_iter cfg ra h [] st)) with (st' := st)
    as [Hwf [Heff HP]].
  - intros st0 current rest _ _ HP Eq d Hnv Hel Hadj. simpl in *.
    destruct (HP d Hnv Hel Hadj) as [[z [Hz Hdz]]|[]].
    rewrite Eq in Hz. destruct Hz as [<-|Hz]; [right; exact Hdz|].
    left. exists z. auto.
  - intros st0 st1 current d l Hwf Heff Hcur Hd HP Hv.
    apply (pending_step st0 st1 current d l Hwf Heff Hcur Hd HP Hv).
  - intros st0 _ _ _ HP. exact HP.
  - intros d Hnv Hel [c [Hc Hdc]]. simpl in *. left. exists c. auto.
  - exact Hw.
  - split; [exact Hwf|]. split; [exact Heff|].
    intros d Hnv Hel Hadj. destruct (HP d Hnv Hel Hadj) as [[z [Hz _]]|[]].
    rewrite Hq in Hz. destruct Hz.
Qed.

End WalkClosure.

(** *** What a walk visits *)

Section WalkVisits.

Variable set_iter : PySet -> list string.
Variable cfg : Config.
Variable ra : list (string * PySet).

(** C4, amended: in any single invocation of [propagate_recovery] (with
    [heal_to] configured and a reverse adjacency that mentions services
    only), the walk returns; the nodes it marks visited are the healed node
    followed by the bumped services, each exactly once; every bumped service
    was reached as a dependent of the healed node or of another bumped
    service, and received exactly one bump; a dependent that is not bumped is
    neither marked visited nor enqueued, and the walk leaves it untouched.
    The traversal continues through a dependent exactly when it received a
    bump: with the reverse adjacency of the services, as the graph builds it,
    the dependents of the healed node and of every bumped service are
    examined in their turn, so that when the walk ends every dependent of a
    visited node that qualifies for a bump is itself visited. *)
Theorem recovery_walk_visits (healed : string) (svcs : Services) (h : Q) :
  heal_to cfg = Some h ->
  rev_adj_wf set_iter ra (names svcs) ->
  exists st,
    recovery_walk set_iter cfg ra healed svcs = Ok st
    /\ rs_queue st = []
    /\ rs_visited st = healed :: recovered_names (rs_recovered st)
    /\ NoDup (rs_visited st)
    /\ (forall d, In d (recovered_names (rs_recovered st)) ->
          exists parent,
            In parent (rs_visited st) /\ In d (rev_adj_get set_iter parent ra))
    /\ (forall n, ~ In n (recovered_names (rs_recovered st)) ->
          services_get n (rs_services st) = services_get n svcs)
    /\ (forall n, In n (recovered_names (rs_recovered st)) ->
          exists s,
            services_get n svcs = Some s /\ health s < h
            /\ In (n, health s, bump_health h (health s)) (rs_recovered st)
            /\ services_get n (rs_services st)
               = Some (bump_to (threshold cfg) (bump_health h (health s)) s))
    /\ ((forall s, Permutation (set_iter s) s) ->
        ra_correct set_iter ra svcs ->
        forall c d,
          In c (rs_visited st) -> In d (rev_adj_get set_iter c ra) ->
          eligible set_iter cfg h (rs_services st) d ->
          In d (rs_visited st)).
Proof.
  intros Hh Hra.
  destruct (recovery_walk_returns set_iter cfg ra healed svcs h Hh Hra)
    as [st [Hw [Hwf Hq]]].
  exists st. split; [exact Hw|]. split; [exact Hq|].
  destruct Hwf as [_ [Hnd [_ [Hvis _]]]].
  split; [exact Hvis|]. split; [exact Hnd|].
  assert (Heff : walk_effect set_iter cfg ra h svcs st).
  { pose proof Hw as Hl. unfold recovery_walk in Hl.
    apply (recovery_loop_effect set_iter cfg ra healed svcs h Hh Hra) in Hl.
    - exact Hl.
    - unfold walk_wf; simpl. split; [reflexivity|].
      split; [repeat constructor; intros []|].
      split; [intros x [<-|[]]; left; reflexivity|].
      split; [reflexivity|]. intros x Hx. exact Hx.
    - unfold walk_effect; simpl. split; [intros d []|].
      split; [reflexivity | intros n []]. }
  destruct Heff as [Hreach [Hsame Hbump]].
  split; [exact Hreach|]. split; [exact Hsame|]. split; [exact Hbump|].
  intros Hperm Hok c d Hc Hd Hel.
  destruct (in_dec string_dec d (rs_visited st)) as [Hin|Hnin]; [exact Hin|].
  exfalso.
  destruct (recovery_walk_closed set_iter Hperm cfg ra healed svcs h Hh Hok
              st Hw) as [_ [_ Hclosed]].
  apply (Hclosed d Hnin Hel). exists c. split; assumption.
Qed.

End WalkVisits.

Lemma chain3_rev_adj_wf :
  rev_adj_wf iter_insertion chain3_rev_adj ["A"; "B"; "C"].
Proof.
  apply rev_adj_wf_Forall. constructor; [|constructor; [|constructor]].
  - intros x [<-|[]]. simpl. auto.
  - intros x [<-|[]]. simpl. auto.
Qed.

Lemma recovery_walk_visits_witness :
  exists st,
    recovery_walk iter_insertion cooldown_config chain3_rev_adj "A" ripple_store
    = Ok st
    /\ rs_visited st = ["A"; "B"; "C"]
    /\ recovered_names (rs_recovered st) = ["B"; "C"]
    /\ NoDup (rs_visited st)
    /\ (forall c d,
          In c (rs_visited st) ->
          In d (rev_adj_get iter_insertion c chain3_rev_adj) ->
          eligible iter_insertion cooldown_config (9#10) (rs_services st) d ->
          In d (rs_visited st)).
Proof.
  destruct (recovery_walk_visits iter_insertion cooldown_config chain3_rev_adj
              "A" ripple_store (9#10) eq_refl chain3_rev_adj_wf)
    as [st [Hw [_ [_ [Hnd [_ [_ [_ Hclosed]]]]]]]].
  exists st. split; [exact Hw|].
  assert (Hok : ra_correct iter_insertion chain3_rev_adj ripple_store).
  { change chain3_rev_adj
      with (build_reverse_adjacency iter_insertion ripple_store).
    apply build_reverse_adjacency_correct.
    intro s. apply Permutation_refl. }
  specialize (Hclosed (fun s => Permutation_refl s) Hok).
  vm_compute in Hw. injection Hw as <-.
  split; [reflexivity|]. split; [reflexivity|].
  split; [exact Hnd | exact Hclosed].
Defined.

(** C4 as stated fails in its second half: B is a dependent of the healed
    node A, met for the first time, and is not bumped (its health 0.95 is not
    below [heal_to]); the walk does not continue through it: B is neither
    marked visited nor enqueued, so its dependent C, which qualifies for a
    bump (its only dependency is healthy, its health 0.5 is below [heal_to]),
    is never looked at and keeps 0.5. A walk that continued through B, as
    specified, would bump C to 0.7. *)
Lemma recovery_walk_stops_at_unbumped :
  exists st st_spec c c_spec,
    recovery_walk iter_insertion cooldown_config chain3_rev_adj "A" stalled_store
    = Ok st
    /\ recovery_walk_as_specified iter_insertion cooldown_config chain3_rev_adj
         "A" stalled_store = Ok st_spec
    /\ In "B" (rev_adj_get iter_insertion "A" chain3_rev_adj)
    /\ In "C" (rev_adj_get iter_insertion "B" chain3_rev_adj)
    /\ rs_visited st = ["A"] /\ rs_recovered st = []
    /\ rs_visited st_spec = ["A"; "B"; "C"]
    /\ services_get "C" (rs_services st) = Some c
    /\ services_get "C" (rs_services st_spec) = Some c_spec
    /\ health c == 5#10 /\ health c_spec == 7#10
    /\ rs_services st <> rs_services st_spec.
Proof.
  do 4 eexists.
  split; [vm_compute; reflexivity|].
  split; [vm_compute; reflexivity|].
  split; [simpl; auto|]. split; [simpl; auto|].
  split; [reflexivity|]. split; [reflexivity|]. split; [reflexivity|].
  split; [reflexivity|]. split; [reflexivity|].
  split; [reflexivity|]. split; [reflexivity|]. discriminate.
Qed.

Lemma bump_to_depends_on (thr v : Q) (s : Service) :
  depends_on (bump_to thr v s) = depends_on s.
Proof. unfold bump_to. destruct (Qleb thr v); reflexivity. Qed.

(** *** The engine keeps names and dependencies *)

Lemma skeleton_tick_timer (x : Services) :
  skeleton (map tick_timer x) = skeleton x.
Proof.
  unfold skeleton. rewrite map_map. apply map_ext. intro s. unfold tick_timer.
  destruct (is_failed s && (0 <? recovery_timer s)%Z); reflexivity.
Qed.

Lemma skeleton_handle_recovery (it : PySet -> list string) (cfg : Config)
    (ra : list (string * PySet)) (t : Z) (x y : Services) (lg : list LogLine) :
  handle_recovery it cfg ra t x = Ok (y, lg) -> skeleton y = skeleton x.
Proof.
  intro H. destruct (cooldown cfg) as [c|] eqn:Hc.
  - apply (handle_recovery_invariant it cfg ra t
             (fun _ z => skeleton z = skeleton x)) with (c := c) (lg := lg)
             (svcs := x); [| |exact Hc| |exact H].
    + intros _ z d dep hh Hz _ _ _ _. rewrite <- Hz. apply skeleton_update.
      * intro. apply bump_to_name.
      * intro. apply bump_to_depends_on.
    + intros _ z nm hh Hz _. rewrite <- Hz. apply skeleton_update; reflexivity.
    + apply skeleton_tick_timer.
  - unfold handle_recovery in H. rewrite Hc in H. injection H as <- _. reflexivity.
Qed.

(** *** The blast radius walk *)

Section BlastClosure.

Variable set_iter : PySet -> list string.
Variable ra : list (string * PySet).
Variable start : string.

Lemma blast_visit_shape (q : list string) (v i : PySet) (n : string) :
  v = start :: i ->
  let '(q', v', i') := blast_visit (q, v, i) n in
  v' = start :: i' /\ In n v' /\ incl v v' /\ incl q q'
  /\ (forall x, In x v' -> In x v \/ (x = n /\ In n q')).
Proof.
  intro Hv. unfold blast_visit. destruct (set_mem n v) eqn:Em; simpl.
  - apply set_mem_true in Em. repeat split; auto; intros x Hx; auto.
  - rewrite (set_add_new _ _ Em).
    assert (Emi : set_mem n i = false).
    { apply set_mem_false. apply set_mem_false in Em. intro Hin. apply Em.
      rewrite Hv. right. exact Hin. }
    rewrite (set_add_new _ _ Emi). split; [rewrite Hv; reflexivity|].
    split; [apply in_or_app; right; left; reflexivity|].
    split; [intros x Hx; apply in_or_app; left; exact Hx|].
    split; [intros x Hx; apply in_or_app; left; exact Hx|].
    intros x Hx. apply in_app_or in Hx. destruct Hx as [Hx|[<-|[]]]; [auto|].
    right. split; [reflexivity|]. apply in_or_app. right. left. reflexivity.
Qed.

(** Processed nodes have all their dependents visited. *)
Lemma blast_visits_closed (current : string) (l : list string) :
  forall (q : list string) (v i : PySet),
  v = start :: i ->
  (forall c d, In c v -> In d (rev_adj_get set_iter c ra) ->
     In d v \/ In c q \/ (c = current /\ In d l)) ->
  let '(q', v', i') := fold_left blast_visit l (q, v, i) in
  v' = start :: i'
  /\ (forall c d, In c v' -> In d (rev_adj_get set_iter c ra) ->
        In d v' \/ In c q').
Proof.
  induction l as [|n rest IH]; intros q v i Hv HP; cbn [fold_left].
  - split; [exact Hv|]. intros c d Hc Hd.
    destruct (HP c d Hc Hd) as [H|[H|[_ []]]]; auto.
  - pose proof (blast_visit_shape q v i n Hv) as Hs. revert Hs.
    destruct (blast_visit (q, v, i) n) as [[q1 v1] i1].
    cbv beta iota zeta. intros [Hv1 [Hn1 [Hvv [Hqq Hnew]]]].
    apply IH; [exact Hv1|]. intros c d Hc Hd.
    destruct (Hnew c Hc) as [Hcv|[-> Hcq]]; [|auto].
    destruct (HP c d Hcv Hd) as [H|[H|[-> [<-|H]]]]; auto.
Qed.

Lemma blast_loop_closed (fuel : nat) :
  forall (q : list string) (v i : PySet) impacted,
  v = start :: i ->
  (forall c d, In c v -> In d (rev_adj_get set_iter c ra) -> In d v \/ In c q) ->
  blast_loop set_iter fuel ra (q, v, i) = Ok impacted ->
  forall c d, In c (start :: impacted) -> In d (rev_adj_get set_iter c ra) ->
              In d (start :: impacted).
Proof.
  induction fuel as [|fuel IH]; intros q v i impacted Hv HP H; cbn [blast_loop] in H.
  - destruct q; [|discriminate]. injection H as <-. rewrite <- Hv.
    intros c d Hc Hd. destruct (HP c d Hc Hd) as [H|[]]. exact H.
  - destruct q as [|current rest].
    + injection H as <-. rewrite <- Hv.
      intros c d Hc Hd. destruct (HP c d Hc Hd) as [H|[]]. exact H.
    + assert (HP0 : forall c d, In c v -> In d (rev_adj_get set_iter c ra) ->
                In d v \/ In c rest
                \/ (c = current /\ In d (rev_adj_get set_iter current ra))).
      { intros c d Hc Hd. destruct (HP c d Hc Hd) as [H0|[<-|H0]]; auto. }
      pose proof (blast_visits_closed current (rev_adj_get set_iter current ra)
                    rest v i Hv HP0) as Hc.
      revert Hc H.
      destruct (fold_left blast_visit (rev_adj_get set_iter current ra)
                  (rest, v, i)) as [[q1 v1] i1].
      cbv beta iota zeta. intros [Hv1 HP1] H.
      apply (IH q1 v1 i1 impacted Hv1 HP1 H).
Qed.

End BlastClosure.

(** *** The phases of a tick keep names and dependencies *)

Lemma skeleton_snapshot (x : Services) : skeleton (snapshot x) = skeleton x.
Proof. unfold skeleton, snapshot. rewrite map_map. reflexivity. Qed.

Lemma skeleton_apply_glitch {Rng : Type} (rng_choice : Rng -> nat -> nat * Rng)
    (rng_uniform : Rng -> Q -> Q -> Q * Rng) (cfg : Config) (g : Rng)
    (x : Services) :
  skeleton (snd (fst (apply_glitch rng_choice rng_uniform cfg g x))) = skeleton x.
Proof.
  destruct (apply_glitch rng_choice rng_uniform cfg g x) as [[v x'] g'] eqn:E.
  simpl. destruct (apply_glitch_inv _ _ _ _ _ _ _ _ _ E)
    as [[_ ->]|[victim [g1 [_ [_ [_ ->]]]]]]; [reflexivity|].
  apply skeleton_update; reflexivity.
Qed.

Lemma skeleton_propagate_health (it : PySet -> list string) (cfg : Config)
    (x : Services) :
  skeleton (propagate_health it cfg x) = skeleton x.
Proof.
  apply (propagate_health_invariant it cfg (fun z => skeleton z = skeleton x));
    [|reflexivity].
  intros z nm service Hz _ _ _ _. rewrite <- Hz.
  apply skeleton_update; reflexivity.
Qed.

Lemma skeleton_mark_newly_failed (cfg : Config) (t : Z) (l : list string) :
  forall x, skeleton (mark_newly_failed cfg t l x) = skeleton x.
Proof.
  unfold mark_newly_failed. induction l as [|n rest IH]; intro x; simpl.
  - reflexivity.
  - rewrite IH. apply skeleton_update; reflexivity.
Qed.

Lemma names_setitem (v : Service) (x : Services) :
  names (services_setitem v x)
  = if set_mem (name v) (names x) then names x else names x ++ [name v].
Proof.
  induction x as [|s x IH]; simpl; [reflexivity|].
  rewrite (String.eqb_sym (name v) (name s)).
  destruct (String.eqb (name s) (name v)) eqn:E; simpl.
  - apply String.eqb_eq in E. rewrite E. reflexivity.
  - rewrite IH. fold (set_mem (name v) (names x)).
    destruct (set_mem (name v) (names x)); reflexivity.
Qed.

(** The dict comprehension of [ServiceGraph.__init__] has unique keys. *)
Lemma NoDup_load_services (data : list ServiceData) :
  NoDup (names (load_services data)).
Proof.
  unfold load_services.
  assert (Hgen : forall l acc, NoDup (names acc) ->
            NoDup (names (fold_left
                            (fun svcs d =>
                               services_setitem
                                 (Service_init (sd_name d) (sd_depends_on d)
                                    (sd_health d)) svcs) l acc))).
  { induction l as [|d rest IH]; intros acc Hacc; simpl; [exact Hacc|].
    apply IH. rewrite names_setitem.
    destruct (set_mem _ (names acc)) eqn:E; [exact Hacc|].
    apply NoDup_snoc; [exact Hacc|]. apply set_mem_false. exact E. }
  apply Hgen. constructor.
Qed.

(** What steps 5 to 7 append to the two ledgers. *)
Lemma tick_classify_ledgers {Rng : Type} (it : PySet -> list string)
    (sim sim' : Simulator Rng) :
  tick_classify it sim = Ok sim' ->
  let failed :=
    filter (fun s => Qltb (health s) (threshold (config sim)))
      (services (graph sim)) in
  let newly_failed := filter (fun s => negb (is_failed s)) failed in
  events sim'
  = events sim ++ map (fun s => Failure (tick sim) (name s) (health s)) newly_failed
  /\ exists incs,
       incident_log sim' = incident_log sim ++ incs
       /\ ((newly_failed = [] /\ incs = [])
           \/ (newly_failed <> []
               /\ exists lines,
                    perform_rca it
                      (with_services (graph sim)
                         (mark_newly_failed (config sim) (tick sim)
                            (names newly_failed) (services (graph sim))))
                      (tick sim) (names failed) = Ok (lines, incs))).
Proof.
  unfold tick_classify. intro H.
  destruct (filter (fun s => Qltb (health s) (threshold (config sim)))
              (services (graph sim))) as [|f0 frest] eqn:Ef.
  - destruct (py_min_health (services (graph sim))) as [m|]; [|discriminate].
    cbn [bind] in H. injection H as <-. simpl.
    split; [rewrite app_nil_r; reflexivity|].
    exists []. split; [rewrite app_nil_r; reflexivity | left; auto].
  - cbv zeta.
    destruct (filter (fun s => negb (is_failed s)) (f0 :: frest))
      as [|n0 nrest] eqn:En.
    + cbn [bind] in H. injection H as <-. simpl.
      split; [rewrite app_nil_r; reflexivity|].
      exists []. split; [rewrite app_nil_r; reflexivity | left; auto].
    + destruct (perform_rca it _ _ _) as [[lines incs]|] eqn:Ep; [|discriminate].
      cbn [bind] in H. injection H as <-. cbn [events incident_log].
      split; [reflexivity|]. exists incs. split; [reflexivity|].
      right. split; [discriminate|]. exists lines. reflexivity.
Qed.

(** *** The incident ledger follows the iteration order of a set *)

(** C6 (the code departs from the claim): two runs with the same topology,
    configuration and seed need not emit the same incident ledger.  On the
    chain A <- B <- C with every service below the threshold, tick 1 records
    the three failures with root A, whose blast radius is the set {B, C};
    [perform_rca] writes it into the incident with [list(...)]: the run that
    enumerates this set as B, C records impacted A = [B, C], the run that
    enumerates it as C, B records [C, B].  No service is a candidate for a
    glitch, so this holds whatever the random generator and the seed are;
    the event ledgers of the two runs are equal. *)
Theorem impacted_order_depends_on_set_order (Rng : Type) (rng_seed : Z -> Rng)
    (rng_choice : Rng -> nat -> nat * Rng)
    (rng_uniform : Rng -> Q -> Q -> Q * Rng) :
  exists sim1 sim2,
    simulate iter_insertion rng_seed rng_choice rng_uniform low_chain_data
      one_tick_config = Ok sim1
    /\ simulate iter_reversed rng_seed rng_choice rng_uniform low_chain_data
         one_tick_config = Ok sim2
    /\ events sim1 = events sim2
    /\ map inc_roots (incident_log sim1) = [["A"]]
    /\ map inc_roots (incident_log sim2) = [["A"]]
    /\ map inc_impacted (incident_log sim1) = [[("A", ["B"; "C"])]]
    /\ map inc_impacted (incident_log sim2) = [[("A", ["C"; "B"])]]
    /\ incident_log sim1 <> incident_log sim2.
Proof.
  eexists. eexists.
  split; [vm_compute; reflexivity|].
  split; [vm_compute; reflexivity|].
  split; [reflexivity|]. split; [reflexivity|]. split; [reflexivity|].
  split; [reflexivity|]. split; [reflexivity|].
  cbn [incident_log]. intro H. discriminate H.
Qed.

(** * Further properties of the engine *)

(** ** Loading the topology *)

Lemma services_get_setitem (n : string) (v : Service) (svcs : Services) :
  services_get n (services_setitem v svcs)
  = if String.eqb (name v) n then Some v else services_get n svcs.
Proof.
  unfold services_get.
  induction svcs as [|s rest IH]; simpl; [reflexivity|].
  destruct (String.eqb (name s) (name v)) eqn:Esv; simpl.
  - apply String.eqb_eq in Esv. rewrite Esv.
    destruct (String.eqb (name v) n); reflexivity.
  - rewrite IH. destruct (String.eqb (name s) n) eqn:Esn; [|reflexivity].
    apply String.eqb_eq in Esn. subst n.
    rewrite String.eqb_sym, Esv. reflexivity.
Qed.

Lemma find_snoc {A : Type} (p : A -> bool) (l : list A) (x : A) :
  find p (l ++ [x])
  = match find p l with
    | Some y => Some y
    | None => if p x then Some x else None
    end.
Proof.
  induction l as [|a l IH]; simpl; [reflexivity|].
  destruct (p a); [reflexivity | exact IH].
Qed.

Lemma set_of_list_snoc (l : list string) (x : string) :
  set_of_list (l ++ [x]) = set_add x (set_of_list l).
Proof. unfold set_of_list. rewrite fold_left_app. reflexivity. Qed.

(** X1.  The dict comprehension of [ServiceGraph.__init__] on a topology that
    gives a name more than once: the service stored under a name is built
    from the last descriptor with that name (and there is none when no
    descriptor has it), while the services stand in the order in which the
    names first occur. *)
Theorem load_services_last_wins (data : list ServiceData) (n : string) :
  services_get n (load_services data)
  = option_map
      (fun d => Service_init (sd_name d) (sd_depends_on d) (sd_health d))
      (find (fun d => String.eqb (sd_name d) n) (rev data))
  /\ names (load_services data) = set_of_list (map sd_name data).
Proof.
  induction data as [|d data IH] using rev_ind.
  - split; reflexivity.
  - destruct IH as [IHget IHnames].
    unfold load_services in *. rewrite fold_left_app. cbn [fold_left].
    split.
    + rewrite services_get_setitem, rev_app_distr. cbn [rev app find Service_init name].
      destruct (String.eqb (sd_name d) n); [reflexivity | exact IHget].
    + rewrite names_setitem, map_app. cbn [map].
      rewrite set_of_list_snoc, IHnames. reflexivity.
Qed.

(** ** The reverse adjacency *)

(** X2.  [build_reverse_adjacency] lists, under a key, exactly the services
    that name the key among their dependencies, and only services are keys:
    a dependency that is not a service of the graph never enters the
    reverse adjacency. *)
Theorem reverse_adjacency_lists_dependents (set_iter : PySet -> list string)
    (svcs : Services) (k d : string) :
  (forall s, Permutation (set_iter s) s) ->
  (In d (rev_adj_get set_iter k (build_reverse_adjacency set_iter svcs))
   <-> In k (names svcs)
       /\ exists s, In s svcs /\ name s = d /\ In k (depends_on s))
  /\ (~ In k (names svcs) ->
      dict_get k (build_reverse_adjacency set_iter svcs) = None).
Proof.
  intro Hperm. split.
  - apply (build_reverse_adjacency_correct set_iter Hperm svcs).
  - intro Hk. rewrite (build_reverse_adjacency_get set_iter Hperm svcs k).
    destruct (services_mem k svcs) eqn:E; [|reflexivity].
    apply services_mem_true in E. contradiction.
Qed.

Lemma reverse_adjacency_lists_dependents_witness :
  In "B" (rev_adj_get iter_reversed "A"
            (build_reverse_adjacency iter_reversed (load_services chain3_data)))
  /\ dict_get "ghost"
       (build_reverse_adjacency iter_reversed (load_services dangling_data))
     = None.
Proof.
  split.
  - apply (proj1 (reverse_adjacency_lists_dependents iter_reversed
                    (load_services chain3_data) "A" "B"
                    (fun s => Permutation_sym (Permutation_rev s)))).
    split; [vm_compute; auto|].
    exists (Service_init "B" ["A"] 1). vm_compute. auto.
  - apply (proj2 (reverse_adjacency_lists_dependents iter_reversed
                    (load_services dangling_data) "ghost" "A"
                    (fun s => Permutation_sym (Permutation_rev s)))).
    vm_compute. intros [H|[]]. discriminate H.
Defined.

(** ** The glitch *)

Section Glitch.

Variable Rng : Type.
Variable rng_choice : Rng -> nat -> nat * Rng.
Variable rng_uniform : Rng -> Q -> Q -> Q * Rng.

(** X3.  A glitch that reports a victim touched exactly one service: the
    victim was at or above the threshold, its health became
    [max(0, health - delta)] for the delta drawn, nothing else of it
    changed, and every other service is as it was. *)
Theorem apply_glitch_hits_one_healthy_service (cfg : Config) (g g' : Rng)
    (svcs svcs' : Services) (v : string) :
  NoDup (names svcs) ->
  apply_glitch rng_choice rng_uniform cfg g svcs = (Some v, svcs', g') ->
  exists s g1,
    services_get v svcs = Some s
    /\ threshold cfg <= health s
    /\ services_get v svcs'
       = Some (set_health
                 (py_max 0 (health s - fst (rng_uniform g1 (2#10) (5#10)))) s)
    /\ (forall n, n <> v -> services_get n svcs' = services_get n svcs)
    /\ names svcs' = names svcs.
Proof.
  intros Hnd H.
  destruct (apply_glitch_inv _ _ _ _ _ _ _ _ _ H)
    as [[Hv _]|[victim [g1 [Hv [Hin [Hthr ->]]]]]]; [discriminate|].
  injection Hv as ->. exists victim, g1.
  pose proof (NoDup_names_get svcs victim Hnd Hin) as Hget.
  split; [exact Hget|]. split; [exact Hthr|]. split.
  - rewrite services_get_update by reflexivity.
    rewrite String.eqb_refl, Hget. reflexivity.
  - split.
    + intros n Hn. rewrite services_get_update by reflexivity.
      apply String.eqb_neq in Hn. rewrite Hn. reflexivity.
    + apply names_update. reflexivity.
Qed.

(** X4.  The glitch step reports no victim exactly when every service is
    below the threshold; it then leaves the store alone and draws nothing
    from the generator. *)
Theorem apply_glitch_skips_without_candidates (cfg : Config) (g : Rng)
    (svcs : Services) :
  (fst (fst (apply_glitch rng_choice rng_uniform cfg g svcs)) = None
   <-> Forall (fun s => health s < threshold cfg) svcs)
  /\ (fst (fst (apply_glitch rng_choice rng_uniform cfg g svcs)) = None ->
      apply_glitch rng_choice rng_uniform cfg g svcs = (None, svcs, g)).
Proof.
  unfold apply_glitch.
  destruct (filter (fun s => Qleb (threshold cfg) (health s)) svcs)
    as [|first rest] eqn:Ef.
  - split; [|reflexivity]. split; [intros _|reflexivity].
    apply Forall_forall. intros s Hs.
    destruct (Qleb (threshold cfg) (health s)) eqn:E.
    + assert (Hin : In s (filter (fun s => Qleb (threshold cfg) (health s)) svcs))
        by (apply filter_In; auto).
      rewrite Ef in Hin. destruct Hin.
    + apply Qleb_false in E. exact E.
  - destruct (rng_choice g (List.length (first :: rest))) as [i g1].
    destruct (rng_uniform g1 (2 # 10) (5 # 10)) as [delta g2]. simpl.
    split; [|discriminate]. split; [discriminate|]. intro Hall.
    assert (Hin : In first (filter (fun s => Qleb (threshold cfg) (health s)) svcs))
      by (rewrite Ef; left; reflexivity).
    apply filter_In in Hin. destruct Hin as [Hin Hh].
    apply Qleb_true in Hh. rewrite Forall_forall in Hall.
    specialize (Hall first Hin). lra.
Qed.

End Glitch.

Lemma apply_glitch_hits_one_healthy_service_witness :
  exists s g1,
    services_get "A" (load_services chain3_data) = Some s
    /\ threshold one_tick_config <= health s
    /\ services_get "A"
         (services_update "A" (set_health (40#100)) (load_services chain3_data))
       = Some (set_health
                 (py_max 0 (health s - fst (script_uniform g1 (2#10) (5#10)))) s)
    /\ (forall n, n <> "A" ->
        services_get n
          (services_update "A" (set_health (40#100)) (load_services chain3_data))
        = services_get n (load_services chain3_data))
    /\ names (services_update "A" (set_health (40#100)) (load_services chain3_data))
       = names (load_services chain3_data).
Proof.
  apply (apply_glitch_hits_one_healthy_service ScriptRng script_choice
           script_uniform one_tick_config chain3_script []
           (load_services chain3_data)).
  - apply NoDup_load_services.
  - vm_compute. reflexivity.
Defined.

(** ** An induction principle over the ticks of a run *)

Lemma run_tick_phases {Rng : Type} (set_iter : PySet -> list string)
    (rng_choice : Rng -> nat -> nat * Rng)
    (rng_uniform : Rng -> Q -> Q -> Q * Rng) (sim sim' : Simulator Rng) :
  run_tick set_iter rng_choice rng_uniform sim = Ok sim' ->
  exists sim3,
    tick_recovery set_iter (tick_glitch rng_choice rng_uniform sim) = Ok sim3
    /\ tick_classify set_iter (tick_propagate set_iter sim3) = Ok sim'.
Proof.
  unfold run_tick. intro H.
  destruct (tick_recovery set_iter (tick_glitch rng_choice rng_uniform sim))
    as [sim3|]; [|discriminate].
  exists sim3. split; [reflexivity | exact H].
Qed.

(** [run], with the simulator the ticks start from and the one they end on. *)
Lemma run_unfold {Rng : Type} (set_iter : PySet -> list string)
    (rng_choice : Rng -> nat -> nat * Rng)
    (rng_uniform : Rng -> Q -> Q -> Q * Rng) (sim sim' : Simulator Rng) :
  run set_iter rng_choice rng_uniform sim = Ok sim' ->
  exists sim0 simT,
    services (graph sim0) = services (graph sim)
    /\ rev_adj (graph sim0) = rev_adj (graph sim)
    /\ config sim0 = config sim /\ tick sim0 = tick sim
    /\ events sim0 = events sim /\ incident_log sim0 = incident_log sim
    /\ service_degradation_history sim0 = service_degradation_history sim
    /\ rng sim0 = rng sim
    /\ run_ticks set_iter rng_choice rng_uniform
         (Z.to_nat (ticks (config sim))) 1%Z sim0 = Ok simT
    /\ sim' = add_log [LogEnd] simT.
Proof.
  unfold run. intro H.
  destruct (match sorted_services (graph sim) with
            | Some (_ :: _) => ([], graph sim)
            | _ => (map LogWarnCycle (cycles (graph sim)),
                    {| services := services (graph sim);
                       rev_adj := rev_adj (graph sim);
                       cycles := cycles (graph sim);
                       sorted_services := Some (names (services (graph sim))) |})
            end) as [warns g'] eqn:Eg.
  assert (Hg : services g' = services (graph sim)
               /\ rev_adj g' = rev_adj (graph sim)).
  { destruct (sorted_services (graph sim)) as [[|o os]|];
      injection Eg as _ <-; split; reflexivity. }
  destruct Hg as [Hg1 Hg2].
  match type of H with
  | (bind (run_ticks _ _ _ _ _ ?s0) _ = _) =>
      destruct (run_ticks set_iter rng_choice rng_uniform
                  (Z.to_nat (ticks (config sim))) 1%Z s0) as [simT|] eqn:ET;
        [|discriminate]; exists s0, simT
  end.
  cbn [bind] in H. injection H as <-.
  cbn [graph config tick events incident_log service_degradation_history rng].
  repeat split; assumption.
Qed.

Section RunInduction.

Variable set_iter : PySet -> list string.
Variable Rng : Type.
Variable rng_seed : Z -> Rng.
Variable rng_choice : Rng -> nat -> nat * Rng.
Variable rng_uniform : Rng -> Q -> Q -> Q * Rng.
Variable data : list ServiceData.
Variable cfg : Config.

Lemma run_tick_state (sim sim' : Simulator Rng) :
  run_state set_iter data cfg sim ->
  run_tick set_iter rng_choice rng_uniform sim = Ok sim' ->
  run_state set_iter data cfg sim' /\ tick sim' = tick sim.
Proof.
  intros [Hc [Hsk Hra]] H.
  destruct (run_tick_phases _ _ _ _ _ H) as [sim3 [H3 H4]].
  destruct (tick_glitch_frame Rng rng_choice rng_uniform sim)
    as [Hgc [Hgt [Hgr _]]].
  destruct (tick_recovery_inv _ _ _ _ H3) as [lg [Hh [Hrc [Hrt [Hrr _]]]]].
  destruct (tick_classify_inv _ _ _ _ H4) as [Hcs [Hcc [Hct [Hcr _]]]].
  cbv zeta in Hcs.
  assert (Hsk1 : skeleton (services (graph (tick_glitch rng_choice rng_uniform sim)))
                 = skeleton (services (graph sim))).
  { rewrite tick_glitch_services, skeleton_apply_glitch. apply skeleton_snapshot. }
  pose proof (skeleton_handle_recovery _ _ _ _ _ _ _ Hh) as Hsk3.
  unfold run_state. split; [split; [|split]|].
  - rewrite Hcc. cbn [tick_propagate config]. congruence.
  - rewrite Hcs, skeleton_mark_newly_failed. cbn [tick_propagate graph services with_services].
    rewrite skeleton_propagate_health. congruence.
  - rewrite Hcr. cbn [tick_propagate graph rev_adj with_services]. congruence.
  - rewrite Hct. cbn [tick_propagate tick]. congruence.
Qed.

(** [R k sim]: what holds of the ledgers and the store once [k] ticks are
    done; it may not depend on the log or on the tick counter. *)
Variable R : nat -> Simulator Rng -> Prop.

Hypothesis R_start :
  forall sim0 : Simulator Rng,
    services (graph sim0) = load_services data ->
    events sim0 = [] -> incident_log sim0 = [] ->
    service_degradation_history sim0 = [] ->
    rng sim0 = rng_seed (seed cfg) ->
    R O sim0.

Hypothesis R_tick :
  forall (k : nat) (sim sim' : Simulator Rng),
    run_state set_iter data cfg sim ->
    tick sim = Z.of_nat (S k) ->
    R k sim ->
    run_tick set_iter rng_choice rng_uniform sim = Ok sim' ->
    R (S k) sim'.

Hypothesis R_frame :
  forall (k : nat) (sim : Simulator Rng) (t : Z) (lines : list LogLine),
    R k sim -> R k (add_log lines (set_tick t sim)).

Lemma run_ticks_induction (n : nat) :
  forall (k : nat) (sim sim' : Simulator Rng),
  run_state set_iter data cfg sim ->
  R k sim ->
  run_ticks set_iter rng_choice rng_uniform n (Z.of_nat (S k)) sim = Ok sim' ->
  run_state set_iter data cfg sim'
  /\ (n <> O -> tick sim' = Z.of_nat (k + n))
  /\ R (k + n) sim'.
Proof.
  induction n as [|n IH]; intros k sim sim' Hst HR H; cbn [run_ticks] in H.
  - injection H as <-. rewrite Nat.add_0_r.
    split; [exact Hst|]. split; [intro Hn; contradiction | exact HR].
  - set (sim1 := add_log [LogTick (Z.of_nat (S k))]
                   (set_tick (Z.of_nat (S k)) sim)) in *.
    destruct (run_tick set_iter rng_choice rng_uniform sim1) as [sim2|] eqn:E;
      [|discriminate].
    cbn [bind] in H.
    assert (Hst1 : run_state set_iter data cfg sim1) by exact Hst.
    destruct (run_tick_state sim1 sim2 Hst1 E) as [Hst2 Ht2].
    assert (HR2 : R (S k) sim2).
    { apply (R_tick k sim1 sim2 Hst1 eq_refl); [|exact E].
      apply R_frame. exact HR. }
    replace (Z.of_nat (S k) + 1)%Z with (Z.of_nat (S (S k))) in H by lia.
    destruct (IH (S k) sim2 sim' Hst2 HR2 H) as [Hst' [Ht' HR']].
    replace (k + S n)%nat with (S k + n)%nat by lia.
    split; [exact Hst'|]. split; [|exact HR'].
    intros _. destruct n as [|n'].
    + cbn [run_ticks] in H. injection H as <-. rewrite Ht2.
      cbn [sim1 add_log set_tick tick]. f_equal. lia.
    + apply Ht'. discriminate.
Qed.

Lemma simulate_induction (sim : Simulator Rng) :
  simulate set_iter rng_seed rng_choice rng_uniform data cfg = Ok sim ->
  run_state set_iter data cfg sim
  /\ tick sim = Z.of_nat (Z.to_nat (ticks cfg))
  /\ R (Z.to_nat (ticks cfg)) sim.
Proof.
  unfold simulate. intro H.
  destruct (ServiceGraph_init set_iter data) as [g|] eqn:Eg; [|discriminate].
  cbn [bind] in H.
  destruct (ServiceGraph_init_services _ _ _ Eg) as [Hs Hr].
  destruct (run_unfold _ _ _ _ _ H)
    as [sim0 [simT [H1 [H2 [H3 [H4 [H5 [H6 [H7 [H8 [H9 ->]]]]]]]]]]].
  cbn [Simulator_init graph config tick events incident_log
       service_degradation_history rng] in *.
  assert (Hst0 : run_state set_iter data cfg sim0).
  { unfold run_state. split; [exact H3|]. split; congruence. }
  assert (HR0 : R O sim0).
  { apply R_start; congruence. }
  destruct (run_ticks_induction _ O sim0 simT Hst0 HR0 H9) as [HstT [HtT HRT]].
  cbn [Nat.add] in HtT, HRT.
  split; [exact HstT|]. split.
  - cbn [add_log tick].
    destruct (Z.to_nat (ticks cfg)) as [|m] eqn:Em.
    + cbn [run_ticks] in H9. injection H9 as <-. rewrite H4. reflexivity.
    + apply HtT. discriminate.
  - apply (R_frame _ simT (tick simT) [LogEnd]) in HRT.
    replace (set_tick (tick simT) simT) with simT in HRT; [exact HRT|].
    destruct simT; reflexivity.
Qed.

End RunInduction.

(** ** The event ledger *)

Lemma StronglySorted_app_le (l1 l2 : list Z) :
  StronglySorted Z.le l1 -> StronglySorted Z.le l2 ->
  (forall x y, In x l1 -> In y l2 -> (x <= y)%Z) ->
  StronglySorted Z.le (l1 ++ l2).
Proof.
  intros H1 H2 H12. induction H1 as [|a l Hl IH Ha]; simpl; [exact H2|].
  constructor.
  - apply IH. intros x y Hx Hy. apply H12; [right; exact Hx | exact Hy].
  - apply Forall_app. split; [exact Ha|].
    apply Forall_forall. intros y Hy. apply H12; [left; reflexivity | exact Hy].
Qed.

Lemma StronglySorted_const (t : Z) (l : list Z) :
  Forall (fun x => x = t) l -> StronglySorted Z.le l.
Proof.
  induction l as [|a l IH]; intro H; [constructor|].
  inversion H as [|? ? Ha Hl]; subst. constructor; [apply IH; exact Hl|].
  apply Forall_forall. intros y Hy. rewrite Forall_forall in Hl.
  rewrite (Hl y Hy). lia.
Qed.

Lemma glitches_at_app (t : Z) (l1 l2 : list Event) :
  glitches_at t (l1 ++ l2) = glitches_at t l1 ++ glitches_at t l2.
Proof. unfold glitches_at. apply filter_app. Qed.

Lemma glitches_at_none (t : Z) (l : list Event) :
  Forall (fun e => is_glitch e = false \/ event_tick e <> t) l ->
  glitches_at t l = [].
Proof.
  unfold glitches_at. induction l as [|e l IH]; intro H; simpl; [reflexivity|].
  inversion H as [|? ? He Hl]; subst. rewrite (IH Hl).
  destruct He as [He|He].
  - rewrite He. reflexivity.
  - apply Z.eqb_neq in He. rewrite He, andb_false_r. reflexivity.
Qed.

(** Appending the events of tick [k + 1] to a ledger that is well formed
    after [k] ticks: at most one glitch, then failures. *)
Lemma ledger_ok_extend (cfg : Config) (nms : list string) (k : nat)
    (evs glitches failures : list Event) :
  ledger_ok cfg nms k evs ->
  (List.length glitches <= 1)%nat ->
  Forall (fun e => event_tick e = Z.of_nat (S k)) (glitches ++ failures) ->
  Forall (fun e => is_glitch e = false) failures ->
  Forall (event_sound cfg nms) (glitches ++ failures) ->
  ledger_ok cfg nms (S k) (evs ++ glitches ++ failures).
Proof.
  intros [Hb [Hs [Ho Hg]]] Hlen Ht Hf Hnew.
  rewrite Forall_forall in Hb, Ht.
  unfold ledger_ok. split; [|split; [|split]].
  - apply Forall_app. split; apply Forall_forall; intros e He.
    + specialize (Hb e He). lia.
    + rewrite (Ht e He). lia.
  - rewrite map_app. apply StronglySorted_app_le; [exact Hs| |].
    + apply (StronglySorted_const (Z.of_nat (S k))).
      apply Forall_forall. intros x Hx. apply in_map_iff in Hx.
      destruct Hx as [e [<- He]]. apply Ht. exact He.
    + intros x y Hx Hy. apply in_map_iff in Hx, Hy.
      destruct Hx as [e1 [<- He1]]. destruct Hy as [e2 [<- He2]].
      specialize (Hb e1 He1). rewrite (Ht e2 He2). lia.
  - apply Forall_app. split; [exact Ho | exact Hnew].
  - intro t. rewrite !glitches_at_app.
    rewrite (glitches_at_none t failures).
    2:{ apply Forall_forall. intros e He. left.
        rewrite Forall_forall in Hf. apply Hf. exact He. }
    rewrite app_nil_r, length_app.
    destruct (Z.eq_dec t (Z.of_nat (S k))) as [->|Hne].
    + rewrite (glitches_at_none _ evs).
      2:{ apply Forall_forall. intros e He. right. specialize (Hb e He). lia. }
      pose proof (filter_length_le
                    (fun e => is_glitch e && (event_tick e =? Z.of_nat (S k))%Z)
                    glitches) as Hfl.
      fold (glitches_at (Z.of_nat (S k)) glitches) in Hfl.
      cbn [List.length Nat.add]. lia.
    + rewrite (glitches_at_none t glitches).
      2:{ apply Forall_forall. intros e He. right.
          rewrite (Ht e (in_or_app _ _ _ (or_introl He))). congruence. }
      specialize (Hg t). cbn [List.length]. lia.
Qed.

(** The event of the glitch step, read off the victim after the glitch. *)
Lemma tick_glitch_events {Rng : Type} (rng_choice : Rng -> nat -> nat * Rng)
    (rng_uniform : Rng -> Q -> Q -> Q * Rng) (sim : Simulator Rng) :
  NoDup (names (services (graph sim))) ->
  exists glitches,
    events (tick_glitch rng_choice rng_uniform sim) = events sim ++ glitches
    /\ (glitches = []
        \/ exists s g1,
             In s (services (graph sim))
             /\ threshold (config sim) <= health s
             /\ glitches
                = [Glitch (tick sim) (name s) (health s)
                     (py_max 0 (health s
                                - fst (rng_uniform g1 (2#10) (5#10))))]).
Proof.
  intro Hnd. unfold tick_glitch.
  destruct (apply_glitch rng_choice rng_uniform (config sim) (rng sim)
              (snapshot (services (graph sim)))) as [[v svcs2] g'] eqn:E.
  destruct (glitch_report (tick sim) v svcs2) as [gl ge] eqn:Eg.
  cbn [events]. exists ge. split; [reflexivity|].
  destruct (apply_glitch_inv _ _ _ _ _ _ _ _ _ E)
    as [[-> _]|[victim [g1 [-> [Hin [Hthr ->]]]]]].
  - left. cbn [glitch_report] in Eg. congruence.
  - right. unfold snapshot in Hin. apply in_map_iff in Hin.
    destruct Hin as [s [<- Hs]].
    assert (Hget : services_get (name s) (snapshot (services (graph sim)))
                   = Some (set_initial_health (health s) s)).
    { apply (NoDup_names_get (snapshot (services (graph sim)))
               (set_initial_health (health s) s)).
      - rewrite names_snapshot. exact Hnd.
      - unfold snapshot.
        apply (in_map (fun x => set_initial_health (health x) x)). exact Hs. }
    unfold glitch_report in Eg. cbn [name set_initial_health] in Eg.
    rewrite services_get_update in Eg by reflexivity.
    rewrite String.eqb_refl, Hget in Eg. cbn in Eg.
    exists s, g1. split; [exact Hs|]. split; [exact Hthr|]. congruence.
Qed.

Section EventLedger.

Variable set_iter : PySet -> list string.
Variable Rng : Type.
Variable rng_seed : Z -> Rng.
Variable rng_choice : Rng -> nat -> nat * Rng.
Variable rng_uniform : Rng -> Q -> Q -> Q * Rng.
Hypothesis rng_uniform_range :
  forall g a b, a <= b -> a <= fst (rng_uniform g a b) <= b.
Variable data : list ServiceData.
Variable cfg : Config.

Lemma run_state_names (sim : Simulator Rng) :
  run_state set_iter data cfg sim ->
  names (services (graph sim)) = names (load_services data)
  /\ NoDup (names (services (graph sim))).
Proof.
  intros [_ [Hsk _]].
  assert (Hn : names (services (graph sim)) = names (load_services data))
    by (rewrite <- !skeleton_names, Hsk; reflexivity).
  split; [exact Hn|]. rewrite Hn. apply NoDup_load_services.
Qed.

Lemma run_tick_ledger (k : nat) (sim sim' : Simulator Rng) :
  run_state set_iter data cfg sim ->
  tick sim = Z.of_nat (S k) ->
  ledger_ok cfg (names (load_services data)) k (events sim) ->
  run_tick set_iter rng_choice rng_uniform sim = Ok sim' ->
  ledger_ok cfg (names (load_services data)) (S k) (events sim').
Proof.
  intros Hst Ht Hl H.
  destruct (run_state_names sim Hst) as [Hn Hnd].
  destruct (run_tick_state set_iter Rng rng_choice rng_uniform data cfg
              sim sim' Hst H) as [Hst' _].
  destruct (run_state_names sim' Hst') as [Hn' _].
  destruct Hst as [Hc _].
  destruct (run_tick_phases _ _ _ _ _ H) as [sim3 [H3 H4]].
  destruct (tick_glitch_events rng_choice rng_uniform sim Hnd)
    as [glitches [Heg Hg]].
  destruct (tick_glitch_frame Rng rng_choice rng_uniform sim)
    as [Hgc [Hgt _]].
  destruct (tick_recovery_inv _ _ _ _ H3) as [lg [_ [Hrc [Hrt [_ [Hre _]]]]]].
  destruct (tick_classify_inv _ _ _ _ H4) as [Hcs _]. cbv zeta in Hcs.
  destruct (tick_classify_ledgers set_iter _ sim' H4) as [Hev _].
  cbv zeta in Hev. cbn [tick_propagate events tick config] in Hev.
  rewrite Hre, Heg, Hrc, Hrt, Hgc, Hgt, Hc, Ht, <- app_assoc in Hev.
  rewrite Hev.
  set (svcsP := services (graph (tick_propagate set_iter sim3))) in *.
  assert (HnP : names svcsP = names (load_services data)).
  { rewrite <- Hn', Hcs, names_mark_newly_failed. reflexivity. }
  apply ledger_ok_extend; [exact Hl| | | |].
  - destruct Hg as [->|[s [g1 [_ [_ ->]]]]]; simpl; lia.
  - apply Forall_app. split.
    + destruct Hg as [->|[s [g1 [_ [_ ->]]]]]; [constructor|].
      rewrite Ht. repeat constructor.
    + apply Forall_forall. intros e He. apply in_map_iff in He.
      destruct He as [s [<- _]]. reflexivity.
  - apply Forall_forall. intros e He. apply in_map_iff in He.
    destruct He as [s [<- _]]. reflexivity.
  - apply Forall_app. split.
    + destruct Hg as [->|[s [g1 [Hs [Hthr ->]]]]]; [constructor|].
      constructor; [|constructor]. split.
      * cbn [event_service]. rewrite <- Hn. apply in_map. exact Hs.
      * split; [rewrite <- Hc; exact Hthr|].
        exists (fst (rng_uniform g1 (2#10) (5#10))).
        split; [apply rng_uniform_range; lra | reflexivity].
    + apply Forall_forall. intros e He. apply in_map_iff in He.
      destruct He as [s [<- Hs]]. apply filter_In in Hs.
      destruct Hs as [Hs _]. apply filter_In in Hs. destruct Hs as [Hs Hh].
      apply Qltb_true in Hh. split.
      * cbn [event_service]. rewrite <- HnP. apply in_map. exact Hs.
      * exact Hh.
Qed.

(** X5.  The event ledger of a run is chronological, with ticks between 1
    and [ticks]; it holds at most one glitch per tick; every event names a
    service of the graph; a glitch records a health that was at or above the
    threshold and its value after a drop by a delta between 0.2 and 0.5,
    floored at 0; a failure records a health below the threshold. *)
Theorem event_ledger_well_formed (sim : Simulator Rng) :
  simulate set_iter rng_seed rng_choice rng_uniform data cfg = Ok sim ->
  Forall (fun e => (1 <= event_tick e <= ticks cfg)%Z) (events sim)
  /\ StronglySorted Z.le (map event_tick (events sim))
  /\ Forall (event_sound cfg (names (services (graph sim)))) (events sim)
  /\ forall t, (List.length (glitches_at t (events sim)) <= 1)%nat.
Proof.
  intro H.
  destruct (simulate_induction set_iter Rng rng_seed rng_choice rng_uniform
              data cfg
              (fun k sim =>
                 ledger_ok cfg (names (load_services data)) k (events sim)))
    with (sim := sim) as [Hst [_ [Hb [Hs [Ho Hg]]]]]; [| | |exact H|].
  - intros sim0 _ He _ _ _. rewrite He. unfold ledger_ok.
    split; [constructor|]. split; [constructor|]. split; [constructor|].
    intro t. simpl. lia.
  - intros k s s' Hst Ht HR Hrun. apply (run_tick_ledger k s s' Hst Ht HR Hrun).
  - intros k s t lines HR. exact HR.
  - destruct (run_state_names sim Hst) as [Hn _]. rewrite Hn.
    split; [|split; [exact Hs | split; [exact Ho | exact Hg]]].
    apply Forall_forall. intros e He. rewrite Forall_forall in Hb.
    specialize (Hb e He). lia.
Qed.

End EventLedger.

Lemma event_ledger_well_formed_witness :
  exists sim,
    simulate iter_insertion (script_seed chain3_script) script_choice
      script_uniform chain3_data one_tick_config = Ok sim
    /\ events sim
       = [Glitch 1 "A" (9#10) (40#100); Failure 1 "A" (40#100)]
    /\ Forall (fun e => (1 <= event_tick e <= ticks one_tick_config)%Z)
         (events sim)
    /\ StronglySorted Z.le (map event_tick (events sim))
    /\ Forall (event_sound one_tick_config (names (services (graph sim))))
         (events sim)
    /\ forall t, (List.length (glitches_at t (events sim)) <= 1)%nat.
Proof.
  eexists. split; [vm_compute; reflexivity|]. split; [reflexivity|].
  apply (event_ledger_well_formed iter_insertion ScriptRng
           (script_seed chain3_script) script_choice script_uniform
           script_uniform_range chain3_data one_tick_config).
  vm_compute. reflexivity.
Defined.

(** ** Without a cooldown, a failure is permanent *)

Lemma failure_names_In (n : string) (evs : list Event) :
  In n (failure_names evs) <-> exists t h, In (Failure t n h) evs.
Proof.
  unfold failure_names. rewrite in_map_iff. split.
  - intros [e [He Hin]]. apply filter_In in Hin. destruct Hin as [Hin Hf].
    destruct e as [t m o w|t m h]; [discriminate|]. simpl in He. subst m.
    eauto.
  - intros [t [h Hin]]. exists (Failure t n h). split; [reflexivity|].
    apply filter_In. split; [exact Hin | reflexivity].
Qed.

Lemma failure_names_app (l1 l2 : list Event) :
  failure_names (l1 ++ l2) = failure_names l1 ++ failure_names l2.
Proof. unfold failure_names. rewrite filter_app, map_app. reflexivity. Qed.

Lemma failure_names_failures (t : Z) (l : list Service) :
  failure_names (map (fun s => Failure t (name s) (health s)) l) = names l.
Proof.
  unfold failure_names, names. induction l as [|s l IH]; simpl; [reflexivity|].
  f_equal. exact IH.
Qed.

Lemma NoDup_names_filter (p : Service -> bool) (svcs : Services) :
  NoDup (names svcs) -> NoDup (names (filter p svcs)).
Proof.
  unfold names. induction svcs as [|s l IH]; intro H; simpl; [constructor|].
  inversion H as [|? ? Hn Hl]; subst. destruct (p s); simpl.
  - constructor; [|apply IH; exact Hl]. intro Hin. apply Hn.
    apply in_map_iff in Hin. destruct Hin as [x [Hx Hin]].
    apply filter_In in Hin. rewrite <- Hx. apply in_map. apply Hin.
  - apply IH. exact Hl.
Qed.

Lemma flags_kept_refl (x : Services) : flags_kept x x.
Proof. intros n s Hs. exists s. auto. Qed.

Lemma flags_kept_trans (x y z : Services) :
  flags_kept x y -> flags_kept y z -> flags_kept x z.
Proof.
  intros Hxy Hyz n s Hs. destruct (Hxy n s Hs) as [s1 [H1 [Ha [Hb Hc]]]].
  destruct (Hyz n s1 H1) as [s2 [H2 [Ha2 [Hb2 Hc2]]]].
  exists s2. repeat split; congruence.
Qed.

Lemma flags_kept_update (x : Services) (m : string) (f : Service -> Service) :
  (forall s, name (f s) = name s) ->
  (forall s, is_failed (f s) = is_failed s) ->
  (forall s, failed_at_tick (f s) = failed_at_tick s) ->
  (forall s, recovery_timer (f s) = recovery_timer s) ->
  flags_kept x (services_update m f x).
Proof.
  intros Hn Hf Ht Hr n s Hs. rewrite services_get_update by exact Hn.
  rewrite Hs. destruct (String.eqb n m); simpl; eauto 6.
Qed.

Lemma newly_failed_In (thr : Q) (y : Services) (n : string) :
  NoDup (names y) ->
  In n (names (filter (fun s => negb (is_failed s))
                 (filter (fun s => Qltb (health s) thr) y)))
  <-> exists s, services_get n y = Some s /\ health s < thr
                /\ is_failed s = false.
Proof.
  intro Hnd. unfold names at 1. rewrite in_map_iff. split.
  - intros [s [Hs Hin]]. apply filter_In in Hin. destruct Hin as [Hin Hf].
    apply filter_In in Hin. destruct Hin as [Hin Hh].
    exists s. rewrite <- Hs. split; [apply NoDup_names_get; assumption|].
    apply Qltb_true in Hh. apply negb_true_iff in Hf. auto.
  - intros [s [Hg [Hh Hf]]]. exists s.
    split; [apply (services_get_name _ _ _ Hg)|].
    apply filter_In. split; [|rewrite Hf; reflexivity].
    apply filter_In. split; [apply (services_get_In _ _ _ Hg)|].
    apply Qltb_true. exact Hh.
Qed.

Section NoCooldown.

Variable set_iter : PySet -> list string.
Variable Rng : Type.
Variable rng_seed : Z -> Rng.
Variable rng_choice : Rng -> nat -> nat * Rng.
Variable rng_uniform : Rng -> Q -> Q -> Q * Rng.
Variable data : list ServiceData.
Variable cfg : Config.
Hypothesis cooldown_none : cooldown cfg = None.
Hypothesis threshold_pos : 0 < threshold cfg.

(** From the start of a tick to the end of propagation: the failure
    bookkeeping is untouched and failed services stay below the threshold. *)
Lemma tick_store_no_cooldown (sim sim3 : Simulator Rng) :
  run_state set_iter data cfg sim ->
  (forall n s, services_get n (services (graph sim)) = Some s ->
     is_failed s = true -> health s < threshold cfg) ->
  tick_recovery set_iter (tick_glitch rng_choice rng_uniform sim) = Ok sim3 ->
  failed_low (threshold cfg) (services (graph (tick_propagate set_iter sim3)))
  /\ flags_kept (services (graph sim))
       (services (graph (tick_propagate set_iter sim3))).
Proof.
  intros Hst Hlow H3.
  destruct (run_state_names set_iter Rng data cfg sim Hst) as [_ Hnd].
  destruct Hst as [Hc _].
  destruct (tick_glitch_frame Rng rng_choice rng_uniform sim) as [Hgc _].
  destruct (tick_recovery_inv _ _ _ _ H3) as [lg [Hh [Hrc _]]].
  unfold handle_recovery in Hh. rewrite Hgc, Hc, cooldown_none in Hh.
  injection Hh as Hs3 _.
  cbn [tick_propagate graph services with_services].
  rewrite Hrc, Hgc, Hc, <- Hs3, tick_glitch_services, Hc.
  set (x := services (graph sim)) in *.
  apply (propagate_health_invariant set_iter cfg
           (fun z => failed_low (threshold cfg) z /\ flags_kept x z)).
  - intros z nm service [Hlz Hfz] Hg _ Htot _. split.
    + intros n s Hs Hf. rewrite services_get_update in Hs by reflexivity.
      destruct (String.eqb n nm) eqn:En; [|apply (Hlz n s Hs Hf)].
      apply String.eqb_eq in En. subst n. rewrite Hg in Hs.
      injection Hs as <-. cbn [set_health is_failed health initial_health] in *.
      destruct (Hlz nm service Hg Hf) as [_ Hi]. split; [|exact Hi].
      unfold py_max. destruct (Qltb 0 _); lra.
    + apply (flags_kept_trans x z _ Hfz).
      apply flags_kept_update; reflexivity.
  - assert (H1 : failed_low (threshold cfg) (snapshot x) /\ flags_kept x (snapshot x)).
    { split.
      - intros n s Hs Hf. unfold snapshot in Hs.
        rewrite services_get_map in Hs by reflexivity.
        destruct (services_get n x) as [s0|] eqn:E0; [|discriminate].
        injection Hs as <-. cbn [set_initial_health is_failed health initial_health] in *.
        pose proof (Hlow n s0 E0 Hf). auto.
      - intros n s Hs. unfold snapshot.
        rewrite services_get_map by reflexivity. rewrite Hs. simpl. eauto 6. }
    destruct H1 as [Hl1 Hf1].
    destruct (apply_glitch rng_choice rng_uniform cfg (rng sim) (snapshot x))
      as [[v x2] g'] eqn:E. cbn [fst snd].
    destruct (apply_glitch_inv _ _ _ _ _ _ _ _ _ E)
      as [[_ ->]|[victim [g1 [_ [Hin [Hthr ->]]]]]]; [auto|].
    assert (Hgv : services_get (name victim) (snapshot x) = Some victim).
    { apply NoDup_names_get; [rewrite names_snapshot; exact Hnd | exact Hin]. }
    split.
    + intros n s Hs Hf. rewrite services_get_update in Hs by reflexivity.
      destruct (String.eqb n (name victim)) eqn:En; [|apply (Hl1 n s Hs Hf)].
      apply String.eqb_eq in En. subst n. rewrite Hgv in Hs.
      injection Hs as <-. cbn [set_health is_failed] in Hf.
      destruct (Hl1 _ victim Hgv Hf) as [Hlt _]. lra.
    + apply (flags_kept_trans x (snapshot x) _ Hf1).
      apply flags_kept_update; reflexivity.
Qed.

End NoCooldown.

Section NoCooldownRun.

Variable set_iter : PySet -> list string.
Variable Rng : Type.
Variable rng_seed : Z -> Rng.
Variable rng_choice : Rng -> nat -> nat * Rng.
Variable rng_uniform : Rng -> Q -> Q -> Q * Rng.
Variable data : list ServiceData.
Variable cfg : Config.
Hypothesis cooldown_none : cooldown cfg = None.
Hypothesis threshold_pos : 0 < threshold cfg.

Lemma run_tick_failures (sim sim' : Simulator Rng) :
  run_state set_iter data cfg sim ->
  failures_recorded (threshold cfg) (services (graph sim)) (events sim) ->
  run_tick set_iter rng_choice rng_uniform sim = Ok sim' ->
  failures_recorded (threshold cfg) (services (graph sim')) (events sim').
Proof.
  intros Hst [Hnd [Ha Hb]] H.
  destruct (run_state_names set_iter Rng data cfg sim Hst) as [Hn Hndn].
  destruct (run_tick_phases _ _ _ _ _ H) as [sim3 [H3 H4]].
  assert (Hlow : forall n s, services_get n (services (graph sim)) = Some s ->
                   is_failed s = true -> health s < threshold cfg).
  { intros n s Hs Hf. pose proof (Hb n s Hs Hf) as Hin.
    apply failure_names_In in Hin. destruct Hin as [t [h Hin]].
    destruct (Ha t n h Hin) as [s0 [Hs0 [_ [_ Hlt]]]]. congruence. }
  destruct (tick_store_no_cooldown set_iter Rng rng_choice rng_uniform data cfg
              cooldown_none threshold_pos sim sim3 Hst Hlow H3) as [Hl Hk].
  destruct (tick_glitch_events rng_choice rng_uniform sim Hndn)
    as [glitches [Heg Hg]].
  destruct (tick_glitch_frame Rng rng_choice rng_uniform sim)
    as [Hgc [Hgt [_ [Hgn _]]]].
  destruct (tick_recovery_inv _ _ _ _ H3) as [lg [Hh [Hrc [Hrt [_ [Hre _]]]]]].
  destruct (tick_classify_inv _ _ _ _ H4) as [Hcs _]. cbv zeta in Hcs.
  destruct (tick_classify_ledgers set_iter _ sim' H4) as [Hev _].
  cbv zeta in Hev. cbn [tick_propagate events tick config] in Hev, Hcs.
  destruct Hst as [Hc _].
  rewrite Hrc, Hgc, Hc in Hev, Hcs. rewrite Hre, Heg, <- app_assoc in Hev.
  set (y := services (graph (tick_propagate set_iter sim3))) in *.
  set (x := services (graph sim)) in *.
  assert (Hny : names y = names x).
  { unfold y. cbn [tick_propagate graph services with_services].
    rewrite names_propagate_health.
    rewrite <- (skeleton_names (services (graph sim3))).
    rewrite (skeleton_handle_recovery _ _ _ _ _ _ _ Hh), skeleton_names.
    exact Hgn. }
  assert (Hndy : NoDup (names y)) by (rewrite Hny; exact Hndn).
  set (newly := filter (fun s => negb (is_failed s))
                  (filter (fun s => Qltb (health s) (threshold cfg)) y)) in *.
  assert (Hfg : failure_names glitches = []).
  { destruct Hg as [->|[s [g1 [_ [_ ->]]]]]; reflexivity. }
  assert (Hback : forall n s', services_get n y = Some s' ->
            exists s, services_get n x = Some s
                      /\ is_failed s' = is_failed s).
  { intros n s' Hs'.
    assert (Hin : In n (names x)).
    { rewrite <- Hny. apply services_get_Some_iff. eauto. }
    apply services_get_Some_iff in Hin. destruct Hin as [s Hs].
    destruct (Hk n s Hs) as [s2 [Hs2 [Hf2 _]]].
    exists s. split; [exact Hs | congruence]. }
  assert (Hget' : forall n,
            services_get n (services (graph sim'))
            = option_map (fun s => if set_mem n (names newly)
                                   then mark_failed cfg (tick (tick_propagate set_iter sim3)) s
                                   else s)
                (services_get n y)).
  { intro n. rewrite Hcs. apply services_get_mark_newly_failed. }
  assert (Hold : forall n s, services_get n y = Some s -> is_failed s = true ->
            set_mem n (names newly) = false).
  { intros n s Hs Hf. apply set_mem_false. intro Hin.
    apply (newly_failed_In (threshold cfg) y n Hndy) in Hin.
    destruct Hin as [s2 [Hs2 [_ Hf2]]]. congruence. }
  rewrite Hev. unfold failures_recorded.
  rewrite !failure_names_app, Hfg, failure_names_failures. cbn [app].
  split; [|split].
  - apply NoDup_app; [exact Hnd | apply NoDup_names_filter, NoDup_names_filter; exact Hndy|].
    intros n Hin Hin2. apply failure_names_In in Hin.
    destruct Hin as [t [h Hin]]. destruct (Ha t n h Hin) as [s [Hs [Hf _]]].
    destruct (Hk n s Hs) as [s' [Hs' [Hf' _]]].
    apply (newly_failed_In (threshold cfg) y n Hndy) in Hin2.
    destruct Hin2 as [s2 [Hs2 [_ Hf2]]]. congruence.
  - intros t n h Hin. apply in_app_or in Hin. destruct Hin as [Hin|Hin].
    + destruct (Ha t n h Hin) as [s [Hs [Hf [Ht _]]]].
      destruct (Hk n s Hs) as [s' [Hs' [Hf' [Ht' _]]]].
      assert (Hf'' : is_failed s' = true) by congruence.
      exists s'. rewrite Hget', Hs'. cbn [option_map].
      rewrite (Hold n s' Hs' Hf'').
      split; [reflexivity|]. split; [exact Hf''|]. split; [congruence|].
      apply (Hl n s' Hs' Hf'').
    + apply in_app_or in Hin. destruct Hin as [Hin|Hin].
      * destruct Hg as [->|[s [g1 [_ [_ ->]]]]]; [destruct Hin|].
        destruct Hin as [Hin|[]]. discriminate Hin.
      * apply in_map_iff in Hin. destruct Hin as [s [He Hs]].
        injection He as <- <- <-.
        assert (Hin : In (name s) (names newly)) by (apply in_map; exact Hs).
        pose proof Hin as Hin2.
        apply (newly_failed_In (threshold cfg) y _ Hndy) in Hin2.
        destruct Hin2 as [s2 [Hs2 [Hlt2 Hf2]]].
        apply filter_In in Hs. destruct Hs as [Hs _].
        apply filter_In in Hs. destruct Hs as [Hs _].
        rewrite (NoDup_names_get y s Hndy Hs) in Hs2. injection Hs2 as <-.
        exists (mark_failed cfg (tick (tick_propagate set_iter sim3)) s).
        rewrite Hget', (NoDup_names_get y s Hndy Hs). cbn [option_map].
        apply set_mem_true in Hin. rewrite Hin.
        split; [reflexivity|]. split; [reflexivity|].
        split; [reflexivity | exact Hlt2].
  - intros n s'' Hs'' Hf''. rewrite Hget' in Hs''.
    destruct (services_get n y) as [s'|] eqn:Ey; [|discriminate].
    cbn [option_map] in Hs''. apply in_or_app.
    destruct (set_mem n (names newly)) eqn:Em.
    + right. apply set_mem_true. exact Em.
    + left. injection Hs'' as <-.
      destruct (Hback n s' Ey) as [s [Hs Hfs]].
      apply (Hb n s Hs). congruence.
Qed.

(** X6.  Without [cooldown] in the configuration (and with a positive
    threshold) a failure is permanent: at the end of a run the failed
    services are exactly the services of the failure events of the ledger,
    each of them has exactly one failure event, still records the tick of
    that event as [failed_at_tick], and is still below the threshold. *)
Theorem failures_are_permanent_without_cooldown (sim : Simulator Rng) :
  simulate set_iter rng_seed rng_choice rng_uniform data cfg = Ok sim ->
  NoDup (failure_names (events sim))
  /\ (forall t n h, In (Failure t n h) (events sim) ->
        exists s, services_get n (services (graph sim)) = Some s
                  /\ is_failed s = true /\ failed_at_tick s = t
                  /\ health s < threshold cfg)
  /\ (forall n s, services_get n (services (graph sim)) = Some s ->
        is_failed s = true -> In n (failure_names (events sim))).
Proof.
  intro H.
  destruct (simulate_induction set_iter Rng rng_seed rng_choice rng_uniform
              data cfg
              (fun _ sim =>
                 failures_recorded (threshold cfg) (services (graph sim))
                   (events sim)))
    with (sim := sim) as [_ [_ HR]]; [| | |exact H|exact HR].
  - intros sim0 Hs He _ _ _. rewrite He, Hs. unfold failures_recorded.
    split; [constructor|]. split; [intros t n h []|].
    intros n s Hs0 Hf. exfalso.
    assert (HF : Forall (fun s => is_failed s = false) (load_services data))
      by (apply Forall_load_services; intros d _; reflexivity).
    rewrite Forall_forall in HF.
    rewrite (HF s (services_get_In _ _ _ Hs0)) in Hf. discriminate.
  - intros k s s' Hst _ HR Hrun. apply (run_tick_failures s s' Hst HR Hrun).
  - intros k s t lines HR. exact HR.
Qed.

End NoCooldownRun.

Lemma failures_are_permanent_without_cooldown_witness :
  exists sim,
    simulate iter_insertion (script_seed chain3_script) script_choice
      script_uniform chain3_data one_tick_config = Ok sim
    /\ failure_names (events sim) = ["A"]
    /\ NoDup (failure_names (events sim))
    /\ (forall t n h, In (Failure t n h) (events sim) ->
          exists s, services_get n (services (graph sim)) = Some s
                    /\ is_failed s = true /\ failed_at_tick s = t
                    /\ health s < threshold one_tick_config)
    /\ (forall n s, services_get n (services (graph sim)) = Some s ->
          is_failed s = true -> In n (failure_names (events sim))).
Proof.
  eexists. split; [vm_compute; reflexivity|]. split; [reflexivity|].
  apply (failures_are_permanent_without_cooldown iter_insertion ScriptRng
           (script_seed chain3_script) script_choice script_uniform
           chain3_data one_tick_config).
  - reflexivity.
  - vm_compute. reflexivity.
  - vm_compute. reflexivity.
Defined.

(** ** A cooldown without [heal_to] *)

Lemma tick_timer_due (s : Service) :
  (recovery_timer (tick_timer s) =? 0)%Z = due s.
Proof.
  unfold tick_timer, due.
  destruct (is_failed s); cbn [andb orb];
    [|rewrite orb_false_r; reflexivity].
  destruct (0 <? recovery_timer s)%Z eqn:E; cbn [set_recovery_timer recovery_timer].
  - apply Z.ltb_lt in E.
    destruct (Z.eqb_spec (recovery_timer s - 1) 0);
      destruct (Z.eqb_spec (recovery_timer s) 0);
      destruct (Z.eqb_spec (recovery_timer s) 1); simpl; try reflexivity; lia.
  - apply Z.ltb_ge in E.
    destruct (Z.eqb_spec (recovery_timer s) 0);
      destruct (Z.eqb_spec (recovery_timer s) 1); simpl; try reflexivity; lia.
Qed.

Lemma services_to_heal_due (svcs : Services) :
  services_to_heal (map tick_timer svcs) = names (filter due svcs).
Proof.
  unfold services_to_heal, names.
  induction svcs as [|s l IH]; simpl; [reflexivity|].
  rewrite tick_timer_due. destruct (due s); simpl; [|exact IH].
  rewrite tick_timer_name, IH. reflexivity.
Qed.

(** X7.  With [cooldown] configured and [heal_to] missing, the recovery
    phase raises [KeyError('heal_to')] as soon as one service is due for a
    heal (timer at 0, or failed with timer at 1); while none is due it only
    counts the timers down. *)
Theorem handle_recovery_needs_heal_to (set_iter : PySet -> list string)
    (cfg : Config) (ra : list (string * PySet)) (t : Z) (svcs : Services) :
  cooldown cfg <> None -> heal_to cfg = None ->
  handle_recovery set_iter cfg ra t svcs
  = if existsb due svcs then Raise (KeyError "heal_to")
    else Ok (map tick_timer svcs, []).
Proof.
  intros Hc Hh. unfold handle_recovery.
  destruct (cooldown cfg) as [c|]; [|contradiction].
  rewrite services_to_heal_due.
  induction svcs as [|s l IH]; [reflexivity|].
  cbn [existsb filter]. destruct (due s) eqn:Ed.
  - cbn [orb names map foldM]. unfold heal_service at 1, config_heal_to.
    rewrite Hh. reflexivity.
  - cbn [orb]. destruct (existsb due l) eqn:El.
    + destruct (filter due l) as [|a rest] eqn:Ef.
      * exfalso. apply existsb_exists in El. destruct El as [x [Hx Hd]].
        assert (Hin : In x (filter due l)) by (apply filter_In; auto).
        rewrite Ef in Hin. destruct Hin.
      * cbn [names map foldM]. unfold heal_service at 1, config_heal_to.
        rewrite Hh. reflexivity.
    + destruct (filter due l) as [|a rest] eqn:Ef; [reflexivity|].
      exfalso.
      assert (Hin : In a (filter due l)) by (rewrite Ef; left; reflexivity).
      apply filter_In in Hin. destruct Hin as [Hin Hd].
      assert (Hex : existsb due l = true)
        by (apply existsb_exists; exists a; auto).
      congruence.
Qed.

Lemma handle_recovery_needs_heal_to_witness :
  handle_recovery iter_insertion no_heal_to_config [] 2 [due_service]
  = Raise (KeyError "heal_to")
  /\ handle_recovery iter_insertion no_heal_to_config [] 2 [waiting_service]
     = Ok ([due_service], []).
Proof.
  split.
  - apply (handle_recovery_needs_heal_to iter_insertion no_heal_to_config []
             2 [due_service]); [discriminate | reflexivity].
  - apply (handle_recovery_needs_heal_to iter_insertion no_heal_to_config []
             2 [waiting_service]); [discriminate | reflexivity].
Defined.

(** ** The blast radius is the set of transitive dependents *)

Section BlastReach.

Variable set_iter : PySet -> list string.
Variable ra : list (string * PySet).
Variable P : string -> Prop.
Hypothesis P_closed :
  forall c d, P c -> In d (rev_adj_get set_iter c ra) -> P d.

Lemma blast_visits_pred (l : list string) :
  forall (q : list string) (v i : PySet),
  Forall P v -> Forall P q -> Forall P l ->
  let '(q', v', i') := fold_left blast_visit l (q, v, i) in
  Forall P v' /\ Forall P q'.
Proof.
  induction l as [|n rest IH]; intros q v i Hv Hq Hl; cbn [fold_left].
  - auto.
  - inversion Hl as [|? ? Hn Hrest]; subst.
    unfold blast_visit at 2. destruct (set_mem n v) eqn:Em; cbn [negb].
    + apply IH; assumption.
    + apply IH; [| |exact Hrest].
      * unfold set_add. rewrite Em. apply Forall_app. auto.
      * apply Forall_app. auto.
Qed.

Lemma blast_loop_pred (fuel : nat) :
  forall (q : list string) (v i : PySet) impacted,
  Forall P v -> Forall P q -> Forall P i ->
  (forall x, In x i -> In x v) ->
  blast_loop set_iter fuel ra (q, v, i) = Ok impacted ->
  Forall P impacted.
Proof.
  induction fuel as [|fuel IH]; intros q v i impacted Hv Hq Hi Hiv H;
    cbn [blast_loop] in H.
  - destruct q; [|discriminate]. injection H as <-. exact Hi.
  - destruct q as [|current rest]; [injection H as <-; exact Hi|].
    inversion Hq as [|? ? Hc Hrest]; subst.
    assert (Hl : Forall P (rev_adj_get set_iter current ra)).
    { apply Forall_forall. intros d Hd. apply (P_closed current d Hc Hd). }
    pose proof (blast_visits_pred (rev_adj_get set_iter current ra) rest v i
                  Hv Hrest Hl) as Hp.
    assert (Hsub : let '(q1, v1, i1) :=
                     fold_left blast_visit (rev_adj_get set_iter current ra)
                       (rest, v, i) in
                   forall x, In x i1 -> In x v1).
    { clear -Hiv. revert rest v i Hiv.
      induction (rev_adj_get set_iter current ra) as [|n l IHl];
        intros rest v i Hiv; cbn [fold_left]; [exact Hiv|].
      unfold blast_visit at 2. destruct (set_mem n v) eqn:Em; cbn [negb].
      - apply IHl. exact Hiv.
      - apply IHl. intros x Hx. apply set_add_In in Hx. apply set_add_In.
        destruct Hx as [->|Hx]; auto. }
    revert Hp Hsub H.
    destruct (fold_left blast_visit (rev_adj_get set_iter current ra)
                (rest, v, i)) as [[q1 v1] i1].
    cbv beta iota zeta. intros [Hv1 Hq1] Hsub H.
    apply (IH q1 v1 i1 impacted Hv1 Hq1); [|exact Hsub|exact H].
    apply Forall_forall. intros x Hx. rewrite Forall_forall in Hv1.
    apply Hv1. apply Hsub. exact Hx.
Qed.

End BlastReach.

Lemma impacted_by_service (svcs : Services) (start d : string) :
  impacted_by svcs start d -> In d (names svcs).
Proof.
  intro H. destruct H; unfold names; apply in_map; assumption.
Qed.

(** X8.  [get_blast_radius] returns, without duplicates, exactly the
    services that depend on the start node directly or through a chain of
    dependencies; the start node itself is never part of its blast radius,
    even on a dependency cycle. *)
Theorem blast_radius_is_transitive_dependents (set_iter : PySet -> list string)
    (g : ServiceGraph) (start : string) :
  ra_correct set_iter (rev_adj g) (services g) ->
  exists impacted,
    get_blast_radius set_iter g start = Ok impacted
    /\ NoDup impacted
    /\ forall d, In d impacted <->
                 d <> start /\ impacted_by (services g) start d.
Proof.
  intro Hra.
  destruct (get_blast_radius_returns set_iter g start (ra_correct_wf _ _ _ Hra))
    as [impacted [Hb [Hnd [_ Hns]]]].
  exists impacted. split; [exact Hb|]. split; [exact Hnd|].
  set (P := fun x => x = start \/ impacted_by (services g) start x).
  assert (Hclosed : forall c d, P c -> In d (rev_adj_get set_iter c (rev_adj g)) ->
                                P d).
  { intros c d Hc Hd. apply Hra in Hd. destruct Hd as [Hk [s [Hs [<- Hdep]]]].
    right. destruct Hc as [->|Hc].
    - apply impacted_direct; assumption.
    - apply (impacted_step _ _ c); assumption. }
  intro d. split.
  - intro Hd. split; [intros ->; contradiction|].
    assert (HP : Forall P impacted).
    { unfold get_blast_radius in Hb.
      apply (blast_loop_pred set_iter (rev_adj g) P Hclosed
               (S (List.length (services g))) [start] [start] []
               impacted); [| | |intros x []|exact Hb].
      - constructor; [left; reflexivity | constructor].
      - constructor; [left; reflexivity | constructor].
      - constructor. }
    rewrite Forall_forall in HP. destruct (HP d Hd) as [->|H];
      [contradiction | exact H].
  - intros [Hne Himp].
    assert (Hin : In d (start :: impacted)).
    { unfold get_blast_radius in Hb.
      pose proof (blast_loop_closed set_iter (rev_adj g) start
                    (S (List.length (services g))) [start] [start] [] impacted
                    eq_refl) as Hcl.
      assert (Hcl' : forall c d, In c (start :: impacted) ->
                In d (rev_adj_get set_iter c (rev_adj g)) ->
                In d (start :: impacted)).
      { apply Hcl; [|exact Hb]. intros c' d' [<-|[]] _. right. left. reflexivity. }
      induction Himp as [s Hk Hs Hdep|c s Hc IH Hs Hdep].
      - apply (Hcl' start); [left; reflexivity|].
        apply Hra. split; [exact Hk|]. exists s. auto.
      - destruct (string_dec c start) as [->|Hcs].
        + apply (Hcl' start); [left; reflexivity|].
          apply Hra. split; [apply (impacted_by_service _ _ _ Hc)|].
          exists s. auto.
        + assert (Hcin : In c (start :: impacted)).
          { apply IH. exact Hcs. }
          apply (Hcl' c); [exact Hcin|].
          apply Hra. split; [apply (impacted_by_service _ _ _ Hc)|].
          exists s. auto. }
    destruct Hin as [<-|Hin]; [contradiction | exact Hin].
Qed.

Lemma blast_radius_is_transitive_dependents_witness :
  exists impacted,
    get_blast_radius iter_insertion chain3_graph "A" = Ok impacted
    /\ NoDup impacted
    /\ forall d, In d impacted <->
                 d <> "A" /\ impacted_by (services chain3_graph) "A" d.
Proof.
  apply (blast_radius_is_transitive_dependents iter_insertion chain3_graph "A").
  apply (build_reverse_adjacency_correct iter_insertion
           (fun s => Permutation_refl s) (load_services chain3_data)).
Defined.

(** ** The degradation history *)

Lemma dict_keys_set {V : Type} (k : string) (v : V) (d : list (string * V)) :
  map fst (dict_set k v d) = set_add k (map fst d).
Proof.
  unfold set_add, set_mem.
  induction d as [|[k' v'] rest IH]; simpl; [reflexivity|].
  rewrite (String.eqb_sym k k').
  destruct (String.eqb k' k) eqn:E; simpl.
  - apply String.eqb_eq in E. subst k'. reflexivity.
  - rewrite IH. destruct (existsb (String.eqb k) (map fst rest)); reflexivity.
Qed.

Lemma history_append_keys (nm : string) (x : Sample)
    (h : list (string * list Sample)) :
  map fst (history_append nm x h) = set_add nm (map fst h).
Proof.
  unfold history_append. destruct (dict_get nm h); apply dict_keys_set.
Qed.

Lemma history_append_get (nm n : string) (x : Sample)
    (h : list (string * list Sample)) :
  dict_get n (history_append nm x h)
  = if String.eqb nm n
    then Some (match dict_get n h with Some l => l ++ [x] | None => [x] end)
    else dict_get n h.
Proof.
  unfold history_append. destruct (String.eqb nm n) eqn:E.
  - apply String.eqb_eq in E. subst n.
    destruct (dict_get nm h); apply dict_get_set_same.
  - apply String.eqb_neq in E.
    destruct (dict_get nm h); apply dict_get_set_other; congruence.
Qed.

(** One pass of the first loop of [run_tick] over a store with unique
    names: every service receives exactly one sample. *)
Lemma record_history_get (t : Z) (n : string) (svcs : Services) :
  NoDup (names svcs) ->
  forall h,
  dict_get n (record_history t svcs h)
  = match services_get n svcs with
    | Some s =>
        Some (match dict_get n h with
              | Some l => l ++ [sample_of t s]
              | None => [sample_of t s]
              end)
    | None => dict_get n h
    end.
Proof.
  unfold record_history, services_get.
  induction svcs as [|s rest IH]; intros Hnd h; cbn [fold_left find];
    [reflexivity|].
  inversion Hnd as [|? ? Hn Hrest]; subst.
  rewrite (IH Hrest). fold (sample_of t s).
  rewrite history_append_get.
  destruct (String.eqb (name s) n) eqn:E; [|reflexivity].
  apply String.eqb_eq in E. subst n.
  fold (services_get (name s) rest).
  assert (Hnone : services_get (name s) rest = None)
    by (apply services_get_None; exact Hn).
  rewrite Hnone. reflexivity.
Qed.

Lemma record_history_keys (t : Z) (svcs : Services) :
  forall h,
  map fst (record_history t svcs h)
  = fold_left (fun ks s => set_add (name s) ks) svcs (map fst h).
Proof.
  unfold record_history. induction svcs as [|s rest IH]; intro h;
    cbn [fold_left]; [reflexivity|].
  rewrite IH, history_append_keys. reflexivity.
Qed.

Lemma set_add_all_new (svcs : Services) :
  forall ks, NoDup (ks ++ names svcs) ->
  fold_left (fun ks s => set_add (name s) ks) svcs ks = ks ++ names svcs.
Proof.
  induction svcs as [|s rest IH]; intros ks Hnd; cbn [fold_left names map].
  - rewrite app_nil_r. reflexivity.
  - assert (Hnd' : NoDup (ks ++ [name s] ++ names rest)) by exact Hnd.
    assert (Hnew : set_mem (name s) ks = false).
    { apply set_mem_false. intro Hin.
      apply NoDup_remove_2 in Hnd'. apply Hnd'. apply in_or_app. auto. }
    rewrite (set_add_new _ _ Hnew).
    rewrite app_assoc in Hnd'. rewrite (IH _ Hnd'), <- app_assoc. reflexivity.
Qed.

Lemma set_add_all_old (svcs : Services) :
  forall ks, incl (names svcs) ks ->
  fold_left (fun ks s => set_add (name s) ks) svcs ks = ks.
Proof.
  induction svcs as [|s rest IH]; intros ks Hin; cbn [fold_left];
    [reflexivity|].
  assert (Hold : set_mem (name s) ks = true).
  { apply set_mem_true. apply Hin. left. reflexivity. }
  unfold set_add at 2. rewrite Hold. apply IH.
  intros x Hx. apply Hin. right. exact Hx.
Qed.

Lemma run_tick_history {Rng : Type} (set_iter : PySet -> list string)
    (rng_choice : Rng -> nat -> nat * Rng)
    (rng_uniform : Rng -> Q -> Q -> Q * Rng) (sim sim' : Simulator Rng) :
  run_tick set_iter rng_choice rng_uniform sim = Ok sim' ->
  service_degradation_history sim'
  = record_history (tick sim) (services (graph sim))
      (service_degradation_history sim).
Proof.
  intro H. destruct (run_tick_phases _ _ _ _ _ H) as [sim3 [H3 H4]].
  assert (H4h : service_degradation_history sim'
                = service_degradation_history sim3).
  { unfold tick_classify in H4.
    destruct (filter _ (services (graph (tick_propagate set_iter sim3))))
      as [|f0 frest].
    - destruct (py_min_health _) as [m|]; [|discriminate].
      cbn [bind] in H4. injection H4 as <-. reflexivity.
    - cbv zeta in H4.
      destruct (match filter (fun s => negb (is_failed s)) (f0 :: frest) with
                | [] => Ok ([], [])
                | _ :: _ => perform_rca set_iter _ _ _
                end) as [[lines incs]|]; [|discriminate].
      cbn [bind] in H4. injection H4 as <-. reflexivity. }
  assert (H3h : service_degradation_history sim3
                = service_degradation_history
                    (tick_glitch rng_choice rng_uniform sim)).
  { unfold tick_recovery in H3.
    destruct (handle_recovery _ _ _ _ _) as [[svcs3 lg]|]; [|discriminate].
    cbn [bind] in H3. injection H3 as <-. reflexivity. }
  rewrite H4h, H3h. unfold tick_glitch.
  destruct (apply_glitch _ _ _ _ _) as [[v svcs2] g'].
  destruct (glitch_report _ _ _). reflexivity.
Qed.

Section History.

Variable set_iter : PySet -> list string.
Variable Rng : Type.
Variable rng_seed : Z -> Rng.
Variable rng_choice : Rng -> nat -> nat * Rng.
Variable rng_uniform : Rng -> Q -> Q -> Q * Rng.
Variable data : list ServiceData.
Variable cfg : Config.

Lemma run_tick_history_ok (k : nat) (sim sim' : Simulator Rng) :
  run_state set_iter data cfg sim ->
  tick sim = Z.of_nat (S k) ->
  history_ok data k (service_degradation_history sim) ->
  (k = O -> services (graph sim) = load_services data) ->
  run_tick set_iter rng_choice rng_uniform sim = Ok sim' ->
  history_ok data (S k) (service_degradation_history sim').
Proof.
  intros Hst Ht Hh H0 H.
  destruct (run_state_names set_iter Rng data cfg sim Hst) as [Hn Hnd].
  rewrite (run_tick_history _ _ _ _ _ H), Ht.
  destruct k as [|k'].
  - cbn [history_ok] in Hh. rewrite Hh, (H0 eq_refl). split.
    + rewrite record_history_keys. cbn [map].
      apply (set_add_all_new (load_services data) []).
      cbn [app]. apply NoDup_load_services.
    + intros n s0 Hs0. exists [sample_of 1 s0].
      rewrite record_history_get by apply NoDup_load_services.
      rewrite Hs0. split; [reflexivity|]. split; reflexivity.
  - destruct Hh as [Hk Hg]. split.
    + rewrite record_history_keys, set_add_all_old; [exact Hk|].
      rewrite Hk, Hn. intros x Hx. exact Hx.
    + intros n s0 Hs0. destruct (Hg n s0 Hs0) as [l [Hl [Htk Hhd]]].
      assert (Hin : In n (names (services (graph sim)))).
      { rewrite Hn. apply services_get_Some_iff. eauto. }
      apply services_get_Some_iff in Hin. destruct Hin as [s Hs].
      exists (l ++ [sample_of (Z.of_nat (S (S k'))) s]).
      rewrite record_history_get by exact Hnd. rewrite Hs, Hl.
      split; [reflexivity|]. split.
      * rewrite map_app, Htk. cbn [map sample_of smp_tick].
        rewrite (seq_S (S k') 1), map_app. reflexivity.
      * destruct l as [|x l]; [discriminate | exact Hhd].
Qed.

(** X9.  The degradation history after a run: empty when no tick ran;
    otherwise it has one entry per service, in the order of the services,
    each entry holds exactly one sample per tick, for ticks 1, 2, ... in
    order, and the first sample of a service records its input health and
    [is_failed = False]. *)
Theorem degradation_history_shape (sim : Simulator Rng) :
  simulate set_iter rng_seed rng_choice rng_uniform data cfg = Ok sim ->
  let hist := service_degradation_history sim in
  let n_ticks := Z.to_nat (ticks cfg) in
  (n_ticks = O -> hist = [])
  /\ (n_ticks <> O ->
      map fst hist = names (services (graph sim))
      /\ forall n s0, services_get n (load_services data) = Some s0 ->
           exists l,
             dict_get n hist = Some l
             /\ map smp_tick l = map Z.of_nat (seq 1 n_ticks)
             /\ hd_error l = Some (sample_of 1 s0)).
Proof.
  intro H.
  destruct (simulate_induction set_iter Rng rng_seed rng_choice rng_uniform
              data cfg
              (fun k sim =>
                 history_ok data k (service_degradation_history sim)
                 /\ (k = O -> services (graph sim) = load_services data)))
    with (sim := sim) as [Hst [_ [HR _]]]; [| | |exact H|].
  - intros sim0 Hs _ _ Hh _. split; [exact Hh | intros _; exact Hs].
  - intros k s s' Hst Ht [HR H0] Hrun.
    split; [apply (run_tick_history_ok k s s' Hst Ht HR H0 Hrun) | discriminate].
  - intros k s t lines HR. exact HR.
  - destruct (run_state_names set_iter Rng data cfg sim Hst) as [Hn _].
    cbv zeta. destruct (Z.to_nat (ticks cfg)) as [|m].
    + split; [intros _; exact HR | intro Hm; contradiction].
    + split; [discriminate|]. intros _. rewrite Hn. exact HR.
Qed.

End History.

Lemma degradation_history_shape_witness :
  exists sim,
    simulate iter_insertion (script_seed chain3_script) script_choice
      script_uniform chain3_data one_tick_config = Ok sim
    /\ map fst (service_degradation_history sim) = ["A"; "B"; "C"]
    /\ dict_get "A" (service_degradation_history sim)
       = Some [sample_of 1 (Service_init "A" [] (9#10))].
Proof.
  eexists. split; [vm_compute; reflexivity|].
  destruct (degradation_history_shape iter_insertion ScriptRng
              (script_seed chain3_script) script_choice script_uniform
              chain3_data one_tick_config _
              ltac:(vm_compute; reflexivity)) as [_ Hs].
  destruct (Hs ltac:(discriminate)) as [Hk _].
  split; [exact Hk | reflexivity].
Defined.

(** ** The incident ledger *)

Lemma deref_nonempty (svcs : Services) (l : list string) :
  l <> [] -> incl l (names svcs) -> deref svcs l <> [].
Proof.
  destruct l as [|n rest]; [contradiction|]. intros _ Hin. cbn [deref].
  assert (Hn : In n (names svcs)) by (apply Hin; left; reflexivity).
  apply services_get_Some_iff in Hn. destruct Hn as [s Hs]. rewrite Hs.
  discriminate.
Qed.

(** An analysis of a non-empty failure set appends exactly one incident,
    whose priority is one of its roots. *)
Lemma perform_rca_one_incident (set_iter : PySet -> list string)
    (g : ServiceGraph) (t : Z) (failed_services : list string)
    (lines : list LogLine) (incs : list Incident) :
  failed_services <> [] -> incl failed_services (names (services g)) ->
  perform_rca set_iter g t failed_services = Ok (lines, incs) ->
  exists i, incs = [i] /\ inc_tick i = t /\ In (inc_priority i) (inc_roots i).
Proof.
  intros Hne Hin H. unfold perform_rca in H.
  destruct (rca_analyse set_iter g failed_services) as [r|] eqn:Er;
    [|discriminate].
  cbn [bind] in H. injection H as _ <-.
  destruct (rca_analyse_inv _ _ _ _ Er) as [roots [Hcase [Hroots [_ Hsorted]]]].
  pose proof (deref_nonempty (services g) failed_services Hne Hin) as HF.
  assert (Hr : names roots <> []).
  { destruct Hcase as [[_ [_ [f0 [frest [_ ->]]]]]|[[Hn|He] [_ ->]]].
    - discriminate.
    - destruct (filter _ _); [contradiction | discriminate].
    - contradiction. }
  destruct (sorted_desc_head (blast_key (rca_blast_radii r)) (names roots) Hr)
    as [top [rest [l1 [l2 [Hs [Hl _]]]]]].
  unfold rca_incident. rewrite Hsorted, Hs. eexists. split; [reflexivity|].
  cbn [inc_tick inc_priority inc_roots]. split; [reflexivity|].
  rewrite Hroots, Hl. apply in_or_app. right. left. reflexivity.
Qed.

(** What one tick appends to the two ledgers. *)
Lemma run_tick_ledgers {Rng : Type} (set_iter : PySet -> list string)
    (rng_choice : Rng -> nat -> nat * Rng)
    (rng_uniform : Rng -> Q -> Q -> Q * Rng) (sim sim' : Simulator Rng) :
  run_tick set_iter rng_choice rng_uniform sim = Ok sim' ->
  exists glitches newly incs,
    events sim'
    = events sim ++ glitches
      ++ map (fun s => Failure (tick sim) (name s) (health s)) newly
    /\ Forall (fun e => is_glitch e = true /\ event_tick e = tick sim) glitches
    /\ incident_log sim' = incident_log sim ++ incs
    /\ ((newly = [] /\ incs = [])
        \/ (newly <> []
            /\ exists i, incs = [i] /\ inc_tick i = tick sim
                         /\ In (inc_priority i) (inc_roots i))).
Proof.
  intro H. destruct (run_tick_phases _ _ _ _ _ H) as [sim3 [H3 H4]].
  destruct (tick_glitch_frame Rng rng_choice rng_uniform sim)
    as [Hgc [Hgt [_ [_ Hgi]]]].
  destruct (tick_recovery_inv _ _ _ _ H3)
    as [lg [_ [Hrc [Hrt [_ [Hre [Hri _]]]]]]].
  destruct (tick_classify_ledgers set_iter _ sim' H4)
    as [Hev [incs [Hinc Hcase]]].
  cbv zeta in Hev, Hcase.
  cbn [tick_propagate events tick config incident_log] in Hev, Hinc, Hcase.
  rewrite Hrt, Hgt in Hev, Hcase. rewrite Hre in Hev. rewrite Hri, Hgi in Hinc.
  assert (Hg : exists glitches,
            events (tick_glitch rng_choice rng_uniform sim)
            = events sim ++ glitches
            /\ Forall (fun e => is_glitch e = true /\ event_tick e = tick sim)
                 glitches).
  { unfold tick_glitch.
    destruct (apply_glitch _ _ _ _ _) as [[v svcs2] g'].
    destruct (glitch_report (tick sim) v svcs2) as [gl ge] eqn:Eg.
    cbn [events]. exists ge. split; [reflexivity|].
    unfold glitch_report in Eg. destruct v as [nm|].
    - destruct (services_get nm svcs2) as [vs|]; injection Eg as _ <-;
        repeat constructor.
    - injection Eg as _ <-. constructor. }
  destruct Hg as [glitches [Heg Hgl]]. rewrite Heg, <- app_assoc in Hev.
  eexists glitches, _, incs. split; [exact Hev|]. split; [exact Hgl|].
  split; [exact Hinc|].
  destruct Hcase as [[Hn Hi]|[Hn [lines Hp]]]; [left; auto|]. right.
  split; [exact Hn|].
  apply (perform_rca_one_incident _ _ _ _ _ _) with (3 := Hp).
  - intro He. apply Hn.
    destruct (filter (fun s => Qltb (health s) _) _) as [|f0 fr];
      [reflexivity | discriminate He].
  - cbn [with_services services]. rewrite names_mark_newly_failed.
    intros n Hin. unfold names in Hin. apply in_map_iff in Hin.
    destruct Hin as [s [<- Hs]]. apply filter_In in Hs.
    apply in_map. apply Hs.
Qed.

Lemma failure_ticks_app (l1 l2 : list Event) :
  failure_ticks (l1 ++ l2) = failure_ticks l1 ++ failure_ticks l2.
Proof. unfold failure_ticks. rewrite filter_app, map_app. reflexivity. Qed.

Lemma failure_ticks_glitches (t : Z) (l : list Event) :
  Forall (fun e => is_glitch e = true /\ event_tick e = t) l ->
  failure_ticks l = [].
Proof.
  unfold failure_ticks, is_failure. induction 1 as [|e l [He _] _ IH];
    simpl; [reflexivity|]. rewrite He. exact IH.
Qed.

Lemma failure_ticks_failures (t : Z) (l : list Service) :
  failure_ticks (map (fun s => Failure t (name s) (health s)) l)
  = map (fun _ => t) l.
Proof.
  unfold failure_ticks. induction l as [|s l IH]; simpl; [reflexivity|].
  f_equal. exact IH.
Qed.

Lemma StronglySorted_snoc_lt (l : list Z) (t : Z) :
  StronglySorted Z.lt l -> Forall (fun x => (x < t)%Z) l ->
  StronglySorted Z.lt (l ++ [t]).
Proof.
  intros Hs Hl. induction Hs as [|a l Hs IH Ha]; simpl.
  - repeat constructor.
  - inversion Hl as [|? ? Hat Hlt]; subst. constructor; [apply IH; exact Hlt|].
    apply Forall_app. split; [exact Ha | repeat constructor; exact Hat].
Qed.

Lemma run_tick_incidents {Rng : Type} (set_iter : PySet -> list string)
    (rng_choice : Rng -> nat -> nat * Rng)
    (rng_uniform : Rng -> Q -> Q -> Q * Rng) (k : nat)
    (sim sim' : Simulator Rng) :
  tick sim = Z.of_nat (S k) ->
  incidents_ok k (events sim) (incident_log sim) ->
  run_tick set_iter rng_choice rng_uniform sim = Ok sim' ->
  incidents_ok (S k) (events sim') (incident_log sim').
Proof.
  intros Ht [He [Hi [Hs [Hiff Hp]]]] H.
  destruct (run_tick_ledgers _ _ _ _ _ H)
    as [glitches [newly [incs [Hev [Hgl [Hinc Hcase]]]]]].
  rewrite Ht in *. rewrite Hev, Hinc. unfold incidents_ok.
  rewrite !failure_ticks_app, (failure_ticks_glitches _ _ Hgl),
    failure_ticks_failures. cbn [app].
  split; [|split; [|split; [|split]]].
  - apply Forall_app. split.
    + apply (Forall_impl _ (fun e (Hle : (event_tick e <= Z.of_nat k)%Z) =>
                              ltac:(lia) : (event_tick e <= Z.of_nat (S k))%Z) He).
    + apply Forall_app. split.
      * apply (Forall_impl _ (fun e (Hg : is_glitch e = true
                                          /\ event_tick e = Z.of_nat (S k)) =>
                                ltac:(lia) : (event_tick e <= Z.of_nat (S k))%Z) Hgl).
      * apply Forall_forall. intros e Hin. apply in_map_iff in Hin.
        destruct Hin as [s [<- _]]. cbn [event_tick]. lia.
  - apply Forall_app. split.
    + apply (Forall_impl _ (fun i (Hle : (inc_tick i <= Z.of_nat k)%Z) =>
                              ltac:(lia) : (inc_tick i <= Z.of_nat (S k))%Z) Hi).
    + destruct Hcase as [[_ ->]|[_ [i [-> [Hti _]]]]]; [constructor|].
      repeat constructor. lia.
  - destruct Hcase as [[_ ->]|[_ [i [-> [Hti _]]]]].
    + rewrite app_nil_r. exact Hs.
    + rewrite map_app. cbn [map]. apply StronglySorted_snoc_lt; [exact Hs|].
      apply Forall_forall. intros x Hx. apply in_map_iff in Hx.
      destruct Hx as [j [<- Hj]]. rewrite Forall_forall in Hi.
      specialize (Hi j Hj). lia.
  - intro t. rewrite map_app, !in_app_iff, Hiff.
    destruct Hcase as [[-> ->]|[Hn [i [-> [Hti _]]]]]; [reflexivity|].
    cbn [map In]. rewrite Hti. split.
    + intros [Hl|[<-|[]]]; [left; exact Hl|]. right.
      destruct newly as [|s rest]; [contradiction|]. left. reflexivity.
    + intros [Hl|Hr]; [left; exact Hl|]. right. left.
      apply in_map_iff in Hr. destruct Hr as [s [Hr _]]. exact Hr.
  - apply Forall_app. split; [exact Hp|].
    destruct Hcase as [[_ ->]|[_ [i [-> [_ Hpi]]]]]; repeat constructor.
    exact Hpi.
Qed.

(** X10.  The incident ledger of a run holds exactly one incident for every
    tick in which at least one service newly failed, and none for the other
    ticks; incidents are in chronological order, and the priority of an
    incident is one of its roots. *)
Theorem one_incident_per_failing_tick (set_iter : PySet -> list string)
    (Rng : Type) (rng_seed : Z -> Rng) (rng_choice : Rng -> nat -> nat * Rng)
    (rng_uniform : Rng -> Q -> Q -> Q * Rng) (data : list ServiceData)
    (cfg : Config) (sim : Simulator Rng) :
  simulate set_iter rng_seed rng_choice rng_uniform data cfg = Ok sim ->
  StronglySorted Z.lt (map inc_tick (incident_log sim))
  /\ (forall t, In t (map inc_tick (incident_log sim))
                <-> exists n h, In (Failure t n h) (events sim))
  /\ Forall (fun i => In (inc_priority i) (inc_roots i)) (incident_log sim).
Proof.
  intro H.
  destruct (simulate_induction set_iter Rng rng_seed rng_choice rng_uniform
              data cfg
              (fun k sim => incidents_ok k (events sim) (incident_log sim)))
    with (sim := sim) as [_ [_ [_ [_ [Hs [Hiff Hp]]]]]]; [| | |exact H|].
  - intros sim0 _ He Hi _ _. rewrite He, Hi. unfold incidents_ok.
    repeat split; try constructor; intros [].
  - intros k s s' _ Ht HR Hrun.
    apply (run_tick_incidents set_iter rng_choice rng_uniform k s s' Ht HR Hrun).
  - intros k s t lines HR. exact HR.
  - split; [exact Hs|]. split; [|exact Hp].
    intro t. rewrite Hiff. unfold failure_ticks. rewrite in_map_iff. split.
    + intros [e [He Hin]]. apply filter_In in Hin. destruct Hin as [Hin Hf].
      destruct e as [t' n o w|t' n h]; [discriminate|].
      cbn [event_tick] in He. subst t'. eauto.
    + intros [n [h Hin]]. exists (Failure t n h). split; [reflexivity|].
      apply filter_In. split; [exact Hin | reflexivity].
Qed.

Lemma one_incident_per_failing_tick_witness :
  exists sim,
    simulate iter_insertion (script_seed chain3_script) script_choice
      script_uniform chain3_data one_tick_config = Ok sim
    /\ map inc_tick (incident_log sim) = [1%Z]
    /\ StronglySorted Z.lt (map inc_tick (incident_log sim))
    /\ (forall t, In t (map inc_tick (incident_log sim))
                  <-> exists n h, In (Failure t n h) (events sim))
    /\ Forall (fun i => In (inc_priority i) (inc_roots i)) (incident_log sim).
Proof.
  eexists. split; [vm_compute; reflexivity|]. split; [reflexivity|].
  apply (one_incident_per_failing_tick iter_insertion ScriptRng
           (script_seed chain3_script) script_choice script_uniform
           chain3_data one_tick_config).
  vm_compute. reflexivity.
Defined.

(** ** Building the graph always returns *)

Lemma dict_set_length {V : Type} (k : string) (v v' : V) (d : list (string * V)) :
  dict_get k d = Some v -> List.length (dict_set k v' d) = List.length d.
Proof.
  unfold dict_get. induction d as [|[k0 v0] rest IH]; simpl; [discriminate|].
  destruct (String.eqb k0 k); simpl; [reflexivity|].
  intro H. rewrite (IH H). reflexivity.
Qed.

Lemma positive_degrees_set (k : string) (v v' : Z) (deg : list (string * Z)) :
  dict_get k deg = Some v ->
  (positive_degrees (dict_set k v' deg) + (if (0 <? v)%Z then 1 else 0)
   = positive_degrees deg + (if (0 <? v')%Z then 1 else 0))%nat.
Proof.
  unfold dict_get, positive_degrees.
  induction deg as [|[k0 v0] rest IH]; simpl; [discriminate|].
  destruct (String.eqb k0 k); simpl.
  - intro H. injection H as ->.
    destruct (0 <? v)%Z, (0 <? v')%Z; simpl; lia.
  - intro H. specialize (IH H). destruct (0 <? v0)%Z; simpl; lia.
Qed.

Lemma fold_left_invariant {A B : Type} (f : A -> B -> A) (I : A -> Prop)
    (l : list B) (a : A) :
  I a -> (forall a b, I a -> I (f a b)) -> I (fold_left f l a).
Proof.
  intros Ha Hf. revert a Ha. induction l as [|b l IH]; intros a Ha; simpl.
  - exact Ha.
  - apply IH. apply Hf. exact Ha.
Qed.

Section KahnReturns.

Variable set_iter : PySet -> list string.
Variable ra : list (string * PySet).

(** The inner loop of the queue loop keeps the number of queued names plus
    the number of positive in-degrees. *)
Lemma kahn_visits_potential (l : list string) (deg : list (string * Z))
    (queue : list string) :
  let '(deg', queue') :=
    fold_left
      (fun (acc : list (string * Z) * list string) v_name =>
         let '(deg, queue) := acc in
         let deg1 := in_degree_add v_name (-1)%Z deg in
         match dict_get v_name deg1 with
         | Some 0%Z => (deg1, queue ++ [v_name])
         | _ => (deg1, queue)
         end) l (deg, queue) in
  (List.length queue' + positive_degrees deg'
   = List.length queue + positive_degrees deg)%nat.
Proof.
  apply (fold_left_invariant _
           (fun acc : list (string * Z) * list string =>
              let '(deg', queue') := acc in
              (List.length queue' + positive_degrees deg'
               = List.length queue + positive_degrees deg)%nat));
    [reflexivity|].
  intros [deg0 queue0] v H0. cbv zeta. unfold in_degree_add.
  destruct (dict_get v deg0) as [d|] eqn:Ed; [|rewrite Ed; exact H0].
  rewrite dict_get_set_same.
  pose proof (positive_degrees_set v d (d + -1) deg0 Ed) as Hp.
  destruct (d + -1)%Z as [|p|p] eqn:Ez.
  - rewrite length_app. cbn [List.length].
    assert (Hd : (0 <? d)%Z = true) by (apply Z.ltb_lt; lia).
    rewrite Hd in Hp. cbn in Hp. lia.
  - assert (Hd : (0 <? d)%Z = true) by (apply Z.ltb_lt; lia).
    rewrite Hd in Hp. cbn in Hp. lia.
  - assert (Hd : (0 <? d)%Z = false) by (apply Z.ltb_ge; lia).
    rewrite Hd in Hp. cbn in Hp. lia.
Qed.

Lemma kahn_loop_returns (fuel : nat) :
  forall (deg : list (string * Z)) (queue sorted_order : list string),
  (List.length queue + positive_degrees deg <= fuel)%nat ->
  exists order, kahn_loop set_iter fuel ra deg queue sorted_order = Ok order.
Proof.
  induction fuel as [|fuel IH]; intros deg queue sorted_order Hle.
  - destruct queue as [|u rest]; [simpl; eauto | simpl in Hle; lia].
  - destruct queue as [|u rest]; [simpl; eauto|]. cbn [kahn_loop].
    pose proof (kahn_visits_potential (rev_adj_get set_iter u ra) deg rest) as Hp.
    destruct (fold_left _ (rev_adj_get set_iter u ra) (deg, rest))
      as [deg' queue'].
    apply IH. cbn [List.length] in Hle. lia.
Qed.

End KahnReturns.

Lemma in_degree_add_length (k : string) (delta : Z) (deg : list (string * Z)) :
  List.length (in_degree_add k delta deg) = List.length deg.
Proof.
  unfold in_degree_add. destruct (dict_get k deg) as [v|] eqn:E; [|reflexivity].
  apply (dict_set_length k v). exact E.
Qed.

Lemma zero_and_positive_degrees (deg : list (string * Z)) :
  (List.length (map fst (filter (fun kv => Z.eqb (snd kv) 0) deg))
   + positive_degrees deg <= List.length deg)%nat.
Proof.
  unfold positive_degrees. rewrite length_map.
  induction deg as [|[k v] rest IH]; simpl; [lia|].
  destruct (Z.eqb_spec v 0) as [->|Hne]; simpl; [lia|].
  destruct (0 <? v)%Z; simpl; lia.
Qed.

Section CycleSearchReturns.

Variable set_iter : PySet -> list string.
Variable svcs : Services.

Lemma unvisited_mono (v v' : PySet) :
  (forall x, In x v -> In x v') ->
  (unvisited svcs v' <= unvisited svcs v)%nat.
Proof.
  intro Hsub. unfold unvisited.
  induction (names svcs) as [|n l IH]; simpl; [lia|].
  destruct (set_mem n v) eqn:E.
  - apply set_mem_true in E. apply Hsub in E. apply set_mem_true in E.
    rewrite E. simpl. exact IH.
  - destruct (set_mem n v'); simpl; lia.
Qed.

Lemma unvisited_add (n : string) (v : PySet) :
  In n (names svcs) -> set_mem n v = false ->
  (S (unvisited svcs (set_add n v)) <= unvisited svcs v)%nat.
Proof.
  intros Hin Hn. unfold unvisited.
  induction (names svcs) as [|m l IH]; [destruct Hin|]. simpl.
  assert (Hmono : (List.length (filter (fun x => negb (set_mem x (set_add n v))) l)
                   <= List.length (filter (fun x => negb (set_mem x v)) l))%nat).
  { clear. induction l as [|x l IH]; simpl; [lia|].
    destruct (set_mem x v) eqn:E.
    - assert (E' : set_mem x (set_add n v) = true).
      { apply set_mem_true. apply set_add_In. right.
        apply set_mem_true. exact E. }
      rewrite E'. simpl. exact IH.
    - destruct (set_mem x (set_add n v)); simpl; lia. }
  destruct Hin as [->|Hin].
  - rewrite Hn.
    assert (E' : set_mem n (set_add n v) = true).
    { apply set_mem_true. apply set_add_In. left. reflexivity. }
    rewrite E'. simpl. lia.
  - specialize (IH Hin). destruct (set_mem m v) eqn:E.
    + assert (E' : set_mem m (set_add n v) = true).
      { apply set_mem_true. apply set_add_In. right.
        apply set_mem_true. exact E. }
      rewrite E'. simpl. exact IH.
    + destruct (set_mem m (set_add n v)); simpl; lia.
Qed.

(** The cycle search returns: each call marks a service that was not visited
    yet, so the nesting is bounded by the number of unvisited services. *)
Lemma find_cycle_util_returns (fuel : nat) :
  forall (node : string) (visited : PySet) (stack : list string)
         (cyc : list (list string)),
  In node (names svcs) -> set_mem node visited = false ->
  (unvisited svcs visited <= fuel)%nat ->
  exists visited' stack' cyc',
    find_cycle_util set_iter fuel svcs node (visited, stack, cyc)
    = Ok (visited', stack', cyc')
    /\ forall x, In x visited -> In x visited'.
Proof.
  induction fuel as [|fuel IH]; intros node visited stack cyc Hin Hn Hle.
  - pose proof (unvisited_add node visited Hin Hn). lia.
  - cbn [find_cycle_util].
    pose proof (unvisited_add node visited Hin Hn) as Hadd.
    set (adj_node := match services_get node svcs with
                     | Some s => set_iter (depends_on s)
                     | None => []
                     end).
    assert (Hloop : forall l v0 s0 c0,
              (unvisited svcs v0 <= fuel)%nat ->
              exists v1 s1 c1,
                foldM
                  (fun (st : CycleState) neighbor =>
                     let '(visited, stack, _) := st in
                     if negb (services_mem neighbor svcs) then Ok st
                     else if existsb (String.eqb neighbor) stack
                          then Ok (record_cycle neighbor st)
                     else if negb (set_mem neighbor visited)
                          then find_cycle_util set_iter fuel svcs neighbor st
                     else Ok st)
                  l (v0, s0, c0) = Ok (v1, s1, c1)
                /\ forall x, In x v0 -> In x v1).
    { induction l as [|nb l IHl]; intros v0 s0 c0 Hv0; cbn [foldM].
      - exists v0, s0, c0. auto.
      - destruct (services_mem nb svcs) eqn:Em; cbn [negb].
        2:{ cbn [bind]. apply IHl. exact Hv0. }
        destruct (existsb (String.eqb nb) s0) eqn:Es.
        { unfold record_cycle.
          destruct (existsb _ (map sorted_strings c0)); cbn [bind];
            apply IHl; exact Hv0. }
        destruct (set_mem nb v0) eqn:Ev; cbn [negb].
        2:{ apply services_mem_true in Em.
            destruct (IH nb v0 s0 c0 Em Ev Hv0) as [v1 [s1 [c1 [Hr Hs]]]].
            rewrite Hr. cbn [bind].
            destruct (IHl v1 s1 c1) as [v2 [s2 [c2 [Hr2 Hs2]]]].
            { pose proof (unvisited_mono v0 v1 Hs). lia. }
            exists v2, s2, c2. split; [exact Hr2 | auto]. }
        cbn [bind]. apply IHl. exact Hv0. }
    destruct (Hloop adj_node (set_add node visited) (stack ++ [node]) cyc)
      as [v1 [s1 [c1 [Hr Hs]]]]; [lia|].
    rewrite Hr. cbn [bind]. exists v1, (removelast s1), c1.
    split; [reflexivity|]. intros x Hx. apply Hs. apply set_add_In. auto.
Qed.

End CycleSearchReturns.

(** X11.  Building the graph always returns: the queue loop of the
    topological sort and the cycle search that follows it when the sort is
    incomplete both terminate, whatever the topology (cycles, names given
    twice, dependencies that are not services). *)
Theorem ServiceGraph_init_returns (set_iter : PySet -> list string)
    (data : list ServiceData) :
  exists g,
    ServiceGraph_init set_iter data = Ok g
    /\ services g = load_services data
    /\ rev_adj g = build_reverse_adjacency set_iter (load_services data).
Proof.
  unfold ServiceGraph_init, topological_sort.
  set (svcs := load_services data).
  set (ra := build_reverse_adjacency set_iter svcs).
  set (in_degree := fold_left _ svcs (map (fun s => (name s, 0%Z)) svcs)).
  assert (Hlen : List.length in_degree = List.length svcs).
  { unfold in_degree.
    apply (fold_left_invariant _
             (fun deg : list (string * Z) => List.length deg = List.length svcs));
      [apply length_map|].
    intros deg service Hd.
    apply (fold_left_invariant _
             (fun deg : list (string * Z) => List.length deg = List.length svcs));
      [exact Hd|].
    intros deg0 dep Hd0. destruct (dict_get dep deg0); [|exact Hd0].
    rewrite in_degree_add_length. exact Hd0. }
  destruct (kahn_loop_returns set_iter ra (S (List.length svcs)) in_degree
              (map fst (filter (fun kv => Z.eqb (snd kv) 0) in_degree)) [])
    as [order Ho].
  { pose proof (zero_and_positive_degrees in_degree). lia. }
  rewrite Ho. cbn [bind].
  destruct (negb (Nat.eqb (List.length order) (List.length svcs))).
  2:{ cbn [bind]. eexists. split; [reflexivity|]. split; reflexivity. }
  assert (Hsearch : forall l v0 s0 c0, incl l (names svcs) ->
            exists v1 s1 c1,
              foldM
                (fun (st : CycleState) node =>
                   let '(visited, _, _) := st in
                   if negb (set_mem node visited)
                   then find_cycle_util set_iter (S (List.length svcs)) svcs node st
                   else Ok st)
                l (v0, s0, c0) = Ok (v1, s1, c1)).
  { induction l as [|n l IHl]; intros v0 s0 c0 Hl; cbn [foldM].
    - eauto.
    - destruct (set_mem n v0) eqn:Ev; cbn [negb].
      + cbn [bind]. apply IHl. intros x Hx. apply Hl. right. exact Hx.
      + destruct (find_cycle_util_returns set_iter svcs (S (List.length svcs))
                    n v0 s0 c0) as [v1 [s1 [c1 [Hr _]]]].
        * apply Hl. left. reflexivity.
        * exact Ev.
        * unfold unvisited.
          pose proof (filter_length_le (fun n => negb (set_mem n v0))
                        (names svcs)) as Hf.
          unfold names in *. rewrite length_map in Hf. lia.
        * rewrite Hr. cbn [bind]. apply IHl.
          intros x Hx. apply Hl. right. exact Hx. }
  destruct (Hsearch (names svcs) [] [] []) as [v1 [s1 [c1 Hr]]];
    [intros x Hx; exact Hx|].
  rewrite Hr. cbn [bind]. eexists. split; [reflexivity|]. split; reflexivity.
Qed.

(** ** When a run returns *)

Lemma load_services_nonempty (data : list ServiceData) :
  data <> [] -> load_services data <> [].
Proof.
  destruct data as [|d rest]; [contradiction|]. intros _.
  unfold load_services. cbn [fold_left].
  apply (fold_left_invariant _ (fun svcs : Services => svcs <> []));
    [discriminate|].
  intros svcs d0 _. destruct svcs as [|s l]; simpl; [discriminate|].
  destruct (String.eqb (name s) (sd_name d0)); discriminate.
Qed.

(** *** The depth of the cycle search *)

Section RecursionDepth.

Variable set_iter : PySet -> list string.
Variable svcs : Services.

(** A search that returns with room for [fuel] nested calls returns the same
    with more room. *)
Lemma find_cycle_util_more_fuel (fuel : nat) :
  forall (fuel' : nat) (node : string) (st r : CycleState),
  (fuel <= fuel')%nat ->
  find_cycle_util set_iter fuel svcs node st = Ok r ->
  find_cycle_util set_iter fuel' svcs node st = Ok r.
Proof.
  induction fuel as [|fuel IH]; intros fuel' node st r Hle H;
    [discriminate H|].
  destruct fuel' as [|fuel']; [lia|].
  destruct st as [[visited stack] cyc]. cbn [find_cycle_util] in *.
  set (adj_node := match services_get node svcs with
                   | Some s => set_iter (depends_on s)
                   | None => []
                   end) in *.
  assert (Hloop : forall l st0 st1,
            foldM
              (fun (st : CycleState) neighbor =>
                 let '(visited, stack, _) := st in
                 if negb (services_mem neighbor svcs) then Ok st
                 else if existsb (String.eqb neighbor) stack
                      then Ok (record_cycle neighbor st)
                 else if negb (set_mem neighbor visited)
                      then find_cycle_util set_iter fuel svcs neighbor st
                 else Ok st)
              l st0 = Ok st1 ->
            foldM
              (fun (st : CycleState) neighbor =>
                 let '(visited, stack, _) := st in
                 if negb (services_mem neighbor svcs) then Ok st
                 else if existsb (String.eqb neighbor) stack
                      then Ok (record_cycle neighbor st)
                 else if negb (set_mem neighbor visited)
                      then find_cycle_util set_iter fuel' svcs neighbor st
                 else Ok st)
              l st0 = Ok st1).
  { induction l as [|nb l IHl]; intros st0 st1 Hf; cbn [foldM] in *;
      [exact Hf|].
    destruct st0 as [[v0 s0] c0].
    destruct (negb (services_mem nb svcs)).
    { cbn [bind] in *. apply IHl. exact Hf. }
    destruct (existsb (String.eqb nb) s0).
    { cbn [bind] in *. apply IHl. exact Hf. }
    destruct (negb (set_mem nb v0)).
    2:{ cbn [bind] in *. apply IHl. exact Hf. }
    destruct (find_cycle_util set_iter fuel svcs nb (v0, s0, c0))
      as [r0|] eqn:E0; [|discriminate Hf].
    rewrite (IH fuel' nb (v0, s0, c0) r0 ltac:(lia) E0).
    cbn [bind] in *. apply IHl. exact Hf. }
  match type of H with
  | bind ?m _ = _ => destruct m as [st2|] eqn:E2; [|discriminate H]
  end.
  rewrite (Hloop _ _ _ E2). exact H.
Qed.

(** The search never nests deeper than there are services: with room for as
    many nested calls it returns, and what it returns does not depend on the
    room that is left over. *)
Lemma find_cycle_util_depth (f1 f2 : nat) (node : string) (visited : PySet)
    (stack : list string) (cyc : list (list string)) :
  In node (names svcs) -> set_mem node visited = false ->
  (List.length svcs <= f1)%nat -> (List.length svcs <= f2)%nat ->
  exists r,
    find_cycle_util set_iter f1 svcs node (visited, stack, cyc) = Ok r
    /\ find_cycle_util set_iter f2 svcs node (visited, stack, cyc) = Ok r.
Proof.
  intros Hin Hv H1 H2.
  destruct (find_cycle_util_returns set_iter svcs (List.length svcs)
              node visited stack cyc Hin Hv) as [v1 [s1 [c1 [Hr _]]]].
  { unfold unvisited.
    pose proof (filter_length_le (fun n => negb (set_mem n visited))
                  (names svcs)) as Hf.
    unfold names in *. rewrite length_map in Hf. exact Hf. }
  exists (v1, s1, c1).
  split.
  - apply (find_cycle_util_more_fuel _ f1 _ _ _ H1 Hr).
  - apply (find_cycle_util_more_fuel _ f2 _ _ _ H2 Hr).
Qed.

Lemma cycle_search_within (limit : nat) (l : list string) :
  (List.length svcs <= limit)%nat -> incl l (names svcs) ->
  forall st : CycleState,
  foldM
    (fun (st : CycleState) node =>
       let '(visited, _, _) := st in
       if negb (set_mem node visited)
       then recursion_limited (find_cycle_util set_iter limit svcs node st)
       else Ok st)
    l st
  = foldM
      (fun (st : CycleState) node =>
         let '(visited, _, _) := st in
         if negb (set_mem node visited)
         then find_cycle_util set_iter (S (List.length svcs)) svcs node st
         else Ok st)
      l st
  /\ exists st',
       foldM
         (fun (st : CycleState) node =>
            let '(visited, _, _) := st in
            if negb (set_mem node visited)
            then find_cycle_util set_iter (S (List.length svcs)) svcs node st
            else Ok st)
         l st = Ok st'.
Proof.
  intro Hlim. induction l as [|n l IHl]; intros Hl st; cbn [foldM].
  - split; [reflexivity | eauto].
  - assert (Hl' : incl l (names svcs)).
    { intros x Hx. apply Hl. right. exact Hx. }
    destruct st as [[v0 s0] c0].
    destruct (set_mem n v0) eqn:Ev; cbn [negb].
    + cbn [bind]. apply (IHl Hl').
    + destruct (find_cycle_util_depth limit (S (List.length svcs)) n v0 s0 c0)
        as [r [Hr1 Hr2]]; [apply Hl; left; reflexivity|exact Ev|exact Hlim|lia|].
      rewrite Hr1, Hr2. cbn [recursion_limited bind]. apply (IHl Hl').
Qed.

Lemma topological_sort_within_agrees (limit : nat)
    (ra : list (string * PySet)) :
  (List.length svcs <= limit)%nat ->
  topological_sort_within set_iter limit svcs ra
  = topological_sort set_iter svcs ra
  /\ exists r, topological_sort set_iter svcs ra = Ok r.
Proof.
  intro Hlim. unfold topological_sort_within, topological_sort.
  set (in_degree := fold_left _ svcs (map (fun s => (name s, 0%Z)) svcs)).
  assert (Hlen : List.length in_degree = List.length svcs).
  { unfold in_degree.
    apply (fold_left_invariant _
             (fun deg : list (string * Z) => List.length deg = List.length svcs));
      [apply length_map|].
    intros deg service Hd.
    apply (fold_left_invariant _
             (fun deg : list (string * Z) => List.length deg = List.length svcs));
      [exact Hd|].
    intros deg0 dep Hd0. destruct (dict_get dep deg0); [|exact Hd0].
    rewrite in_degree_add_length. exact Hd0. }
  destruct (kahn_loop_returns set_iter ra (S (List.length svcs)) in_degree
              (map fst (filter (fun kv => Z.eqb (snd kv) 0) in_degree)) [])
    as [order Ho].
  { pose proof (zero_and_positive_degrees in_degree). lia. }
  rewrite Ho. cbn [bind].
  destruct (negb (Nat.eqb (List.length order) (List.length svcs)));
    [|split; [reflexivity | eauto]].
  destruct (cycle_search_within limit (names svcs) Hlim (fun x Hx => Hx)
              (([], [], []) : CycleState)) as [Heq [st' Hst']].
  rewrite Heq, Hst'. cbn [bind]. split; [reflexivity|].
  destruct st' as [[v1 s1] c1]. eauto.
Qed.

End RecursionDepth.

Lemma ServiceGraph_init_within_agrees (set_iter : PySet -> list string)
    (limit : nat) (data : list ServiceData) :
  (List.length (load_services data) <= limit)%nat ->
  ServiceGraph_init_within set_iter limit data = ServiceGraph_init set_iter data
  /\ exists g, ServiceGraph_init set_iter data = Ok g.
Proof.
  intro Hlim. unfold ServiceGraph_init_within, ServiceGraph_init.
  destruct (topological_sort_within_agrees set_iter (load_services data) limit
              (build_reverse_adjacency set_iter (load_services data)) Hlim)
    as [Heq [[order cyc] Hr]].
  rewrite Heq, Hr. cbn [bind]. split; [reflexivity | eauto].
Qed.

(** The limit is real: the cycle A <-> B needs two nested calls. *)
Lemma cycle_search_exceeds_limit :
  ServiceGraph_init_within iter_insertion 1 cycle_data = Raise RecursionError
  /\ exists g, ServiceGraph_init_within iter_insertion 2 cycle_data = Ok g
               /\ cycles g = [["A"; "B"; "A"]].
Proof.
  split; [vm_compute; reflexivity|].
  eexists. split; [vm_compute; reflexivity | reflexivity].
Qed.

Section RunReturns.

Variable set_iter : PySet -> list string.
Hypothesis set_iter_In : forall (s : PySet) (x : string), In x (set_iter s) -> In x s.
Variable Rng : Type.
Variable rng_seed : Z -> Rng.
Variable rng_choice : Rng -> nat -> nat * Rng.
Variable rng_uniform : Rng -> Q -> Q -> Q * Rng.
Variable data : list ServiceData.
Variable cfg : Config.
Hypothesis topology_nonempty : data <> [].
Hypothesis heal_to_given : cooldown cfg <> None -> heal_to cfg <> None.

Lemma run_tick_returns (sim : Simulator Rng) :
  run_state set_iter data cfg sim ->
  exists sim', run_tick set_iter rng_choice rng_uniform sim = Ok sim'.
Proof.
  intro Hst.
  destruct (run_state_names set_iter Rng data cfg sim Hst) as [Hn _].
  destruct Hst as [Hc [_ Hra]].
  pose proof (build_reverse_adjacency_wf set_iter set_iter_In
                (load_services data)) as Hwf.
  destruct (tick_glitch_frame Rng rng_choice rng_uniform sim)
    as [Hgc [_ [Hgr [Hgn _]]]].
  unfold run_tick, tick_recovery.
  destruct (handle_recovery_returns set_iter
              (config (tick_glitch rng_choice rng_uniform sim))
              (rev_adj (graph (tick_glitch rng_choice rng_uniform sim)))
              (tick (tick_glitch rng_choice rng_uniform sim))
              (services (graph (tick_glitch rng_choice rng_uniform sim))))
    as [svcs3 [lg [Hh Hn3]]].
  - rewrite Hgc, Hc. exact heal_to_given.
  - rewrite Hgr, Hgn, Hra, Hn. exact Hwf.
  - rewrite Hh. cbn [bind].
    apply tick_classify_returns.
    + cbn [tick_propagate graph rev_adj services with_services config].
      rewrite names_propagate_health, Hn3, Hgr, Hgn, Hra, Hn. exact Hwf.
    + cbn [tick_propagate graph services with_services config].
      intro He.
      assert (Hnn : names (propagate_health set_iter
                             (config (tick_glitch rng_choice rng_uniform sim))
                             svcs3) = [])
        by (rewrite He; reflexivity).
      rewrite names_propagate_health, Hn3, Hgn, Hn in Hnn.
      apply (load_services_nonempty data topology_nonempty).
      destruct (load_services data); [reflexivity | discriminate Hnn].
Qed.

Lemma run_ticks_returns (n : nat) :
  forall (t : Z) (sim : Simulator Rng),
  run_state set_iter data cfg sim ->
  exists sim', run_ticks set_iter rng_choice rng_uniform n t sim = Ok sim'.
Proof.
  induction n as [|n IH]; intros t sim Hst; cbn [run_ticks]; [eauto|].
  set (sim1 := add_log [LogTick t] (set_tick t sim)).
  assert (Hst1 : run_state set_iter data cfg sim1) by exact Hst.
  destruct (run_tick_returns sim1 Hst1) as [sim2 H2]. rewrite H2. cbn [bind].
  apply IH.
  apply (run_tick_state set_iter Rng rng_choice rng_uniform data cfg
           sim1 sim2 Hst1 H2).
Qed.

(** X12.  A run on a non-empty topology returns (no exception), provided
    [heal_to] is configured whenever [cooldown] is and the interpreter has
    room for as many nested calls of [find_cycle_util] as there are services:
    the graph is built, the cycle search never nests deeper than there are
    services, every tick goes through its glitch, recovery, propagation and
    classification phases, and the walks of the recovery ripple and of the
    blast radius terminate.  The run is then the one computed without a
    recursion limit. *)
Theorem run_returns (limit : nat) :
  (List.length (load_services data) <= limit)%nat ->
  exists sim,
    simulate_within set_iter rng_seed rng_choice rng_uniform limit data cfg
    = Ok sim
    /\ simulate set_iter rng_seed rng_choice rng_uniform data cfg = Ok sim.
Proof.
  intro Hlim.
  destruct (ServiceGraph_init_within_agrees set_iter limit data Hlim)
    as [Hsame [g Hg]].
  unfold simulate_within, simulate. rewrite Hsame, Hg. cbn [bind].
  destruct (ServiceGraph_init_services set_iter data g Hg) as [Hs Hr].
  assert (Hrun : exists sim,
            run set_iter rng_choice rng_uniform (Simulator_init rng_seed g cfg)
            = Ok sim).
  { unfold run.
    destruct (match sorted_services (graph (Simulator_init rng_seed g cfg)) with
              | Some (_ :: _) => ([], graph (Simulator_init rng_seed g cfg))
              | _ => (map LogWarnCycle (cycles (graph (Simulator_init rng_seed g cfg))),
                      {| services := services (graph (Simulator_init rng_seed g cfg));
                         rev_adj := rev_adj (graph (Simulator_init rng_seed g cfg));
                         cycles := cycles (graph (Simulator_init rng_seed g cfg));
                         sorted_services :=
                           Some (names (services
                                          (graph (Simulator_init rng_seed g cfg)))) |})
              end) as [warns g'] eqn:Eg.
    assert (Hg' : services g' = services g /\ rev_adj g' = rev_adj g).
    { cbn [Simulator_init graph] in Eg.
      destruct (sorted_services g) as [[|o os]|]; injection Eg as _ <-;
        split; reflexivity. }
    destruct Hg' as [Hs' Hr'].
    match goal with
    | |- exists sim, bind (run_ticks _ _ _ ?n ?t ?s0) _ = _ =>
        destruct (run_ticks_returns n t s0) as [simT HT]
    end.
    - unfold run_state. cbn [graph config Simulator_init].
      split; [reflexivity|]. split; congruence.
    - rewrite HT. cbn [bind]. eauto. }
  destruct Hrun as [sim Hsim]. exists sim. split; exact Hsim.
Qed.

End RunReturns.

Lemma run_returns_witness :
  exists sim,
    simulate_within iter_insertion (script_seed chain3_script) script_choice
      script_uniform 3 chain3_data cooldown_config = Ok sim
    /\ simulate iter_insertion (script_seed chain3_script) script_choice
         script_uniform chain3_data cooldown_config = Ok sim.
Proof.
  apply (run_returns iter_insertion (fun s x H => H) ScriptRng
           (script_seed chain3_script) script_choice script_uniform
           chain3_data cooldown_config).
  - discriminate.
  - discriminate.
  - vm_compute. lia.
Defined.

(** ** The topological sort *)

Lemma dict_get_mem {V : Type} (k : string) (d : list (string * V)) :
  set_mem k (map fst d)
  = match dict_get k d with Some _ => true | None => false end.
Proof.
  unfold set_mem, dict_get. induction d as [|[k0 v0] rest IH]; simpl;
    [reflexivity|].
  rewrite (String.eqb_sym k k0). destruct (String.eqb k0 k); simpl;
    [reflexivity | exact IH].
Qed.

Lemma dict_set_keys_present {V : Type} (k : string) (v v' : V)
    (d : list (string * V)) :
  dict_get k d = Some v -> map fst (dict_set k v' d) = map fst d.
Proof.
  intro H. rewrite dict_keys_set. unfold set_add.
  rewrite dict_get_mem, H. reflexivity.
Qed.

Lemma in_degree_add_get (k n : string) (delta : Z) (deg : list (string * Z)) :
  dict_get n (in_degree_add k delta deg)
  = if String.eqb k n then option_map (fun v => (v + delta)%Z) (dict_get n deg)
    else dict_get n deg.
Proof.
  unfold in_degree_add. destruct (String.eqb k n) eqn:E.
  - apply String.eqb_eq in E. subst n.
    destruct (dict_get k deg) as [v|] eqn:Ek; simpl.
    + apply dict_get_set_same.
    + exact Ek.
  - apply String.eqb_neq in E.
    destruct (dict_get k deg) as [v|]; [|reflexivity].
    apply dict_get_set_other. congruence.
Qed.

Lemma in_degree_add_keys (k : string) (delta : Z) (deg : list (string * Z)) :
  map fst (in_degree_add k delta deg) = map fst deg.
Proof.
  unfold in_degree_add. destruct (dict_get k deg) as [v|] eqn:E; [|reflexivity].
  apply (dict_set_keys_present k v). exact E.
Qed.

(** The inner loop of the in-degree count, for the service [nm]. *)
Lemma in_degree_inner (nm : string) (l : list string) :
  forall (deg : list (string * Z)) (v : Z),
  dict_get nm deg = Some v ->
  let deg' :=
    fold_left
      (fun deg dep =>
         match dict_get dep deg with
         | Some _ => in_degree_add nm 1%Z deg
         | None => deg
         end) l deg in
  map fst deg' = map fst deg
  /\ (forall n, n <> nm -> dict_get n deg' = dict_get n deg)
  /\ dict_get nm deg'
     = Some (v + Z.of_nat
                   (List.length
                      (filter (fun d => set_mem d (map fst deg)) l)))%Z.
Proof.
  induction l as [|dep l IH]; intros deg v Hv; cbn [fold_left filter].
  - split; [reflexivity|]. split; [reflexivity|].
    rewrite Hv. f_equal. simpl. lia.
  - rewrite dict_get_mem. destruct (dict_get dep deg) as [w|] eqn:Ed.
    + assert (Hv1 : dict_get nm (in_degree_add nm 1 deg) = Some (v + 1)%Z).
      { rewrite in_degree_add_get, String.eqb_refl, Hv. reflexivity. }
      destruct (IH (in_degree_add nm 1 deg) (v + 1)%Z Hv1) as [Hk [Ho Hn]].
      rewrite in_degree_add_keys in Hk, Hn.
      split; [exact Hk|]. split.
      * intros n Hne. rewrite (Ho n Hne), in_degree_add_get.
        apply not_eq_sym in Hne. apply String.eqb_neq in Hne.
        rewrite Hne. reflexivity.
      * rewrite Hn. f_equal. cbn [List.length]. lia.
    + apply (IH deg v Hv).
Qed.

Lemma services_mem_names (d : string) (svcs : Services) :
  services_mem d svcs = set_mem d (names svcs).
Proof.
  destruct (services_mem d svcs) eqn:E1, (set_mem d (names svcs)) eqn:E2;
    try reflexivity.
  - apply services_mem_true, set_mem_true in E1. congruence.
  - apply set_mem_true, services_mem_true in E2. congruence.
Qed.

Section InDegree.

Variable set_iter : PySet -> list string.
Variable svcs : Services.
Hypothesis names_unique : NoDup (names svcs).

Lemma deps_of_service (s : Service) :
  In s svcs -> deps_of set_iter svcs (name s) = set_iter (depends_on s).
Proof.
  intro Hs. unfold deps_of. rewrite (NoDup_names_get svcs s names_unique Hs).
  reflexivity.
Qed.

Lemma in_degree_outer (todo : list Service) :
  forall deg : list (string * Z),
  (forall s, In s todo -> In s svcs) -> NoDup (names todo) ->
  map fst deg = names svcs ->
  (forall s, In s todo -> dict_get (name s) deg = Some 0%Z) ->
  let deg' :=
    fold_left
      (fun deg service =>
         fold_left
           (fun deg dep =>
              match dict_get dep deg with
              | Some _ => in_degree_add (name service) 1%Z deg
              | None => deg
              end)
           (set_iter (depends_on service)) deg)
      todo deg in
  map fst deg' = names svcs
  /\ (forall s, In s todo ->
        dict_get (name s) deg' = Some (remaining set_iter svcs [] (name s)))
  /\ (forall n, ~ In n (names todo) -> dict_get n deg' = dict_get n deg).
Proof.
  induction todo as [|s todo IH]; intros deg Hin Hnd Hk H0; cbn [fold_left].
  - split; [exact Hk|]. split; [intros s []|reflexivity].
  - inversion Hnd as [|? ? Hns Hnd']; subst.
    destruct (in_degree_inner (name s) (set_iter (depends_on s)) deg 0%Z
                (H0 s (or_introl eq_refl))) as [Hk1 [Ho1 Hn1]].
    set (deg1 := fold_left _ (set_iter (depends_on s)) deg) in *.
    destruct (IH deg1) as [Hk' [Ht' Ho']].
    + intros x Hx. apply Hin. right. exact Hx.
    + exact Hnd'.
    + rewrite Hk1. exact Hk.
    + intros x Hx. rewrite Ho1; [apply H0; right; exact Hx|].
      intro He. apply Hns. rewrite <- He. apply in_map. exact Hx.
    + split; [exact Hk'|]. split.
      * intros x [<-|Hx]; [|apply Ht'; exact Hx].
        rewrite (Ho' (name s) Hns), Hn1. f_equal. unfold remaining.
        rewrite (deps_of_service s (Hin s (or_introl eq_refl))), Hk.
        cbn [Z.add]. f_equal. f_equal. apply filter_ext. intro d.
        rewrite services_mem_names. cbn [set_mem existsb negb].
        rewrite andb_true_r. reflexivity.
      * intros n Hn. rewrite Ho'.
        -- apply Ho1. intro He. apply Hn. left. congruence.
        -- intro Hx. apply Hn. right. exact Hx.
Qed.

Lemma in_degree_table :
  let in_degree :=
    fold_left
      (fun deg service =>
         fold_left
           (fun deg dep =>
              match dict_get dep deg with
              | Some _ => in_degree_add (name service) 1%Z deg
              | None => deg
              end)
           (set_iter (depends_on service)) deg)
      svcs (map (fun s => (name s, 0%Z)) svcs) in
  map fst in_degree = names svcs
  /\ forall n, In n (names svcs) ->
       dict_get n in_degree = Some (remaining set_iter svcs [] n).
Proof.
  destruct (in_degree_outer svcs (map (fun s => (name s, 0%Z)) svcs))
    as [Hk [Ht _]].
  - auto.
  - exact names_unique.
  - rewrite map_map. reflexivity.
  - intros s Hs. unfold dict_get.
    assert (Hgen : forall l, In s l ->
              exists kv, find (fun kv : string * Z => String.eqb (fst kv) (name s))
                           (map (fun s => (name s, 0%Z)) l) = Some kv
                         /\ snd kv = 0%Z).
    { induction l as [|a l IHl]; intros Hl; [destruct Hl|]. cbn [map find fst].
      destruct (String.eqb (name a) (name s)) eqn:E; [eauto|].
      destruct Hl as [->|Hl]; [rewrite String.eqb_refl in E; discriminate|].
      apply IHl. exact Hl. }
    destruct (Hgen svcs Hs) as [kv [-> Hv]]. rewrite Hv. reflexivity.
  - cbv zeta. split; [exact Hk|]. intros n Hn. unfold names in Hn.
    apply in_map_iff in Hn. destruct Hn as [s [<- Hs]]. apply Ht. exact Hs.
Qed.

End InDegree.

(** The inner loop of the queue loop, over the dependents [l] of the node
    just dequeued, when the table holds [rem v] for every dependent [v]. *)
Lemma kahn_visits_spec (rem : string -> Z) (l : list string) :
  NoDup l ->
  forall (deg : list (string * Z)) (queue : list string),
  (forall v, In v l -> dict_get v deg = Some (rem v)) ->
  let '(deg', queue') :=
    fold_left
      (fun (acc : list (string * Z) * list string) v_name =>
         let '(deg, queue) := acc in
         let deg1 := in_degree_add v_name (-1)%Z deg in
         match dict_get v_name deg1 with
         | Some 0%Z => (deg1, queue ++ [v_name])
         | _ => (deg1, queue)
         end) l (deg, queue) in
  queue' = queue ++ filter (fun v => (rem v =? 1)%Z) l
  /\ map fst deg' = map fst deg
  /\ forall n, dict_get n deg'
               = if set_mem n l then Some (rem n - 1)%Z else dict_get n deg.
Proof.
  intro Hnd. induction l as [|v l IH]; intros deg queue Hrem; cbn [fold_left].
  - rewrite app_nil_r. auto.
  - inversion Hnd as [|? ? Hv Hnd']; subst.
    assert (Hgv : dict_get v (in_degree_add v (-1) deg) = Some (rem v + -1)%Z).
    { rewrite in_degree_add_get, String.eqb_refl, (Hrem v (or_introl eq_refl)).
      reflexivity. }
    assert (Hrest : forall w, In w l ->
              dict_get w (in_degree_add v (-1) deg) = Some (rem w)).
    { intros w Hw. rewrite in_degree_add_get.
      destruct (String.eqb v w) eqn:E.
      - apply String.eqb_eq in E. subst w. contradiction.
      - apply Hrem. right. exact Hw. }
    assert (Hfin : forall n,
              (if set_mem n l then Some (rem n - 1)%Z
               else dict_get n (in_degree_add v (-1) deg))
              = (if set_mem n (v :: l) then Some (rem n - 1)%Z
                 else dict_get n deg)).
    { intro n. unfold set_mem at 2. cbn [existsb].
      fold (set_mem n l). rewrite in_degree_add_get, (String.eqb_sym n v).
      destruct (String.eqb v n) eqn:E; cbn [orb].
      - apply String.eqb_eq in E. subst n.
        assert (Hm : set_mem v l = false) by (apply set_mem_false; exact Hv).
        rewrite Hm, (Hrem v (or_introl eq_refl)). reflexivity.
      - reflexivity. }
    cbv zeta. rewrite Hgv. cbn [filter].
    destruct (Z.eqb_spec (rem v) 1) as [H1|H1].
    + replace (rem v + -1)%Z with 0%Z by lia.
      specialize (IH Hnd' (in_degree_add v (-1) deg) (queue ++ [v]) Hrest).
      destruct (fold_left _ l _) as [deg' queue'].
      destruct IH as [Hq [Hk Hg]]. split; [|split].
      * rewrite Hq, <- app_assoc. reflexivity.
      * rewrite Hk. apply in_degree_add_keys.
      * intro n. rewrite Hg. apply Hfin.
    + assert (Hstep :
                match (rem v + -1)%Z with
                | 0%Z => (in_degree_add v (-1) deg, queue ++ [v])
                | _ => (in_degree_add v (-1) deg, queue)
                end = (in_degree_add v (-1) deg, queue)).
      { destruct (rem v + -1)%Z eqn:Ez; [lia | reflexivity | reflexivity]. }
      rewrite Hstep.
      specialize (IH Hnd' (in_degree_add v (-1) deg) queue Hrest).
      destruct (fold_left _ l _) as [deg' queue'].
      destruct IH as [Hq [Hk Hg]]. split; [|split].
      * exact Hq.
      * rewrite Hk. apply in_degree_add_keys.
      * intro n. rewrite Hg. apply Hfin.
Qed.

Lemma set_mem_cons (x y : string) (l : list string) :
  set_mem x (y :: l) = String.eqb x y || set_mem x l.
Proof. reflexivity. Qed.

Lemma set_mem_snoc (x u : string) (l : list string) :
  set_mem x (l ++ [u]) = set_mem x l || String.eqb x u.
Proof.
  rewrite set_mem_app, set_mem_cons. unfold set_mem at 2. cbn [existsb].
  rewrite orb_false_r. reflexivity.
Qed.

(** Counting the dependencies still to come once one more node is sorted. *)
Lemma remaining_count (p : string -> bool) (sorted_order l : list string)
    (u : string) :
  NoDup l -> p u = true -> set_mem u sorted_order = false ->
  (List.length
     (filter (fun d => p d && negb (set_mem d (sorted_order ++ [u]))) l)
   + (if set_mem u l then 1 else 0)
   = List.length (filter (fun d => p d && negb (set_mem d sorted_order)) l))%nat.
Proof.
  intros Hnd Hp Hu. induction l as [|d l IH]; [reflexivity|].
  inversion Hnd as [|? ? Hd Hnd']; subst. specialize (IH Hnd').
  cbn [filter]. rewrite set_mem_cons, set_mem_snoc, (String.eqb_sym u d).
  destruct (String.eqb d u) eqn:E.
  - apply String.eqb_eq in E. subst d.
    assert (Hm : set_mem u l = false) by (apply set_mem_false; exact Hd).
    rewrite Hm in IH. rewrite Hp, Hu. cbn [orb negb andb List.length]. lia.
  - cbn [orb]. rewrite orb_false_r.
    destruct (p d && negb (set_mem d sorted_order)); cbn [List.length]; lia.
Qed.

Lemma dependents_history_NoDup (k : string) (svcs : Services) :
  NoDup (dependents_history k svcs).
Proof.
  unfold dependents_history.
  apply (fold_left_invariant _ (fun acc : PySet => NoDup acc)); [constructor|].
  intros acc s Hacc. destruct (set_mem k (depends_on s)); [|exact Hacc].
  unfold set_add. destruct (set_mem (name s) acc) eqn:E; [exact Hacc|].
  apply NoDup_snoc; [exact Hacc|]. apply set_mem_false. exact E.
Qed.

Lemma app_snoc_split {A : Type} (l1 l2 s : list A) (x u : A) :
  l1 ++ x :: l2 = s ++ [u] ->
  (l2 = [] /\ l1 = s /\ x = u)
  \/ exists l2', l2 = l2' ++ [u] /\ s = l1 ++ x :: l2'.
Proof.
  intro H. destruct (exists_last (l := x :: l2)) as [l' [a Hl]];
    [discriminate|].
  rewrite Hl, app_assoc in H. apply app_inj_tail in H. destruct H as [<- ->].
  destruct l2 as [|y l2].
  - left. destruct l' as [|b l']; simpl in Hl.
    + injection Hl as ->. rewrite app_nil_r. auto.
    + injection Hl as _ Hl. destruct l'; discriminate.
  - right. destruct l' as [|b l']; simpl in Hl; [discriminate|].
    injection Hl as <- Hl. destruct (exists_last (l := y :: l2)) as [m [c Hm]];
      [discriminate|].
    rewrite Hm in Hl. apply app_inj_tail in Hl. destruct Hl as [<- <-].
    exists m. split; [exact Hm | reflexivity].
Qed.

Section Kahn.

Variable set_iter : PySet -> list string.
Hypothesis iter_perm : forall s, Permutation (set_iter s) s.
Variable svcs : Services.
Hypothesis names_unique : NoDup (names svcs).
Hypothesis deps_unique : Forall (fun s => NoDup (depends_on s)) svcs.

Lemma deps_of_NoDup (n : string) : NoDup (deps_of set_iter svcs n).
Proof.
  unfold deps_of. destruct (services_get n svcs) as [s|] eqn:E; [|constructor].
  apply (Permutation_NoDup (Permutation_sym (iter_perm (depends_on s)))).
  rewrite Forall_forall in deps_unique. apply deps_unique.
  apply (services_get_In _ _ _ E).
Qed.

Lemma deps_of_In (n d : string) :
  In d (deps_of set_iter svcs n)
  <-> exists s, services_get n svcs = Some s /\ In d (depends_on s).
Proof.
  unfold deps_of. destruct (services_get n svcs) as [s|].
  - split.
    + intro H. exists s. split; [reflexivity|].
      apply (Permutation_in _ (iter_perm (depends_on s))). exact H.
    + intros [s' [Hs Hd]]. injection Hs as <-.
      apply (Permutation_in _ (Permutation_sym (iter_perm (depends_on s)))).
      exact Hd.
  - split; [intros [] | intros [s [Hs _]]; discriminate].
Qed.

Lemma dependents_NoDup (u : string) :
  NoDup (rev_adj_get set_iter u (build_reverse_adjacency set_iter svcs)).
Proof.
  unfold rev_adj_get. rewrite (build_reverse_adjacency_get set_iter iter_perm).
  destruct (services_mem u svcs); [|constructor].
  pose proof (dependents_history_NoDup u svcs) as Hnd.
  destruct (dependents_history u svcs) as [|a l] eqn:E; [constructor|].
  cbn [nonempty_set].
  apply (Permutation_NoDup (Permutation_sym (iter_perm (a :: l)))). exact Hnd.
Qed.

Lemma dependents_In (u v : string) :
  In v (rev_adj_get set_iter u (build_reverse_adjacency set_iter svcs))
  <-> In u (names svcs) /\ In v (names svcs)
      /\ In u (deps_of set_iter svcs v).
Proof.
  rewrite (build_reverse_adjacency_correct set_iter iter_perm svcs u v).
  rewrite deps_of_In. split.
  - intros [Hu [s [Hs [<- Hd]]]]. split; [exact Hu|].
    split; [apply in_map; exact Hs|]. exists s.
    split; [apply NoDup_names_get; assumption | exact Hd].
  - intros [Hu [_ [s [Hs Hd]]]]. split; [exact Hu|]. exists s.
    split; [apply (services_get_In _ _ _ Hs)|].
    split; [apply (services_get_name _ _ _ Hs) | exact Hd].
Qed.

Lemma remaining_nonneg (sorted_order : list string) (n : string) :
  (0 <= remaining set_iter svcs sorted_order n)%Z.
Proof. unfold remaining. lia. Qed.

Lemma remaining_step (sorted_order : list string) (u n : string) :
  In u (names svcs) -> ~ In u sorted_order -> In n (names svcs) ->
  remaining set_iter svcs (sorted_order ++ [u]) n
  = (remaining set_iter svcs sorted_order n
     - (if set_mem n (rev_adj_get set_iter u
                        (build_reverse_adjacency set_iter svcs))
        then 1 else 0))%Z.
Proof.
  intros Hu Hns Hn. unfold remaining.
  pose proof (remaining_count (fun d => services_mem d svcs) sorted_order
                (deps_of set_iter svcs n) u (deps_of_NoDup n)
                (proj2 (services_mem_true u svcs) Hu)
                (proj2 (set_mem_false u sorted_order) Hns)) as Hc.
  assert (Heq : set_mem n (rev_adj_get set_iter u
                             (build_reverse_adjacency set_iter svcs))
                = set_mem u (deps_of set_iter svcs n)).
  { destruct (set_mem u (deps_of set_iter svcs n)) eqn:E.
    - apply set_mem_true. apply dependents_In. apply set_mem_true in E. auto.
    - apply set_mem_false. apply set_mem_false in E. intro H. apply E.
      apply dependents_In in H. apply H. }
  rewrite Heq. destruct (set_mem u (deps_of set_iter svcs n)); lia.
Qed.

Lemma remaining_zero (sorted_order : list string) (n d : string) :
  remaining set_iter svcs sorted_order n = 0%Z ->
  In d (deps_of set_iter svcs n) -> In d (names svcs) -> In d sorted_order.
Proof.
  unfold remaining. intros H Hd Hn.
  destruct (filter _ (deps_of set_iter svcs n)) as [|x l] eqn:E;
    [|simpl in H; lia].
  destruct (set_mem d sorted_order) eqn:Em; [apply set_mem_true; exact Em|].
  assert (Hin : In d (filter (fun d => services_mem d svcs
                                       && negb (set_mem d sorted_order))
                        (deps_of set_iter svcs n))).
  { apply filter_In. split; [exact Hd|]. rewrite Em.
    apply services_mem_true in Hn. rewrite Hn. reflexivity. }
  rewrite E in Hin. destruct Hin.
Qed.

Lemma remaining_zero_iff (sorted_order : list string) (n : string) :
  remaining set_iter svcs sorted_order n = 0%Z
  <-> forall d, In d (deps_of set_iter svcs n) -> In d (names svcs) ->
                In d sorted_order.
Proof.
  split; [intros H d; apply remaining_zero; exact H|].
  intro H. unfold remaining.
  destruct (filter _ (deps_of set_iter svcs n)) as [|x l] eqn:E;
    [reflexivity|].
  assert (Hin : In x (filter (fun d => services_mem d svcs
                                       && negb (set_mem d sorted_order))
                        (deps_of set_iter svcs n)))
    by (rewrite E; left; reflexivity).
  apply filter_In in Hin. destruct Hin as [Hx Hp].
  apply andb_true_iff in Hp. destruct Hp as [Hm Hs].
  apply services_mem_true in Hm. apply negb_true_iff, set_mem_false in Hs.
  exfalso. apply Hs. apply H; assumption.
Qed.

End Kahn.

Section KahnLoop.

Variable set_iter : PySet -> list string.
Hypothesis iter_perm : forall s, Permutation (set_iter s) s.
Variable svcs : Services.
Hypothesis names_unique : NoDup (names svcs).
Hypothesis deps_unique : Forall (fun s => NoDup (depends_on s)) svcs.

(** One pass of the queue loop keeps the invariant. *)
Lemma kahn_step (deg : list (string * Z)) (u : string)
    (rest sorted_order : list string) :
  kahn_inv set_iter svcs deg (u :: rest) sorted_order ->
  let '(deg', queue') :=
    fold_left
      (fun (acc : list (string * Z) * list string) v_name =>
         let '(deg, queue) := acc in
         let deg1 := in_degree_add v_name (-1)%Z deg in
         match dict_get v_name deg1 with
         | Some 0%Z => (deg1, queue ++ [v_name])
         | _ => (deg1, queue)
         end)
      (rev_adj_get set_iter u (build_reverse_adjacency set_iter svcs))
      (deg, rest) in
  kahn_inv set_iter svcs deg' queue' (sorted_order ++ [u]).
Proof.
  intros [Hk [Hnd [Hincl [Hdeg [Hiff Hfirst]]]]].
  set (l := rev_adj_get set_iter u (build_reverse_adjacency set_iter svcs)).
  set (rem := remaining set_iter svcs sorted_order).
  assert (Hu : In u (names svcs)).
  { apply Hincl. apply in_or_app. right. left. reflexivity. }
  assert (Hus : ~ In u sorted_order).
  { intro H. apply NoDup_remove_2 in Hnd. apply Hnd. apply in_or_app. auto. }
  assert (Hl : forall v, In v l -> In v (names svcs)).
  { intros v Hv. apply (dependents_In set_iter iter_perm svcs names_unique) in Hv.
    apply Hv. }
  assert (Hstep : forall n, In n (names svcs) ->
            remaining set_iter svcs (sorted_order ++ [u]) n
            = (rem n - (if set_mem n l then 1 else 0))%Z).
  { intros n Hn.
    apply (remaining_step set_iter iter_perm svcs names_unique deps_unique);
      assumption. }
  assert (Hpos : forall v, In v l -> (1 <= rem v)%Z).
  { intros v Hv. pose proof (Hstep v (Hl v Hv)) as Hs.
    apply set_mem_true in Hv. rewrite Hv in Hs.
    pose proof (remaining_nonneg set_iter svcs (sorted_order ++ [u]) v). lia. }
  pose proof (kahn_visits_spec rem l
                (dependents_NoDup set_iter iter_perm svcs u) deg rest
                (fun v Hv => Hdeg v (Hl v Hv))) as Hspec.
  destruct (fold_left _ l (deg, rest)) as [deg' queue'].
  destruct Hspec as [Hq [Hk' Hg]]. subst queue'.
  assert (Happ : (sorted_order ++ [u]) ++ rest
                   ++ filter (fun v => (rem v =? 1)%Z) l
                 = (sorted_order ++ u :: rest)
                   ++ filter (fun v => (rem v =? 1)%Z) l).
  { rewrite <- !app_assoc. reflexivity. }
  unfold kahn_inv. rewrite Happ.
  split; [congruence|]. split; [|split; [|split; [|split]]].
  - apply NoDup_app; [exact Hnd | |].
    + apply NoDup_filter.
      apply (dependents_NoDup set_iter iter_perm svcs u).
    + intros x Hx Hx2. apply filter_In in Hx2. destruct Hx2 as [Hxl Hx1].
      apply Z.eqb_eq in Hx1.
      apply (Hiff x (Hl x Hxl)) in Hx. fold rem in Hx. lia.
  - intros x Hx. apply in_app_or in Hx. destruct Hx as [Hx|Hx].
    + apply Hincl. exact Hx.
    + apply filter_In in Hx. apply Hl. apply Hx.
  - intros n Hn. rewrite Hg, (Hstep n Hn).
    destruct (set_mem n l); [reflexivity|]. rewrite (Hdeg n Hn).
    fold rem. f_equal. lia.
  - intros n Hn. rewrite (Hstep n Hn), in_app_iff, (Hiff n Hn), filter_In.
    fold rem. rewrite Z.eqb_eq.
    pose proof (remaining_nonneg set_iter svcs sorted_order n) as H0.
    fold rem in H0.
    destruct (set_mem n l) eqn:Em.
    + apply set_mem_true in Em. pose proof (Hpos n Em) as Hp1. split.
      * intros [H|[_ H]]; lia.
      * intro H. right. split; [exact Em | lia].
    + apply set_mem_false in Em. split.
      * intros [H|[H _]]; [lia | contradiction].
      * intro H. left. lia.
  - intros l1 x l2 s d Hsplit Hs Hd Hdn.
    destruct (app_snoc_split l1 l2 sorted_order x u (eq_sym Hsplit))
      as [[_ [-> ->]]|[l2' [_ ->]]].
    + assert (Hru : rem u = 0%Z).
      { apply (Hiff u Hu). apply in_or_app. right. left. reflexivity. }
      apply (remaining_zero set_iter svcs sorted_order u d Hru); [|exact Hdn].
      apply (deps_of_In set_iter iter_perm svcs). eauto.
    + apply (Hfirst l1 x l2' s d eq_refl Hs Hd Hdn).
Qed.

Lemma kahn_loop_inv (fuel : nat) :
  forall (deg : list (string * Z)) (queue sorted_order order : list string),
  kahn_inv set_iter svcs deg queue sorted_order ->
  kahn_loop set_iter fuel (build_reverse_adjacency set_iter svcs) deg queue
    sorted_order = Ok order ->
  exists deg', kahn_inv set_iter svcs deg' [] order.
Proof.
  induction fuel as [|fuel IH]; intros deg queue sorted_order order Hinv H.
  - destruct queue; [|discriminate]. injection H as <-. eauto.
  - destruct queue as [|u rest]; [injection H as <-; eauto|].
    cbn [kahn_loop] in H.
    pose proof (kahn_step deg u rest sorted_order Hinv) as Hs.
    destruct (fold_left _ _ (deg, rest)) as [deg' queue'].
    apply (IH deg' queue' (sorted_order ++ [u]) order Hs H).
Qed.

End KahnLoop.

(** Keeping some entries of a dict keeps its keys distinct. *)
Lemma dict_keys_filter_NoDup {V : Type} (keep : string * V -> bool)
    (d : list (string * V)) :
  NoDup (map fst d) -> NoDup (map fst (filter keep d)).
Proof.
  intro Hd. induction d as [|[k v] rest IH]; cbn [filter map fst] in *.
  - constructor.
  - apply NoDup_cons_iff in Hd. destruct Hd as [Hk Hrest].
    destruct (keep (k, v)); cbn [map fst]; [|apply IH; exact Hrest].
    apply NoDup_cons_iff. split; [|apply IH; exact Hrest].
    intro Hin. apply Hk. apply in_map_iff in Hin.
    destruct Hin as [kv [Hkv Hin]]. apply filter_In in Hin.
    apply in_map_iff. exists kv. split; [exact Hkv | apply Hin].
Qed.

Lemma dict_get_In_iff {V : Type} (k : string) (v : V) (d : list (string * V)) :
  NoDup (map fst d) -> (In (k, v) d <-> dict_get k d = Some v).
Proof.
  unfold dict_get. induction d as [|[k0 v0] rest IH]; intro Hnd; simpl.
  - split; [intros [] | discriminate].
  - inversion Hnd as [|? ? Hn Hrest]; subst.
    destruct (String.eqb k0 k) eqn:E; simpl.
    + apply String.eqb_eq in E. subst k0. split.
      * intros [H|H]; [congruence|]. exfalso. apply Hn.
        apply (in_map fst) in H. exact H.
      * intro H. left. congruence.
    + apply String.eqb_neq in E. rewrite <- (IH Hrest). split.
      * intros [H|H]; [congruence | exact H].
      * intro H. right. exact H.
Qed.

Lemma set_of_list_NoDup (l : list string) : NoDup (set_of_list l).
Proof.
  unfold set_of_list.
  apply (fold_left_invariant _ (fun s : PySet => NoDup s)); [constructor|].
  intros s x Hs. unfold set_add. destruct (set_mem x s) eqn:E; [exact Hs|].
  apply NoDup_snoc; [exact Hs|]. apply set_mem_false. exact E.
Qed.

Lemma load_services_deps_unique (data : list ServiceData) :
  Forall (fun s => NoDup (depends_on s)) (load_services data).
Proof.
  apply Forall_load_services. intros d _. apply set_of_list_NoDup.
Qed.

Section TopologicalSort.

Variable set_iter : PySet -> list string.
Hypothesis iter_perm : forall s, Permutation (set_iter s) s.
Variable svcs : Services.
Hypothesis names_unique : NoDup (names svcs).
Hypothesis deps_unique : Forall (fun s => NoDup (depends_on s)) svcs.

(** What the queue loop ends on, and what [topological_sort] makes of it. *)
Lemma topological_sort_inv (o : option (list string)) (cyc : list (list string)) :
  topological_sort set_iter svcs (build_reverse_adjacency set_iter svcs)
  = Ok (o, cyc) ->
  exists order deg',
    kahn_inv set_iter svcs deg' [] order
    /\ ((List.length order = List.length svcs /\ o = Some order /\ cyc = [])
        \/ (List.length order <> List.length svcs /\ o = None)).
Proof.
  unfold topological_sort.
  destruct (in_degree_table set_iter svcs names_unique) as [Hk Hdeg].
  set (in_degree := fold_left _ svcs (map (fun s => (name s, 0%Z)) svcs)) in *.
  set (queue := map fst (filter (fun kv => Z.eqb (snd kv) 0) in_degree)).
  assert (Hinv : kahn_inv set_iter svcs in_degree queue []).
  { unfold kahn_inv. cbn [app].
    assert (Hq : forall n, In n queue <-> dict_get n in_degree = Some 0%Z).
    { intro n. unfold queue. rewrite in_map_iff. split.
      - intros [[k v] [Hn Hin]]. cbn [fst] in Hn. subst k.
        apply filter_In in Hin. destruct Hin as [Hin Hv]. cbn [snd] in Hv.
        apply Z.eqb_eq in Hv. subst v.
        apply dict_get_In_iff; [rewrite Hk; exact names_unique | exact Hin].
      - intro Hg. exists (n, 0%Z). split; [reflexivity|].
        apply filter_In. split; [|reflexivity].
        apply dict_get_In_iff; [rewrite Hk; exact names_unique | exact Hg]. }
    split; [exact Hk|]. split; [|split; [|split; [|split]]].
    - unfold queue. apply dict_keys_filter_NoDup. rewrite Hk. exact names_unique.
    - intros n Hn. rewrite <- Hk. unfold queue in Hn.
      apply in_map_iff in Hn. destruct Hn as [kv [<- Hin]].
      apply filter_In in Hin. apply in_map. apply Hin.
    - exact Hdeg.
    - intros n Hn. rewrite Hq, (Hdeg n Hn). split; [congruence|].
      intros ->. reflexivity.
    - intros l1 x l2 s d Hs. destruct l1; discriminate. }
  destruct (kahn_loop set_iter (S (List.length svcs)) _ in_degree queue [])
    as [order|] eqn:Ek; [|discriminate].
  cbn [bind].
  destruct (kahn_loop_inv set_iter iter_perm svcs names_unique deps_unique
              _ _ _ _ _ Hinv Ek) as [deg' Hend].
  destruct (Nat.eqb (List.length order) (List.length svcs)) eqn:El;
    cbn [negb].
  - intro H. injection H as <- <-. apply Nat.eqb_eq in El.
    exists order, deg'. split; [exact Hend|]. left. auto.
  - destruct (foldM _ (names svcs) _) as [[[v s] c]|]; [|discriminate].
    cbn [bind]. intro H. injection H as <- <-. apply Nat.eqb_neq in El.
    exists order, deg'. split; [exact Hend|]. right. auto.
Qed.

Lemma kahn_end_sound (deg' : list (string * Z)) (order : list string) :
  kahn_inv set_iter svcs deg' [] order ->
  NoDup order /\ incl order (names svcs) /\ dependencies_first svcs order
  /\ forall n, In n (names svcs) ->
       (In n order <-> forall d, In d (deps_of set_iter svcs n) ->
                                 In d (names svcs) -> In d order).
Proof.
  intros [_ [Hnd [Hincl [_ [Hiff Hfirst]]]]]. rewrite app_nil_r in *.
  split; [exact Hnd|]. split; [exact Hincl|]. split; [exact Hfirst|].
  intros n Hn. rewrite (Hiff n Hn). apply remaining_zero_iff.
Qed.

End TopologicalSort.

Lemma index_of_prefix (d : string) (l1 l2 : list string) :
  In d l1 -> (index_of d (l1 ++ l2) < List.length l1)%nat.
Proof.
  induction l1 as [|y l1 IH]; intro H; [destruct H|]. simpl.
  destruct (String.eqb y d) eqn:E; [lia|].
  destruct H as [->|H]; [rewrite String.eqb_refl in E; discriminate|].
  specialize (IH H). lia.
Qed.

Lemma index_of_split (x : string) (l1 l2 : list string) :
  ~ In x l1 -> index_of x (l1 ++ x :: l2) = List.length l1.
Proof.
  induction l1 as [|y l1 IH]; intro H; simpl.
  - rewrite String.eqb_refl. reflexivity.
  - destruct (String.eqb y x) eqn:E.
    + apply String.eqb_eq in E. subst y. exfalso. apply H. left. reflexivity.
    + rewrite IH; [reflexivity|]. intro Hin. apply H. right. exact Hin.
Qed.

Lemma ServiceGraph_init_inv (set_iter : PySet -> list string)
    (data : list ServiceData) (g : ServiceGraph) :
  ServiceGraph_init set_iter data = Ok g ->
  services g = load_services data
  /\ topological_sort set_iter (load_services data)
       (build_reverse_adjacency set_iter (load_services data))
     = Ok (sorted_services g, cycles g).
Proof.
  unfold ServiceGraph_init. intro H.
  destruct (topological_sort _ _ _) as [[order cyc]|]; [|discriminate].
  cbn [bind] in H. injection H as <-. split; reflexivity.
Qed.

(** X13.  When [topological_sort] produces an order, the order lists every
    service exactly once, and every dependency of a service that is itself
    a service comes before it. *)
Theorem topological_order_sound (set_iter : PySet -> list string)
    (data : list ServiceData) (g : ServiceGraph) (order : list string) :
  (forall s, Permutation (set_iter s) s) ->
  ServiceGraph_init set_iter data = Ok g ->
  sorted_services g = Some order ->
  Permutation order (names (services g))
  /\ dependencies_first (services g) order.
Proof.
  intros Hperm Hg Ho.
  destruct (ServiceGraph_init_inv _ _ _ Hg) as [Hs Ht]. rewrite Hs.
  destruct (topological_sort_inv set_iter Hperm (load_services data)
              (NoDup_load_services data) (load_services_deps_unique data)
              _ _ Ht) as [ord [deg' [Hinv Hcase]]].
  destruct (kahn_end_sound set_iter (load_services data) deg' ord Hinv)
    as [Hnd [Hincl [Hfirst _]]].
  destruct Hcase as [[Hlen [Heq _]]|[_ Heq]]; [|congruence].
  assert (ord = order) by congruence. subst ord.
  split; [|exact Hfirst].
  apply NoDup_Permutation_bis; [exact Hnd| |exact Hincl].
  unfold names. rewrite length_map. lia.
Qed.

Lemma topological_order_sound_witness :
  exists g,
    ServiceGraph_init iter_reversed chain3_data = Ok g
    /\ sorted_services g = Some ["A"; "B"; "C"]
    /\ Permutation ["A"; "B"; "C"] (names (services g))
    /\ dependencies_first (services g) ["A"; "B"; "C"].
Proof.
  eexists. split; [vm_compute; reflexivity|]. split; [reflexivity|].
  apply (topological_order_sound iter_reversed chain3_data).
  - intro s. apply Permutation_sym, Permutation_rev.
  - vm_compute. reflexivity.
  - reflexivity.
Defined.

(** A duplicate-free list of all the services with dependencies first
    ranks the services. *)
Lemma dependencies_first_acyclic (svcs : Services) (order : list string) :
  NoDup (names svcs) -> NoDup order -> incl (names svcs) order ->
  dependencies_first svcs order -> acyclic svcs.
Proof.
  intros Hnd Hndo Hall Hfirst.
  exists (fun n => index_of n order). intros s d Hin Hd Hdn.
  assert (Hno : In (name s) order) by (apply Hall, in_map; exact Hin).
  apply in_split in Hno. destruct Hno as [l1 [l2 Hsplit]].
  assert (Hx : ~ In (name s) l1).
  { rewrite Hsplit in Hndo. apply NoDup_remove_2 in Hndo.
    intro H. apply Hndo. apply in_or_app. auto. }
  rewrite Hsplit at 2. rewrite (index_of_split _ _ _ Hx). rewrite Hsplit.
  apply index_of_prefix.
  apply (Hfirst l1 (name s) l2 s d Hsplit
           (NoDup_names_get svcs s Hnd Hin) Hd Hdn).
Qed.

(** On a graph without cycle the queue loop sorts every service. *)
Lemma topological_sort_complete (set_iter : PySet -> list string)
    (svcs : Services) (o : option (list string)) (cyc : list (list string)) :
  (forall s, Permutation (set_iter s) s) ->
  NoDup (names svcs) -> Forall (fun s => NoDup (depends_on s)) svcs ->
  topological_sort set_iter svcs (build_reverse_adjacency set_iter svcs)
  = Ok (o, cyc) ->
  acyclic svcs -> (exists order, o = Some order) /\ cyc = [].
Proof.
  intros Hperm Hnd Hdeps Ht [rank Hrank].
  destruct (topological_sort_inv set_iter Hperm svcs Hnd Hdeps _ _ Ht)
    as [ord [deg' [Hinv Hcase]]].
  destruct (kahn_end_sound set_iter svcs deg' ord Hinv)
    as [Hndo [Hincl [Hfirst Hiff]]].
  assert (Hall : forall k n, (rank n < k)%nat -> In n (names svcs) ->
                             In n ord).
  { induction k as [|k IH]; intros n Hk Hn; [lia|].
    apply (Hiff n Hn). intros d Hd Hdn. apply IH; [|exact Hdn].
    apply (deps_of_In set_iter Hperm svcs) in Hd.
    destruct Hd as [s [Hsg Hds]].
    pose proof (Hrank s d (services_get_In _ _ _ Hsg) Hds Hdn) as Hlt.
    rewrite (services_get_name _ _ _ Hsg) in Hlt. lia. }
  assert (Hlen : List.length ord = List.length svcs).
  { apply Nat.le_antisymm.
    - rewrite <- (length_map name svcs).
      apply NoDup_incl_length; [exact Hndo | exact Hincl].
    - rewrite <- (length_map name svcs).
      apply NoDup_incl_length; [exact Hnd|].
      intros n Hn. apply (Hall (S (rank n)) n); [lia | exact Hn]. }
  destruct Hcase as [[_ [Heq Hc]]|[Hne _]]; [eauto | contradiction].
Qed.

(** X14.  [topological_sort] produces an order exactly when the dependency
    graph restricted to the services has no cycle (the services can be
    ranked with every service above its dependencies); otherwise
    [sorted_services] is [None]. *)
Theorem sorted_iff_acyclic (set_iter : PySet -> list string)
    (data : list ServiceData) (g : ServiceGraph) :
  (forall s, Permutation (set_iter s) s) ->
  ServiceGraph_init set_iter data = Ok g ->
  (exists order, sorted_services g = Some order) <-> acyclic (services g).
Proof.
  intros Hperm Hg.
  destruct (ServiceGraph_init_inv _ _ _ Hg) as [Hs Ht]. rewrite Hs.
  pose proof (NoDup_load_services data) as Hnd.
  set (svcs := load_services data) in *.
  split.
  - intros [order Ho].
    destruct (topological_sort_inv set_iter Hperm svcs Hnd
                (load_services_deps_unique data) _ _ Ht)
      as [ord [deg' [Hinv Hcase]]].
    destruct (kahn_end_sound set_iter svcs deg' ord Hinv)
      as [Hndo [Hincl [Hfirst _]]].
    destruct Hcase as [[Hlen [Heq _]]|[_ Heq]]; [|congruence].
    apply (dependencies_first_acyclic svcs ord Hnd Hndo); [|exact Hfirst].
    apply NoDup_length_incl; [exact Hndo | | exact Hincl].
    unfold names. rewrite length_map. lia.
  - intro Hac.
    apply (topological_sort_complete set_iter svcs _ _ Hperm Hnd
             (load_services_deps_unique data) Ht Hac).
Qed.

Lemma sorted_iff_acyclic_witness :
  exists g,
    ServiceGraph_init iter_reversed chain3_data = Ok g
    /\ ((exists order, sorted_services g = Some order)
        <-> acyclic (services g)).
Proof.
  eexists. split; [vm_compute; reflexivity|].
  apply (sorted_iff_acyclic iter_reversed chain3_data).
  - intro s. apply Permutation_sym, Permutation_rev.
  - vm_compute. reflexivity.
Defined.

(** ** The cycles reported *)

Lemma dep_path_app_r (svcs : Services) (l1 l2 : list string) :
  dep_path svcs (l1 ++ l2) -> dep_path svcs l2.
Proof.
  induction l1 as [|a l1 IH]; intro H; [exact H|].
  apply IH. cbn [app dep_path] in H. apply H.
Qed.

Lemma dep_path_snoc (svcs : Services) (l : list string) (x : string) :
  dep_path svcs l -> (l <> [] -> dep_edge svcs (last l x) x) ->
  dep_path svcs (l ++ [x]).
Proof.
  induction l as [|a l IH]; intros Hp He; [simpl; auto|].
  cbn [app dep_path] in *. destruct Hp as [Ha Hl].
  destruct l as [|b l].
  - cbn [app]. split; [|simpl; auto]. apply He. discriminate.
  - split; [exact Ha|]. apply IH; [exact Hl|]. intros _. apply He. discriminate.
Qed.

Lemma slice_from_split (x : string) (l : list string) :
  existsb (String.eqb x) l = true ->
  exists pre tail, l = pre ++ x :: tail /\ slice_from x l = x :: tail.
Proof.
  induction l as [|y l IH]; intro H; [discriminate|]. cbn [existsb] in H.
  cbn [slice_from]. rewrite (String.eqb_sym y x).
  destruct (String.eqb x y) eqn:E.
  - apply String.eqb_eq in E. subst y. exists [], l. auto.
  - destruct (IH H) as [pre [tail [-> Hs]]]. exists (y :: pre), tail. auto.
Qed.

Lemma last_app_cons {A : Type} (l1 l2 : list A) (x d : A) :
  last (l1 ++ x :: l2) d = last (x :: l2) d.
Proof.
  induction l1 as [|a l1 IH]; [reflexivity|].
  cbn [app]. rewrite <- IH. destruct (l1 ++ x :: l2) eqn:E; [|reflexivity].
  destruct l1; discriminate.
Qed.

Section CycleSearchSound.

Variable set_iter : PySet -> list string.
Hypothesis set_iter_In : forall (s : PySet) (x : string), In x (set_iter s) -> In x s.
Variable svcs : Services.

Lemma record_cycle_sound (node neighbor : string) (visited : PySet)
    (stack : list string) (cyc : list (list string)) :
  dep_path svcs (stack ++ [node]) -> dep_edge svcs node neighbor ->
  existsb (String.eqb neighbor) (stack ++ [node]) = true ->
  Forall (dep_cycle svcs) cyc ->
  exists cyc',
    record_cycle neighbor (visited, stack ++ [node], cyc)
    = (visited, stack ++ [node], cyc')
    /\ Forall (dep_cycle svcs) cyc'.
Proof.
  intros Hp He Hin Hc. unfold record_cycle.
  destruct (existsb _ (map sorted_strings cyc)); [eauto|].
  eexists. split; [reflexivity|]. apply Forall_app. split; [exact Hc|].
  constructor; [|constructor].
  destruct (slice_from_split neighbor (stack ++ [node]) Hin)
    as [pre [tail [Hl Hs]]].
  rewrite Hs. split; [|exists neighbor, tail; reflexivity].
  apply (dep_path_snoc svcs (neighbor :: tail)).
  - apply (dep_path_app_r svcs pre). rewrite <- Hl. exact Hp.
  - intros _.
    assert (Hlast : last (neighbor :: tail) neighbor = node).
    { rewrite <- (last_app_cons pre tail neighbor neighbor), <- Hl.
      apply last_last. }
    rewrite Hlast. exact He.
Qed.

(** A call of the cycle search returns its stack as it found it, and only
    adds dependency cycles to the cycles recorded. *)
Lemma find_cycle_util_sound (fuel : nat) :
  forall (node : string) (visited : PySet) (stack : list string)
         (cyc : list (list string)) (st' : CycleState),
  dep_path svcs (stack ++ [node]) ->
  Forall (dep_cycle svcs) cyc ->
  find_cycle_util set_iter fuel svcs node (visited, stack, cyc) = Ok st' ->
  exists visited' cyc',
    st' = (visited', stack, cyc') /\ Forall (dep_cycle svcs) cyc'.
Proof.
  induction fuel as [|fuel IH]; intros node visited stack cyc st' Hp Hc H;
    [discriminate|].
  cbn [find_cycle_util] in H.
  set (adj_node := match services_get node svcs with
                   | Some s => set_iter (depends_on s)
                   | None => []
                   end) in *.
  assert (Hadj : forall nb, In nb adj_node -> services_mem nb svcs = true ->
                            dep_edge svcs node nb).
  { intros nb Hnb Hm. unfold adj_node in Hnb.
    destruct (services_get node svcs) as [s|] eqn:Es; [|destruct Hnb].
    exists s. split; [exact Es|]. split; [apply set_iter_In; exact Hnb|].
    apply services_mem_true. exact Hm. }
  assert (Hloop : forall l v0 c0 st2,
            incl l adj_node -> Forall (dep_cycle svcs) c0 ->
            foldM
              (fun (st : CycleState) neighbor =>
                 let '(visited, stack, _) := st in
                 if negb (services_mem neighbor svcs) then Ok st
                 else if existsb (String.eqb neighbor) stack
                      then Ok (record_cycle neighbor st)
                 else if negb (set_mem neighbor visited)
                      then find_cycle_util set_iter fuel svcs neighbor st
                 else Ok st)
              l (v0, stack ++ [node], c0) = Ok st2 ->
            exists v2 c2,
              st2 = (v2, stack ++ [node], c2) /\ Forall (dep_cycle svcs) c2).
  { induction l as [|nb l IHl]; intros v0 c0 st2 Hl Hc0 Hf; cbn [foldM] in Hf.
    - injection Hf as <-. eauto.
    - assert (Hl' : incl l adj_node) by (intros x Hx; apply Hl; right; exact Hx).
      destruct (services_mem nb svcs) eqn:Em; cbn [negb] in Hf.
      2:{ cbn [bind] in Hf. apply (IHl v0 c0 st2 Hl' Hc0 Hf). }
      pose proof (Hadj nb (Hl nb (or_introl eq_refl)) Em) as He.
      destruct (existsb (String.eqb nb) (stack ++ [node])) eqn:Es.
      { destruct (record_cycle_sound node nb v0 stack c0 Hp He Es Hc0)
          as [c1 [Hr Hc1]].
        rewrite Hr in Hf. cbn [bind] in Hf. apply (IHl v0 c1 st2 Hl' Hc1 Hf). }
      destruct (set_mem nb v0) eqn:Ev; cbn [negb] in Hf.
      2:{ destruct (find_cycle_util set_iter fuel svcs nb
                      (v0, stack ++ [node], c0)) as [st1|] eqn:E1;
            [|discriminate].
          cbn [bind] in Hf.
          destruct (IH nb v0 (stack ++ [node]) c0 st1) as [v1 [c1 [-> Hc1]]];
            [|exact Hc0|exact E1|apply (IHl v1 c1 st2 Hl' Hc1 Hf)].
          apply dep_path_snoc; [exact Hp|]. intros _.
          rewrite last_last. exact He. }
      cbn [bind] in Hf. apply (IHl v0 c0 st2 Hl' Hc0 Hf). }
  destruct (foldM _ adj_node _) as [st2|] eqn:Ef; [|discriminate].
  destruct (Hloop adj_node _ _ st2 (fun x Hx => Hx) Hc Ef) as [v2 [c2 [-> Hc2]]].
  cbn [bind] in H. injection H as <-. rewrite removelast_last. eauto.
Qed.

End CycleSearchSound.

(** X15.  Every cycle that graph construction records (and that [run]
    reports in a [WARN] line) is a dependency cycle of the graph: it starts
    and ends on the same service, and each of its services depends on the
    next one. *)
Theorem recorded_cycles_are_cycles (set_iter : PySet -> list string)
    (data : list ServiceData) (g : ServiceGraph) :
  (forall (s : PySet) (x : string), In x (set_iter s) -> In x s) ->
  ServiceGraph_init set_iter data = Ok g ->
  Forall (dep_cycle (services g)) (cycles g).
Proof.
  intros Hiter Hg.
  destruct (ServiceGraph_init_inv _ _ _ Hg) as [Hs Ht]. rewrite Hs.
  set (svcs := load_services data) in *.
  unfold topological_sort in Ht.
  destruct (kahn_loop _ _ _ _ _ _) as [order|]; [|discriminate].
  cbn [bind] in Ht.
  destruct (negb (Nat.eqb (List.length order) (List.length svcs)));
    [|injection Ht as _ <-; constructor].
  assert (Hsearch : forall l v0 c0 st,
            Forall (dep_cycle svcs) c0 ->
            foldM
              (fun (st : CycleState) node =>
                 let '(visited, _, _) := st in
                 if negb (set_mem node visited)
                 then find_cycle_util set_iter (S (List.length svcs)) svcs node st
                 else Ok st)
              l (v0, [], c0) = Ok st ->
            exists v1 c1, st = (v1, [], c1) /\ Forall (dep_cycle svcs) c1).
  { induction l as [|n l IHl]; intros v0 c0 st Hc0 Hf; cbn [foldM] in Hf.
    - injection Hf as <-. eauto.
    - destruct (set_mem n v0); cbn [negb] in Hf.
      + cbn [bind] in Hf. apply (IHl v0 c0 st Hc0 Hf).
      + destruct (find_cycle_util set_iter (S (List.length svcs)) svcs n
                    (v0, [], c0)) as [st1|] eqn:E1; [|discriminate].
        cbn [bind] in Hf.
        destruct (find_cycle_util_sound set_iter Hiter svcs
                    (S (List.length svcs)) n v0 [] c0 st1)
          as [v1 [c1 [-> Hc1]]]; [simpl; auto | exact Hc0 | exact E1|].
        apply (IHl v1 c1 st Hc1 Hf). }
  destruct (foldM _ (names svcs) _) as [st|] eqn:Ef; [|discriminate].
  destruct (Hsearch (names svcs) [] [] st (Forall_nil _) Ef)
    as [v1 [c1 [-> Hc1]]].
  cbn [bind] in Ht. injection Ht as _ <-. exact Hc1.
Qed.

Lemma recorded_cycles_are_cycles_witness :
  exists g,
    ServiceGraph_init iter_insertion cycle_data = Ok g
    /\ cycles g = [["A"; "B"; "A"]]
    /\ Forall (dep_cycle (services g)) (cycles g).
Proof.
  eexists. split; [vm_compute; reflexivity|]. split; [reflexivity|].
  apply (recorded_cycles_are_cycles iter_insertion cycle_data).
  - intros s x H. exact H.
  - vm_compute. reflexivity.
Defined.

(** ** A cycle is reported whenever there is one *)

Section CycleSearchComplete.

Variable set_iter : PySet -> list string.
Hypothesis iter_perm : forall s, Permutation (set_iter s) s.
Variable svcs : Services.

Lemma record_cycle_nonempty (nb : string) (v : PySet) (stk : list string)
    (c : list (list string)) :
  exists c1, record_cycle nb (v, stk, c) = (v, stk, c1) /\ c1 <> [].
Proof.
  unfold record_cycle. destruct c as [|c0 c].
  - cbn [map existsb]. eexists. split; [reflexivity | discriminate].
  - destruct (existsb _ (map sorted_strings (c0 :: c)));
      eexists; (split; [reflexivity | discriminate]).
Qed.

Lemma dfs_inv_push (node : string) (visited : PySet) (stack F : list string)
    (cyc : list (list string)) :
  dfs_inv svcs visited stack F cyc ->
  dfs_inv svcs (set_add node visited) (stack ++ [node]) F cyc.
Proof.
  intros [Hm [Hnd [Hincl Hfirst]]]. split; [|auto].
  intro x. rewrite set_add_In, in_app_iff, Hm. simpl.
  intuition congruence.
Qed.

(** The node whose call returns joins the returned nodes. *)
Lemma dfs_inv_pop (node : string) (visited0 visited : PySet)
    (stack F new : list string) (cyc : list (list string)) :
  dfs_inv svcs visited (stack ++ [node]) (F ++ new) cyc ->
  In node (names svcs) -> ~ In node F ->
  (forall x, In x new -> ~ In x (set_add node visited0)) ->
  (cyc = [] ->
   forall d, In d (deps_of set_iter svcs node) -> In d (names svcs) ->
             In d (F ++ new)) ->
  dfs_inv svcs visited stack (F ++ new ++ [node]) cyc.
Proof.
  intros [Hm [Hnd [Hincl Hfirst]]] Hnode HnF Hnew Hdeps.
  rewrite app_assoc. split; [|split; [|split]].
  - intro x. rewrite Hm, !in_app_iff. simpl. intuition congruence.
  - apply NoDup_snoc; [exact Hnd|]. intro Hin. apply in_app_or in Hin.
    destruct Hin as [Hin|Hin]; [contradiction|].
    apply (Hnew node Hin). apply set_add_In. left. reflexivity.
  - intros x Hx. apply in_app_or in Hx.
    destruct Hx as [Hx|[<-|[]]]; [apply Hincl; exact Hx | exact Hnode].
  - intros Hc l1 x l2 s d Hsplit Hs Hd Hdn.
    destruct (app_snoc_split l1 l2 (F ++ new) x node (eq_sym Hsplit))
      as [[_ [-> ->]]|[l2' [_ Heq]]].
    + apply (Hdeps Hc d); [|exact Hdn].
      apply (deps_of_In set_iter iter_perm svcs). eauto.
    + apply (Hfirst Hc l1 x l2' s d Heq Hs Hd Hdn).
Qed.

Lemma find_cycle_util_complete (fuel : nat) :
  forall (node : string) (visited : PySet) (stack : list string)
         (cyc : list (list string)) (st' : CycleState) (F : list string),
  dfs_inv svcs visited stack F cyc ->
  In node (names svcs) -> ~ In node visited ->
  find_cycle_util set_iter fuel svcs node (visited, stack, cyc) = Ok st' ->
  exists visited' cyc' new,
    st' = (visited', stack, cyc')
    /\ (cyc' = [] -> cyc = [])
    /\ dfs_inv svcs visited' stack (F ++ new) cyc'
    /\ In node (F ++ new)
    /\ forall x, In x new -> ~ In x visited.
Proof.
  induction fuel as [|fuel IH];
    intros node visited stack cyc st' F Hinv Hnode Hnv H; [discriminate|].
  cbn [find_cycle_util] in H.
  fold (deps_of set_iter svcs node) in H.
  set (stk := stack ++ [node]) in *.
  assert (Hloop : forall l v0 c0 Fc st2,
            dfs_inv svcs v0 stk Fc c0 ->
            foldM
              (fun (st : CycleState) neighbor =>
                 let '(visited, stack, _) := st in
                 if negb (services_mem neighbor svcs) then Ok st
                 else if existsb (String.eqb neighbor) stack
                      then Ok (record_cycle neighbor st)
                 else if negb (set_mem neighbor visited)
                      then find_cycle_util set_iter fuel svcs neighbor st
                 else Ok st)
              l (v0, stk, c0) = Ok st2 ->
            exists v2 c2 new,
              st2 = (v2, stk, c2)
              /\ (c2 = [] -> c0 = [])
              /\ dfs_inv svcs v2 stk (Fc ++ new) c2
              /\ (c2 = [] ->
                  forall d, In d l -> In d (names svcs) -> In d (Fc ++ new))
              /\ forall x, In x new -> ~ In x v0).
  { induction l as [|nb l IHl]; intros v0 c0 Fc st2 Hi Hf; cbn [foldM] in Hf.
    - injection Hf as <-. exists v0, c0, []. rewrite app_nil_r.
      split; [reflexivity|]. split; [auto|]. split; [exact Hi|].
      split; [intros _ d []|intros x []].
    - destruct (services_mem nb svcs) eqn:Em; cbn [negb] in Hf.
      2:{ cbn [bind] in Hf.
          destruct (IHl v0 c0 Fc st2 Hi Hf)
            as [v2 [c2 [new [-> [Hc [Hi2 [Hd Hx]]]]]]].
          exists v2, c2, new. split; [reflexivity|]. split; [exact Hc|].
          split; [exact Hi2|]. split; [|exact Hx].
          intros Hc2 d [<-|Hdl] Hdn; [|apply (Hd Hc2); assumption].
          apply services_mem_true in Hdn. congruence. }
      destruct (existsb (String.eqb nb) stk) eqn:Es.
      { destruct (record_cycle_nonempty nb v0 stk c0) as [c1 [Hr Hne]].
        rewrite Hr in Hf. cbn [bind] in Hf.
        assert (Hi1 : dfs_inv svcs v0 stk Fc c1).
        { destruct Hi as [Hm [Hnd [Hincl _]]].
          split; [exact Hm|]. split; [exact Hnd|]. split; [exact Hincl|].
          intro Hc1. contradiction. }
        destruct (IHl v0 c1 Fc st2 Hi1 Hf)
          as [v2 [c2 [new [-> [Hc [Hi2 [_ Hx]]]]]]].
        exists v2, c2, new. split; [reflexivity|].
        split; [intro Hc2; exfalso; apply Hne, Hc; exact Hc2|].
        split; [exact Hi2|]. split; [|exact Hx].
        intro Hc2. exfalso. apply Hne, Hc. exact Hc2. }
      destruct (set_mem nb v0) eqn:Ev; cbn [negb] in Hf.
      2:{ destruct (find_cycle_util set_iter fuel svcs nb (v0, stk, c0))
            as [st1|] eqn:E1; [|discriminate].
          cbn [bind] in Hf.
          destruct (IH nb v0 stk c0 st1 Fc Hi
                      (proj1 (services_mem_true nb svcs) Em)
                      (proj1 (set_mem_false nb v0) Ev) E1)
            as [v1 [c1 [new1 [-> [Hc1 [Hi1 [Hnb Hx1]]]]]]].
          destruct (IHl v1 c1 (Fc ++ new1) st2 Hi1 Hf)
            as [v2 [c2 [new2 [-> [Hc2 [Hi2 [Hd Hx2]]]]]]].
          exists v2, c2, (new1 ++ new2). rewrite app_assoc.
          split; [reflexivity|]. split; [auto|]. split; [exact Hi2|]. split.
          - intros Hc d [<-|Hdl] Hdn; [|apply (Hd Hc); assumption].
            apply in_or_app. left. exact Hnb.
          - intros x Hx Hv0. apply in_app_or in Hx. destruct Hx as [Hx|Hx].
            + apply (Hx1 x Hx Hv0).
            + apply (Hx2 x Hx). destruct Hi as [Hm0 _]. destruct Hi1 as [Hm1 _].
              apply Hm1. apply Hm0 in Hv0. rewrite in_app_iff. tauto. }
      cbn [bind] in Hf.
      destruct (IHl v0 c0 Fc st2 Hi Hf)
        as [v2 [c2 [new [-> [Hc [Hi2 [Hd Hx]]]]]]].
      exists v2, c2, new. split; [reflexivity|]. split; [exact Hc|].
      split; [exact Hi2|]. split; [|exact Hx].
      intros Hc2 d [<-|Hdl] Hdn; [|apply (Hd Hc2); assumption].
      apply in_or_app. left. apply set_mem_true in Ev.
      destruct Hi as [Hm _]. apply Hm in Ev. destruct Ev as [Ev|Ev]; [exact Ev|].
      exfalso. apply (set_mem_true nb stk) in Ev. unfold set_mem in Ev.
      congruence. }
  destruct (foldM _ (deps_of set_iter svcs node) _) as [st2|] eqn:Ef;
    [|discriminate].
  destruct (Hloop (deps_of set_iter svcs node) (set_add node visited) cyc F st2
              (dfs_inv_push node visited stack F cyc Hinv) Ef)
    as [v2 [c2 [new [-> [Hc [Hi2 [Hd Hx]]]]]]].
  cbn [bind] in H. injection H as <-. unfold stk. rewrite removelast_last.
  exists v2, c2, (new ++ [node]).
  split; [reflexivity|]. split; [exact Hc|].
  assert (HnF : ~ In node F).
  { intro Hin. apply Hnv. destruct Hinv as [Hm _]. apply Hm. left. exact Hin. }
  split; [|split].
  - apply (dfs_inv_pop node visited v2 stack F new c2 Hi2 Hnode HnF Hx).
    intros Hc2 d Hdd Hdn. apply (Hd Hc2 d Hdd Hdn).
  - apply in_or_app. right. apply in_or_app. right. left. reflexivity.
  - intros x Hin Hv. apply in_app_or in Hin. destruct Hin as [Hin|[<-|[]]].
    + apply (Hx x Hin). apply set_add_In. right. exact Hv.
    + exact (Hnv Hv).
Qed.

End CycleSearchComplete.

(** X16.  Graph construction records at least one cycle exactly when the
    dependency graph restricted to the services has a cycle: on a graph
    without cycle [cycles] stays empty, and on a graph with a cycle the
    search that follows the incomplete sort finds one. *)
Theorem cycles_recorded_iff_cyclic (set_iter : PySet -> list string)
    (data : list ServiceData) (g : ServiceGraph) :
  (forall s, Permutation (set_iter s) s) ->
  ServiceGraph_init set_iter data = Ok g ->
  cycles g = [] <-> acyclic (services g).
Proof.
  intros Hperm Hg.
  destruct (ServiceGraph_init_inv _ _ _ Hg) as [Hs Ht]. rewrite Hs.
  pose proof (NoDup_load_services data) as Hnd.
  set (svcs := load_services data) in *.
  split.
  2:{ intro Hac.
      apply (topological_sort_complete set_iter svcs _ _ Hperm Hnd
               (load_services_deps_unique data) Ht Hac). }
  intro Hcyc.
  destruct (topological_sort_inv set_iter Hperm svcs Hnd
              (load_services_deps_unique data) _ _ Ht)
    as [ord [deg' [Hinv Hcase]]].
  destruct Hcase as [[Hlen _]|[_ Hnone]].
  { destruct (kahn_end_sound set_iter svcs deg' ord Hinv)
      as [Hndo [Hincl [Hfirst _]]].
    apply (dependencies_first_acyclic svcs ord Hnd Hndo); [|exact Hfirst].
    apply NoDup_length_incl; [exact Hndo | | exact Hincl].
    unfold names. rewrite length_map. lia. }
  unfold topological_sort in Ht.
  destruct (kahn_loop _ _ _ _ _ _) as [order|]; [|discriminate].
  cbn [bind] in Ht.
  destruct (negb (Nat.eqb (List.length order) (List.length svcs)));
    [|injection Ht as Ht _; congruence].
  assert (Hsearch : forall l v0 c0 F0 st,
            dfs_inv svcs v0 [] F0 c0 -> incl l (names svcs) ->
            foldM
              (fun (st : CycleState) node =>
                 let '(visited, _, _) := st in
                 if negb (set_mem node visited)
                 then find_cycle_util set_iter (S (List.length svcs)) svcs node st
                 else Ok st)
              l (v0, [], c0) = Ok st ->
            exists v1 c1 F1,
              st = (v1, [], c1) /\ dfs_inv svcs v1 [] F1 c1
              /\ (forall x, In x F0 -> In x F1)
              /\ forall n, In n l -> In n F1).
  { induction l as [|n l IHl]; intros v0 c0 F0 st Hi Hl Hf; cbn [foldM] in Hf.
    - injection Hf as <-. exists v0, c0, F0.
      split; [reflexivity|]. split; [exact Hi|]. split; [auto | intros n []].
    - assert (Hl' : incl l (names svcs))
        by (intros x Hx; apply Hl; right; exact Hx).
      destruct (set_mem n v0) eqn:Ev; cbn [negb] in Hf.
      + cbn [bind] in Hf.
        destruct (IHl v0 c0 F0 st Hi Hl' Hf) as [v1 [c1 [F1 [-> [Hi1 [Hsub Hall]]]]]].
        exists v1, c1, F1. split; [reflexivity|]. split; [exact Hi1|].
        split; [exact Hsub|]. intros m [<-|Hm]; [|apply Hall; exact Hm].
        apply Hsub. apply set_mem_true in Ev. destruct Hi as [Hm _].
        apply Hm in Ev. destruct Ev as [Ev|[]]. exact Ev.
      + destruct (find_cycle_util set_iter (S (List.length svcs)) svcs n
                    (v0, [], c0)) as [st1|] eqn:E1; [|discriminate].
        cbn [bind] in Hf.
        destruct (find_cycle_util_complete set_iter Hperm svcs
                    (S (List.length svcs)) n v0 [] c0 st1 F0 Hi
                    (Hl n (or_introl eq_refl))
                    (proj1 (set_mem_false n v0) Ev) E1)
          as [v1 [c1 [new [-> [_ [Hi1 [Hn _]]]]]]].
        destruct (IHl v1 c1 (F0 ++ new) st Hi1 Hl' Hf)
          as [v2 [c2 [F2 [-> [Hi2 [Hsub Hall]]]]]].
        exists v2, c2, F2. split; [reflexivity|]. split; [exact Hi2|]. split.
        * intros x Hx. apply Hsub. apply in_or_app. left. exact Hx.
        * intros m [<-|Hm]; [apply Hsub; exact Hn | apply Hall; exact Hm]. }
  destruct (foldM _ (names svcs) _) as [st|] eqn:Ef; [|discriminate].
  destruct (Hsearch (names svcs) [] [] [] st) as [v1 [c1 [F1 [-> [Hi1 [_ Hall]]]]]].
  - split; [intro x; simpl; tauto|]. split; [constructor|].
    split; [intros x []|]. intros _ l1 x l2 s d Hsplit. destruct l1; discriminate.
  - intros x Hx. exact Hx.
  - exact Ef.
  - cbn [bind] in Ht. injection Ht as _ Hc. rewrite Hcyc in Hc. subst c1.
    destruct Hi1 as [_ [HndF [_ Hfirst]]].
    apply (dependencies_first_acyclic svcs F1 Hnd HndF Hall (Hfirst eq_refl)).
Qed.

Lemma cycles_recorded_iff_cyclic_witness :
  exists g,
    ServiceGraph_init iter_reversed cycle_data = Ok g
    /\ cycles g <> []
    /\ (cycles g = [] <-> acyclic (services g)).
Proof.
  eexists. split; [vm_compute; reflexivity|]. split; [discriminate|].
  apply (cycles_recorded_iff_cyclic iter_reversed cycle_data).
  - intro s. apply Permutation_sym, Permutation_rev.
  - vm_compute. reflexivity.
Defined.

(** ** What propagation leaves alone *)

Section PropagateFrame.

Variable set_iter : PySet -> list string.
Variable cfg : Config.

(** X17.  [propagate_health] changes nothing but health values: every
    service keeps its name, dependencies, baseline, failure flag,
    [failed_at_tick] and timer, and a service without dependencies keeps its
    health too. *)
Theorem propagate_health_frame (svcs : Services) (n : string) (s : Service) :
  services_get n svcs = Some s ->
  exists s',
    services_get n (propagate_health set_iter cfg svcs) = Some s'
    /\ only_health_differs s s'
    /\ (depends_on s = [] -> health s' = health s).
Proof.
  intro Hs.
  apply (propagate_health_invariant set_iter cfg
           (fun z => exists s',
                services_get n z = Some s' /\ only_health_differs s s'
                /\ (depends_on s = [] -> health s' = health s))).
  - intros z nm service [s' [Hz [Hd Hh]]] Hg Hdeps _ _.
    rewrite services_get_update by reflexivity.
    destruct (String.eqb n nm) eqn:E; [|eauto].
    apply String.eqb_eq in E. subst nm. rewrite Hz. cbn [option_map].
    eexists. split; [reflexivity|].
    assert (service = s') by congruence. subst service.
    destruct Hd as [H1 [H2 [H3 [H4 [H5 H6]]]]].
    split; [repeat split; assumption|].
    intro He. exfalso. apply Hdeps. congruence.
  - exists s. split; [exact Hs|]. split; [repeat split | reflexivity].
Qed.

Lemma total_degradation_healthy (x : Services) (s : Service) :
  (forall d dep, services_get d x = Some dep -> threshold cfg <= health dep) ->
  total_degradation set_iter cfg x s = 0.
Proof.
  intro Hall. unfold total_degradation. generalize 0.
  induction (set_iter (depends_on s)) as [|d rest IH]; intro a; simpl.
  - reflexivity.
  - destruct (services_get d x) as [dep|] eqn:Ed; [|apply IH].
    assert (Hq : Qltb (health dep) (threshold cfg) = false).
    { apply Qltb_false. apply (Hall d dep Ed). }
    rewrite Hq. apply IH.
Qed.

(** X18.  On a store in which no service is below the threshold,
    [propagate_health] is the identity. *)
Theorem propagate_health_identity_when_healthy (svcs : Services) :
  (forall s, In s svcs -> threshold cfg <= health s) ->
  propagate_health set_iter cfg svcs = svcs.
Proof.
  intro Hall.
  apply (propagate_health_invariant set_iter cfg (fun z => z = svcs));
    [|reflexivity].
  intros z nm service -> _ _ Htot _. exfalso.
  rewrite total_degradation_healthy in Htot.
  - apply (Qlt_irrefl 0 Htot).
  - intros d dep Hd. apply Hall. apply (services_get_In _ _ _ Hd).
Qed.

End PropagateFrame.

Lemma propagate_health_frame_witness :
  exists s',
    services_get "A" (propagate_health iter_insertion one_tick_config cascade_store)
    = Some s'
    /\ only_health_differs
         {| name := "A"; depends_on := []; health := 5#10; initial_health := 1;
            is_failed := false; failed_at_tick := (-1)%Z;
            recovery_timer := (-1)%Z |} s'
    /\ (@nil string = [] -> health s' = 5#10).
Proof.
  apply (propagate_health_frame iter_insertion one_tick_config cascade_store "A").
  reflexivity.
Defined.

Lemma propagate_health_identity_when_healthy_witness :
  propagate_health iter_insertion one_tick_config (load_services chain3_data)
  = load_services chain3_data.
Proof.
  apply (propagate_health_identity_when_healthy iter_insertion one_tick_config).
  intros s Hs. vm_compute in Hs.
  destruct Hs as [<-|[<-|[<-|[]]]]; vm_compute; discriminate.
Defined.

(** ** The summary of the last ticks *)

Lemma py_range_In (a b t : Z) : In t (py_range a b) <-> (a <= t < b)%Z.
Proof.
  unfold py_range. rewrite in_map_iff. split.
  - intros [i [<- Hi]]. apply in_seq in Hi. lia.
  - intro H. exists (Z.to_nat (t - a)). split; [lia|]. apply in_seq. lia.
Qed.

Lemma py_range_NoDup (a b : Z) : NoDup (py_range a b).
Proof.
  unfold py_range. generalize (Z.to_nat (b - a)) as len. generalize O as s.
  intros s len. revert s. induction len as [|len IH]; intro s; cbn [seq map].
  - constructor.
  - constructor; [|apply IH]. intro Hin. apply in_map_iff in Hin.
    destruct Hin as [i [Hi Hin]]. apply in_seq in Hin. lia.
Qed.

Lemma flat_map_filter {A B : Type} (g : B -> bool) (f : A -> list B)
    (l : list A) :
  filter g (flat_map f l) = flat_map (fun x => filter g (f x)) l.
Proof.
  induction l as [|a l IH]; cbn [flat_map]; [reflexivity|].
  rewrite filter_app, IH. reflexivity.
Qed.

Lemma flat_map_length_ext {A B C : Type} (f1 : A -> list B) (f2 : A -> list C)
    (l : list A) :
  (forall x, List.length (f1 x) = List.length (f2 x)) ->
  List.length (flat_map f1 l) = List.length (flat_map f2 l).
Proof.
  intro H. induction l as [|a l IH]; cbn [flat_map]; [reflexivity|].
  rewrite !length_app, IH, H. reflexivity.
Qed.

(** Splitting a list by the tick of its elements loses nothing when every
    tick is in the range, each once. *)
Lemma count_by_tick (p : Event -> bool) (l : list Event) (R : list Z) :
  NoDup R -> Forall (fun e => In (event_tick e) R) l ->
  List.length
    (flat_map (fun t => filter (fun e => p e && (event_tick e =? t)%Z) l) R)
  = List.length (filter p l).
Proof.
  intros HR Hl. induction l as [|e l IH].
  - cbn [filter]. clear. induction R as [|t R IHR]; [reflexivity|].
    cbn [flat_map app]. exact IHR.
  - inversion Hl as [|? ? He Hl']; subst. specialize (IH Hl').
    assert (Hsplit : forall R',
              List.length
                (flat_map (fun t => filter (fun e0 => p e0 && (event_tick e0 =? t)%Z)
                                      (e :: l)) R')
              = (List.length
                   (filter (fun t => p e && (event_tick e =? t)%Z) R')
                 + List.length
                     (flat_map (fun t => filter (fun e0 => p e0 && (event_tick e0 =? t)%Z)
                                           l) R'))%nat).
    { induction R' as [|t R' IHR']; [reflexivity|].
      cbn [flat_map]. rewrite !length_app, IHR'. cbn [filter].
      destruct (p e && (event_tick e =? t)%Z); cbn [List.length]; lia. }
    rewrite Hsplit, IH. cbn [filter].
    assert (Hone : List.length (filter (fun t => p e && (event_tick e =? t)%Z) R)
                   = if p e then 1%nat else 0%nat).
    { destruct (p e); cbn [andb].
      - clear -HR He. induction R as [|t R IHR]; [destruct He|].
        inversion HR as [|? ? Hn HR']; subst. cbn [filter].
        destruct (Z.eqb_spec (event_tick e) t) as [Heq|Hne].
        + subst t. cbn [List.length]. f_equal.
          assert (Hnil : filter (fun t => (event_tick e =? t)%Z) R = []).
          { clear -Hn. induction R as [|t R IHR]; [reflexivity|]. cbn [filter].
            destruct (Z.eqb_spec (event_tick e) t) as [Heq|Hne].
            - exfalso. apply Hn. left. congruence.
            - apply IHR. intro H. apply Hn. right. exact H. }
          rewrite Hnil. reflexivity.
        + apply IHR; [exact HR'|]. destruct He as [He|He]; [congruence|exact He].
      - clear. induction R as [|t R IHR]; [reflexivity | exact IHR]. }
    rewrite Hone. destruct (p e); cbn [List.length]; lia.
Qed.

Lemma filter_filter_and {A : Type} (p q : A -> bool) (l : list A) :
  filter p (filter q l) = filter (fun x => p x && q x) l.
Proof.
  induction l as [|a l IH]; cbn [filter]; [reflexivity|].
  destruct (q a); cbn [filter]; rewrite ?andb_true_r, ?andb_false_r.
  - destruct (p a); rewrite IH; reflexivity.
  - exact IH.
Qed.

Lemma summary_lines_glitches (l : list Event) :
  List.length (filter is_glitch_line (map summary_line l))
  = List.length (filter is_glitch l).
Proof.
  induction l as [|[t s o w|t s h] l IH]; cbn; [reflexivity | |exact IH].
  f_equal. exact IH.
Qed.

Lemma summary_lines_failures (l : list Event) :
  List.length (filter is_failure_line (map summary_line l))
  = List.length (filter is_failure l).
Proof.
  induction l as [|[t s o w|t s h] l IH]; cbn; [reflexivity |exact IH|].
  f_equal. exact IH.
Qed.

Lemma root_cause_lines (g : SummaryLine -> bool) (l : list Incident) :
  (forall r, g (SumRootCause r) = false) ->
  filter g (map (fun inc => SumRootCause (inc_roots inc)) l) = [].
Proof.
  intro Hg. induction l as [|i l IH]; cbn [map filter]; [reflexivity|].
  rewrite Hg. exact IH.
Qed.

Lemma filter_idem_length {A : Type} (p : A -> bool) (l : list A) :
  List.length (filter p (filter p l)) = List.length (filter p l).
Proof.
  rewrite filter_filter_and. f_equal. apply filter_ext. intro a.
  destruct (p a); reflexivity.
Qed.

Lemma filter_glitch_failure (l : list Event) :
  filter is_glitch (filter is_failure l) = []
  /\ filter is_failure (filter is_glitch l) = [].
Proof.
  unfold is_failure. split; rewrite filter_filter_and;
    (induction l as [|e l IH]; cbn [filter]; [reflexivity|]);
    destruct (is_glitch e); cbn [negb andb]; exact IH.
Qed.

(** The glitch and failure lines of the section of tick [t]. *)
Lemma tick_section_counts (re : list Event) (ri : list Incident) (t : Z) :
  List.length (filter is_glitch_line (tick_section re ri t))
  = List.length (filter (fun e => is_glitch e && (event_tick e =? t)%Z) re)
  /\ List.length (filter is_failure_line (tick_section re ri t))
     = List.length (filter (fun e => is_failure e && (event_tick e =? t)%Z) re).
Proof.
  unfold tick_section. rewrite <- !filter_filter_and.
  set (te := filter (fun e => (event_tick e =? t)%Z) re).
  set (ti := filter (fun i => (inc_tick i =? t)%Z) ri).
  assert (Hfull :
    List.length
      (filter is_glitch_line
         (SumTick t :: map summary_line (filter is_glitch te)
          ++ map summary_line (filter is_failure te)
          ++ map (fun inc => SumRootCause (inc_roots inc)) ti))
    = List.length (filter is_glitch te)
    /\ List.length
         (filter is_failure_line
            (SumTick t :: map summary_line (filter is_glitch te)
             ++ map summary_line (filter is_failure te)
             ++ map (fun inc => SumRootCause (inc_roots inc)) ti))
       = List.length (filter is_failure te)).
  { destruct (filter_glitch_failure te) as [Hgf Hfg].
    cbn [filter is_glitch_line is_failure_line].
    rewrite !filter_app, !length_app, !root_cause_lines by reflexivity.
    rewrite !summary_lines_glitches, !summary_lines_failures, Hgf, Hfg.
    rewrite !filter_idem_length. cbn [List.length]. split; lia. }
  destruct te as [|e0 te'] eqn:Ete.
  - destruct ti as [|i0 ti']; [split; reflexivity | exact Hfull].
  - exact Hfull.
Qed.

Lemma filter_all {A : Type} (p : A -> bool) (l : list A) :
  (forall x, In x l -> p x = true) -> filter p l = l.
Proof.
  intro H. induction l as [|a l IH]; cbn [filter]; [reflexivity|].
  rewrite (H a (or_introl eq_refl)). f_equal. apply IH.
  intros x Hx. apply H. right. exact Hx.
Qed.

Lemma filter_none {A : Type} (p : A -> bool) (l : list A) :
  (forall x, In x l -> p x = false) -> filter p l = [].
Proof.
  intro H. induction l as [|a l IH]; cbn [filter]; [reflexivity|].
  rewrite (H a (or_introl eq_refl)). apply IH.
  intros x Hx. apply H. right. exact Hx.
Qed.

Lemma run_tick_event_ticks {Rng : Type} (set_iter : PySet -> list string)
    (rng_choice : Rng -> nat -> nat * Rng)
    (rng_uniform : Rng -> Q -> Q -> Q * Rng) (k : nat)
    (sim sim' : Simulator Rng) :
  tick sim = Z.of_nat (S k) ->
  Forall (fun e => (1 <= event_tick e <= Z.of_nat k)%Z) (events sim) ->
  run_tick set_iter rng_choice rng_uniform sim = Ok sim' ->
  Forall (fun e => (1 <= event_tick e <= Z.of_nat (S k))%Z) (events sim').
Proof.
  intros Ht He H.
  destruct (run_tick_ledgers _ _ _ _ _ H)
    as [glitches [newly [incs [Hev [Hgl _]]]]].
  rewrite Hev, Ht. apply Forall_app. split; [|apply Forall_app; split].
  - apply Forall_forall. intros e Hin. rewrite Forall_forall in He.
    specialize (He e Hin). lia.
  - apply Forall_forall. intros e Hin. rewrite Forall_forall in Hgl.
    destruct (Hgl e Hin) as [_ Hte]. rewrite Hte, Ht. lia.
  - apply Forall_forall. intros e Hin. apply in_map_iff in Hin.
    destruct Hin as [s [<- _]]. cbn [event_tick]. lia.
Qed.

(** X19.  [query_last_n_ticks] after a run: the tick sections show as many
    glitch lines and failure lines as the statistics block counts; with [n]
    at least the number of ticks the statistics count every event of the
    ledger; with [n <= 0] the report has no section and both totals are 0. *)
Theorem last_n_ticks_consistent (set_iter : PySet -> list string)
    (Rng : Type) (rng_seed : Z -> Rng) (rng_choice : Rng -> nat -> nat * Rng)
    (rng_uniform : Rng -> Q -> Q -> Q * Rng) (data : list ServiceData)
    (cfg : Config) (sim : Simulator Rng) (n : Z) :
  simulate set_iter rng_seed rng_choice rng_uniform data cfg = Ok sim ->
  let r := query_last_n_ticks sim n in
  List.length (filter is_glitch_line (lt_lines r)) = lt_glitches r
  /\ List.length (filter is_failure_line (lt_lines r)) = lt_failures r
  /\ ((ticks cfg <= n)%Z ->
      lt_glitches r = List.length (filter is_glitch (events sim))
      /\ lt_failures r = List.length (filter is_failure (events sim)))
  /\ ((n <= 0)%Z ->
      lt_lines r = [] /\ lt_glitches r = O /\ lt_failures r = O).
Proof.
  intro H.
  destruct (simulate_induction set_iter Rng rng_seed rng_choice rng_uniform
              data cfg
              (fun k sim =>
                 Forall (fun e => (1 <= event_tick e <= Z.of_nat k)%Z)
                   (events sim)))
    with (sim := sim) as [_ [Ht Hev]]; [| | |exact H|].
  - intros sim0 _ He _ _ _. rewrite He. constructor.
  - intros k s s' _ Htk HR Hrun.
    apply (run_tick_event_ticks set_iter rng_choice rng_uniform k s s' Htk HR Hrun).
  - intros k s t lines HR. exact HR.
  - cbv zeta. unfold query_last_n_ticks.
    cbn [lt_lines lt_glitches lt_failures].
    set (cur := tick sim) in *.
    set (start := Z.max 1 (cur - n + 1)).
    set (re := filter (fun e => (start <=? event_tick e)%Z) (events sim)).
    set (ri := filter (fun i => (start <=? inc_tick i)%Z) (incident_log sim)).
    rewrite Forall_forall in Hev.
    assert (Hre : Forall (fun e => In (event_tick e) (py_range start (cur + 1))) re).
    { apply Forall_forall. intros e Hin. apply filter_In in Hin.
      destruct Hin as [Hin Hs]. apply Z.leb_le in Hs.
      apply py_range_In. specialize (Hev e Hin). lia. }
    split; [|split; [|split]].
    + rewrite flat_map_filter.
      rewrite (flat_map_length_ext _
                 (fun t => filter (fun e => is_glitch e && (event_tick e =? t)%Z) re))
        by (intro t; apply tick_section_counts).
      apply count_by_tick; [apply py_range_NoDup | exact Hre].
    + rewrite flat_map_filter.
      rewrite (flat_map_length_ext _
                 (fun t => filter (fun e => is_failure e && (event_tick e =? t)%Z) re))
        by (intro t; apply tick_section_counts).
      apply count_by_tick; [apply py_range_NoDup | exact Hre].
    + intro Hn.
      assert (Hall : re = events sim).
      { apply filter_all. intros e Hin. apply Z.leb_le.
        specialize (Hev e Hin). unfold start. lia. }
      rewrite Hall. split; reflexivity.
    + intro Hn.
      assert (Hnone : re = []).
      { apply filter_none. intros e Hin. apply Z.leb_gt.
        specialize (Hev e Hin). unfold start. lia. }
      rewrite Hnone. split; [|split; reflexivity].
      unfold py_range.
      replace (Z.to_nat (cur + 1 - start)) with O by (unfold start; lia).
      reflexivity.
Qed.

Lemma last_n_ticks_consistent_witness :
  exists sim,
    simulate iter_insertion (script_seed chain3_script) script_choice
      script_uniform chain3_data one_tick_config = Ok sim
    /\ lt_lines (query_last_n_ticks sim 10)
       = [SumTick 1; SumGlitch "A" (9#10) (40#100); SumFailure "A" (40#100);
          SumRootCause ["A"]]
    /\ lt_glitches (query_last_n_ticks sim 10) = 1%nat
    /\ lt_failures (query_last_n_ticks sim 10) = 1%nat.
Proof.
  eexists. split; [vm_compute; reflexivity|]. split; [reflexivity|].
  destruct (last_n_ticks_consistent iter_insertion ScriptRng
              (script_seed chain3_script) script_choice script_uniform
              chain3_data one_tick_config _ 10%Z
              ltac:(vm_compute; reflexivity)) as [Hg [Hf _]].
  split; [rewrite <- Hg | rewrite <- Hf]; reflexivity.
Defined.

(** ** The table of the most impacted services *)

Lemma dict_set_fresh {V : Type} (k : string) (v : V) (d : list (string * V)) :
  ~ In k (map fst d) -> dict_set k v d = d ++ [(k, v)].
Proof.
  induction d as [|[k' v'] d IH]; intro H; cbn [dict_set app]; [reflexivity|].
  destruct (String.eqb k' k) eqn:E.
  - apply String.eqb_eq in E. exfalso. apply H. left. exact E.
  - f_equal. apply IH. intro Hin. apply H. right. exact Hin.
Qed.

Lemma scores_loop (svcs : Services) (hist : list (string * list Sample)) :
  forall acc : list (string * Score),
  NoDup (map fst acc ++ map fst hist) ->
  (forall n, In n (map fst hist) -> services_get n svcs <> None) ->
  foldM (fun scores nh =>
           svc <- services_getitem (fst nh) svcs ;;
           Ok (dict_set (fst nh) (score_of (snd nh) (health svc)) scores))
        hist acc
  = Ok (acc ++ scores_of svcs hist).
Proof.
  induction hist as [|[n h] hist IH]; intros acc Hnd Hget.
  - cbn [foldM scores_of map]. rewrite app_nil_r. reflexivity.
  - cbn [foldM fst snd]. unfold services_getitem at 1.
    destruct (services_get n svcs) as [s|] eqn:Es.
    2:{ exfalso. apply (Hget n); [left; reflexivity | exact Es]. }
    cbn [bind map fst] in *.
    rewrite dict_set_fresh.
    + rewrite IH.
      * unfold scores_of. cbn [map fst snd]. rewrite Es, <- app_assoc.
        reflexivity.
      * rewrite map_app. cbn [map fst]. rewrite <- app_assoc. exact Hnd.
      * intros m Hm. apply Hget. right. exact Hm.
    + intro Hin. apply NoDup_remove_2 in Hnd. apply Hnd.
      apply in_or_app. left. exact Hin.
Qed.

Lemma score_key_lt_asym (a b : Score) :
  score_key_lt a b = true -> score_key_lt b a = false.
Proof.
  unfold score_key_lt. rewrite (Nat.eqb_sym (sc_failures b)).
  destruct (sc_failures a =? sc_failures b)%nat eqn:E.
  - intro H. apply Qltb_true in H. apply Qltb_false. lra.
  - intro H. apply Nat.ltb_lt in H. apply Nat.ltb_ge. lia.
Qed.

Lemma score_key_ge_trans (a b c : Score) :
  score_key_lt a b = false -> score_key_lt b c = false ->
  score_key_lt a c = false.
Proof.
  unfold score_key_lt.
  destruct (Nat.eqb_spec (sc_failures a) (sc_failures b)) as [E1|E1];
    destruct (Nat.eqb_spec (sc_failures b) (sc_failures c)) as [E2|E2];
    destruct (Nat.eqb_spec (sc_failures a) (sc_failures c)) as [E3|E3];
    intros H1 H2;
    repeat match goal with
           | H : Qltb _ _ = false |- _ => apply Qltb_false in H
           | H : (_ <? _)%nat = false |- _ => apply Nat.ltb_ge in H
           end;
    try (apply Qltb_false; lra); try (apply Nat.ltb_ge; lia); try lia.
Qed.

Lemma insert_score_perm (x : string * Score) (l : list (string * Score)) :
  Permutation (insert_score x l) (x :: l).
Proof.
  induction l as [|y l IH]; cbn [insert_score]; [apply Permutation_refl|].
  destruct (score_key_lt (snd x) (snd y)).
  - eapply Permutation_trans; [apply perm_skip; exact IH | apply perm_swap].
  - apply Permutation_refl.
Qed.

Lemma sorted_scores_perm (l : list (string * Score)) :
  Permutation (sorted_scores l) l.
Proof.
  induction l as [|x l IH]; [apply Permutation_refl|].
  change (sorted_scores (x :: l)) with (insert_score x (sorted_scores l)).
  eapply Permutation_trans; [apply insert_score_perm | apply perm_skip; exact IH].
Qed.

Lemma insert_score_sorted (x : string * Score) (l : list (string * Score)) :
  StronglySorted (fun a b => score_key_lt (snd a) (snd b) = false) l ->
  StronglySorted (fun a b => score_key_lt (snd a) (snd b) = false)
    (insert_score x l).
Proof.
  induction l as [|y l IH]; intro Hs; cbn [insert_score].
  - constructor; constructor.
  - apply StronglySorted_inv in Hs. destruct Hs as [Hl Hy].
    destruct (score_key_lt (snd x) (snd y)) eqn:E.
    + constructor; [apply IH; exact Hl|].
      apply (Permutation_Forall (Permutation_sym (insert_score_perm x l))).
      constructor; [apply score_key_lt_asym; exact E | exact Hy].
    + constructor; [constructor; assumption|].
      constructor; [exact E|].
      apply Forall_forall. intros z Hz. rewrite Forall_forall in Hy.
      apply (score_key_ge_trans _ (snd y)); [exact E | apply Hy; exact Hz].
Qed.

Lemma sorted_scores_sorted (l : list (string * Score)) :
  StronglySorted (fun a b => score_key_lt (snd a) (snd b) = false)
    (sorted_scores l).
Proof.
  induction l as [|x l IH]; [constructor|].
  change (sorted_scores (x :: l)) with (insert_score x (sorted_scores l)).
  apply insert_score_sorted. exact IH.
Qed.

Lemma StronglySorted_parts {A : Type} (R : A -> A -> Prop) (front back : list A) :
  StronglySorted R (front ++ back) ->
  StronglySorted R front
  /\ forall a b, In a front -> In b back -> R a b.
Proof.
  induction front as [|x front IH]; cbn [app]; intro Hs.
  - split; [constructor | intros a b []].
  - apply StronglySorted_inv in Hs. destruct Hs as [Hrest Hx].
    destruct (IH Hrest) as [Hf Hcross]. rewrite Forall_forall in Hx.
    split.
    + constructor; [exact Hf|]. apply Forall_forall. intros y Hy.
      apply Hx. apply in_or_app. left. exact Hy.
    + intros a b [<-|Ha] Hb.
      * apply Hx. apply in_or_app. right. exact Hb.
      * apply Hcross; assumption.
Qed.

Lemma scores_of_keys (svcs : Services) (hist : list (string * list Sample)) :
  map fst (scores_of svcs hist) = map fst hist.
Proof. unfold scores_of. rewrite map_map. reflexivity. Qed.

Lemma ranked_rows (top : list (string * Score)) :
  map fst (combine (seq 1 (List.length top)) top) = seq 1 (List.length top)
  /\ map snd (combine (seq 1 (List.length top)) top) = top.
Proof.
  generalize 1%nat. induction top as [|x top IH]; intro k; cbn; [tauto|].
  destruct (IH (S k)) as [H1 H2]. rewrite H1, H2. tauto.
Qed.

Lemma simulate_history (set_iter : PySet -> list string)
    (Rng : Type) (rng_seed : Z -> Rng) (rng_choice : Rng -> nat -> nat * Rng)
    (rng_uniform : Rng -> Q -> Q -> Q * Rng) (data : list ServiceData)
    (cfg : Config) (sim : Simulator Rng) :
  simulate set_iter rng_seed rng_choice rng_uniform data cfg = Ok sim ->
  run_state set_iter data cfg sim
  /\ history_ok data (Z.to_nat (ticks cfg)) (service_degradation_history sim).
Proof.
  intro H.
  destruct (simulate_induction set_iter Rng rng_seed rng_choice rng_uniform
              data cfg
              (fun k sim =>
                 history_ok data k (service_degradation_history sim)
                 /\ (k = O -> services (graph sim) = load_services data)))
    with (sim := sim) as [Hst [_ [HR _]]]; [| | |exact H|].
  - intros sim0 Hs _ _ Hh _. split; [exact Hh | intros _; exact Hs].
  - intros k s s' Hst Ht [HR H0] Hrun. split; [|discriminate].
    apply (run_tick_history_ok set_iter Rng rng_choice rng_uniform data cfg
             k s s' Hst Ht HR H0 Hrun).
  - intros k s t lines HR. exact HR.
  - split; assumption.
Qed.

Lemma StronglySorted_by {A B : Type} (f : A -> B) (R : B -> B -> Prop)
    (l : list A) :
  StronglySorted R (map f l) -> StronglySorted (fun a b => R (f a) (f b)) l.
Proof.
  induction l as [|x l IH]; cbn [map]; intro Hs; [constructor|].
  apply StronglySorted_inv in Hs. destruct Hs as [Hl Hx].
  constructor; [apply IH; exact Hl|].
  apply Forall_forall. intros y Hy. rewrite Forall_forall in Hx.
  apply Hx. apply in_map. exact Hy.
Qed.

(** What the first ten entries of the sorted score table are. *)
Lemma top_scores (scores : list (string * Score)) :
  NoDup (map fst scores) ->
  let top := firstn 10 (sorted_scores scores) in
  List.length top = Nat.min 10 (List.length scores)
  /\ NoDup (map fst top)
  /\ StronglySorted (fun a b => score_key_lt (snd a) (snd b) = false) top
  /\ (forall x, In x top -> In x scores)
  /\ (forall x, In x scores ->
        In x top
        \/ (List.length top = 10%nat
            /\ forall y, In y top -> score_key_lt (snd y) (snd x) = false)).
Proof.
  intros Hnd top.
  pose proof (sorted_scores_perm scores) as Hperm.
  pose proof (sorted_scores_sorted scores) as Hsorted.
  pose proof (firstn_skipn 10 (sorted_scores scores)) as Hsplit.
  fold top in Hsplit.
  set (rest := skipn 10 (sorted_scores scores)) in *.
  rewrite <- Hsplit in Hsorted.
  destruct (StronglySorted_parts _ _ _ Hsorted) as [Htop Hcross].
  assert (Hlen : List.length top = Nat.min 10 (List.length scores)).
  { unfold top. rewrite length_firstn, (Permutation_length Hperm).
    reflexivity. }
  split; [exact Hlen|]. split; [|split; [exact Htop|split]].
  - assert (Hnd' : NoDup (map fst (top ++ rest))).
    { rewrite Hsplit.
      apply (Permutation_NoDup
               (Permutation_map fst (Permutation_sym Hperm)) Hnd). }
    rewrite map_app in Hnd'. apply NoDup_app_remove_r in Hnd'. exact Hnd'.
  - intros x Hx. apply (Permutation_in _ Hperm). rewrite <- Hsplit.
    apply in_or_app. left. exact Hx.
  - intros x Hx. apply (Permutation_in _ (Permutation_sym Hperm)) in Hx.
    rewrite <- Hsplit in Hx. apply in_app_or in Hx.
    destruct Hx as [Hx|Hx]; [left; exact Hx|]. right. split.
    + assert (Hlong : (10 < List.length (sorted_scores scores))%nat).
      { destruct (Nat.lt_ge_cases 10 (List.length (sorted_scores scores)))
          as [Hlt|Hge]; [exact Hlt|].
        exfalso. unfold rest in Hx. rewrite skipn_all2 in Hx by exact Hge.
        destruct Hx. }
      unfold top. rewrite length_firstn. lia.
    + intros y Hy. apply Hcross; assumption.
Qed.

(** X20.  [query_top_impacted] after a run returns without a lookup error;
    the table has one row for each service up to ten (none when no tick was
    run), ranked from 1, no service twice, in non-increasing order of
    (failures, degradation); a row's degradation is the health the service
    was loaded with minus its current health, and its failures are at most
    the number of ticks; a service that is left out is ranked no higher than
    any row of the table. *)
Theorem top_impacted_table (set_iter : PySet -> list string)
    (Rng : Type) (rng_seed : Z -> Rng) (rng_choice : Rng -> nat -> nat * Rng)
    (rng_uniform : Rng -> Q -> Q -> Q * Rng) (data : list ServiceData)
    (cfg : Config) (sim : Simulator Rng) :
  simulate set_iter rng_seed rng_choice rng_uniform data cfg = Ok sim ->
  exists rows,
    query_top_impacted sim = Ok rows
    /\ map fst rows = seq 1 (List.length rows)
    /\ List.length rows
       = (if (ticks cfg <=? 0)%Z then O
          else Nat.min 10 (List.length (load_services data)))
    /\ NoDup (map row_name rows)
    /\ StronglySorted
         (fun a b => score_key_lt (row_score a) (row_score b) = false) rows
    /\ (forall r, In r rows ->
          exists s0 cur,
            services_get (row_name r) (load_services data) = Some s0
            /\ services_get (row_name r) (services (graph sim)) = Some cur
            /\ sc_degradation (row_score r) = health s0 - health cur
            /\ sc_current (row_score r) = health cur
            /\ (sc_failures (row_score r) <= Z.to_nat (ticks cfg))%nat)
    /\ (forall n hist cur,
          dict_get n (service_degradation_history sim) = Some hist ->
          services_get n (services (graph sim)) = Some cur ->
          In n (map row_name rows)
          \/ (List.length rows = 10%nat
              /\ forall r, In r rows ->
                   score_key_lt (row_score r) (score_of hist (health cur))
                   = false)).
Proof.
  intro H.
  destruct (simulate_history set_iter Rng rng_seed rng_choice rng_uniform
              data cfg sim H) as [Hst Hh].
  destruct (run_state_names set_iter Rng data cfg sim Hst) as [Hn Hnd].
  destruct (Z.to_nat (ticks cfg)) as [|m] eqn:Ek; cbn [history_ok] in Hh.
  - exists []. unfold query_top_impacted. rewrite Hh.
    replace (ticks cfg <=? 0)%Z with true by (symmetry; apply Z.leb_le; lia).
    cbn [foldM bind sorted_scores fold_right firstn List.length seq combine
         map dict_get find].
    split; [reflexivity|]. split; [reflexivity|]. split; [reflexivity|].
    split; [constructor|]. split; [constructor|]. split.
    + intros r [].
    + intros n hist cur Hd _. discriminate Hd.
  - destruct Hh as [Hkeys Hsamples].
    set (svcs := services (graph sim)) in *.
    set (hist := service_degradation_history sim) in *.
    assert (HndH : NoDup (map fst hist)).
    { rewrite Hkeys, <- Hn. exact Hnd. }
    assert (Hget : forall n, In n (map fst hist) ->
                     exists cur, services_get n svcs = Some cur).
    { intros n Hin. apply services_get_Some_iff. rewrite Hn, <- Hkeys.
      exact Hin. }
    set (scores := scores_of svcs hist).
    assert (Hsk : map fst scores = map fst hist) by apply scores_of_keys.
    assert (HndS : NoDup (map fst scores)) by (rewrite Hsk; exact HndH).
    destruct (top_scores scores HndS) as [Hlen [HndT [Hsorted [Hsub Hout]]]].
    set (top := firstn 10 (sorted_scores scores)) in *.
    destruct (ranked_rows top) as [Hr1 Hr2].
    set (rows := combine (seq 1 (List.length top)) top) in *.
    assert (Hrl : List.length rows = List.length top).
    { rewrite <- (length_map snd rows), Hr2. reflexivity. }
    assert (Hrow : forall r, In r rows -> In (snd r) top).
    { intros r Hr. rewrite <- Hr2. apply in_map. exact Hr. }
    assert (Hscore : forall x, In x scores ->
              exists h s0 cur,
                dict_get (fst x) hist = Some h
                /\ services_get (fst x) (load_services data) = Some s0
                /\ services_get (fst x) svcs = Some cur
                /\ snd x = score_of h (health cur)
                /\ hd_error h = Some (sample_of 1 s0)
                /\ List.length h = S m).
    { intros x Hx. unfold scores, scores_of in Hx. apply in_map_iff in Hx.
      destruct Hx as [[n h] [<- Hin]]. cbn [fst snd].
      assert (Hk : In n (map fst hist)).
      { apply (in_map fst) in Hin. exact Hin. }
      destruct (Hget n Hk) as [cur Ecur].
      assert (Hk0 : exists s0, services_get n (load_services data) = Some s0).
      { apply services_get_Some_iff. rewrite <- Hkeys. exact Hk. }
      destruct Hk0 as [s0 Es0].
      destruct (Hsamples n s0 Es0) as [l [Hl [Hticks Hhd]]].
      apply (dict_get_In_iff n h hist HndH) in Hin.
      assert (l = h) by congruence. subst l.
      exists h, s0, cur. rewrite Ecur.
      repeat split; try assumption.
      rewrite <- (length_map smp_tick h), Hticks, length_map, length_seq.
      reflexivity. }
    exists rows. split; [|split; [|split; [|split; [|split; [|split]]]]].
    + unfold query_top_impacted. fold svcs hist.
      rewrite (scores_loop svcs hist []).
      * cbn [bind app]. reflexivity.
      * cbn [map app]. exact HndH.
      * intros n Hin Hnone. destruct (Hget n Hin) as [cur Ecur]. congruence.
    + rewrite Hr1, Hrl. reflexivity.
    + rewrite Hrl, Hlen.
      replace (ticks cfg <=? 0)%Z with false
        by (symmetry; apply Z.leb_gt; lia).
      f_equal. unfold scores, scores_of. rewrite length_map.
      rewrite <- (length_map fst hist), Hkeys. unfold names.
      apply length_map.
    + unfold row_name. rewrite <- (map_map snd fst), Hr2. exact HndT.
    + unfold row_score.
      apply (StronglySorted_by snd
               (fun a b => score_key_lt (snd a) (snd b) = false)).
      rewrite Hr2. exact Hsorted.
    + intros r Hr. unfold row_name, row_score.
      destruct (Hscore (snd r) (Hsub _ (Hrow r Hr)))
        as [h [s0 [cur [Hd [Es0 [Ecur [Esc [Hhd Hlh]]]]]]]].
      exists s0, cur. rewrite Esc.
      split; [exact Es0|]. split; [exact Ecur|].
      destruct h as [|x h]; [discriminate Hhd|].
      cbn [hd_error] in Hhd. injection Hhd as ->.
      split; [reflexivity|]. split; [reflexivity|].
      cbn [score_of sc_failures].
      pose proof (filter_length_le smp_is_failed (sample_of 1 s0 :: h)) as Hle.
      rewrite Hlh in Hle. exact Hle.
    + intros n h cur Hd Ecur.
      assert (Hin : In (n, score_of h (health cur)) scores).
      { apply (dict_get_In_iff n h hist HndH) in Hd.
        unfold scores, scores_of. apply in_map_iff. exists (n, h).
        cbn [fst snd]. rewrite Ecur. split; [reflexivity | exact Hd]. }
      destruct (Hout _ Hin) as [Ht|[Hten Hall]].
      * left. unfold row_name. rewrite <- (map_map snd fst), Hr2.
        apply (in_map fst) in Ht. exact Ht.
      * right. split; [rewrite Hrl; exact Hten|].
        intros r Hr. apply (Hall (snd r) (Hrow r Hr)).
Qed.

Lemma top_impacted_table_witness :
  exists sim rows,
    simulate iter_insertion (script_seed chain3_script) script_choice
      script_uniform chain3_data one_tick_config = Ok sim
    /\ query_top_impacted sim = Ok rows
    /\ map fst rows = [1; 2; 3]%nat
    /\ map row_name rows = ["A"; "B"; "C"].
Proof.
  eexists.
  destruct (top_impacted_table iter_insertion ScriptRng
              (script_seed chain3_script) script_choice script_uniform
              chain3_data one_tick_config _
              ltac:(vm_compute; reflexivity))
    as [rows [Hq [Hranks [Hlen _]]]].
  exists rows. split; [reflexivity|]. split; [exact Hq|].
  split.
  - rewrite Hranks, Hlen. reflexivity.
  - vm_compute in Hq. injection Hq as <-. reflexivity.
Defined.

(** ** Failure marks during a run *)

Lemma no_new_marks_refl (x : Services) : no_new_marks x x.
Proof. intros n s Hs. exists s. auto. Qed.

Lemma no_new_marks_update (x z : Services) (m : string)
    (f : Service -> Service) :
  (forall s, name (f s) = name s) ->
  (forall s, failed_at_tick (f s) = failed_at_tick s) ->
  (forall s, is_failed (f s) = true -> is_failed s = true) ->
  no_new_marks x z -> no_new_marks x (services_update m f z).
Proof.
  intros Hn Ht Hf Hz n s' Hs'. rewrite services_get_update in Hs' by exact Hn.
  destruct (String.eqb n m); [|apply (Hz n s' Hs')].
  destruct (services_get n z) as [s1|] eqn:E1; [|discriminate].
  cbn [option_map] in Hs'. injection Hs' as <-.
  destruct (Hz n s1 E1) as [s [Hs [Ht1 Hf1]]].
  exists s. split; [exact Hs|]. split.
  - rewrite Ht. exact Ht1.
  - intro Hfs. apply Hf1. apply Hf. exact Hfs.
Qed.

Lemma no_new_marks_map (x z : Services) (f : Service -> Service) :
  (forall s, name (f s) = name s) ->
  (forall s, failed_at_tick (f s) = failed_at_tick s) ->
  (forall s, is_failed (f s) = true -> is_failed s = true) ->
  no_new_marks x z -> no_new_marks x (map f z).
Proof.
  intros Hn Ht Hf Hz n s' Hs'. rewrite services_get_map in Hs' by exact Hn.
  destruct (services_get n z) as [s1|] eqn:E1; [|discriminate].
  cbn [option_map] in Hs'. injection Hs' as <-.
  destruct (Hz n s1 E1) as [s [Hs [Ht1 Hf1]]].
  exists s. split; [exact Hs|]. split.
  - rewrite Ht. exact Ht1.
  - intro Hfs. apply Hf1. apply Hf. exact Hfs.
Qed.

Lemma bump_to_marks (thr h : Q) (s : Service) :
  name (bump_to thr h s) = name s
  /\ failed_at_tick (bump_to thr h s) = failed_at_tick s
  /\ (is_failed (bump_to thr h s) = true -> is_failed s = true).
Proof.
  unfold bump_to. destruct (Qleb thr h); cbn; auto.
  split; [reflexivity|]. split; [reflexivity | discriminate].
Qed.

Lemma tick_timer_marks (s : Service) :
  name (tick_timer s) = name s
  /\ failed_at_tick (tick_timer s) = failed_at_tick s
  /\ is_failed (tick_timer s) = is_failed s.
Proof.
  unfold tick_timer.
  destruct (is_failed s && (0 <? recovery_timer s)%Z); cbn; auto.
Qed.

(** The first three phases of a tick add no failure mark. *)
Lemma tick_store_marks (set_iter : PySet -> list string) (Rng : Type)
    (rng_choice : Rng -> nat -> nat * Rng)
    (rng_uniform : Rng -> Q -> Q -> Q * Rng) (sim sim3 : Simulator Rng) :
  tick_recovery set_iter (tick_glitch rng_choice rng_uniform sim) = Ok sim3 ->
  no_new_marks (services (graph sim))
    (services (graph (tick_propagate set_iter sim3))).
Proof.
  intro H3.
  destruct (tick_recovery_inv _ _ _ _ H3) as [lg [Hh _]].
  set (x := services (graph sim)) in *.
  assert (Hg : no_new_marks x
                 (services (graph (tick_glitch rng_choice rng_uniform sim)))).
  { rewrite tick_glitch_services. fold x.
    assert (H1 : no_new_marks x (snapshot x)).
    { unfold snapshot. apply no_new_marks_map; try reflexivity.
      - intros s Hs. exact Hs.
      - apply no_new_marks_refl. }
    destruct (apply_glitch rng_choice rng_uniform (config sim) (rng sim)
                (snapshot x)) as [[v x2] g'] eqn:E. cbn [fst snd].
    destruct (apply_glitch_inv _ _ _ _ _ _ _ _ _ E)
      as [[_ ->]|[victim [g1 [_ [_ [_ ->]]]]]]; [exact H1|].
    apply no_new_marks_update; try reflexivity; [|exact H1].
    intros s Hs. exact Hs. }
  assert (Hr : no_new_marks x (services (graph sim3))).
  { set (simg := tick_glitch rng_choice rng_uniform sim) in *.
    destruct (cooldown (config simg)) as [c|] eqn:Ec.
    - apply (handle_recovery_invariant set_iter (config simg)
               (rev_adj (graph simg)) (tick simg)
               (fun _ z => no_new_marks x z)) with (c := c) (lg := lg)
        (svcs := services (graph simg)).
      + intros healed svcs d dep h HJ _ _ _ _.
        apply no_new_marks_update; [| | |exact HJ];
          intro s; apply bump_to_marks.
      + intros healed svcs nm h HJ _.
        apply no_new_marks_update; [reflexivity|reflexivity| |exact HJ].
        intros s Hs. discriminate Hs.
      + exact Ec.
      + apply no_new_marks_map; [| | |exact Hg].
        * intro s. apply tick_timer_marks.
        * intro s. apply tick_timer_marks.
        * intros s Hs. destruct (tick_timer_marks s) as [_ [_ Hf]].
          rewrite <- Hf. exact Hs.
      + exact Hh.
    - unfold handle_recovery in Hh. rewrite Ec in Hh.
      injection Hh as <- _. exact Hg. }
  cbn [tick_propagate graph services with_services].
  apply (propagate_health_invariant set_iter (config sim3) (no_new_marks x));
    [|exact Hr].
  intros z nm service Hz _ _ _ _.
  apply no_new_marks_update; try reflexivity; [|exact Hz].
  intros s Hs. exact Hs.
Qed.

Lemma load_services_unmarked (data : list ServiceData) (n : string)
    (s : Service) :
  services_get n (load_services data) = Some s ->
  is_failed s = false /\ failed_at_tick s = (-1)%Z.
Proof.
  intro Hs. apply services_get_In in Hs.
  pose proof (Forall_load_services
                (fun s => is_failed s = false /\ failed_at_tick s = (-1)%Z)
                data) as HF.
  rewrite Forall_forall in HF. apply HF; [|exact Hs].
  intros d _. split; reflexivity.
Qed.

Section FailureMarks.

Variable set_iter : PySet -> list string.
Variable Rng : Type.
Variable rng_seed : Z -> Rng.
Variable rng_choice : Rng -> nat -> nat * Rng.
Variable rng_uniform : Rng -> Q -> Q -> Q * Rng.
Variable data : list ServiceData.
Variable cfg : Config.

Lemma run_tick_marks (k : nat) (sim sim' : Simulator Rng) :
  run_state set_iter data cfg sim ->
  tick sim = Z.of_nat (S k) ->
  marks_ok k (services (graph sim)) (events sim) ->
  run_tick set_iter rng_choice rng_uniform sim = Ok sim' ->
  marks_ok (S k) (services (graph sim')) (events sim')
  /\ (forall n s, services_get n (services (graph sim')) = Some s ->
        health s < threshold cfg -> is_failed s = true).
Proof.
  intros Hst Htk Hm H.
  destruct (run_state_names set_iter Rng data cfg sim Hst) as [Hn Hndn].
  destruct (run_tick_phases _ _ _ _ _ H) as [sim3 [H3 H4]].
  pose proof (tick_store_marks set_iter Rng rng_choice rng_uniform sim sim3 H3)
    as Hk.
  destruct (tick_glitch_events rng_choice rng_uniform sim Hndn)
    as [glitches [Heg _]].
  destruct (tick_glitch_frame Rng rng_choice rng_uniform sim)
    as [Hgc [Hgt [_ [Hgn _]]]].
  destruct (tick_recovery_inv _ _ _ _ H3) as [lg [Hh [Hrc [Hrt [_ [Hre _]]]]]].
  destruct (tick_classify_inv _ _ _ _ H4) as [Hcs _]. cbv zeta in Hcs.
  destruct (tick_classify_ledgers set_iter _ sim' H4) as [Hev _].
  cbv zeta in Hev. cbn [tick_propagate events tick config] in Hev, Hcs.
  destruct Hst as [Hc _].
  rewrite Hrc, Hgc, Hc, Hrt, Hgt, Htk in Hev, Hcs.
  rewrite Hre, Heg, <- app_assoc in Hev.
  set (y := services (graph (tick_propagate set_iter sim3))) in *.
  set (x := services (graph sim)) in *.
  assert (Hny : names y = names x).
  { unfold y. cbn [tick_propagate graph services with_services].
    rewrite names_propagate_health.
    rewrite <- (skeleton_names (services (graph sim3))).
    rewrite (skeleton_handle_recovery _ _ _ _ _ _ _ Hh), skeleton_names.
    exact Hgn. }
  assert (Hndy : NoDup (names y)) by (rewrite Hny; exact Hndn).
  set (newly := filter (fun s => negb (is_failed s))
                  (filter (fun s => Qltb (health s) (threshold cfg)) y)) in *.
  assert (Hget' : forall n,
            services_get n (services (graph sim'))
            = option_map (fun s => if set_mem n (names newly)
                                   then mark_failed cfg (Z.of_nat (S k)) s
                                   else s)
                (services_get n y)).
  { intro n. rewrite Hcs. apply services_get_mark_newly_failed. }
  split.
  - intros n s'' Hs''. rewrite Hget' in Hs''.
    destruct (services_get n y) as [s'|] eqn:Ey; [|discriminate].
    cbn [option_map] in Hs''.
    destruct (set_mem n (names newly)) eqn:Em.
    + injection Hs'' as <-. right.
      cbn [mark_failed set_recovery_timer set_failed_at_tick set_is_failed
           failed_at_tick].
      split; [lia|].
      apply set_mem_true in Em. unfold names in Em. apply in_map_iff in Em.
      destruct Em as [s [Hsn Hin]]. exists (health s). rewrite Hev.
      apply in_or_app. right. apply in_or_app. right.
      apply in_map_iff. exists s. rewrite Hsn. split; [reflexivity | exact Hin].
    + injection Hs'' as <-.
      destruct (Hk n s' Ey) as [s [Hs [Ht Hf]]].
      destruct (Hm n s Hs) as [[Hnf Hnt]|[Hrange [h Hin]]].
      * left. split; [|congruence].
        destruct (is_failed s') eqn:Ef; [|reflexivity].
        rewrite (Hf eq_refl) in Hnf. discriminate Hnf.
      * right. rewrite Ht. split; [lia|]. exists h. rewrite Hev.
        apply in_or_app. left. exact Hin.
  - intros n s'' Hs'' Hlow. rewrite Hget' in Hs''.
    destruct (services_get n y) as [s'|] eqn:Ey; [|discriminate].
    cbn [option_map] in Hs''.
    destruct (set_mem n (names newly)) eqn:Em.
    + injection Hs'' as <-. reflexivity.
    + injection Hs'' as <-.
      destruct (is_failed s') eqn:Ef; [reflexivity|]. exfalso.
      apply set_mem_false in Em. apply Em.
      apply (newly_failed_In (threshold cfg) y n Hndy).
      exists s'. auto.
Qed.

Lemma simulate_marks (sim : Simulator Rng) :
  simulate set_iter rng_seed rng_choice rng_uniform data cfg = Ok sim ->
  run_state set_iter data cfg sim
  /\ marks_ok (Z.to_nat (ticks cfg)) (services (graph sim)) (events sim)
  /\ ((1 <= ticks cfg)%Z ->
      forall n s, services_get n (services (graph sim)) = Some s ->
        health s < threshold cfg -> is_failed s = true).
Proof.
  intro H.
  destruct (simulate_induction set_iter Rng rng_seed rng_choice rng_uniform
              data cfg
              (fun k sim =>
                 marks_ok k (services (graph sim)) (events sim)
                 /\ (k <> O ->
                     forall n s,
                       services_get n (services (graph sim)) = Some s ->
                       health s < threshold cfg -> is_failed s = true)))
    with (sim := sim) as [Hst [_ [Hm Hlow]]]; [| | |exact H|].
  - intros sim0 Hs _ _ _ _. split; [|intro Hk; contradiction].
    intros n s Hg. left. rewrite Hs in Hg.
    apply (load_services_unmarked data n s Hg).
  - intros k s s' Hst Ht [HR _] Hrun.
    destruct (run_tick_marks k s s' Hst Ht HR Hrun) as [Hm Hlow].
    split; [exact Hm | intros _; exact Hlow].
  - intros k s t lines HR. exact HR.
  - split; [exact Hst|]. split; [exact Hm|].
    intro Hticks. apply Hlow. lia.
Qed.

(** X21.  The failure marks after a run: a service that is marked failed
    carries a failure tick between 1 and the number of ticks, and the event
    ledger holds a failure event of this service at this tick; once a tick
    has run, every service below the threshold is marked failed. *)
Theorem failing_services_are_marked (sim : Simulator Rng) :
  simulate set_iter rng_seed rng_choice rng_uniform data cfg = Ok sim ->
  forall n s, services_get n (services (graph sim)) = Some s ->
    (is_failed s = true ->
       (1 <= failed_at_tick s <= ticks cfg)%Z
       /\ exists h, In (Failure (failed_at_tick s) n h) (events sim))
    /\ ((1 <= ticks cfg)%Z -> health s < threshold cfg -> is_failed s = true).
Proof.
  intros H n s Hs.
  destruct (simulate_marks sim H) as [_ [Hm Hlow]]. split.
  - intro Hf. destruct (Hm n s Hs) as [[Hnf _]|[Hrange Hev]];
      [congruence|].
    split; [lia | exact Hev].
  - intros Hticks Hlt. apply (Hlow Hticks n s Hs Hlt).
Qed.

End FailureMarks.

Lemma failing_services_are_marked_witness :
  exists sim,
    simulate iter_insertion (script_seed chain3_script) script_choice
      script_uniform chain3_data one_tick_config = Ok sim
    /\ forall n s, services_get n (services (graph sim)) = Some s ->
         (is_failed s = true ->
            (1 <= failed_at_tick s <= 1)%Z
            /\ exists h, In (Failure (failed_at_tick s) n h) (events sim))
         /\ ((1 <= 1)%Z -> health s < threshold one_tick_config ->
             is_failed s = true).
Proof.
  eexists. split; [vm_compute; reflexivity|].
  apply (failing_services_are_marked iter_insertion ScriptRng
           (script_seed chain3_script) script_choice script_uniform
           chain3_data one_tick_config _ ltac:(vm_compute; reflexivity)).
Defined.

(** ** Answers of the why-failing query *)

Lemma failed_deps_loop (svcs : Services) (thr : Q) (l : list string) :
  forall acc : list string,
  (forall d, In d l -> services_get d svcs <> None) ->
  foldM (fun acc d =>
           dep <- services_getitem d svcs ;;
           if Qltb (health dep) thr then Ok (acc ++ [d]) else Ok acc)
        l acc
  = Ok (acc ++ filter (fun d => match services_get d svcs with
                                | Some dep => Qltb (health dep) thr
                                | None => false
                                end) l).
Proof.
  induction l as [|x l IH]; intros acc Hl; cbn [foldM filter].
  - rewrite app_nil_r. reflexivity.
  - unfold services_getitem at 1.
    destruct (services_get x svcs) as [sx|] eqn:Ex.
    2:{ exfalso. apply (Hl x); [left; reflexivity | exact Ex]. }
    cbn [bind].
    assert (Hl' : forall d, In d l -> services_get d svcs <> None).
    { intros d Hd. apply Hl. right. exact Hd. }
    destruct (Qltb (health sx) thr); cbn [bind].
    + rewrite (IH _ Hl'), <- app_assoc. reflexivity.
    + apply (IH _ Hl').
Qed.

Lemma failed_details_loop (svcs : Services) (l : list string) :
  forall acc : list (string * Q * Z),
  (forall d, In d l -> services_get d svcs <> None) ->
  foldM (fun acc dep =>
           d <- services_getitem dep svcs ;;
           Ok (acc ++ [(dep, health d, failed_at_tick d)]))
        l acc
  = Ok (acc ++ map (fun dep => match services_get dep svcs with
                               | Some d => (dep, health d, failed_at_tick d)
                               | None => (dep, 0, 0%Z)
                               end) l).
Proof.
  induction l as [|x l IH]; intros acc Hl; cbn [foldM map].
  - rewrite app_nil_r. reflexivity.
  - unfold services_getitem at 1.
    destruct (services_get x svcs) as [sx|] eqn:Ex.
    2:{ exfalso. apply (Hl x); [left; reflexivity | exact Ex]. }
    cbn [bind]. rewrite IH, <- app_assoc; [reflexivity|].
    intros d Hd. apply Hl. right. exact Hd.
Qed.

Section WhyFailing.

Variable set_iter : PySet -> list string.
Variable Rng : Type.
Variable rng_seed : Z -> Rng.
Variable rng_choice : Rng -> nat -> nat * Rng.
Variable rng_uniform : Rng -> Q -> Q -> Q * Rng.
Variable data : list ServiceData.
Variable cfg : Config.
Hypothesis set_iter_members : forall s x, In x (set_iter s) <-> In x s.
Hypothesis data_closed : no_dangling (load_services data) = true.

Lemma dependencies_present (sim : Simulator Rng) (nm d : string)
    (s : Service) :
  run_state set_iter data cfg sim ->
  services_get nm (services (graph sim)) = Some s ->
  In d (set_iter (depends_on s)) ->
  services_get d (services (graph sim)) <> None.
Proof.
  intros Hst Hs Hd.
  destruct (run_state_names set_iter Rng data cfg sim Hst) as [Hn _].
  destruct Hst as [_ [Hsk _]].
  assert (Hin : In (name s, depends_on s) (skeleton (services (graph sim)))).
  { apply skeleton_In. exists s.
    split; [apply (services_get_In _ _ _ Hs) | split; reflexivity]. }
  rewrite Hsk in Hin. apply skeleton_In in Hin.
  destruct Hin as [s0 [Hs0 [_ Hdeps]]].
  unfold no_dangling in data_closed.
  rewrite forallb_forall in data_closed.
  pose proof (data_closed s0 Hs0) as Hall. rewrite forallb_forall in Hall.
  apply (proj1 (set_iter_members _ _)) in Hd. rewrite <- Hdeps in Hd.
  pose proof (Hall d Hd) as Hmem. unfold services_mem in Hmem.
  intro Hnone. apply services_get_None in Hnone. apply Hnone.
  rewrite Hn. apply services_get_Some_iff.
  destruct (services_get d (load_services data)) as [sd|];
    [exists sd; reflexivity | discriminate Hmem].
Qed.

(** X22.  [query_why_failing] after a run of at least one tick over services
    without dangling dependencies answers for every name, without a lookup
    error.  "Not found" is given for names that are no service only, "healthy"
    for a health at or above the threshold only.  For a service below the
    threshold the tick of failure is known and is the tick of a failure
    event of that service; the answer is "failed independently" only if all
    its dependencies are at or above the threshold, otherwise it lists
    dependencies below the threshold, each with the tick of one of its
    failure events. *)
Theorem why_failing_after_run (sim : Simulator Rng) (service_name : string) :
  (1 <= ticks cfg)%Z ->
  simulate set_iter rng_seed rng_choice rng_uniform data cfg = Ok sim ->
  exists w,
    query_why_failing set_iter sim service_name = Ok w
    /\ match w with
       | WhyNotFound _ => ~ In service_name (names (load_services data))
       | WhyHealthy _ h => threshold cfg <= h
       | WhyIndependent _ h failed_at _ _ =>
           h < threshold cfg
           /\ failure_reported (ticks cfg) (events sim) service_name failed_at
           /\ forall s d sd,
                services_get service_name (services (graph sim)) = Some s ->
                In d (depends_on s) ->
                services_get d (services (graph sim)) = Some sd ->
                threshold cfg <= health sd
       | WhyCascade _ h failed_at deps _ =>
           h < threshold cfg
           /\ failure_reported (ticks cfg) (events sim) service_name failed_at
           /\ deps <> []
           /\ Forall (fun x =>
                        snd (fst x) < threshold cfg
                        /\ failure_reported (ticks cfg) (events sim)
                             (fst (fst x)) (Some (snd x))) deps
       end.
Proof.
  intros Hticks H.
  destruct (simulate_marks set_iter Rng rng_seed rng_choice rng_uniform
              data cfg sim H) as [Hst [Hm Hlow]].
  specialize (Hlow Hticks).
  destruct (run_state_names set_iter Rng data cfg sim Hst) as [Hn _].
  pose proof Hst as [Hc _].
  assert (Hrep : forall n s,
            services_get n (services (graph sim)) = Some s ->
            health s < threshold cfg ->
            (0 <? failed_at_tick s)%Z = true
            /\ failure_reported (ticks cfg) (events sim) n
                 (Some (failed_at_tick s))).
  { intros n s Hs Hlt. pose proof (Hlow n s Hs Hlt) as Hf.
    destruct (Hm n s Hs) as [[Hnf _]|[Hrange Hev]]; [congruence|].
    split; [apply Z.ltb_lt; lia|].
    exists (failed_at_tick s). split; [reflexivity|]. split; [lia | exact Hev]. }
  unfold query_why_failing. rewrite Hc.
  set (svcs := services (graph sim)) in *.
  destruct (services_get service_name svcs) as [service|] eqn:Es.
  2:{ exists (WhyNotFound service_name). split; [reflexivity|].
      rewrite <- Hn. apply services_get_None. exact Es. }
  destruct (Qleb (threshold cfg) (health service)) eqn:Eh.
  { exists (WhyHealthy service_name (health service)).
    split; [reflexivity | apply Qleb_true; exact Eh]. }
  apply Qleb_false in Eh.
  destruct (Hrep service_name service Es Eh) as [Hpos Hfa].
  rewrite Hpos.
  assert (Hpres : forall d, In d (set_iter (depends_on service)) ->
                    services_get d svcs <> None).
  { intros d Hd. apply (dependencies_present sim service_name d service Hst Es Hd). }
  rewrite (failed_deps_loop svcs (threshold cfg) _ [] Hpres).
  cbn [bind app].
  set (low := fun d => match services_get d svcs with
                       | Some dep => Qltb (health dep) (threshold cfg)
                       | None => false
                       end).
  destruct (filter low (set_iter (depends_on service))) as [|d0 rest] eqn:Efd.
  - eexists. split; [reflexivity|]. cbv beta iota.
    split; [exact Eh|]. split; [exact Hfa|].
    intros s d sd Hs Hd Hsd. injection Hs as <-.
    apply Qltb_false.
    destruct (Qltb (health sd) (threshold cfg)) eqn:El; [|reflexivity].
    exfalso.
    assert (Hin : In d (filter low (set_iter (depends_on service)))).
    { apply filter_In.
      split; [apply (proj2 (set_iter_members _ _)); exact Hd|].
      unfold low. rewrite Hsd. exact El. }
    rewrite Efd in Hin. destruct Hin.
  - assert (Hsub : forall d, In d (d0 :: rest) ->
                     exists sd, services_get d svcs = Some sd
                                /\ health sd < threshold cfg).
    { intros d Hd. rewrite <- Efd in Hd. apply filter_In in Hd.
      destruct Hd as [_ Hl]. unfold low in Hl.
      destruct (services_get d svcs) as [sd|]; [|discriminate Hl].
      exists sd. split; [reflexivity | apply Qltb_true; exact Hl]. }
    rewrite (failed_details_loop svcs (d0 :: rest) []).
    2:{ intros d Hd Hnone. destruct (Hsub d Hd) as [sd [Hsd _]]. congruence. }
    cbn [bind app]. eexists. split; [reflexivity|]. cbv beta iota.
    split; [exact Eh|]. split; [exact Hfa|]. split; [discriminate|].
    apply Forall_forall. intros x Hx. apply in_map_iff in Hx.
    destruct Hx as [d [Hx Hd]]. destruct (Hsub d Hd) as [sd [Hsd Hlt]].
    rewrite Hsd in Hx. subst x. cbn [fst snd].
    split; [exact Hlt|]. apply (Hrep d sd Hsd Hlt).
Qed.

End WhyFailing.

Lemma why_failing_after_run_witness :
  exists sim,
    simulate iter_insertion (script_seed chain3_script) script_choice
      script_uniform chain3_data one_tick_config = Ok sim
    /\ exists w,
         query_why_failing iter_insertion sim "B" = Ok w
         /\ match w with
            | WhyNotFound _ => ~ In "B" (names (load_services chain3_data))
            | WhyHealthy _ h => threshold one_tick_config <= h
            | WhyIndependent _ h failed_at _ _ =>
                h < threshold one_tick_config
                /\ failure_reported (ticks one_tick_config) (events sim) "B"
                     failed_at
                /\ forall s d sd,
                     services_get "B" (services (graph sim)) = Some s ->
                     In d (depends_on s) ->
                     services_get d (services (graph sim)) = Some sd ->
                     threshold one_tick_config <= health sd
            | WhyCascade _ h failed_at deps _ =>
                h < threshold one_tick_config
                /\ failure_reported (ticks one_tick_config) (events sim) "B"
                     failed_at
                /\ deps <> []
                /\ Forall (fun x =>
                             snd (fst x) < threshold one_tick_config
                             /\ failure_reported (ticks one_tick_config)
                                  (events sim) (fst (fst x)) (Some (snd x)))
                     deps
            end.
Proof.
  eexists. split; [vm_compute; reflexivity|].
  apply (why_failing_after_run iter_insertion ScriptRng
           (script_seed chain3_script) script_choice script_uniform
           chain3_data one_tick_config
           (fun s x => iff_refl (In x s))
           ltac:(vm_compute; reflexivity) _ "B"
           ltac:(simpl; lia) ltac:(vm_compute; reflexivity)).
Defined.

(** ** Service names in queries *)

Section NormalizeName.

Variable str_lower : string -> string.
Variable str_rstrip_punct : string -> string.
Variable str_strip : string -> string.

Lemma name_index_get (l : list string) :
  forall (acc : list (string * string)) (k c : string),
  dict_get k (fold_left (fun d nm => dict_set (str_lower nm) nm d) l acc)
  = Some c ->
  (In c l /\ str_lower c = k) \/ dict_get k acc = Some c.
Proof.
  induction l as [|x l IH]; intros acc k c H; cbn [fold_left] in H.
  - right. exact H.
  - destruct (IH _ k c H) as [[Hin Hk]|Hacc].
    + left. split; [right; exact Hin | exact Hk].
    + destruct (String.eqb_spec k (str_lower x)) as [->|Hne].
      * rewrite dict_get_set_same in Hacc. injection Hacc as <-.
        left. split; [left; reflexivity | reflexivity].
      * rewrite dict_get_set_other in Hacc by exact Hne. right. exact Hacc.
Qed.

Lemma name_index_mem (l : list string) :
  forall (acc : list (string * string)) (k : string),
  (exists n, In n l /\ str_lower n = k) \/ dict_get k acc <> None ->
  dict_get k (fold_left (fun d nm => dict_set (str_lower nm) nm d) l acc)
  <> None.
Proof.
  induction l as [|x l IH]; intros acc k H; cbn [fold_left].
  - destruct H as [[n [[] _]]|H]. exact H.
  - apply IH.
    destruct (String.eqb_spec k (str_lower x)) as [->|Hne].
    + right. rewrite dict_get_set_same. discriminate.
    + destruct H as [[n [[<-|Hin] Hk]]|H].
      * exfalso. apply Hne. symmetry. exact Hk.
      * left. exists n. split; assumption.
      * right. rewrite dict_get_set_other by exact Hne. exact H.
Qed.

(** X23.  [_normalize_service_name] returns only names of services: the
    token itself, the token without trailing punctuation and surrounding
    blanks, or a service whose lower-case name is that of the cleaned token.
    A non-empty token that is a service name is returned unchanged, and a
    non-empty token whose cleaned form matches a service up to case is always
    resolved.  The empty token gives [None]. *)
Theorem normalize_returns_service_names (svcs : Services) (token : string) :
  let cleaned := str_strip (str_rstrip_punct token) in
  let r := _normalize_service_name str_lower str_rstrip_punct str_strip
             svcs token in
  (forall c, r = Some c ->
     token <> ""%string /\ In c (names svcs)
     /\ (c = token \/ c = cleaned \/ str_lower c = str_lower cleaned))
  /\ (token <> ""%string -> In token (names svcs) -> r = Some token)
  /\ (token <> ""%string ->
      (exists n, In n (names svcs) /\ str_lower n = str_lower cleaned) ->
      r <> None).
Proof.
  cbv zeta. unfold _normalize_service_name.
  destruct (String.eqb_spec token "") as [He|Hne].
  { split; [intros c Hc; discriminate Hc|].
    split; intro Hn; contradiction. }
  destruct (services_mem token svcs) eqn:Et.
  { apply services_mem_true in Et. split; [|split].
    - intros c Hc. injection Hc as <-. auto.
    - reflexivity.
    - intros _ _. discriminate. }
  set (cleaned := str_strip (str_rstrip_punct token)).
  destruct (services_mem cleaned svcs) eqn:Ec.
  { apply services_mem_true in Ec. split; [|split].
    - intros c Hc. injection Hc as <-. auto.
    - intros _ Hin. apply services_mem_true in Hin. congruence.
    - intros _ _. discriminate. }
  split; [|split].
  - intros c Hc. unfold name_index_lower in Hc.
    apply name_index_get in Hc. destruct Hc as [[Hin Hk]|Hc].
    + auto.
    + discriminate Hc.
  - intros _ Hin. apply services_mem_true in Hin. congruence.
  - intros _ Hex. unfold name_index_lower. apply name_index_mem.
    left. exact Hex.
Qed.

End NormalizeName.

Lemma normalize_returns_service_names_witness :
  _normalize_service_name (fun s => s) (fun s => s) (fun s => s)
    (load_services chain3_data) "B" = Some "B".
Proof.
  apply (normalize_returns_service_names (fun s => s) (fun s => s)
           (fun s => s) (load_services chain3_data) "B").
  - discriminate.
  - vm_compute. auto.
Defined.
